(** * syntaxTrees: a shallow embedding of the validation engine

    The development follows [syntaxTrees/basics.py] and
    [syntaxTrees/fields.py]:

    - Python values (the JSON-like trees the engine consumes and produces),
      the two exception classes of [utilities.py] and the state the engine
      threads through every call ([stack_objects]);
    - the [Field] kinds of [fields.py] with [Field.validate] and each
      [helper_for_validation];
    - [node_trace_step], [Node.validate], [execute_function_on_node];
    - the field merge of [NodeSubclassDeclarationWatcher.__init__].

    The mutual recursion Node.validate -> Field.validate ->
    execute_function_on_node -> Node.validate is kept open: each layer takes
    the next one as an argument, and the knot is tied at the end with the
    interpreter's recursion limit as fuel. *)

From Stdlib Require Import ZArith Lia Floats.SpecFloat.
From Stdlib Require Import Strings.Ascii Strings.String.
From Stdlib Require Import Numbers.DecimalString Numbers.DecimalZ.
From Stdlib Require Import Sorting.Sorted Sorting.Permutation.
From stdpp Require Import gmap strings list fin_maps.

Set Warnings "-register-all".
Open Scope string_scope.
Open Scope Z_scope.

(** ** Python values *)

(** A Python float is an IEEE-754 value: [spec_float] of the Standard
    Library (zero, infinity, NaN, or sign/mantissa/exponent). A dict is an
    association list in insertion order; Python dicts never hold a key twice. *)
Inductive pyvalue :=
| VNone
| VBool (b : bool)
| VInt (z : Z)
| VFloat (f : spec_float)
| VStr (s : string)
| VList (l : list pyvalue)
| VDict (d : list (string * pyvalue)).

Abbreviation pydict := (list (string * pyvalue)).

(** ["fmt" % (args)]: the format string of the source and its arguments.
    The rendering done by [%] is not modelled; an argument is a value or
    another exception's message (Mapping re-raises with [str(e)] inside). *)
Inductive msg := Msg (fmt : string) (args : list msg_arg)
with msg_arg := AVal (v : pyvalue) | AMsg (m : msg).

(** [utilities.py]: the two exception classes; every other Python exception
    (KeyError, TypeError, AttributeError, IndexError, RecursionError, a bare
    Exception) is a [PyError] with its class name. *)
Inductive exn :=
| InvalidParamsException (m : msg)
| ProgrammingError (m : msg)
| PyError (cls : string).

Inductive result (A : Type) :=
| Ok (a : A)
| Raise (e : exn).
Arguments Ok {A} a.
Arguments Raise {A} e.

Definition is_Ok {A} (r : result A) : bool :=
  match r with Ok _ => true | Raise _ => false end.

Definition is_InvalidParams {A} (r : result A) : bool :=
  match r with Raise (InvalidParamsException _) => true | _ => false end.

(** ** Python primitives on values *)

Definition LF : string := String (Ascii.ascii_of_nat 10) EmptyString.

(** [sep.join(l)] *)
Fixpoint join (sep : string) (l : list string) : string :=
  match l with
  | [] => ""
  | [x] => x
  | x :: r => x +:+ sep +:+ join sep r
  end.

Definition quoted (s : string) : string := "'" +:+ s +:+ "'".

(** [str(i)] for an int. *)
Definition str_of_int (z : Z) : string :=
  NilZero.string_of_int (Z.to_int z).

Definition isinstance_dict (v : pyvalue) : bool :=
  match v with VDict _ => true | _ => false end.
Definition isinstance_list (v : pyvalue) : bool :=
  match v with VList _ => true | _ => false end.
Definition isinstance_str (v : pyvalue) : bool :=
  match v with VStr _ => true | _ => false end.
(** [bool] is a subclass of [int]. *)
Definition isinstance_int (v : pyvalue) : bool :=
  match v with VInt _ | VBool _ => true | _ => false end.
Definition isinstance_float (v : pyvalue) : bool :=
  match v with VFloat _ => true | _ => false end.
Definition isinstance_bool (v : pyvalue) : bool :=
  match v with VBool _ => true | _ => false end.
(** [isinstance(v, (str, int, float, bool))] *)
Definition isinstance_primitive (v : pyvalue) : bool :=
  isinstance_str v || isinstance_int v || isinstance_float v || isinstance_bool v.
Definition is_None (v : pyvalue) : bool :=
  match v with VNone => true | _ => false end.

(** [bool(v)], the truth value [any] and [if] test. *)
Definition truthy (v : pyvalue) : bool :=
  match v with
  | VNone => false
  | VBool b => b
  | VInt z => negb (z =? 0)
  | VFloat (S754_zero _) => false
  | VFloat _ => true
  | VStr s => negb (String.eqb s "")
  | VList l => match l with [] => false | _ => true end
  | VDict d => match d with [] => false | _ => true end
  end.

(** [v == s] for a str [s]: only an equal str compares equal. *)
Definition eq_str (s : string) (v : pyvalue) : bool :=
  match v with VStr t => String.eqb s t | _ => false end.

(** [s in l] for a list of str. *)
Definition str_in (s : string) (l : list string) : bool :=
  existsb (String.eqb s) l.

(** [v in choices] where [choices] is a list of str. *)
Definition value_in_strs (v : pyvalue) (choices : list string) : bool :=
  match v with VStr s => str_in s choices | _ => false end.

(** *** dict operations (insertion-ordered) *)

Fixpoint dict_get {A} (d : list (string * A)) (k : string) : option A :=
  match d with
  | [] => None
  | (k', v) :: r => if String.eqb k k' then Some v else dict_get r k
  end.

Definition dict_has {A} (d : list (string * A)) (k : string) : bool :=
  match dict_get d k with Some _ => true | None => false end.

(** [d[k] = v]: an existing key keeps its position. *)
Fixpoint dict_set {A} (d : list (string * A)) (k : string) (v : A)
  : list (string * A) :=
  match d with
  | [] => [(k, v)]
  | (k', v') :: r =>
      if String.eqb k k' then (k, v) :: r else (k', v') :: dict_set r k v
  end.

Definition dict_remove {A} (d : list (string * A)) (k : string)
  : list (string * A) :=
  List.filter (fun kv => negb (String.eqb k kv.1)) d.

Definition keys {A} (d : list (string * A)) : list string := map fst d.

(** [d.move_to_end(k, last=False)] of an OrderedDict holding [k]. *)
Definition move_to_front {A} (d : list (string * A)) (k : string)
  : list (string * A) :=
  match dict_get d k with
  | Some v => (k, v) :: dict_remove d k
  | None => d
  end.

(** [l.index(x)] for a list of str; [None] is ValueError. *)
Fixpoint index_of (l : list string) (x : string) : option nat :=
  match l with
  | [] => None
  | y :: r => if String.eqb y x then Some O else option_map S (index_of r x)
  end.

(** *** sorted(): a stable sort by a key with a total order *)

Section StableSort.
Context {A : Type} (leb : A -> A -> bool).

(** [x] stood before every element of [l]: it goes in front of the first
    element that is not smaller, so equal keys keep their relative order,
    as Python's sort guarantees. *)
Fixpoint insert_sorted (x : A) (l : list A) : list A :=
  match l with
  | [] => [x]
  | y :: r => if leb x y then x :: y :: r else y :: insert_sorted x r
  end.

Fixpoint sorted (l : list A) : list A :=
  match l with
  | [] => []
  | x :: r => insert_sorted x (sorted r)
  end.

End StableSort.

(** *** Numbers: [int] and [float] compare exactly in Python *)

Inductive number :=
| NumInt (z : Z)
| NumFloat (f : spec_float).

(** A bool is the int 0 or 1. *)
Definition int_value (v : pyvalue) : option Z :=
  match v with
  | VBool b => Some (if b then 1 else 0)
  | VInt z => Some z
  | _ => None
  end.

Definition number_of (v : pyvalue) : option number :=
  match v with
  | VFloat f => Some (NumFloat f)
  | _ => option_map NumInt (int_value v)
  end.

(** The extended reals a number denotes: a finite one is [m * 2^e]. *)
Inductive xreal :=
| XNaN
| XInf (negative : bool)
| XFin (m e : Z).

Definition xreal_of (n : number) : xreal :=
  match n with
  | NumInt z => XFin z 0
  | NumFloat S754_nan => XNaN
  | NumFloat (S754_infinity s) => XInf s
  | NumFloat (S754_zero _) => XFin 0 0
  | NumFloat (S754_finite s m e) => XFin (if s then Z.neg m else Z.pos m) e
  end.

Definition xreal_compare (a b : xreal) : option comparison :=
  match a, b with
  | XNaN, _ | _, XNaN => None
  | XInf s, XInf t =>
      Some (match s, t with
            | true, false => Lt | false, true => Gt | _, _ => Eq end)
  | XInf s, XFin _ _ => Some (if s then Lt else Gt)
  | XFin _ _, XInf t => Some (if t then Gt else Lt)
  | XFin m1 e1, XFin m2 e2 =>
      let e := Z.min e1 e2 in
      Some (Z.compare (m1 * 2 ^ (e1 - e)) (m2 * 2 ^ (e2 - e)))
  end.

(** [a > b] and [a < b]; every comparison with NaN is False. *)
Definition num_gt (a b : number) : bool :=
  match xreal_compare (xreal_of a) (xreal_of b) with
  | Some Gt => true
  | _ => false
  end.
Definition num_lt (a b : number) : bool := num_gt b a.

(** [math.isnan], [math.isinf] *)
Definition isnan (f : spec_float) : bool :=
  match f with S754_nan => true | _ => false end.
Definition isinf (f : spec_float) : bool :=
  match f with S754_infinity _ => true | _ => false end.

(** *** [int(s)] for a str and [str(i)] for an int *)

Definition is_space (a : ascii) : bool :=
  let n := Ascii.nat_of_ascii a in
  ((9 <=? n) && (n <=? 13) || (n =? 32))%nat.

Definition is_digit (a : ascii) : bool :=
  let n := Ascii.nat_of_ascii a in ((48 <=? n) && (n <=? 57))%nat.

Fixpoint lstrip (s : string) : string :=
  match s with
  | String a r => if is_space a then lstrip r else s
  | EmptyString => EmptyString
  end.

Fixpoint rstrip (s : string) : string :=
  match s with
  | String a r =>
      match rstrip r with
      | EmptyString => if is_space a then EmptyString else String a EmptyString
      | r' => String a r'
      end
  | EmptyString => EmptyString
  end.

(** Decimal digits, with single underscores allowed between two digits. *)
Fixpoint digit_groups (after_digit : bool) (s : string) : option string :=
  match s with
  | EmptyString => if after_digit then Some EmptyString else None
  | String a r =>
      if is_digit a then option_map (String a) (digit_groups true r)
      else if Ascii.eqb a "_" then
             if after_digit then digit_groups false r else None
      else None
  end.

Definition nat_of_digits (s : string) : option Z :=
  match digit_groups false s with
  | Some ds => option_map Z.of_uint (NilEmpty.uint_of_string ds)
  | None => None
  end.

(** [int(s)]: surrounding whitespace, an optional sign, decimal digits;
    [None] is ValueError. *)
Definition int_of_str (s : string) : option Z :=
  match rstrip (lstrip s) with
  | String "+" r => nat_of_digits r
  | String "-" r => option_map Z.opp (nat_of_digits r)
  | t => nat_of_digits t
  end.


(** ** The state: [stack_objects] and the objects it refers to *)

(** [stack_objects] is a dict passed by reference and altered in place; its
    slots refer to objects, some of which are altered in place too
    ([node_trace] is appended to and popped). A slot therefore holds a
    location, and the heap maps a location to the value stored there.
    [obj] and [kwargs] are never overwritten in place (docstring of
    [Node.validate]); they are plain values. Binding a slot to a value puts
    the value in a new cell. *)
Definition loc := nat.

Record context := Context {
  stack_objects : option (list (string * loc)); (* [None]: Python's None *)
  heap : gmap loc pyvalue
}.

Definition M (A : Type) : Type := context -> result A * context.

Definition ret {A} (a : A) : M A := fun c => (Ok a, c).
Definition raise {A} (e : exn) : M A := fun c => (Raise e, c).
Definition bind {A B} (m : M A) (k : A -> M B) : M B :=
  fun c => match m c with
           | (Ok a, c') => k a c'
           | (Raise e, c') => (Raise e, c')
           end.

Notation "'let*' x ':=' m 'in' k" := (bind m (fun x => k))
  (at level 10, x pattern, m at level 100, k at level 200).
Notation "m ';;' k" := (bind m (fun _ => k))
  (at level 100, k at level 200, right associativity).

Definition invalid_params {A} (fmt : string) (args : list msg_arg) : M A :=
  raise (InvalidParamsException (Msg fmt args)).
Definition programming_error {A} (fmt : string) (args : list msg_arg) : M A :=
  raise (ProgrammingError (Msg fmt args)).

(** [try: m except InvalidParamsException as e: handler e] *)
Definition try_except_InvalidParams {A} (m : M A) (handler : msg -> M A) : M A :=
  fun c => match m c with
           | (Raise (InvalidParamsException e), c') => handler e c'
           | rc => rc
           end.

(** Run [m] with another dict (or None) as its [stack_objects] argument and
    hand back that dict as [m] left it; the caller's own dict is the current
    one again afterwards. *)
Definition with_stack_objects {A} (so : option (list (string * loc))) (m : M A)
  : M (result A * option (list (string * loc))) :=
  fun c =>
    match m (Context so (heap c)) with
    | (r, c') => (Ok (r, stack_objects c'), Context (stack_objects c) (heap c'))
    end.

(** [stack_objects[k]] *)
Definition so_get (k : string) : M loc :=
  fun c => match stack_objects c with
           | None => (Raise (PyError "TypeError"), c)
           | Some d => match dict_get d k with
                       | Some l => (Ok l, c)
                       | None => (Raise (PyError "KeyError"), c)
                       end
           end.

(** [stack_objects[k] = <the object at l>] *)
Definition so_set (k : string) (l : loc) : M unit :=
  fun c => match stack_objects c with
           | None => (Raise (PyError "TypeError"), c)
           | Some d => (Ok tt, Context (Some (dict_set d k l)) (heap c))
           end.

Definition load (l : loc) : M pyvalue :=
  fun c => match heap c !! l with
           | Some v => (Ok v, c)
           | None => (Raise (PyError "SystemError"), c)
           end.

Definition store (l : loc) (v : pyvalue) : M unit :=
  fun c => (Ok tt, Context (stack_objects c) (<[l:=v]> (heap c))).

Definition alloc (v : pyvalue) : M loc :=
  fun c => let l := fresh (dom (heap c)) in
           (Ok l, Context (stack_objects c) (<[l:=v]> (heap c))).

(** *** [class node_trace_step] *)

Definition node_trace_step_enter (new_value : string) (object : pyvalue) : M loc :=
  (* self.stack_objects['node_trace'].append(self.new_value) *)
  let* l := so_get "node_trace" in
  let* t := load l in
  match t with
  | VList xs => store l (VList (xs ++ [VStr new_value]))
  | _ => raise (PyError "AttributeError")
  end;;
  (* self.previous_object = self.stack_objects['current_object'] *)
  let* previous_object := so_get "current_object" in
  (* self.stack_objects['current_object'] = self.object *)
  let* c := alloc object in
  so_set "current_object" c;;
  ret previous_object.

(** [__exit__] when no error occurred. *)
Definition node_trace_step_exit (previous_object : loc) : M unit :=
  let* l := so_get "node_trace" in
  let* t := load l in
  match t with
  | VList [] => raise (PyError "IndexError")
  | VList xs => store l (VList (removelast xs))
  | _ => raise (PyError "AttributeError")
  end;;
  so_set "current_object" previous_object.

(** [with node_trace_step(stack_objects, new_value, object): body]: the
    changes are undone only if [body] raised nothing. *)
Definition node_trace_step {A} (new_value : string) (object : pyvalue) (body : M A)
  : M A :=
  let* previous_object := node_trace_step_enter new_value object in
  let* r := body in
  node_trace_step_exit previous_object;;
  ret r.

(** ** Keyword arguments handed down the tree *)

Inductive kwarg :=
| KValue (v : pyvalue)
| PASS_ARG_ALONG
| OverwriteKeywordArgOfField (v : pyvalue).

Abbreviation kwargs_dict := (list (string * kwarg)).

(** [fields._get_kwargs_to_use]; [given_kwargs] is [None] when the caller
    passed no kwargs. *)
Fixpoint kwargs_from_field (given : kwargs_dict) (field_kwargs : kwargs_dict)
  (res : kwargs_dict) : result kwargs_dict :=
  match field_kwargs with
  | [] => Ok res
  | (k, v) :: r =>
      match v with
      | PASS_ARG_ALONG =>
          match dict_get given k with
          | Some g => kwargs_from_field given r (dict_set res k g)
          | None => Raise (PyError "KeyError")
          end
      | _ => kwargs_from_field given r (dict_set res k v)
      end
  end.

Fixpoint kwargs_overwrites (given : kwargs_dict) (res : kwargs_dict) : kwargs_dict :=
  match given with
  | [] => res
  | (k, OverwriteKeywordArgOfField v) :: r => kwargs_overwrites r (dict_set res k (KValue v))
  | _ :: r => kwargs_overwrites r res
  end.

Definition is_PASS_ARG_ALONG (v : kwarg) : bool :=
  match v with PASS_ARG_ALONG => true | _ => false end.

Definition _get_kwargs_to_use (given_kwargs : option kwargs_dict)
  (field_kwargs : kwargs_dict) : result kwargs_dict :=
  match given_kwargs with
  | None =>
      (* None[k] for the first PASS_ARG_ALONG, else None.items() *)
      if existsb (fun kv => is_PASS_ARG_ALONG kv.2) field_kwargs
      then Raise (PyError "TypeError") else Raise (PyError "AttributeError")
  | Some given =>
      match kwargs_from_field given field_kwargs [] with
      | Ok res => Ok (kwargs_overwrites given res)
      | Raise e => Raise e
      end
  end.

(** [hasattr(cls.Meta, x)] for an optional attribute. *)
Definition hasattr {A} (x : option A) : bool :=
  match x with Some _ => true | None => false end.

Definition lift {A} (r : result A) : M A :=
  match r with Ok a => ret a | Raise e => raise e end.

(** ** Fields ([basics.Field] and its subclasses in [fields.py]) *)

(** The attributes every [Field] has. [default] is [VNone] for "no default";
    a default that is not a primitive stands for the zero-argument function
    returning it. [required] is computed from them, as in [__init__]. *)
Record FieldAttrs := {
  null : bool;
  default : pyvalue;
  dont_auto_validate : bool;
  derived_field : bool;
  dont_print_default : bool;
  validation_accepts_nulls : bool;
  help : string;
  order_of_creation : nat
}.

(** The subclasses of [String]. RegexString (re.compile) and
    StringVariableName (whose check is not in the repository) are left out. *)
Inductive StringSubclass :=
| PlainString
| IntegerAsString (min max : option Z)
| StringFromSelection (selection : list string).

Record StringSpec := {
  min_length : option Z;
  max_length : option Z;
  subclass : StringSubclass
}.

(** One constructor per class of [fields.py], prefixed with [F]. Mapping
    demands [isinstance(string_key, String)] at construction: its key is a
    [StringSpec]. MultipleChoiceSelection holds a list of str. *)
Inductive Field :=
| mkField (attrs : FieldAttrs) (kind : FieldKind)
with FieldKind :=
| FValue (value : string) (kwargs : kwargs_dict)
| FChoice (choice : string) (kwargs : kwargs_dict)
| FList (value choice : option string) (primitive : option Field)
        (min_length : option Z) (kwargs : kwargs_dict)
| FMapping (string_key : StringSpec) (content : Field)
| FPrimitiveValueOrGetter (primitive_field complex_field : Field)
| FArbitraryJson
| FInteger (min max : option Z)
| FFloat (min max : option number)
| FBoolean
| FMultipleChoiceSelection (choices : list string)
| FString (spec : StringSpec).

Definition attrs_of (f : Field) : FieldAttrs := match f with mkField a _ => a end.
Definition kind_of (f : Field) : FieldKind := match f with mkField _ k => k end.

(** [self.required = default is None and not null] *)
Definition required (a : FieldAttrs) : bool := is_None (default a) && negb (null a).

(** [Field.__init__] with every keyword at its default; [n] is the value of
    [_field_creation_order_counter] when the field is created. *)
Definition Field_defaults (n : nat) : FieldAttrs := {|
  null := false;
  default := VNone;
  dont_auto_validate := false;
  derived_field := false;
  dont_print_default := false;
  validation_accepts_nulls := false;
  help := "TODO";
  order_of_creation := n
|}.

(** [MultipleChoiceSelection.__init__]:
    it passes [null=True] and [validation_accepts_nulls=True] to [Field.__init__] *)
Definition MultipleChoiceSelection (choices : list string) (a : FieldAttrs) : Field :=
  mkField {| null := true;
             default := default a;
             dont_auto_validate := dont_auto_validate a;
             derived_field := derived_field a;
             dont_print_default := dont_print_default a;
             validation_accepts_nulls := true;
             help := help a;
             order_of_creation := order_of_creation a |}
          (FMultipleChoiceSelection choices).

(** [ArbitraryJson.__init__]: [kwargs['null'] = True] *)
Definition ArbitraryJson (a : FieldAttrs) : Field :=
  mkField {| null := true;
             default := default a;
             dont_auto_validate := dont_auto_validate a;
             derived_field := derived_field a;
             dont_print_default := dont_print_default a;
             validation_accepts_nulls := validation_accepts_nulls a;
             help := help a;
             order_of_creation := order_of_creation a |}
          FArbitraryJson.

(** *** Scalar helpers *)

Definition str_len (s : string) : Z := Z.of_nat (String.length s).

(** [String.helper_for_validation] *)
Definition String_helper (sp : StringSpec) (val : pyvalue) : result string :=
  match val with
  | VStr s =>
      if match min_length sp with Some m => m >? str_len s | None => false end then
        Raise (InvalidParamsException
          (Msg "the value is below the minimum length of %d characters by %d characters"
               (match min_length sp with
                | Some m => [AVal (VInt m); AVal (VInt (m - str_len s))]
                | None => []
                end)))
      else if match max_length sp with Some x => x <? str_len s | None => false end then
        Raise (InvalidParamsException
          (Msg "the value exceeds the maximum length of %d characters by %d characters"
               (match max_length sp with
                | Some x => [AVal (VInt x); AVal (VInt (str_len s - x))]
                | None => []
                end)))
      else Ok s
  | _ => Raise (InvalidParamsException (Msg "the value must be a string" []))
  end.

(** The [min]/[max] test shared by Integer and IntegerAsString. *)
Definition check_int_bounds (min max : option Z) (z : Z) : result unit :=
  if match min with Some m => m >? z | None => false end then
    Raise (InvalidParamsException
      (Msg "the value is below the minimum of %s"
           [AVal (match min with Some m => VInt m | None => VNone end)]))
  else if match max with Some x => x <? z | None => false end then
    Raise (InvalidParamsException
      (Msg "the value is above the maximum of %s"
           [AVal (match max with Some x => VInt x | None => VNone end)]))
  else Ok tt.

(** [IntegerAsString.helper_for_validation] *)
Definition IntegerAsString_helper (sp : StringSpec) (min max : option Z)
  (val : pyvalue) : result string :=
  match String_helper sp val with
  | Ok s =>
      match int_of_str s with
      | Some z =>
          match check_int_bounds min max z with
          | Ok _ => Ok (str_of_int z)
          | Raise e => Raise e
          end
      | None =>
          Raise (InvalidParamsException
            (Msg "the value must be a string that can be parsed into an integer" []))
      end
  | Raise (InvalidParamsException _) =>
      Raise (InvalidParamsException
        (Msg "the value must be a string that can be parsed into an integer" []))
  | Raise e => Raise e
  end.

(** [StringFromSelection.helper_for_validation] *)
Definition StringFromSelection_helper (sp : StringSpec) (selection : list string)
  (val : pyvalue) : result string :=
  match String_helper sp val with
  | Ok s =>
      if str_in s selection then Ok s
      else Raise (InvalidParamsException
             (Msg "the value '%s' is not valid. Valid values are:\n%s"
                  [AVal (VStr s); AVal (VStr (join ", " (map quoted selection)))]))
  | Raise e => Raise e
  end.

(** [helper_for_validation] of [String] and its subclasses. *)
Definition StringSpec_helper (sp : StringSpec) (val : pyvalue) : result string :=
  match subclass sp with
  | PlainString => String_helper sp val
  | IntegerAsString min max => IntegerAsString_helper sp min max val
  | StringFromSelection selection => StringFromSelection_helper sp selection val
  end.

(** [Integer.helper_for_validation] *)
Definition Integer_helper (min max : option Z) (val : pyvalue) : result pyvalue :=
  match int_value val with
  | Some z =>
      match check_int_bounds min max z with
      | Ok _ => Ok val
      | Raise e => Raise e
      end
  | None => Raise (InvalidParamsException (Msg "the value must be an integer" []))
  end.

Definition value_of_number (n : number) : pyvalue :=
  match n with NumInt z => VInt z | NumFloat f => VFloat f end.

(** [Float.helper_for_validation] *)
Definition Float_helper (min max : option number) (val : pyvalue) : result pyvalue :=
  match number_of val with
  | None => Raise (InvalidParamsException (Msg "the value must be an int or a float" []))
  | Some n =>
      if match val with VFloat f => isnan f | _ => false end then
        Raise (InvalidParamsException (Msg "the value must not be NaN." []))
      else if match val with VFloat f => isinf f | _ => false end then
        Raise (InvalidParamsException (Msg "the value must not be infinite." []))
      else if match min with Some m => num_gt m n | None => false end then
        Raise (InvalidParamsException
          (Msg "the value is below the minimum of %s"
               [AVal (match min with Some m => value_of_number m | None => VNone end)]))
      else if match max with Some x => num_lt x n | None => false end then
        Raise (InvalidParamsException
          (Msg "the value is above the maximum of %s"
               [AVal (match max with Some x => value_of_number x | None => VNone end)]))
      else Ok val
  end.

(** [Boolean.helper_for_validation] *)
Definition Boolean_helper (val : pyvalue) : result pyvalue :=
  if isinstance_bool val then Ok val
  else Raise (InvalidParamsException (Msg "the field must be a boolean value" [])).

(** [MultipleChoiceSelection.helper_for_validation]. The test is
    [any([a for a in val if a not in self.choices])]: [any] of the rejected
    elements themselves, that is, whether one of them is truthy. *)
Definition MultipleChoiceSelection_helper (choices : list string) (val : pyvalue)
  : result pyvalue :=
  let val := if is_None val then VList [] else val in
  let val := if isinstance_str val then VList [val] else val in
  match val with
  | VList l =>
      if existsb truthy (List.filter (fun a => negb (value_in_strs a choices)) l) then
        Raise (InvalidParamsException
          (Msg "The value is not valid. Acceptable values are None, one of the following values, or a list of any number of the following values:\n%s"
               [AVal (VStr (join ", " (map quoted choices)))]))
      else
        match l with
        | [] => Ok val
        | _ => Ok (VList (map VStr
                 (List.filter (fun a => existsb (eq_str a) l) choices)))
        end
  | _ =>
      Raise (InvalidParamsException
        (Msg "The value is not valid. Acceptable values are None, one of the following values, or a list of any number of the following values:\n%s"
             [AVal (VStr (join ", " (map quoted choices)))]))
  end.

(** [ArbitraryJson]: [json.loads(json.dumps(val, sort_keys=True))] *)
Fixpoint sort_keys (v : pyvalue) : pyvalue :=
  match v with
  | VList l => VList (map sort_keys l)
  | VDict d =>
      VDict (sorted (fun a b => String.leb a.1 b.1)
               (map (fun kv => match kv with (k, x) => (k, sort_keys x) end) d))
  | _ => v
  end.

(** *** [Field.validate] and the composite helpers *)

(** [Field.validate]: the wrapper around [helper_for_validation]. *)
Definition Field_validate_wrapper (attrs : FieldAttrs) (helper : pyvalue -> M pyvalue)
  (val : pyvalue) (allow_null : option bool) : M pyvalue :=
  let allow_null := match allow_null with Some b => b | None => null attrs end in
  if is_None val then
    if negb allow_null then invalid_params "the value is not allowed to be null." []
    else if validation_accepts_nulls attrs then helper val
    else ret VNone
  else helper val.

(** The loop of [List.helper_for_validation]. *)
Fixpoint List_elements (validate_element : pyvalue -> M pyvalue) (i : nat)
  (val : list pyvalue) : M (list pyvalue) :=
  match val with
  | [] => ret []
  | element :: rest =>
      let* validated_element :=
        node_trace_step ("index " +:+ str_of_int (Z.of_nat i)) element
          (validate_element element) in
      let* res := List_elements validate_element (S i) rest in
      ret (validated_element :: res)
  end.

(** The loop of [Mapping.helper_for_validation]. *)
Fixpoint Mapping_items (validate_key : pyvalue -> M string)
  (validate_content : pyvalue -> M pyvalue) (items : pydict) (res : pydict)
  : M pydict :=
  match items with
  | [] => ret res
  | (k, v) :: rest =>
      let* validated_key :=
        try_except_InvalidParams
          (node_trace_step "key" (VStr k) (validate_key (VStr k)))
          (fun e => invalid_params
                      "could not parse the key '%s'. Exception was:\n%s"
                      [AVal (VStr k); AMsg e]) in
      let* validated_value :=
        node_trace_step ("value for key '" +:+ k +:+ "'") v (validate_content v) in
      if dict_has res validated_key then
        invalid_params
          "after validating and simplifying, the key '%s' occurs more than once."
          [AVal (VStr validated_key)]
      else Mapping_items validate_key validate_content rest
             (dict_set res validated_key validated_value)
  end.

(** [sorted(res.items(), key=lambda t: int(t[0]))]; [None] is ValueError. *)
Fixpoint with_int_keys (d : pydict) : option (list (Z * (string * pyvalue))) :=
  match d with
  | [] => Some []
  | (k, v) :: r =>
      match int_of_str k, with_int_keys r with
      | Some z, Some r' => Some ((z, (k, v)) :: r')
      | _, _ => None
      end
  end.

Definition Mapping_order (sp : StringSpec) (res : pydict) : M pyvalue :=
  match subclass sp with
  | IntegerAsString _ _ =>
      match with_int_keys res with
      | Some l => ret (VDict (map snd (sorted (fun a b => a.1 <=? b.1) l)))
      | None => raise (PyError "ValueError")
      end
  | _ => ret (VDict (sorted (fun a b => String.leb a.1 b.1) res))
  end.

Section Fields.

(** [basics.execute_function_on_node(function, obj, stack_objects, kwargs,
    value=, choice=)], defined further down; the fields only call it. *)
Variable execute :
  string -> pyvalue -> option kwargs_dict -> option string -> option string -> M pyvalue.

Fixpoint Field_validate (f : Field) (val : pyvalue) (kwargs : option kwargs_dict)
  (allow_null : option bool) {struct f} : M pyvalue :=
  match f with
  | mkField attrs kind =>
      Field_validate_wrapper attrs
        (fun val => helper_for_validation kind val kwargs) val allow_null
  end
with helper_for_validation (kind : FieldKind) (val : pyvalue)
  (kwargs : option kwargs_dict) {struct kind} : M pyvalue :=
  match kind with
  | FValue value field_kwargs =>
      let* kw := lift (_get_kwargs_to_use kwargs field_kwargs) in
      execute "validate" val (Some kw) (Some value) None
  | FChoice choice field_kwargs =>
      let* kw := lift (_get_kwargs_to_use kwargs field_kwargs) in
      execute "validate" val (Some kw) None (Some choice)
  | FList value choice primitive min_length field_kwargs =>
      match val with
      | VList l =>
          if match min_length with
             | Some m => Z.of_nat (length l) <? m
             | None => false
             end
          then invalid_params "the list must have at least %d element%s"
                 [AVal (match min_length with Some m => VInt m | None => VNone end);
                  AVal (VStr (if match min_length with
                                 | Some 1 => true | _ => false end
                              then "" else "s"))]
          else
            let* res :=
              List_elements
                (fun element =>
                   match primitive with
                   | Some p =>
                       if match value, choice with
                          | None, None => true
                          | _, _ => isinstance_primitive element
                          end
                       then Field_validate p element kwargs None
                       else
                         let* kw := lift (_get_kwargs_to_use kwargs field_kwargs) in
                         execute "validate" element (Some kw) value choice
                   | None =>
                       let* kw := lift (_get_kwargs_to_use kwargs field_kwargs) in
                       execute "validate" element (Some kw) value choice
                   end) 0 l in
            ret (VList res)
      | _ => invalid_params "the value must be a list" []
      end
  | FMapping string_key content =>
      match val with
      | VDict d =>
          let* res :=
            Mapping_items
              (fun k => lift (StringSpec_helper string_key k))
              (fun v => Field_validate content v kwargs None) d [] in
          Mapping_order string_key res
      | _ => invalid_params "the value must be a dictionary" []
      end
  | FPrimitiveValueOrGetter primitive_field complex_field =>
      if isinstance_primitive val
      then Field_validate primitive_field val kwargs None
      else Field_validate complex_field val kwargs None
  | FArbitraryJson => ret (sort_keys val)
  | FInteger min max => lift (Integer_helper min max val)
  | FFloat min max => lift (Float_helper min max val)
  | FBoolean => lift (Boolean_helper val)
  | FMultipleChoiceSelection choices =>
      lift (MultipleChoiceSelection_helper choices val)
  | FString spec =>
      match StringSpec_helper spec val with
      | Ok s => ret (VStr s)
      | Raise e => raise e
      end
  end.

End Fields.

(** ** Nodes and the registry *)

(** [cls.Meta] of a Node class, after [NodeSubclassDeclarationWatcher] has
    filled in what is inherited. [hasattr(cls.Meta, x)] is [Some]. *)
Module Meta.
Record t := {
  name : string;
  choice_of : option string;
  choice_type : option string;
  shortform_field : option Field;
  shortform_conversion : pyvalue -> pyvalue;
  quietly_drop_superfluous_fields : list string;
  required_additional_arguments_for_validation : list string
}.
End Meta.
Abbreviation Node := Meta.t.

(** The module-level tables of [basics.py], filled in while the Node classes
    are declared and read-only afterwards. *)
Record Registry := {
  _value_to_node : list (string * Node);
  _value_to_node_fields : list (string * list (string * Field));
  _choice_to_type_to_values : list (string * list (string * string))
}.

(** [cls.Meta.shortform_field.validate(obj)]: no [stack_objects], no
    [kwargs]. A field that refers to a Node raises before it could call
    [execute_function_on_node] ([Field_validate_without_context] below), so
    none is supplied. *)
Definition with_no_stack_objects {A} (m : M A) : M A :=
  fun c => match m (Context None (heap c)) with
           | (r, c') => (r, Context (stack_objects c) (heap c'))
           end.

Definition shortform_validate (shortform_field : Field) (obj : pyvalue) : M pyvalue :=
  with_no_stack_objects
    (Field_validate (fun _ _ _ _ _ => raise (PyError "TypeError"))
       shortform_field obj None None).

Section Engine.

Variable R : Registry.

Section NodeValidate.

Variable execute :
  string -> pyvalue -> option kwargs_dict -> option string -> option string -> M pyvalue.

(** The loop over [obj.keys()] of [Node.validate]. *)
Fixpoint check_field_names (cls : Node) (ordered_field_names : list string)
  (ks : list string) : M unit :=
  match ks with
  | [] => ret tt
  | k :: rest =>
      if str_in k (Meta.quietly_drop_superfluous_fields cls) then
        check_field_names cls ordered_field_names rest
      else if String.eqb k "type" && hasattr (Meta.choice_type cls) then
        check_field_names cls ordered_field_names rest
      else if negb (str_in k ordered_field_names) then
        invalid_params "'%s' is not a valid field name.\nValid field names are:\n%s"
          [AVal (VStr k); AVal (VStr (join LF ordered_field_names))]
      else check_field_names cls ordered_field_names rest
  end.

(** The loop over [ordered_list_of_fields] of [Node.validate]. *)
Fixpoint validate_fields (fields : list (string * Field)) (obj : pydict)
  (kwargs : option kwargs_dict) (res_dict : pydict) : M pydict :=
  match fields with
  | [] => ret res_dict
  | (field_name, field) :: rest =>
      let a := attrs_of field in
      if negb (dont_auto_validate a) then
        let* res_dict :=
          match dict_get obj field_name with
          | Some field_value =>
              let* v := node_trace_step field_name field_value
                          (Field_validate execute field field_value kwargs None) in
              ret (dict_set res_dict field_name v)
          | None =>
              if required a then
                invalid_params "missing value for the required field '%s'"
                  [AVal (VStr field_name)]
              else if negb (dont_print_default a) then
                ret (dict_set res_dict field_name (default a))
              else ret res_dict
          end in
        (* sanity checks *)
        if negb (dont_print_default a) then
          match dict_get res_dict field_name with
          | Some v =>
              if is_None v && negb (null a) then
                invalid_params "the value must not be null" []
              else validate_fields rest obj kwargs res_dict
          | None => raise (PyError "KeyError")
          end
        else validate_fields rest obj kwargs res_dict
      else validate_fields rest obj kwargs res_dict
  end.

(** [sorted(res_dict.items(), key=lambda t: ordered_field_names.index(t[0]))] *)
Fixpoint with_index (ordered_field_names : list string) (d : pydict)
  : option (list (nat * (string * pyvalue))) :=
  match d with
  | [] => Some []
  | (k, v) :: r =>
      match index_of ordered_field_names k, with_index ordered_field_names r with
      | Some i, Some r' => Some ((i, (k, v)) :: r')
      | _, _ => None
      end
  end.

Definition order_result (ordered_field_names : list string) (res_dict : pydict)
  : M pyvalue :=
  match with_index ordered_field_names res_dict with
  | Some l => ret (VDict (map snd (sorted (fun a b => Nat.leb a.1 b.1) l)))
  | None => raise (PyError "ValueError")
  end.

(** [Node.validate(cls, obj, stack_objects, kwargs)] *)
Definition Node_validate (cls : Node) (obj : pyvalue) (kwargs : option kwargs_dict)
  : M pyvalue :=
  let* obj :=
    match Meta.shortform_field cls with
    | Some shortform_field =>
        if negb (isinstance_dict obj) then
          node_trace_step "conversion from shortform" obj
            (shortform_validate shortform_field obj;;
             let obj := Meta.shortform_conversion cls obj in
             if negb (isinstance_dict obj) then
               programming_error "the shortform conversion did not return a dict" []
             else ret obj)
        else ret obj
    | None =>
        if negb (isinstance_dict obj) then
          invalid_params "the value must be a dictionary" []
        else ret obj
    end in
  match obj with
  | VDict d =>
      match dict_get (_value_to_node_fields R) (Meta.name cls) with
      | Some ordered_list_of_fields =>
          let ordered_field_names := map fst ordered_list_of_fields in
          check_field_names cls ordered_field_names (keys d);;
          let* res_dict := validate_fields ordered_list_of_fields d kwargs [] in
          order_result ordered_field_names res_dict
      | None => raise (PyError "KeyError")
      end
  | _ => raise (PyError "TypeError")
  end.

End NodeValidate.

(** ** [execute_function_on_node] *)

(** [json.loads(json.dumps(v))]: on a tree of dicts with str keys, lists and
    primitives the round trip rebuilds the same tree as a new object. *)
Definition json_loads_dumps (v : pyvalue) : pyvalue := v.

Fixpoint is_substring (k s : string) : bool :=
  String.prefix k s ||
  match s with
  | String _ r => is_substring k r
  | EmptyString => false
  end.

(** [k in x] for a str [k]. *)
Definition contains_str (x : pyvalue) (k : string) : result bool :=
  match x with
  | VList l => Ok (existsb (eq_str k) l)
  | VDict d => Ok (dict_has d k)
  | VStr s => Ok (is_substring k s)
  | _ => Raise (PyError "TypeError")
  end.

(** [for k,v in stack_objects.items():
       copy_of_stack_objects[k] = v if k in immutable_fields
                                  else json.loads(json.dumps(v))] *)
Fixpoint copy_slots (immutable_fields : pyvalue) (slots : list (string * loc))
  (copy_of_stack_objects : list (string * loc)) : M (list (string * loc)) :=
  match slots with
  | [] => ret copy_of_stack_objects
  | (k, l) :: rest =>
      let* shared := lift (contains_str immutable_fields k) in
      if shared then
        copy_slots immutable_fields rest (dict_set copy_of_stack_objects k l)
      else
        let* v := load l in
        let* l' := alloc (json_loads_dumps v) in
        copy_slots immutable_fields rest (dict_set copy_of_stack_objects k l')
  end.

Definition get_stack_objects : M (list (string * loc)) :=
  fun c => match stack_objects c with
           | Some d => (Ok d, c)
           | None => (Raise (PyError "TypeError"), c)
           end.

(** Lines 457-460: the copy of [stack_objects] made for one candidate. *)
Definition copy_stack_objects : M (list (string * loc)) :=
  let* l := so_get "immutable_fields" in
  let* immutable_fields := load l in
  let* slots := get_stack_objects in
  copy_slots immutable_fields slots [].

Definition set_stack_objects (d : list (string * loc)) : M unit :=
  fun c => (Ok tt, Context (Some d) (heap c)).

(** [res_obj['type'] = choice_type; res_obj.move_to_end('type', last=False)] *)
Definition stamp_type (res_obj : pyvalue) (choice_type : string) : M pyvalue :=
  match res_obj with
  | VDict d => ret (VDict (move_to_front (dict_set d "type" (VStr choice_type)) "type"))
  | _ => raise (PyError "TypeError")
  end.

(** [candidate_node.Meta.choice_type] *)
Definition get_choice_type (n : Node) : M string :=
  match Meta.choice_type n with
  | Some t => ret t
  | None => raise (PyError "AttributeError")
  end.

Fixpoint mapM {A B} (f : A -> M B) (l : list A) : M (list B) :=
  match l with
  | [] => ret []
  | x :: r => let* y := f x in let* ys := mapM f r in ret (y :: ys)
  end.

Definition lookup_node (value : string) : M Node :=
  match dict_get (_value_to_node R) value with
  | Some n => ret n
  | None => raise (PyError "KeyError")
  end.

(** [_choice_to_type_to_values] is a defaultdict(dict). *)
Definition types_of_choice (choice : string) : list (string * string) :=
  match dict_get (_choice_to_type_to_values R) choice with
  | Some d => d
  | None => []
  end.

Section Execute.

(** [getattr(selected_node, function)(selected_node, obj, stack_objects, kwargs)]:
    the method of the Node class, which a subclass may have overridden. *)
Variable call : Node -> string -> pyvalue -> kwargs_dict -> M pyvalue.

(** The check of the kwargs against each candidate. *)
Fixpoint check_kwargs (candidate_nodes : list Node) (kwargs : kwargs_dict) : M unit :=
  match candidate_nodes with
  | [] => ret tt
  | candidate_node :: rest =>
      let required := Meta.required_additional_arguments_for_validation candidate_node in
      if negb (length required =? length kwargs)%nat
         || existsb (fun k => negb (dict_has kwargs k)) required
      then programming_error "the kwargs don't match for node %s.\nWas: %s\nShould be: %s"
             [AVal (VStr (Meta.name candidate_node));
              AVal (VStr (join ", " (keys kwargs)));
              AVal (VStr (join ", " required))]
      else check_kwargs rest kwargs
  end.

(** The body of the [try] for one candidate (lines 452-476); [None] when an
    InvalidParamsException was caught. *)
Definition try_candidate (candidate_node : Node) (obj : pyvalue) (kwargs : kwargs_dict)
  : M (option (Node * pyvalue * list (string * loc))) :=
  try_except_InvalidParams
    (let tmp_obj := obj in
     let* copy_of_stack_objects := copy_stack_objects in
     let* tmp_obj :=
       match Meta.shortform_field candidate_node with
       | Some shortform_field =>
           if negb (isinstance_dict tmp_obj) then
             shortform_validate shortform_field tmp_obj;;
             let tmp_obj := Meta.shortform_conversion candidate_node tmp_obj in
             if negb (isinstance_dict tmp_obj) then
               programming_error "the shortform conversion did not return a dict" []
             else ret tmp_obj
           else ret tmp_obj
       | None =>
           if negb (isinstance_dict tmp_obj) then
             invalid_params "the value must be a dictionary" []
           else ret tmp_obj
       end in
     let* r := with_stack_objects (Some copy_of_stack_objects)
                 (call candidate_node "validate" tmp_obj kwargs) in
     match r with
     | (Ok res_obj, Some copy_of_stack_objects) =>
         ret (Some (candidate_node, res_obj, copy_of_stack_objects))
     | (Ok res_obj, None) => raise (PyError "TypeError") (* no callee can do this *)
     | (Raise e, _) => raise e
     end)
    (fun _ => ret None).

(** [for candidate_node in candidate_nodes: try: ... except
    InvalidParamsException: pass] *)
Fixpoint try_candidates (candidate_nodes : list Node) (obj : pyvalue)
  (kwargs : kwargs_dict)
  (successful_parsing_values : list (Node * pyvalue * list (string * loc)))
  : M (list (Node * pyvalue * list (string * loc))) :=
  match candidate_nodes with
  | [] => ret successful_parsing_values
  | candidate_node :: rest =>
      let* attempt := try_candidate candidate_node obj kwargs in
      try_candidates rest obj kwargs
        (match attempt with
         | Some s => successful_parsing_values ++ [s]
         | None => successful_parsing_values
         end)
  end.

(** ['type' in obj] for a dict [obj]. *)
Definition type_of_dict (obj : pyvalue) : option pyvalue :=
  match obj with
  | VDict d => dict_get d "type"
  | _ => None
  end.

Definition execute_function_on_node (function : string) (obj : pyvalue)
  (kwargs : option kwargs_dict) (value choice : option string) : M pyvalue :=
  if Bool.eqb (hasattr value) (hasattr choice) then
    programming_error
      "the Node or group of nodes must be identified by either a 'value' or a 'choice' of values." []
  else
  let* so := fun c => (Ok (stack_objects c), c) in
  match so, kwargs with
  | Some _, Some kwargs =>
      (* get the list of Nodes that might be a good fit *)
      let* candidate_nodes :=
        match value with
        | Some value => let* n := lookup_node value in ret [n]
        | None =>
            mapM (fun kv => lookup_node kv.2)
              (types_of_choice (match choice with Some c => c | None => "" end))
        end in
      if (1 <? length candidate_nodes)%nat
         && match obj with VDict [] => true | _ => false end
      then
        invalid_params
          "submitted an empty dictionary.\nValid types are: %s\nSelect one of the valid types for a description of its fields."
          [AVal (VStr (join ", " (map Meta.name candidate_nodes)))]
      else
      (if String.eqb function "validate"
       then check_kwargs candidate_nodes kwargs else ret tt);;
      let* selected_node :=
        match candidate_nodes with
        | [n] => ret (Some n)
        | _ =>
            match type_of_dict obj with
            | Some provided_type =>
                let valid_types_to_value :=
                  types_of_choice (match choice with Some c => c | None => "" end) in
                match provided_type with
                | VList _ | VDict _ => raise (PyError "TypeError") (* unhashable *)
                | _ =>
                    match match provided_type with
                          | VStr t => dict_get valid_types_to_value t
                          | _ => None
                          end with
                    | Some v => let* n := lookup_node v in ret (Some n)
                    | None =>
                        invalid_params "the type '%s' is not valid.\nValid types are: %s"
                          [AVal provided_type;
                           AVal (VStr (join ", " (keys valid_types_to_value)))]
                    end
                end
            | None => ret None
            end
        end in
      match selected_node with
      | Some selected_node =>
          (* run the selected function on the selected_node *)
          let* res_obj := call selected_node function obj kwargs in
          if String.eqb function "validate" then
            match Meta.choice_type selected_node with
            | Some choice_type =>
                if match type_of_dict obj with
                   | Some t => negb (eq_str choice_type t)
                   | None => false
                   end
                then programming_error
                       "the type was already given, but after validating it is not the value of the selected Node. This should not be possible." []
                else
                  match res_obj with
                  | VDict d =>
                      match dict_get d "type" with
                      | Some t =>
                          let* types := mapM get_choice_type candidate_nodes in
                          if negb (value_in_strs t types) then
                            programming_error
                              "after validating the type was already set, but is not one of the ones that was requested." []
                          else ret (VDict (move_to_front d "type"))
                      | None => stamp_type res_obj choice_type
                      end
                  | _ => raise (PyError "TypeError")
                  end
            | None => ret res_obj
            end
          else ret res_obj
      | None =>
          (* there is ambiguity *)
          if negb (String.eqb function "validate") then
            programming_error
              "it is ambiguous which Node to use and the requested function was not 'validate', which is the function used to clear up ambiguity. Validate() should have been called beforehand to clean this up." []
          else
            let* successful_parsing_values := try_candidates candidate_nodes obj kwargs [] in
            match successful_parsing_values with
            | [(candidate_node, res_obj, copy_of_stack_objects)] =>
                let* choice_type := get_choice_type candidate_node in
                let* res_obj := stamp_type res_obj choice_type in
                set_stack_objects copy_of_stack_objects;;
                ret res_obj
            | [] =>
                let* types := mapM get_choice_type candidate_nodes in
                invalid_params
                  "no valid way to parse this value could be found.Please manually specify a 'type' field for a more detailed error message.\nPossible types are: %s"
                  [AVal (VStr (join ", " types))]
            | _ =>
                let* types := mapM (fun a => get_choice_type a.1.1) successful_parsing_values in
                invalid_params
                  "the value is ambiguous and matched several possible types. Please specify the 'type' field manually with one of the valid values: %s"
                  [AVal (VStr (join ", " (map quoted types)))]
            end
      end
  | _, _ =>
      programming_error "the stack_objects and kwargs must both be dictionaries" []
  end.

End Execute.

(** ** Tying the knot *)

(** [getattr(cls, function)] for a Node class that inherits [validate] from
    [Node] and defines no other function; [fuel] is the recursion limit of
    the interpreter. *)
Fixpoint Node_call (fuel : nat) (cls : Node) (function : string) (obj : pyvalue)
  (kwargs : kwargs_dict) : M pyvalue :=
  match fuel with
  | O => raise (PyError "RecursionError")
  | S fuel =>
      if String.eqb function "validate" then
        Node_validate (execute_function_on_node (Node_call fuel)) cls obj (Some kwargs)
      else raise (PyError "AttributeError")
  end.

(** [execute_function_on_node] over Node classes that do not override
    [validate], and the [Field.validate] that goes with it. *)
Definition execute (fuel : nat) := execute_function_on_node (Node_call fuel).
Definition validate_field (fuel : nat) := Field_validate (execute fuel).

End Engine.

(** ** [NodeSubclassDeclarationWatcher.__init__]: merging the fields *)

(** [k[:-1] if k.endswith('_') else k] *)
Fixpoint strip_trailing_underscore (k : string) : string :=
  match k with
  | String a EmptyString => if Ascii.eqb a "_" then EmptyString else k
  | String a r => String a (strip_trailing_underscore r)
  | EmptyString => EmptyString
  end.

(** The loop over [superclass.__dict__.items()] for one class. *)
Fixpoint add_class_fields (name : string) (overwrites_existing_fields : list string)
  (class_dict : list (string * Field)) (dict_of_fields : list (string * Field))
  : result (list (string * Field)) :=
  match class_dict with
  | [] => Ok dict_of_fields
  | (k, v) :: rest =>
      let k := strip_trailing_underscore k in
      if dict_has dict_of_fields k && negb (str_in k overwrites_existing_fields) then
        Raise (ProgrammingError
          (Msg "field %s in Node %s is already defined. This error message is just to prevent you from doing this by accident: Just set Meta.overwrites_existing_fields to allow it."
               [AVal (VStr k); AVal (VStr name)]))
      else add_class_fields name overwrites_existing_fields rest
             (dict_set dict_of_fields k v)
  end.

(** The loop over [reversed(cls.mro())]; [classes] holds, for each class
    that is a subclass of Node, its own Field attributes in definition
    order, the most general class first and [cls] itself last. *)
Fixpoint collect_fields (name : string) (overwrites_existing_fields : list string)
  (classes : list (list (string * Field))) (dict_of_fields : list (string * Field))
  : result (list (string * Field)) :=
  match classes with
  | [] => Ok dict_of_fields
  | class_dict :: rest =>
      match add_class_fields name overwrites_existing_fields class_dict dict_of_fields with
      | Ok d => collect_fields name overwrites_existing_fields rest d
      | Raise e => Raise e
      end
  end.

Definition creation_leb (a b : string * Field) : bool :=
  Nat.leb (order_of_creation (attrs_of a.2)) (order_of_creation (attrs_of b.2)).

(** [_value_to_node_fields[cls.Meta.name]] as the watcher computes it:
    [list_of_fields.sort(key=lambda a: a[1].order_of_creation)]. *)
Definition merged_fields (name : string) (overwrites_existing_fields : list string)
  (classes : list (list (string * Field))) : result (list (string * Field)) :=
  match collect_fields name overwrites_existing_fields classes [] with
  | Ok dict_of_fields => Ok (sorted creation_leb dict_of_fields)
  | Raise e => Raise e
  end.

(** Every Field attribute declared in the hierarchy, under the name it is
    stored with, the most general class first. *)
Definition declarations (classes : list (list (string * Field)))
  : list (string * Field) :=
  map (fun kv => (strip_trailing_underscore kv.1, kv.2)) (concat classes).

(** The declaration of [k] that survives the walk: the most specific one. *)
Definition last_declared (classes : list (list (string * Field))) (k : string)
  : option Field :=
  dict_get (rev (declarations classes)) k.

(** The spec's reading of the order: "a field's position reflects where it
    was first introduced in the hierarchy", that is, the creation order of
    the first declaration of its name. *)
Definition first_declared (classes : list (list (string * Field))) (k : string)
  : option Field :=
  dict_get (declarations classes) k.

Definition introduction_leb (classes : list (list (string * Field)))
  (a b : string * Field) : bool :=
  match first_declared classes a.1, first_declared classes b.1 with
  | Some x, Some y =>
      Nat.leb (order_of_creation (attrs_of x)) (order_of_creation (attrs_of y))
  | _, _ => true
  end.

(** ** The key order of a validated Node, in the spec's words *)

(** The dict a Node validates: the raw dict, or what the shortform
    conversion makes of a raw value that is not a dict. *)
Definition canonical_input (cls : Node) (obj : pyvalue) : pydict :=
  match obj with
  | VDict d => d
  | _ => match Meta.shortform_conversion cls obj with
         | VDict d => d
         | _ => []
         end
  end.

(** A declared field has an entry in the result unless it is marked
    [dont_auto_validate], or it is absent from the input and marked
    [dont_print_default]. Only the presence of a key in the input counts,
    not its place. *)
Definition has_entry (obj : pydict) (nf : string * Field) : bool :=
  negb (dont_auto_validate (attrs_of nf.2))
  && (dict_has obj nf.1 || negb (dont_print_default (attrs_of nf.2))).

(** "the merged declaration order": the declared names, in the order of
    [_value_to_node_fields], of the fields that have an entry. *)
Definition declaration_order (fields : list (string * Field)) (obj : pydict)
  : list string :=
  map fst (List.filter (has_entry obj) fields).

(** "type tag placed first if the node belongs to a polymorphic group" *)
Definition type_first (cls : Node) (ks : list string) : list string :=
  if hasattr (Meta.choice_type cls)
  then "type" :: List.filter (fun k => negb (String.eqb "type" k)) ks
  else ks.

Definition shift_index (a : nat * (string * pyvalue)) : nat * (string * pyvalue) :=
  (S a.1, a.2).

(** ** Backtracking, in the spec's words *)

(** "for each candidate ... attempt the candidate's full validation": every
    candidate is tried in turn, each in its own copy of the context, whatever
    the earlier ones did. An outcome is [Ok (Some _)] for a candidate that
    validated, [Ok None] for one that raised InvalidParamsException, and
    [Raise e] for any other exception. *)
Fixpoint attempt_each (R : Registry)
  (call : Node -> string -> pyvalue -> kwargs_dict -> M pyvalue)
  (candidate_nodes : list Node) (obj : pyvalue) (kwargs : kwargs_dict) (c : context)
  : list (result (option (Node * pyvalue * list (string * loc)))) * context :=
  match candidate_nodes with
  | [] => ([], c)
  | candidate_node :: rest =>
      match try_candidate call candidate_node obj kwargs c with
      | (r, c1) =>
          match attempt_each R call rest obj kwargs c1 with
          | (rs, c2) => (r :: rs, c2)
          end
      end
  end.

(** "Collect candidates that succeed without raising InvalidInput." *)
Fixpoint successes {A} (outcomes : list (result (option A))) : list A :=
  match outcomes with
  | [] => []
  | Ok (Some s) :: rest => s :: successes rest
  | _ :: rest => successes rest
  end.

(** The discriminator tag of a member of a group. *)
Definition tag_of (n : Node) : string :=
  match Meta.choice_type n with Some t => t | None => "" end.

(** ** What a called Node may touch *)

(** [k in immutable_fields] holds: the slot is handed to a candidate as it
    is, not copied. *)
Definition is_shared_slot (immutable_fields : pyvalue) (k : string) : bool :=
  match contains_str immutable_fields k with
  | Ok b => b
  | Raise _ => false
  end.

(** The objects of the slots that are shared. *)
Definition shared_cells (immutable_fields : pyvalue) (so : list (string * loc))
  : list loc :=
  map snd (List.filter (fun kl => is_shared_slot immutable_fields kl.1) so).

(** A method of a Node reaches the objects that exist when it is called
    only through the [stack_objects] it is handed ([obj] and [kwargs] are
    not altered): an object that none of its slots refers to is left as it
    is. *)
Definition reaches_only_its_stack_objects
  (call : Node -> string -> pyvalue -> kwargs_dict -> M pyvalue) : Prop :=
  forall cls function obj kwargs so h l,
    l ∈ dom h -> ~ In l (map snd so) ->
    heap (call cls function obj kwargs (Context (Some so) h)).2 !! l = h !! l.

(** No object is stored both under a copied slot and under a shared one. *)
Definition slots_separated (immutable_fields : pyvalue) (so : list (string * loc))
  : Prop :=
  forall k l k',
    In (k, l) so -> In (k', l) so ->
    is_shared_slot immutable_fields k' = true ->
    is_shared_slot immutable_fields k = true.

(** ** Validating a validated value again *)

(** The list [stack_objects['node_trace']] refers to. *)
Definition trace_of (c : context) : option (list pyvalue) :=
  match stack_objects c with
  | Some so =>
      match dict_get so "node_trace" with
      | Some l => match heap c !! l with
                  | Some (VList t) => Some t
                  | _ => None
                  end
      | None => None
      end
  | None => None
  end.

Definition has_current_object (c : context) : bool :=
  match stack_objects c with
  | Some so => dict_has so "current_object"
  | None => false
  end.

(** A context in which [node_trace_step] works: [stack_objects] is a dict
    with a list under 'node_trace' and some object under 'current_object'
    (what [functions.validate_example_object] starts from). *)
Definition traceable (c : context) : Prop :=
  is_Some (trace_of c) /\ has_current_object c = true.

(** [v] validates to [w], from any such context, and the trace is
    afterwards what it was. *)
Definition validates_to (validate : pyvalue -> M pyvalue) (v w : pyvalue) : Prop :=
  forall c, traceable c ->
    exists c', validate v c = (Ok w, c')
               /\ trace_of c' = trace_of c /\ has_current_object c' = true.

(** [v] validates to itself. *)
Definition fixed_point (validate : pyvalue -> M pyvalue) (v : pyvalue) : Prop :=
  validates_to validate v v.

(** Whatever [validate] returns validates to itself. *)
Definition idempotent (validate : pyvalue -> M pyvalue) : Prop :=
  forall val c res c', validate val c = (Ok res, c') -> fixed_point validate res.

Fixpoint all_digits (s : string) : bool :=
  match s with
  | EmptyString => true
  | String a r => is_digit a && all_digits r
  end.

(** A key kind whose output validates to itself: an IntegerAsString with a
    length bound does not (the bound is tested on the raw string, the
    result is the normalised one). *)
Definition stable_string (sp : StringSpec) : bool :=
  match subclass sp with
  | IntegerAsString _ _ =>
      negb (hasattr (min_length sp)) && negb (hasattr (max_length sp))
  | _ => true
  end.

(** Kinds that turn a primitive into a primitive, and kinds that return a
    dict or a list: what PrimitiveValueOrGetter needs to take the same
    branch again on its own output. *)
Definition primitive_kind (k : FieldKind) : bool :=
  match k with
  | FInteger _ _ | FFloat _ _ | FBoolean => true
  | FString sp => stable_string sp
  | _ => false
  end.

Definition complex_kind (k : FieldKind) : bool :=
  match k with
  | FValue _ _ | FChoice _ _ | FList _ _ _ _ _ | FMapping _ _ => true
  | _ => false
  end.

(** Fields whose output validates to itself. Left out: an IntegerAsString
    with a length bound, a List that mixes a primitive shortcut with a Node
    reference, and a PrimitiveValueOrGetter whose branches can swap. *)
Fixpoint stable_field (f : Field) : bool :=
  match f with
  | mkField _ kind => stable_kind kind
  end
with stable_kind (kind : FieldKind) : bool :=
  match kind with
  | FValue _ _ | FChoice _ _ => true
  | FList value choice primitive _ _ =>
      match primitive with
      | None => true
      | Some p => negb (hasattr value) && negb (hasattr choice) && stable_field p
      end
  | FMapping string_key content => stable_string string_key && stable_field content
  | FPrimitiveValueOrGetter primitive_field complex_field =>
      primitive_kind (kind_of primitive_field) && complex_kind (kind_of complex_field)
      && stable_field primitive_field && stable_field complex_field
  | FArbitraryJson => true
  | FInteger _ _ | FFloat _ _ | FBoolean | FMultipleChoiceSelection _ => true
  | FString sp => stable_string sp
  end.

(** ** The schemas on which validation is idempotent *)

(** [Node.validate] puts the default of the field in the result when the
    input has no entry for it. *)
Definition fills_default (f : Field) : bool :=
  negb (dont_auto_validate (attrs_of f)) && negb (required (attrs_of f))
  && negb (dont_print_default (attrs_of f)).

(** The default is a value the field validates to itself, whatever Nodes
    the field refers to. *)
Definition default_is_canonical (f : Field) : Prop :=
  forall execute kwargs,
    fixed_point (fun v => Field_validate execute f v kwargs None)
      (default (attrs_of f)).

(** The fields of a Node: distinct names, none of them 'type', each field
    stable, each default that can be filled in canonical. *)
Definition stable_fields (fields : list (string * Field)) : Prop :=
  NoDup (map fst fields)
  /\ ~ In "type" (map fst fields)
  /\ Forall (fun nf => stable_field nf.2 = true
                       /\ (fills_default nf.2 = true -> default_is_canonical nf.2))
       fields.

(** What [_register_that_a_node_was_defined] guarantees: the Node stored
    under a tag of a group has that tag as its [choice_type], and no tag
    occurs twice in a group. *)
Definition consistent_choices (R : Registry) : Prop :=
  forall choice types,
    In (choice, types) (_choice_to_type_to_values R) ->
    NoDup (keys types)
    /\ forall tag v n,
        In (tag, v) types -> dict_get (_value_to_node R) v = Some n ->
        Meta.choice_type n = Some tag.

Definition stable_registry (R : Registry) : Prop :=
  Forall (fun nf => stable_fields nf.2) (_value_to_node_fields R)
  /\ consistent_choices R.

(** The dict [execute_function_on_node] makes of the dict [r] a Node
    returned: the tag of the Node in front, if it has one. *)
Definition stamped (n : Node) (r : pydict) : pyvalue :=
  match Meta.choice_type n with
  | Some t => VDict (("type", VStr t) :: r)
  | None => VDict r
  end.

(** What the validate of a Node returns is a dict without 'type', which
    the Node validates to itself again, with its tag in front or not. *)
Definition canonical_call
  (call : Node -> string -> pyvalue -> kwargs_dict -> M pyvalue) : Prop :=
  forall n kw obj c res c',
    call n "validate" obj kw c = (Ok res, c') ->
    exists r, res = VDict r /\ dict_get r "type" = None
              /\ validates_to (fun v => call n "validate" v kw) (stamped n r) (VDict r)
              /\ validates_to (fun v => call n "validate" v kw) (VDict r) (VDict r).

(** What [execute_function_on_node] returns for 'validate' is a dict that
    validates to itself under the same reference and kwargs. *)
Definition canonical_execute
  (execute : string -> pyvalue -> option kwargs_dict -> option string -> option string
             -> M pyvalue) : Prop :=
  forall kw value choice,
    idempotent (fun v => execute "validate" v (Some kw) value choice)
    /\ forall v c res c',
        execute "validate" v (Some kw) value choice c = (Ok res, c') ->
        isinstance_dict res = true.

(** * Registration, documentation blocks, display and constructors *)

(** ** Dicts with sorted keys (what ArbitraryJson returns) *)

(** Every dict in the value, at any depth, has its keys in sorted order. *)
Inductive keys_sorted : pyvalue -> Prop :=
| keys_sorted_primitive v :
    isinstance_list v = false -> isinstance_dict v = false -> keys_sorted v
| keys_sorted_list l :
    Forall keys_sorted l -> keys_sorted (VList l)
| keys_sorted_dict d :
    Sorted (fun a b => String.leb a b = true) (keys d) ->
    Forall (fun kv => keys_sorted kv.2) d -> keys_sorted (VDict d).

(** ** [simplify_stack_objects_current_object_for_display]: [_rec_shortener] *)

Definition max_dict_field_count : nat := 10.
Definition max_list_length : nat := 3.
Definition max_string_length : nat := 100.

(** The inner function [_rec_shortener(obj, remaining_depth)]; the
    [json.dumps] of its result is not modelled. *)
Fixpoint _rec_shortener (obj : pyvalue) (remaining_depth : Z) {struct obj} : pyvalue :=
  match obj with
  | VDict d =>
      if (max_dict_field_count <? length d)%nat then
        VStr ("[a dictionary with " +:+ str_of_int (Z.of_nat (length d))
              +:+ " fields, which is too many to display here]")
      else
        VDict
          ((fix items (d : pydict) (res : pydict) {struct d} : pydict :=
              match d with
              | [] => res
              | (k, v) :: rest =>
                  items rest
                    (dict_set res k
                       (if remaining_depth <=? 0 then VStr "..."
                        else _rec_shortener v (remaining_depth - 1)))
              end) d [])
  | VList l =>
      VList
        ((fix elements (i : nat) (l : list pyvalue) {struct l} : list pyvalue :=
            match l with
            | [] => []
            | v :: rest =>
                if (max_list_length <=? i)%nat then []  (* break *)
                else _rec_shortener v (remaining_depth - 1) :: elements (S i) rest
            end) 0%nat l
         ++ (if (max_list_length <? length l)%nat then
               [VStr ("[" +:+ str_of_int (Z.of_nat (length l - max_list_length))
                      +:+ " additional elements]")]
             else []))
  | VStr s =>
      if (max_string_length <? String.length s)%nat then
        VStr (String.substring 0 (max_string_length - 3) s +:+ "...")
      else obj
  | _ => obj
  end.

(** No list of more than four elements and no dict of more than ten
    entries, at any depth. *)
Inductive display_sized : pyvalue -> Prop :=
| display_sized_primitive v :
    isinstance_list v = false -> isinstance_dict v = false -> display_sized v
| display_sized_list l :
    (length l <= S max_list_length)%nat ->
    Forall display_sized l -> display_sized (VList l)
| display_sized_dict d :
    (length d <= max_dict_field_count)%nat ->
    Forall (fun kv => display_sized kv.2) d -> display_sized (VDict d).

(** A value [_rec_shortener] has nothing to cut from at depth
    [remaining_depth]: strings of at most 100 characters, lists of at most
    three elements, dicts of at most ten entries with distinct keys, and no
    entry of a dict below the depth. *)
Inductive displayable : Z -> pyvalue -> Prop :=
| displayable_str depth s :
    (String.length s <= max_string_length)%nat -> displayable depth (VStr s)
| displayable_None depth : displayable depth VNone
| displayable_bool depth b : displayable depth (VBool b)
| displayable_int depth z : displayable depth (VInt z)
| displayable_float depth f : displayable depth (VFloat f)
| displayable_list depth l :
    (length l <= max_list_length)%nat ->
    Forall (displayable (depth - 1)) l -> displayable depth (VList l)
| displayable_dict depth d :
    (length d <= max_dict_field_count)%nat ->
    NoDup (keys d) ->
    (d = [] \/ 0 < depth) ->
    Forall (fun kv => displayable (depth - 1) kv.2) d -> displayable depth (VDict d).

(** ** The module-level tables of [basics.py] and the functions that fill
    them *)

(** "references and consistency checks": [registry] holds the three tables
    the validation reads. *)
Record Tables := {
  registry : Registry;
  _all_nodes : list Node;
  _value_to_choice : list (string * (string * string));
  _debug_referenced_values : list (string * bool);
  _debug_referenced_choices : list (string * bool);
  _finalize_has_been_called : bool
}.

(** The tables of the section "documentation". *)
Record Documentation := {
  _documentation_html_builder : list (string * list string);
  _current_documentation_page : option string;
  _documentation_target_to_page : list (string * option string);
  _documentation_target_to_hierarchy_level : list (string * Z);
  _choice_to_description : list (string * (string * string));
  _stack_of_choices_for_documentation_hierarchy : list string
}.

(** The tables when [basics.py] has been loaded and no Node declared. *)
Definition no_tables : Tables := {|
  registry := {| _value_to_node := []; _value_to_node_fields := [];
                 _choice_to_type_to_values := [] |};
  _all_nodes := [];
  _value_to_choice := [];
  _debug_referenced_values := [];
  _debug_referenced_choices := [];
  _finalize_has_been_called := false
|}.

Definition no_documentation : Documentation := {|
  _documentation_html_builder := [];
  _current_documentation_page := None;
  _documentation_target_to_page := [];
  _documentation_target_to_hierarchy_level := [];
  _choice_to_description := [];
  _stack_of_choices_for_documentation_hierarchy := []
|}.

(** [register_that_a_value_was_referenced(value)] *)
Definition register_that_a_value_was_referenced (value : string) (g : Tables) : Tables :=
  {| registry := registry g;
     _all_nodes := _all_nodes g;
     _value_to_choice := _value_to_choice g;
     _debug_referenced_values := dict_set (_debug_referenced_values g) value true;
     _debug_referenced_choices := _debug_referenced_choices g;
     _finalize_has_been_called := _finalize_has_been_called g |}.

(** [register_that_a_choice_was_referenced(choice)] *)
Definition register_that_a_choice_was_referenced (choice : string) (g : Tables) : Tables :=
  {| registry := registry g;
     _all_nodes := _all_nodes g;
     _value_to_choice := _value_to_choice g;
     _debug_referenced_values := _debug_referenced_values g;
     _debug_referenced_choices := dict_set (_debug_referenced_choices g) choice true;
     _finalize_has_been_called := _finalize_has_been_called g |}.

(** [_register_that_a_node_was_defined(cls)]. Every assignment is kept in
    the tables that are returned with an exception: [_all_nodes.append] and
    [_value_to_node[value] = cls] come before later checks.
    [_choice_to_type_to_values] is a defaultdict: reading a missing choice
    stores an empty dict under it. *)
Definition _register_that_a_node_was_defined (cls : Node) (g : Tables)
  : result unit * Tables :=
  if _finalize_has_been_called g then
    (Raise (ProgrammingError
       (Msg "can't define any more Nodes! finalize() has already been called!" [])), g)
  else
    let value := Meta.name cls in
    let all_nodes := (_all_nodes g ++ [cls])%list in
    let R := registry g in
    if dict_has (_value_to_node R) value then
      (Raise (ProgrammingError
         (Msg "can't define two nodes with the same name/value: %s" [AVal (VStr value)])),
       {| registry := R; _all_nodes := all_nodes;
          _value_to_choice := _value_to_choice g;
          _debug_referenced_values := _debug_referenced_values g;
          _debug_referenced_choices := _debug_referenced_choices g;
          _finalize_has_been_called := false |})
    else
      let value_to_node := dict_set (_value_to_node R) value cls in
      match Meta.choice_of cls with
      | Some choice_of =>
          match Meta.choice_type cls with
          | None =>
              (Raise (ProgrammingError
                 (Msg "if a 'choice_of' is given, a 'choice_type' must also be given." [])),
               {| registry := {| _value_to_node := value_to_node;
                                 _value_to_node_fields := _value_to_node_fields R;
                                 _choice_to_type_to_values := _choice_to_type_to_values R |};
                  _all_nodes := all_nodes;
                  _value_to_choice := _value_to_choice g;
                  _debug_referenced_values := _debug_referenced_values g;
                  _debug_referenced_choices := _debug_referenced_choices g;
                  _finalize_has_been_called := false |})
          | Some choice_type =>
              let value_to_choice :=
                dict_set (_value_to_choice g) value (choice_of, choice_type) in
              let type_to_value :=
                match dict_get (_choice_to_type_to_values R) choice_of with
                | Some d => d
                | None => []
                end in
              if dict_has type_to_value choice_type then
                (Raise (ProgrammingError
                   (Msg "can't define the type '%s' of choice '%s' twice"
                        [AVal (VStr choice_type); AVal (VStr choice_of)])),
                 {| registry :=
                      {| _value_to_node := value_to_node;
                         _value_to_node_fields := _value_to_node_fields R;
                         _choice_to_type_to_values :=
                           dict_set (_choice_to_type_to_values R) choice_of type_to_value |};
                    _all_nodes := all_nodes;
                    _value_to_choice := value_to_choice;
                    _debug_referenced_values := _debug_referenced_values g;
                    _debug_referenced_choices := _debug_referenced_choices g;
                    _finalize_has_been_called := false |})
              else
                (Ok tt,
                 {| registry :=
                      {| _value_to_node := value_to_node;
                         _value_to_node_fields := _value_to_node_fields R;
                         _choice_to_type_to_values :=
                           dict_set (_choice_to_type_to_values R) choice_of
                             (dict_set type_to_value choice_type value) |};
                    _all_nodes := all_nodes;
                    _value_to_choice := value_to_choice;
                    _debug_referenced_values := _debug_referenced_values g;
                    _debug_referenced_choices := _debug_referenced_choices g;
                    _finalize_has_been_called := false |})
          end
      | None =>
          (Ok tt,
           {| registry := {| _value_to_node := value_to_node;
                             _value_to_node_fields := _value_to_node_fields R;
                             _choice_to_type_to_values := _choice_to_type_to_values R |};
              _all_nodes := all_nodes;
              _value_to_choice := _value_to_choice g;
              _debug_referenced_values := _debug_referenced_values g;
              _debug_referenced_choices := _debug_referenced_choices g;
              _finalize_has_been_called := false |})
      end.

(** The first key of [ks] that [d] does not hold. *)
Fixpoint first_missing {A} (ks : list string) (d : list (string * A)) : option string :=
  match ks with
  | [] => None
  | k :: rest => if dict_has d k then first_missing rest d else Some k
  end.

(** The last loop of [finalize]. *)
Fixpoint check_choices (choices : list string) (values : list string)
  (choice_to_description : list (string * (string * string))) : result unit :=
  match choices with
  | [] => Ok tt
  | choice :: rest =>
      if str_in choice values then
        Raise (ProgrammingError
          (Msg "there are both a choice and a value called '%s'." [AVal (VStr choice)]))
      else if negb (dict_has choice_to_description choice) then
        Raise (ProgrammingError
          (Msg "missing documentation for choice: %s" [AVal (VStr choice)]))
      else check_choices rest values choice_to_description
  end.

(** [finalize()]: the flag is set before anything is checked. *)
Definition finalize (doc : Documentation) (g : Tables) : result unit * Tables :=
  let g' := {| registry := registry g;
               _all_nodes := _all_nodes g;
               _value_to_choice := _value_to_choice g;
               _debug_referenced_values := _debug_referenced_values g;
               _debug_referenced_choices := _debug_referenced_choices g;
               _finalize_has_been_called := true |} in
  let R := registry g in
  match first_missing (keys (_debug_referenced_values g)) (_value_to_node R) with
  | Some used_value =>
      (Raise (ProgrammingError
         (Msg "the value '%s' was referenced but never defined" [AVal (VStr used_value)])),
       g')
  | None =>
      match first_missing (keys (_debug_referenced_choices g))
              (_choice_to_type_to_values R) with
      | Some used_choice =>
          (Raise (ProgrammingError
             (Msg "the choice '%s' was referenced but never defined"
                  [AVal (VStr used_choice)])), g')
      | None =>
          (check_choices (keys (_choice_to_type_to_values R)) (keys (_value_to_node R))
             (_choice_to_description doc), g')
      end
  end.

(** What the registrations keep true of the tables the validation reads:
    a name is registered once and under itself, a choice has one entry,
    and what a choice lists under a type is a registered Node of that
    choice and that type. *)
Definition registered_consistently (R : Registry) : Prop :=
  NoDup (keys (_value_to_node R))
  /\ (forall v n, In (v, n) (_value_to_node R) -> Meta.name n = v)
  /\ NoDup (keys (_choice_to_type_to_values R))
  /\ consistent_choices R
  /\ forall choice types tag v,
      In (choice, types) (_choice_to_type_to_values R) -> In (tag, v) types ->
      exists n, dict_get (_value_to_node R) v = Some n
                /\ Meta.choice_of n = Some choice.

(** *** The blocks of choices of the documentation *)

(** [set_current_documentation_page(name)] *)
Definition set_current_documentation_page (name : string) (doc : Documentation)
  : Documentation :=
  {| _documentation_html_builder := dict_set (_documentation_html_builder doc) name [];
     _current_documentation_page := Some name;
     _documentation_target_to_page := _documentation_target_to_page doc;
     _documentation_target_to_hierarchy_level :=
       _documentation_target_to_hierarchy_level doc;
     _choice_to_description := _choice_to_description doc;
     _stack_of_choices_for_documentation_hierarchy :=
       _stack_of_choices_for_documentation_hierarchy doc |}.

(** [register_choice_for_documentation(choice, readable_name, description)] *)
Definition register_choice_for_documentation (choice readable_name description : string)
  (doc : Documentation) : result unit * Documentation :=
  if dict_has (_documentation_target_to_page doc) choice then
    (Raise (ProgrammingError
       (Msg "this error is for debugging only. A duplicate value here should be impossible." [])),
     doc)
  else
    (Ok tt,
     {| _documentation_html_builder := _documentation_html_builder doc;
        _current_documentation_page := _current_documentation_page doc;
        _documentation_target_to_page :=
          dict_set (_documentation_target_to_page doc) choice
            (_current_documentation_page doc);
        _documentation_target_to_hierarchy_level :=
          dict_set (_documentation_target_to_hierarchy_level doc) choice
            (10 * (1 + Z.of_nat
                         (length (_stack_of_choices_for_documentation_hierarchy doc))));
        _choice_to_description :=
          dict_set (_choice_to_description doc) choice (readable_name, description);
        _stack_of_choices_for_documentation_hierarchy :=
          (_stack_of_choices_for_documentation_hierarchy doc ++ [choice])%list |}).

(** [register_end_of_choices(choice)] *)
Definition register_end_of_choices (choice : string) (doc : Documentation)
  : result unit * Documentation :=
  match last (_stack_of_choices_for_documentation_hierarchy doc) with
  | None => (Raise (PyError "IndexError"), doc)
  | Some top =>
      if negb (String.eqb top choice) then
        (Raise (ProgrammingError
           (Msg "wrong choice. Selected %s, but most recent choice is %s."
                [AVal (VStr choice); AVal (VStr top)])), doc)
      else
        (Ok tt,
         {| _documentation_html_builder := _documentation_html_builder doc;
            _current_documentation_page := _current_documentation_page doc;
            _documentation_target_to_page := _documentation_target_to_page doc;
            _documentation_target_to_hierarchy_level :=
              _documentation_target_to_hierarchy_level doc;
            _choice_to_description := _choice_to_description doc;
            _stack_of_choices_for_documentation_hierarchy :=
              removelast (_stack_of_choices_for_documentation_hierarchy doc) |})
  end.

(** [_register_node_for_documentation(node)], which reads [node.Meta.name]
    and [node.Meta.choice_of]. [choice_of] is [None] for a Meta without the
    attribute ([hasattr] is False) and [Some None] for a Meta that sets
    [choice_of = None], which is different from every str. *)
Definition _register_node_for_documentation (name : string)
  (choice_of : option (option string)) (doc : Documentation)
  : result unit * Documentation :=
  if dict_has (_documentation_target_to_page doc) name then
    (Raise (ProgrammingError
       (Msg "this error is for debugging only. A duplicate value here should be impossible." [])),
     doc)
  else
    let registered :=
      (Ok tt,
       {| _documentation_html_builder := _documentation_html_builder doc;
          _current_documentation_page := _current_documentation_page doc;
          _documentation_target_to_page :=
            dict_set (_documentation_target_to_page doc) name
              (_current_documentation_page doc);
          _documentation_target_to_hierarchy_level :=
            dict_set (_documentation_target_to_hierarchy_level doc) name
              (10 * (1 + Z.of_nat
                           (length (_stack_of_choices_for_documentation_hierarchy doc))));
          _choice_to_description := _choice_to_description doc;
          _stack_of_choices_for_documentation_hierarchy :=
            _stack_of_choices_for_documentation_hierarchy doc |}) in
    match choice_of with
    | Some choice_of =>
        match last (_stack_of_choices_for_documentation_hierarchy doc) with
        | None => (Raise (PyError "IndexError"), doc)
        | Some top =>
            if match choice_of with
               | Some c => negb (String.eqb c top)
               | None => true
               end
            then
              (Raise (ProgrammingError
                 (Msg "this is not the currently active block of choices!. Was %s, should be %s"
                      [AVal (match choice_of with Some c => VStr c | None => VNone end);
                       AVal (VStr top)])), doc)
            else registered
        end
    | None => registered
    end.

(** What the declarations of a module do to the tables before [finalize]:
    a field that refers to a Node registers the reference, a Node class
    registers itself (and may raise). *)
Inductive declaration_step : Tables -> Tables -> Prop :=
| value_referenced value g :
    declaration_step g (register_that_a_value_was_referenced value g)
| choice_referenced choice g :
    declaration_step g (register_that_a_choice_was_referenced choice g)
| node_defined cls g :
    declaration_step g (_register_that_a_node_was_defined cls g).2.

(** ** What the validation writes to *)

(** [l] is the object under [stack_objects['node_trace']]. *)
Definition is_trace_cell (c : context) (l : loc) : Prop :=
  match stack_objects c with
  | Some so => In ("node_trace", l) so
  | None => False
  end.

(** From [c] to [c'], no object that existed was altered but the one
    under 'node_trace', no object was deleted, and the object under
    'node_trace' is the same one or one that did not exist. *)
Definition wrote_only_trace (c c' : context) : Prop :=
  (forall l, l ∈ dom (heap c) -> ~ is_trace_cell c l ->
     heap c' !! l = heap c !! l)
  /\ dom (heap c) ⊆ dom (heap c')
  /\ (forall l, is_trace_cell c' l -> is_trace_cell c l \/ l ∉ dom (heap c)).

Definition writes_only_trace {A} (m : M A) : Prop :=
  forall c, wrote_only_trace c (m c).2.

(** ** The trace after a validation *)

(** A [stack_objects] as [functions.validate_example_object] builds it: a
    dict with a list under 'node_trace', some object under
    'current_object' and, in another object than the trace, a value under
    'immutable_fields' that does not hold 'node_trace' (the trace is
    copied for each candidate, not shared). *)
Definition trace_kept_apart (c : context) : Prop :=
  exists so lt li t immutable_fields,
    stack_objects c = Some so
    /\ NoDup (keys so)
    /\ dict_get so "node_trace" = Some lt
    /\ heap c !! lt = Some (VList t)
    /\ dict_has so "current_object" = true
    /\ dict_get so "immutable_fields" = Some li
    /\ heap c !! li = Some immutable_fields
    /\ is_shared_slot immutable_fields "node_trace" = false
    /\ lt <> li.

(** Whenever [m] returns, the trace is what it was before. *)
Definition restores_trace {A} (m : M A) : Prop :=
  forall c a c', trace_kept_apart c -> m c = (Ok a, c') ->
    trace_kept_apart c' /\ trace_of c' = trace_of c.

(** ** The constructors of the primitive fields *)

(** The [stack_objects] that [Field.__init__] makes to validate the
    default: [{'node_trace': [], 'current_object': None,
    'immutable_fields': []}]. *)
Definition default_check_context : context :=
  Context (Some [("node_trace", 0%nat); ("current_object", 1%nat);
                 ("immutable_fields", 2%nat)])
          (<[0%nat := VList []]> (<[1%nat := VNone]> (<[2%nat := VList []]> ∅))).

(** [self.order_of_creation = _field_creation_order_counter] *)
Definition with_order_of_creation (a : FieldAttrs) (n : nat) : FieldAttrs :=
  {| null := null a;
     default := default a;
     dont_auto_validate := dont_auto_validate a;
     derived_field := derived_field a;
     dont_print_default := dont_print_default a;
     validation_accepts_nulls := validation_accepts_nulls a;
     help := help a;
     order_of_creation := n |}.

(** [Field.__init__], as the constructor of a subclass calls it once it has
    set its own attributes ([kind]). [a] holds the keyword arguments, and
    [_field_creation_order_counter] is passed along: it is incremented only
    if the default was accepted. The default is a value (a default that is
    not a primitive stands for the function returning it, so the check of
    its type passes). *)
Definition Field_init
  (execute : string -> pyvalue -> option kwargs_dict -> option string ->
             option string -> M pyvalue)
  (kind : FieldKind) (a : FieldAttrs) (_field_creation_order_counter : nat)
  : result Field * nat :=
  let self := mkField (with_order_of_creation a _field_creation_order_counter) kind in
  match
    (if negb (required a)
     then (Field_validate execute self (default a) (Some []) None
             default_check_context).1
     else Ok VNone)
  with
  | Ok _ => (Ok self, S _field_creation_order_counter)
  | Raise e => (Raise e, _field_creation_order_counter)
  end.

(** [self.validate(val, allow_null=True)] of a field that refers to no
    Node: no [stack_objects], no [kwargs]. *)
Definition validate_bound (self : Field) (val : pyvalue) : result pyvalue :=
  (Field_validate (fun _ _ _ _ _ => raise (PyError "TypeError")) self val None
     (Some true) (Context None ∅)).1.

(** [Integer.__init__(min, max, **kwargs)] for bounds that are ints or
    None. *)
Definition Integer_init (min max : option Z) (a : FieldAttrs)
  (_field_creation_order_counter : nat) : result Field * nat :=
  match Field_init (fun _ _ _ _ _ => raise (PyError "TypeError"))
          (FInteger min max) a _field_creation_order_counter with
  | (Ok self, counter) =>
      match validate_bound self (match min with Some m => VInt m | None => VNone end) with
      | Raise e => (Raise e, counter)
      | Ok _ =>
          match validate_bound self
                  (match max with Some x => VInt x | None => VNone end) with
          | Raise e => (Raise e, counter)
          | Ok _ =>
              if match min, max with
                 | Some m, Some x => m >? x
                 | _, _ => false
                 end
              then (Raise (ProgrammingError
                      (Msg "the minimum is greater than the maximum" [])), counter)
              else (Ok self, counter)
          end
      end
  | (Raise e, counter) => (Raise e, counter)
  end.

(** [Float.__init__(min, max, **kwargs)] for bounds that are numbers or
    None. *)
Definition Float_init (min max : option number) (a : FieldAttrs)
  (_field_creation_order_counter : nat) : result Field * nat :=
  match Field_init (fun _ _ _ _ _ => raise (PyError "TypeError"))
          (FFloat min max) a _field_creation_order_counter with
  | (Ok self, counter) =>
      match validate_bound self
              (match min with Some m => value_of_number m | None => VNone end) with
      | Raise e => (Raise e, counter)
      | Ok _ =>
          match validate_bound self
                  (match max with Some x => value_of_number x | None => VNone end) with
          | Raise e => (Raise e, counter)
          | Ok _ =>
              if match min, max with
                 | Some m, Some x => num_gt m x
                 | _, _ => false
                 end
              then (Raise (ProgrammingError
                      (Msg "the minimum is greater than the maximum" [])), counter)
              else (Ok self, counter)
          end
      end
  | (Raise e, counter) => (Raise e, counter)
  end.

(** [Boolean.__init__], which only calls [Field.__init__] *)
Definition Boolean_init (a : FieldAttrs) (_field_creation_order_counter : nat)
  : result Field * nat :=
  Field_init (fun _ _ _ _ _ => raise (PyError "TypeError")) FBoolean a
    _field_creation_order_counter.

(** [String.__init__(min_length, max_length, **kwargs)] *)
Definition String_init (min_length max_length : option Z) (a : FieldAttrs)
  (_field_creation_order_counter : nat) : result Field * nat :=
  Field_init (fun _ _ _ _ _ => raise (PyError "TypeError"))
    (FString {| min_length := min_length; max_length := max_length;
                subclass := PlainString |})
    a _field_creation_order_counter.

(** A field that one of these constructors returned. *)
Inductive constructed_primitive : Field -> Prop :=
| constructed_Integer min max a n f n' :
    Integer_init min max a n = (Ok f, n') -> constructed_primitive f
| constructed_Float min max a n f n' :
    Float_init min max a n = (Ok f, n') -> constructed_primitive f
| constructed_Boolean a n f n' :
    Boolean_init a n = (Ok f, n') -> constructed_primitive f
| constructed_String min_length max_length a n f n' :
    String_init min_length max_length a n = (Ok f, n') -> constructed_primitive f.

(** [min <= z <= max], a bound that is None not counting. *)
Definition within (min max : option Z) (z : Z) : Prop :=
  match min with Some m => m <= z | None => True end
  /\ match max with Some x => z <= x | None => True end.

(** * Example schemas used by the statements below *)

Definition no_execute
  : string -> pyvalue -> option kwargs_dict -> option string -> option string -> M pyvalue :=
  fun _ _ _ _ _ => raise (PyError "NotImplementedError").

(** The [stack_objects] of [functions.validate_example_object]:
    [{'node_trace': [], 'current_object': None, 'immutable_fields': []}]. *)
Definition initial_context : context :=
  Context (Some [("node_trace", 0%nat); ("current_object", 1%nat);
                 ("immutable_fields", 2%nat)])
          (<[0%nat := VList []]> (<[1%nat := VNone]> (<[2%nat := VList []]> ∅))).

(** A base class declaring [a] then [b], and a subclass that declares [a]
    again with [overwrites_existing_fields = ['a']]. *)
Definition base_a : Field := mkField (Field_defaults 0) (FInteger None None).
Definition base_b : Field := mkField (Field_defaults 1) FBoolean.
Definition sub_a : Field := mkField (Field_defaults 2) (FInteger (Some 0) None).
Definition override_hierarchy : list (list (string * Field)) :=
  [[("a", base_a); ("b", base_b)]; [("a", sub_a)]].

(** A Node whose shortform conversion hands the literal back instead of
    wrapping it in a dict. *)
Definition literal_node : Node := {|
  Meta.name := "literal";
  Meta.choice_of := None;
  Meta.choice_type := None;
  Meta.shortform_field := Some (mkField (Field_defaults 0) (FFloat None None));
  Meta.shortform_conversion := fun shortform_value => shortform_value;
  Meta.quietly_drop_superfluous_fields := [];
  Meta.required_additional_arguments_for_validation := []
|}.

Definition literal_registry : Registry := {|
  _value_to_node := [("literal", literal_node)];
  _value_to_node_fields := [("literal", [])];
  _choice_to_type_to_values := []
|}.

Definition no_call : Node -> string -> pyvalue -> kwargs_dict -> M pyvalue :=
  fun _ _ _ _ => raise (PyError "NotImplementedError").

(** [Mapping(IntegerAsString(), Integer())] *)
Definition integer_keys : StringSpec :=
  {| min_length := None; max_length := None; subclass := IntegerAsString None None |}.
Definition integer_keyed_mapping : Field :=
  mkField (Field_defaults 2)
    (FMapping integer_keys (mkField (Field_defaults 1) (FInteger None None))).

(** [nodesExample.py]: the fields of AbstractNodeForNumbers, ConstantNode
    and SumNode, numbered in the order they are created, and the two Node
    classes (their [validate] only calls [super().validate]). *)
Definition pass_allow_user_input_node : kwargs_dict :=
  [("allow_user_input_node", PASS_ARG_ALONG)].

Definition _comment : Field :=
  mkField {| null := true; default := VNone; dont_auto_validate := false;
             derived_field := false; dont_print_default := true;
             validation_accepts_nulls := false; help := "An optional textual comment.";
             order_of_creation := 0 |}
          (FString {| min_length := None; max_length := Some 10000;
                      subclass := PlainString |}).

Definition val : Field :=
  mkField (Field_defaults 1)
          (FFloat (Some (NumInt (-1000))) (Some (NumInt 1000))).

Definition summands : Field :=
  mkField (Field_defaults 3)
          (FList None (Some "numerical_node") None None pass_allow_user_input_node).

Definition ConstantNode : Node := {|
  Meta.name := "constant";
  Meta.choice_of := Some "numerical_node";
  Meta.choice_type := Some "constant";
  Meta.shortform_field := Some (mkField (Field_defaults 2) (FFloat None None));
  Meta.shortform_conversion := fun shortform_value => VDict [("val", shortform_value)];
  Meta.quietly_drop_superfluous_fields := [];
  Meta.required_additional_arguments_for_validation := ["allow_user_input_node"]
|}.

Definition SumNode : Node := {|
  Meta.name := "sum";
  Meta.choice_of := Some "numerical_node";
  Meta.choice_type := Some "sum";
  Meta.shortform_field := None;
  Meta.shortform_conversion := fun shortform_value => shortform_value;
  Meta.quietly_drop_superfluous_fields := [];
  Meta.required_additional_arguments_for_validation := ["allow_user_input_node"]
|}.

Definition fields_of (name : string) (own : list (string * Field))
  : list (string * Field) :=
  match merged_fields name [] [[("_comment", _comment)]; own] with
  | Ok l => l
  | Raise _ => []
  end.

Definition numerical_registry : Registry := {|
  _value_to_node := [("constant", ConstantNode); ("sum", SumNode)];
  _value_to_node_fields :=
    [("constant", fields_of "constant" [("val", val)]);
     ("sum", fields_of "sum" [("summands", summands)])];
  _choice_to_type_to_values :=
    [("numerical_node", [("constant", "constant"); ("sum", "sum")])]
|}.

(** The kwargs of [functions.validate_example_object]. *)
Definition allow_user_input : kwargs_dict :=
  [("allow_user_input_node", KValue (VBool true))].

(** A group of two Nodes, one of which has no required field: it validates
    the empty dict. *)
Definition NoteNode : Node := {|
  Meta.name := "note";
  Meta.choice_of := Some "annotated";
  Meta.choice_type := Some "note";
  Meta.shortform_field := None;
  Meta.shortform_conversion := fun shortform_value => shortform_value;
  Meta.quietly_drop_superfluous_fields := [];
  Meta.required_additional_arguments_for_validation := []
|}.

Definition NumberNode : Node := {|
  Meta.name := "number";
  Meta.choice_of := Some "annotated";
  Meta.choice_type := Some "number";
  Meta.shortform_field := None;
  Meta.shortform_conversion := fun shortform_value => shortform_value;
  Meta.quietly_drop_superfluous_fields := [];
  Meta.required_additional_arguments_for_validation := []
|}.

Definition annotated_registry : Registry := {|
  _value_to_node := [("note", NoteNode); ("number", NumberNode)];
  _value_to_node_fields :=
    [("note", [("_comment", _comment)]);
     ("number", [("_comment", _comment); ("val", val)])];
  _choice_to_type_to_values :=
    [("annotated", [("note", "note"); ("number", "number")])]
|}.

(** A candidate that scribbles over the trace it is handed and then
    rejects the value. *)
Definition scribbling_call : Node -> string -> pyvalue -> kwargs_dict -> M pyvalue :=
  fun _ _ _ _ =>
    let* l := so_get "node_trace" in
    store l (VStr "scribbled");;
    invalid_params "rejected" [].

(** A Node with one field, [tags = MultipleChoiceSelection(['a', 'b'])],
    every keyword of the field at its default. *)
Definition tags : Field := MultipleChoiceSelection ["a"; "b"] (Field_defaults 0).

Definition TaggedNode : Node := {|
  Meta.name := "tagged";
  Meta.choice_of := None;
  Meta.choice_type := None;
  Meta.shortform_field := None;
  Meta.shortform_conversion := fun shortform_value => shortform_value;
  Meta.quietly_drop_superfluous_fields := [];
  Meta.required_additional_arguments_for_validation := []
|}.

Definition tagged_registry : Registry := {|
  _value_to_node := [("tagged", TaggedNode)];
  _value_to_node_fields := [("tagged", [("tags", tags)])];
  _choice_to_type_to_values := []
|}.

(** A Node with the fields of [nodesExample.UserInputNode] and the
    [validate] of [Node], declared after SumNode as a third member of the
    group 'numerical_node': [on_error] is not required, its default is 0. *)
Definition message : Field :=
  mkField (Field_defaults 4)
          (FString {| min_length := None; max_length := None;
                      subclass := PlainString |}).

Definition on_error : Field :=
  mkField {| null := false; default := VInt 0; dont_auto_validate := false;
             derived_field := false; dont_print_default := false;
             validation_accepts_nulls := false;
             help := "This specified what happens if the user fails to enter a valid number as input.";
             order_of_creation := 7 |}
          (FPrimitiveValueOrGetter
             (mkField (Field_defaults 5) (FInteger None None))
             (mkField (Field_defaults 6) (FValue "prompt" pass_allow_user_input_node))).

Definition PromptNode : Node := {|
  Meta.name := "prompt";
  Meta.choice_of := Some "numerical_node";
  Meta.choice_type := Some "prompt";
  Meta.shortform_field := None;
  Meta.shortform_conversion := fun shortform_value => shortform_value;
  Meta.quietly_drop_superfluous_fields := [];
  Meta.required_additional_arguments_for_validation := ["allow_user_input_node"]
|}.

Definition prompting_registry : Registry := {|
  _value_to_node :=
    [("constant", ConstantNode); ("sum", SumNode); ("prompt", PromptNode)];
  _value_to_node_fields :=
    [("constant", fields_of "constant" [("val", val)]);
     ("sum", fields_of "sum" [("summands", summands)]);
     ("prompt", fields_of "prompt" [("message", message); ("on_error", on_error)])];
  _choice_to_type_to_values :=
    [("numerical_node",
      [("constant", "constant"); ("sum", "sum"); ("prompt", "prompt")])]
|}.

(** [{'summands': [10, {'message': 'n?'}]}] and what it validates to. *)
Definition raw_sum : pyvalue :=
  VDict [("summands", VList [VInt 10; VDict [("message", VStr "n?")]])].

Definition canonical_sum : pyvalue :=
  VDict [("type", VStr "sum");
         ("summands",
          VList [VDict [("type", VStr "constant"); ("val", VInt 10)];
                 VDict [("type", VStr "prompt"); ("message", VStr "n?");
                        ("on_error", VInt 0)]])].

(** * Properties *)

(** ** Scalar fields *)

(** C9. Whatever its [min] and [max], a Float field rejects NaN and both
    infinities with an InvalidParamsException. *)
Theorem Float_rejects_nan_and_infinity :
  forall execute attrs min max kwargs allow_null c,
    Field_validate execute (mkField attrs (FFloat min max)) (VFloat S754_nan)
      kwargs allow_null c
    = (Raise (InvalidParamsException (Msg "the value must not be NaN." [])), c)
    /\ forall negative,
        Field_validate execute (mkField attrs (FFloat min max))
          (VFloat (S754_infinity negative)) kwargs allow_null c
        = (Raise (InvalidParamsException (Msg "the value must not be infinite." [])), c).
Proof.
  intros; split; [|intros negative]; reflexivity.
Qed.

(** C10. An Integer or Float field without bounds accepts a Python bool and
    returns it unchanged, because bool is a subclass of int; the Boolean
    field rejects every value that is neither None nor a bool. *)
Theorem Integer_and_Float_accept_bool :
  forall execute attrs b val kwargs allow_null c,
    is_None val = false -> isinstance_bool val = false ->
    Field_validate execute (mkField attrs (FInteger None None)) (VBool b)
      kwargs allow_null c = (Ok (VBool b), c)
    /\ Field_validate execute (mkField attrs (FFloat None None)) (VBool b)
      kwargs allow_null c = (Ok (VBool b), c)
    /\ Field_validate execute (mkField attrs FBoolean) (VBool b)
      kwargs allow_null c = (Ok (VBool b), c)
    /\ Field_validate execute (mkField attrs FBoolean) val kwargs allow_null c
       = (Raise (InvalidParamsException (Msg "the field must be a boolean value" [])), c).
Proof.
  intros execute attrs b val kwargs allow_null c Hnone Hbool.
  repeat split; try (destruct b; reflexivity).
  cbn. unfold Field_validate_wrapper. rewrite Hnone.
  unfold Boolean_helper. rewrite Hbool. reflexivity.
Qed.

Lemma Integer_and_Float_accept_bool_witness :
  Field_validate no_execute (mkField (Field_defaults 0) (FInteger None None))
    (VBool true) None None initial_context = (Ok (VBool true), initial_context)
  /\ Field_validate no_execute (mkField (Field_defaults 0) FBoolean)
       (VInt 1) None None initial_context
     = (Raise (InvalidParamsException (Msg "the field must be a boolean value" [])),
        initial_context).
Proof.
  destruct (Integer_and_Float_accept_bool no_execute (Field_defaults 0) true (VInt 1)
              None None initial_context eq_refl eq_refl) as (H1 & _ & _ & H4).
  split; [exact H1 | exact H4].
Defined.

(** C7 (the code at the failing inputs). An element that is not among the
    choices but is falsy (the empty str, 0) passes the test
    [any([a for a in val if a not in self.choices])] and is dropped
    silently instead of being rejected. *)
Theorem MultipleChoiceSelection_accepts_falsy_outsider :
  forall execute attrs kwargs allow_null c,
    Field_validate execute (MultipleChoiceSelection ["a"; "b"] attrs) (VStr "")
      kwargs allow_null c = (Ok (VList []), c)
    /\ Field_validate execute (MultipleChoiceSelection ["a"; "b"] attrs)
         (VList [VStr "b"; VInt 0; VStr "a"]) kwargs allow_null c
       = (Ok (VList [VStr "a"; VStr "b"]), c)
    /\ Field_validate execute (MultipleChoiceSelection ["a"; "b"] attrs)
         (VList [VStr "b"; VStr "c"]) kwargs allow_null c
       = (Raise (InvalidParamsException
           (Msg "The value is not valid. Acceptable values are None, one of the following values, or a list of any number of the following values:\n%s"
                [AVal (VStr "'a', 'b'")])), c).
Proof.
  intros; repeat split; reflexivity.
Qed.

(** ** The stable sort *)

Section StableSortFacts.
Context {A : Type} (leb : A -> A -> bool).
Hypothesis leb_total : forall a b, leb a b = false -> leb b a = true.
Hypothesis leb_trans : forall a b c, leb a b = true -> leb b c = true -> leb a c = true.

Lemma insert_sorted_Permutation x (l : list A) :
  Permutation (x :: l) (insert_sorted leb x l).
Proof.
  induction l as [|y r IH]; simpl; [reflexivity|].
  destruct (leb x y); [reflexivity|].
  rewrite perm_swap. now apply perm_skip.
Qed.

Lemma sorted_Permutation (l : list A) : Permutation l (sorted leb l).
Proof.
  induction l as [|x r IH]; simpl; [reflexivity|].
  rewrite <- insert_sorted_Permutation. now apply perm_skip.
Qed.

Lemma insert_sorted_StronglySorted x (l : list A) :
  StronglySorted (fun a b => leb a b = true) l ->
  StronglySorted (fun a b => leb a b = true) (insert_sorted leb x l).
Proof.
  induction 1 as [|y r Hr IH Hy]; simpl.
  - repeat constructor.
  - destruct (leb x y) eqn:E.
    + constructor; [now constructor|].
      constructor; [exact E|].
      eapply Forall_impl; [exact Hy|]. intros z Hz. eauto.
    + constructor; [exact IH|].
      rewrite <- (insert_sorted_Permutation x r).
      constructor; [now apply leb_total | exact Hy].
Qed.

Lemma sorted_StronglySorted (l : list A) :
  StronglySorted (fun a b => leb a b = true) (sorted leb l).
Proof.
  induction l as [|x r IH]; simpl; [constructor|].
  now apply insert_sorted_StronglySorted.
Qed.

(** A list that is already in order is left as it is. *)
Lemma sorted_id (l : list A) :
  StronglySorted (fun a b => leb a b = true) l -> sorted leb l = l.
Proof.
  induction 1 as [|x r Hr IH Hx]; simpl; [reflexivity|].
  rewrite IH. destruct r as [|y r']; simpl; [reflexivity|].
  inversion Hx as [|? ? Hxy _]; subst. now rewrite Hxy.
Qed.

End StableSortFacts.

Lemma StronglySorted_impl {A} (P Q : A -> A -> Prop) (l : list A) :
  (forall a b, P a b -> Q a b) -> StronglySorted P l -> StronglySorted Q l.
Proof.
  intros HPQ. induction 1 as [|x r Hr IH Hx]; constructor; auto.
  eapply Forall_impl; [exact Hx|]. auto.
Qed.

(** ** Association lists *)

Lemma dict_get_set_eq {A} (d : list (string * A)) k v :
  dict_get (dict_set d k v) k = Some v.
Proof.
  induction d as [|[k' v'] r IH]; simpl.
  - now rewrite String.eqb_refl.
  - destruct (String.eqb k k') eqn:E; simpl.
    + now rewrite String.eqb_refl.
    + now rewrite E.
Qed.

Lemma dict_get_set_ne {A} (d : list (string * A)) k k' v :
  k <> k' -> dict_get (dict_set d k v) k' = dict_get d k'.
Proof.
  intros Hne. induction d as [|[k0 v0] r IH]; simpl.
  - destruct (String.eqb k' k) eqn:E; [|reflexivity].
    apply String.eqb_eq in E. congruence.
  - destruct (String.eqb k k0) eqn:E; simpl.
    + apply String.eqb_eq in E. subst k0.
      destruct (String.eqb k' k) eqn:E'; [|reflexivity].
      apply String.eqb_eq in E'. congruence.
    + destruct (String.eqb k' k0); [reflexivity | exact IH].
Qed.

Lemma dict_get_set {A} (d : list (string * A)) k k' v :
  dict_get (dict_set d k v) k' = if String.eqb k k' then Some v else dict_get d k'.
Proof.
  destruct (String.eqb k k') eqn:E.
  - apply String.eqb_eq in E. subst. apply dict_get_set_eq.
  - apply dict_get_set_ne. intros ->. now rewrite String.eqb_refl in E.
Qed.

Lemma dict_get_Some_In {A} (d : list (string * A)) k v :
  dict_get d k = Some v -> In (k, v) d.
Proof.
  induction d as [|[k' v'] r IH]; simpl; [discriminate|].
  destruct (String.eqb k k') eqn:E.
  - apply String.eqb_eq in E. intros [= ->]. subst. now left.
  - intros H. right. now apply IH.
Qed.

Lemma dict_get_None_keys {A} (d : list (string * A)) k :
  dict_get d k = None <-> ~ In k (keys d).
Proof.
  induction d as [|[k' v'] r IH]; simpl; [tauto|].
  destruct (String.eqb k k') eqn:E.
  - apply String.eqb_eq in E. subst. split; [discriminate|]. intros H. exfalso. auto.
  - apply String.eqb_neq in E. rewrite IH. split; [intros H [?|?]; congruence | tauto].
Qed.

Lemma In_dict_get_NoDup {A} (d : list (string * A)) k v :
  NoDup (keys d) -> In (k, v) d -> dict_get d k = Some v.
Proof.
  induction d as [|[k' v'] r IH]; simpl; [tauto|].
  intros Hnd [Heq|Hin].
  - injection Heq as -> ->. now rewrite String.eqb_refl.
  - apply NoDup_cons in Hnd as [Hnotin Hnd'].
    destruct (String.eqb k k') eqn:E.
    + apply String.eqb_eq in E. subst. exfalso. apply Hnotin.
      apply list_elem_of_In. change (In k' (map fst r)).
      apply in_map_iff. now exists (k', v).
    + now apply IH.
Qed.

Lemma keys_dict_set {A} (d : list (string * A)) k v :
  keys (dict_set d k v) = if dict_has d k then keys d else (keys d ++ [k])%list.
Proof.
  unfold dict_has. induction d as [|[k' v'] r IH]; simpl; [reflexivity|].
  destruct (String.eqb k k') eqn:E; simpl.
  - apply String.eqb_eq in E. now subst.
  - rewrite IH. now destruct (dict_get r k).
Qed.

Lemma dict_set_NoDup {A} (d : list (string * A)) k v :
  NoDup (keys d) -> NoDup (keys (dict_set d k v)).
Proof.
  intros Hnd. rewrite keys_dict_set. unfold dict_has.
  destruct (dict_get d k) eqn:E; [exact Hnd|].
  apply dict_get_None_keys in E.
  apply NoDup_app. split; [exact Hnd|]. split.
  - intros x Hx Hx'. apply list_elem_of_In in Hx.
    apply list_elem_of_In in Hx'. destruct Hx' as [<-|[]]. contradiction.
  - apply NoDup_singleton.
Qed.

(** ** The merged field list of a Node class *)

Lemma dict_get_app {A} (d1 d2 : list (string * A)) k :
  dict_get (d1 ++ d2)%list k
  = match dict_get d1 k with Some v => Some v | None => dict_get d2 k end.
Proof.
  induction d1 as [|[k' v'] r IH]; simpl; [reflexivity|].
  now destruct (String.eqb k k').
Qed.

Lemma add_class_fields_get name ow class_dict d0 d :
  add_class_fields name ow class_dict d0 = Ok d ->
  forall k,
    dict_get d k
    = match dict_get (rev (map (fun kv => (strip_trailing_underscore kv.1, kv.2))
                               class_dict)) k with
      | Some f => Some f
      | None => dict_get d0 k
      end.
Proof.
  revert d0. induction class_dict as [|[k0 v0] rest IH]; simpl; intros d0 H k.
  - now injection H as ->.
  - destruct (dict_has d0 (strip_trailing_underscore k0) && negb (str_in _ ow));
      [discriminate|].
    rewrite (IH _ H k), dict_get_app. simpl.
    destruct (dict_get (rev _) k); [reflexivity|].
    rewrite dict_get_set, (String.eqb_sym k).
    now destruct (String.eqb (strip_trailing_underscore k0) k).
Qed.

Lemma add_class_fields_NoDup name ow class_dict d0 d :
  add_class_fields name ow class_dict d0 = Ok d ->
  NoDup (keys d0) -> NoDup (keys d).
Proof.
  revert d0. induction class_dict as [|[k0 v0] rest IH]; simpl; intros d0 H Hnd.
  - now injection H as <-.
  - destruct (dict_has d0 _ && negb _); [discriminate|].
    eapply IH; [exact H|]. now apply dict_set_NoDup.
Qed.

Lemma collect_fields_get name ow classes d0 d :
  collect_fields name ow classes d0 = Ok d ->
  forall k,
    dict_get d k
    = match dict_get (rev (declarations classes)) k with
      | Some f => Some f
      | None => dict_get d0 k
      end.
Proof.
  revert d0. induction classes as [|cd rest IH]; simpl; intros d0 H k.
  - now injection H as ->.
  - destruct (add_class_fields name ow cd d0) as [d1|e] eqn:E; [|discriminate].
    rewrite (IH _ H k). unfold declarations. simpl.
    rewrite map_app, rev_app_distr, dict_get_app.
    destruct (dict_get (rev (map _ (concat rest))) k); [reflexivity|].
    apply (add_class_fields_get _ _ _ _ _ E).
Qed.

Lemma collect_fields_NoDup name ow classes d0 d :
  collect_fields name ow classes d0 = Ok d ->
  NoDup (keys d0) -> NoDup (keys d).
Proof.
  revert d0. induction classes as [|cd rest IH]; simpl; intros d0 H Hnd.
  - now injection H as <-.
  - destruct (add_class_fields name ow cd d0) as [d1|e] eqn:E; [|discriminate].
    eapply IH; [exact H|]. eapply add_class_fields_NoDup; eauto.
Qed.

Lemma creation_leb_total a b : creation_leb a b = false -> creation_leb b a = true.
Proof.
  unfold creation_leb. intros H. apply Nat.leb_gt in H. apply Nat.leb_le. lia.
Qed.

Lemma creation_leb_trans a b c :
  creation_leb a b = true -> creation_leb b c = true -> creation_leb a c = true.
Proof.
  unfold creation_leb. intros H1 H2.
  apply Nat.leb_le in H1. apply Nat.leb_le in H2. apply Nat.leb_le. lia.
Qed.

(** C5, as the code has it. The merged field list is in the creation
    order of the Field objects that survive the walk, and the survivor of a
    name is its most specific declaration: an overriding field stands where
    its own creation puts it, not where the name was first introduced. *)
Theorem merged_fields_creation_order :
  forall name overwrites_existing_fields classes l,
    merged_fields name overwrites_existing_fields classes = Ok l ->
    StronglySorted
      (fun a b => (order_of_creation (attrs_of a.2)
                   <= order_of_creation (attrs_of b.2))%nat) l
    /\ NoDup (keys l)
    /\ forall k f, In (k, f) l <-> last_declared classes k = Some f.
Proof.
  intros name ow classes l H. unfold merged_fields in H.
  destruct (collect_fields name ow classes []) as [d|e] eqn:E; [|discriminate].
  injection H as <-.
  pose proof (sorted_Permutation creation_leb d) as Hperm.
  pose proof (collect_fields_NoDup _ _ _ _ _ E (NoDup_nil_2 : NoDup (keys (@nil (string * Field))))) as Hnd.
  split; [|split].
  - eapply StronglySorted_impl;
      [|exact (sorted_StronglySorted creation_leb creation_leb_total
                 creation_leb_trans d)].
    intros a b Hab. now apply Nat.leb_le.
  - unfold keys. rewrite <- Hperm. exact Hnd.
  - intros k f. unfold last_declared.
    assert (Hd : dict_get d k = dict_get (rev (declarations classes)) k).
    { rewrite (collect_fields_get _ _ _ _ _ E k).
      now destruct (dict_get (rev (declarations classes)) k). }
    rewrite <- Hd.
    split.
    + intros Hin. apply In_dict_get_NoDup; [exact Hnd|].
      apply list_elem_of_In. rewrite Hperm. now apply list_elem_of_In.
    + intros Hget. apply dict_get_Some_In in Hget.
      apply list_elem_of_In. rewrite <- Hperm. now apply list_elem_of_In.
Qed.

Lemma merged_fields_creation_order_witness :
  merged_fields "Sub" ["a"] override_hierarchy = Ok [("b", base_b); ("a", sub_a)]
  /\ StronglySorted
       (fun a b => (order_of_creation (attrs_of a.2)
                    <= order_of_creation (attrs_of b.2))%nat)
       [("b", base_b); ("a", sub_a)]
  /\ last_declared override_hierarchy "a" = Some sub_a.
Proof.
  destruct (merged_fields_creation_order "Sub" ["a"] override_hierarchy
              [("b", base_b); ("a", sub_a)] eq_refl) as (Hs & _ & Hlast).
  split; [reflexivity|]. split; [exact Hs|].
  apply Hlast. right. left. reflexivity.
Defined.

(** C5, as the spec words it, fails: [a] is introduced by the base class
    before [b], its override in the subclass is created after [b], and the
    merged list puts [a] behind [b]. *)
Lemma merged_fields_not_in_introduction_order :
  merged_fields "Sub" ["a"] override_hierarchy = Ok [("b", base_b); ("a", sub_a)]
  /\ ~ StronglySorted
         (fun a b => introduction_leb override_hierarchy a b = true)
         [("b", base_b); ("a", sub_a)].
Proof.
  split; [reflexivity|].
  intros H. inversion H as [|x r _ Hx]; subst.
  inversion Hx as [|y r' Hba _]; subst.
  vm_compute in Hba. discriminate.
Qed.

(** ** The shortform of a Node *)

(** C6, as the code has it. A value that is not a dict, given to a Node
    with a shortform, is validated by the shortform field first; only if
    that succeeds is it converted, and a conversion that does not yield a
    dict raises a ProgrammingError, in [Node.validate] and in the
    backtracking loop of [execute_function_on_node] alike (where the
    ProgrammingError is not caught either). *)
Theorem shortform_conversion_must_yield_dict :
  forall R execute call cls shortform_field obj kwargs kw c previous_object c1
         copy_of_stack_objects c1',
    Meta.shortform_field cls = Some shortform_field ->
    isinstance_dict obj = false ->
    isinstance_dict (Meta.shortform_conversion cls obj) = false ->
    node_trace_step_enter "conversion from shortform" obj c = (Ok previous_object, c1) ->
    copy_stack_objects c = (Ok copy_of_stack_objects, c1') ->
    Node_validate R execute cls obj kwargs c
    = match shortform_validate shortform_field obj c1 with
      | (Ok _, c2) =>
          (Raise (ProgrammingError
                    (Msg "the shortform conversion did not return a dict" [])), c2)
      | (Raise e, c2) => (Raise e, c2)
      end
    /\ try_candidate call cls obj kw c
      = match shortform_validate shortform_field obj c1' with
        | (Ok _, c2) =>
            (Raise (ProgrammingError
                      (Msg "the shortform conversion did not return a dict" [])), c2)
        | (Raise (InvalidParamsException _), c2) => (Ok None, c2)
        | (Raise e, c2) => (Raise e, c2)
        end.
Proof.
  intros R execute call cls sf obj kwargs kw c prev c1 copy c1'
         Hsf Hobj Hconv Henter Hcopy.
  split.
  - unfold Node_validate. rewrite Hsf, Hobj. simpl negb. cbv iota.
    unfold node_trace_step, bind. rewrite Henter.
    destruct (shortform_validate sf obj c1) as [[v|e] c2]; [|reflexivity].
    rewrite Hconv. reflexivity.
  - unfold try_candidate, try_except_InvalidParams, bind. rewrite Hcopy.
    rewrite Hsf, Hobj. cbn [negb]. cbv beta iota.
    destruct (shortform_validate sf obj c1') as [[v|e] c2].
    + rewrite Hconv. reflexivity.
    + destruct e; reflexivity.
Qed.

Lemma shortform_conversion_must_yield_dict_witness :
  (Node_validate literal_registry no_execute literal_node (VInt 10) None
     initial_context).1
  = Raise (ProgrammingError (Msg "the shortform conversion did not return a dict" []))
  /\ (try_candidate no_call literal_node (VInt 10) [] initial_context).1
     = Raise (ProgrammingError (Msg "the shortform conversion did not return a dict" [])).
Proof.
  edestruct (shortform_conversion_must_yield_dict literal_registry no_execute no_call
               literal_node (mkField (Field_defaults 0) (FFloat None None))
               (VInt 10) None [] initial_context) as [H1 H2];
    [reflexivity | reflexivity | reflexivity | reflexivity | reflexivity |].
  rewrite H1, H2. split; reflexivity.
Defined.

(** C6, as the spec words it, fails: the error raised when the conversion
    does not yield a dict is a ProgrammingError, not an
    InvalidParamsException. *)
Lemma shortform_conversion_error_is_not_InvalidParams :
  (Node_validate literal_registry no_execute literal_node (VInt 10) None
     initial_context).1
  = Raise (ProgrammingError (Msg "the shortform conversion did not return a dict" []))
  /\ is_InvalidParams
       (Node_validate literal_registry no_execute literal_node (VInt 10) None
          initial_context).1 = false.
Proof.
  split; vm_compute; reflexivity.
Qed.

(** ** Stepping through the state-and-exception monad *)

Lemma bind_Ok {A B} (m : M A) (k : A -> M B) c a c1 :
  m c = (Ok a, c1) -> bind m k c = k a c1.
Proof. unfold bind. now intros ->. Qed.

Lemma bind_Raise {A B} (m : M A) (k : A -> M B) c e c1 :
  m c = (Raise e, c1) -> bind m k c = (Raise e, c1).
Proof. unfold bind. now intros ->. Qed.

Lemma bind_Ok_inv {A B} (m : M A) (k : A -> M B) c b c' :
  bind m k c = (Ok b, c') ->
  exists a c1, m c = (Ok a, c1) /\ k a c1 = (Ok b, c').
Proof.
  unfold bind. destruct (m c) as [[a|e] c1]; [|discriminate]. eauto.
Qed.

Lemma node_trace_step_Ok_inv {A} new_value object (body : M A) c r c' :
  node_trace_step new_value object body c = (Ok r, c') ->
  exists previous_object c1 c2,
    node_trace_step_enter new_value object c = (Ok previous_object, c1)
    /\ body c1 = (Ok r, c2)
    /\ node_trace_step_exit previous_object c2 = (Ok tt, c').
Proof.
  unfold node_trace_step. intros H.
  apply bind_Ok_inv in H as (prev & c1 & Henter & H).
  apply bind_Ok_inv in H as (r' & c2 & Hbody & H).
  apply bind_Ok_inv in H as ([] & c3 & Hexit & H).
  injection H as <- <-. eauto 8.
Qed.

Lemma lift_Ok_inv {A} (r : result A) c a c' :
  lift r c = (Ok a, c') -> r = Ok a /\ c' = c.
Proof. destruct r; simpl; unfold ret, raise; intros [= <- <-]; auto. Qed.

(** ** Mapping: keys that collide after normalisation *)

Section MappingFacts.
Variable key_of : pyvalue -> result string.
Variable validate_content : pyvalue -> M pyvalue.

Local Abbreviation items_loop := (Mapping_items (fun k => lift (key_of k)) validate_content).

Lemma Mapping_items_app pre post res c :
  items_loop (pre ++ post)%list res c
  = match items_loop pre res c with
    | (Ok res', c') => items_loop post res' c'
    | (Raise e, c') => (Raise e, c')
    end.
Proof.
  revert res c. induction pre as [|[k v] pre IH]; intros res c; [reflexivity|].
  simpl. unfold bind.
  destruct (try_except_InvalidParams _ _ c) as [[key|e] c1]; [|reflexivity].
  destruct (node_trace_step _ v (validate_content v) c1) as [[val|e] c2]; [|reflexivity].
  destruct (dict_has res key); [reflexivity|]. apply IH.
Qed.

(** One iteration that did not raise: the key was normalised to a key that
    was not yet in [res]. *)
Lemma Mapping_items_cons_Ok k v rest res c res' c' :
  items_loop ((k, v) :: rest) res c = (Ok res', c') ->
  exists canon validated_value c1,
    key_of (VStr k) = Ok canon
    /\ dict_has res canon = false
    /\ items_loop rest (dict_set res canon validated_value) c1 = (Ok res', c').
Proof.
  simpl. intros H.
  apply bind_Ok_inv in H as (canon & c1 & Hkey & H).
  apply bind_Ok_inv in H as (val & c2 & Hval & H).
  destruct (dict_has res canon) eqn:Hhas; [discriminate|].
  exists canon, val, c2. split; [|auto].
  unfold try_except_InvalidParams in Hkey.
  destruct (node_trace_step "key" (VStr k) (lift (key_of (VStr k))) c)
    as [[key|e] c0] eqn:Hstep.
  - injection Hkey as -> ->.
    apply node_trace_step_Ok_inv in Hstep as (? & ? & ? & _ & Hbody & _).
    now apply lift_Ok_inv in Hbody as [-> _].
  - destruct e; discriminate.
Qed.

(** A run that does not raise saw pairwise distinct normalised keys, none
    of them in [res] already, and appended them to [res] in order. *)
Lemma Mapping_items_Ok_keys items res c res' c' :
  NoDup (keys res) ->
  items_loop items res c = (Ok res', c') ->
  exists canons,
    Forall2 (fun kv canon => key_of (VStr kv.1) = Ok canon) items canons
    /\ keys res' = (keys res ++ canons)%list
    /\ NoDup (keys res').
Proof.
  revert res c. induction items as [|[k v] rest IH]; intros res c Hnd H.
  - injection H as <- <-. exists [].
    split; [constructor|]. split; [now rewrite app_nil_r | exact Hnd].
  - apply Mapping_items_cons_Ok in H as (canon & val & c1 & Hkey & Hhas & H).
    apply IH in H as (canons & Hall & Hkeys & Hnd'); [|now apply dict_set_NoDup].
    exists (canon :: canons). split; [constructor; auto|].
    rewrite keys_dict_set, Hhas in Hkeys.
    split; [|exact Hnd']. rewrite Hkeys, <- app_assoc. reflexivity.
Qed.

Lemma Mapping_items_collision_never_Ok items c res' c' i j ki kj canon :
  items_loop items [] c = (Ok res', c') ->
  i <> j ->
  keys items !! i = Some ki -> keys items !! j = Some kj ->
  key_of (VStr ki) = Ok canon -> key_of (VStr kj) = Ok canon ->
  False.
Proof.
  intros H Hij Hi Hj Hci Hcj.
  apply Mapping_items_Ok_keys in H as (canons & Hall & Hkeys & Hnd);
    [|apply NoDup_nil_2].
  simpl in Hkeys. rewrite Hkeys in Hnd.
  unfold keys in Hi, Hj. rewrite list_lookup_fmap in Hi, Hj.
  destruct (items !! i) as [[ki' vi]|] eqn:Ei; [|discriminate].
  destruct (items !! j) as [[kj' vj]|] eqn:Ej; [|discriminate].
  simpl in Hi, Hj. injection Hi as ->. injection Hj as ->.
  destruct (Forall2_lookup_l _ _ _ _ _ Hall Ei) as (ci & Eci & Hi').
  destruct (Forall2_lookup_l _ _ _ _ _ Hall Ej) as (cj & Ecj & Hj').
  simpl in Hi', Hj'. rewrite Hci in Hi'. rewrite Hcj in Hj'.
  injection Hi' as <-. injection Hj' as <-.
  apply Hij. eapply NoDup_lookup; eauto.
Qed.

End MappingFacts.

Lemma dict_has_keys {A} (d : list (string * A)) k :
  dict_has d k = true <-> In k (keys d).
Proof.
  unfold dict_has. destruct (dict_get d k) eqn:E.
  - split; [intros _|reflexivity].
    apply dict_get_Some_In in E. change (In k (map fst d)).
    apply in_map_iff. now exists (k, a).
  - apply dict_get_None_keys in E. split; [discriminate | contradiction].
Qed.

Lemma Field_validate_Mapping execute attrs string_key content d kwargs allow_null :
  Field_validate execute (mkField attrs (FMapping string_key content)) (VDict d)
    kwargs allow_null
  = bind (Mapping_items (fun k => lift (StringSpec_helper string_key k))
            (fun v => Field_validate execute content v kwargs None) d [])
         (Mapping_order string_key).
Proof. reflexivity. Qed.

(** C8. Two entries of a Mapping whose keys normalise to the same key
    never validate: the call does not return. And the collision itself is
    reported as an InvalidParamsException: once the entries before the
    second of the two keys have been validated, and that entry's own key
    and value too, the exception raised is "the key occurs more than
    once". (An exception raised while validating an earlier entry, or the
    value of that entry, comes first.) *)
Theorem Mapping_key_collision :
  forall execute attrs string_key content kwargs allow_null
         pre k1 v1 mid k2 v2 post canon c,
    StringSpec_helper string_key (VStr k1) = Ok canon ->
    StringSpec_helper string_key (VStr k2) = Ok canon ->
    is_Ok (Field_validate execute (mkField attrs (FMapping string_key content))
             (VDict (pre ++ (k1, v1) :: mid ++ (k2, v2) :: post)%list)
             kwargs allow_null c).1 = false
    /\ forall res c1 c2 validated_value c3,
        Mapping_items (fun k => lift (StringSpec_helper string_key k))
          (fun v => Field_validate execute content v kwargs None)
          (pre ++ (k1, v1) :: mid)%list [] c = (Ok res, c1) ->
        node_trace_step "key" (VStr k2) (ret canon) c1 = (Ok canon, c2) ->
        node_trace_step ("value for key '" +:+ k2 +:+ "'") v2
          (Field_validate execute content v2 kwargs None) c2
        = (Ok validated_value, c3) ->
        Field_validate execute (mkField attrs (FMapping string_key content))
          (VDict (pre ++ (k1, v1) :: mid ++ (k2, v2) :: post)%list)
          kwargs allow_null c
        = (Raise (InvalidParamsException
             (Msg "after validating and simplifying, the key '%s' occurs more than once."
                  [AVal (VStr canon)])), c3).
Proof.
  intros execute attrs sk content kwargs an pre k1 v1 mid k2 v2 post canon c H1 H2.
  rewrite Field_validate_Mapping. split.
  - destruct (bind _ _ c) as [[v|e] c'] eqn:E; [|reflexivity]. exfalso.
    apply bind_Ok_inv in E as (res & c1 & E & _).
    eapply (Mapping_items_collision_never_Ok _ _ _ _ _ _
              (length pre) (length pre + S (length mid))%nat k1 k2 canon E);
      [lia | | | exact H1 | exact H2].
    + unfold keys. rewrite map_app. simpl.
      rewrite lookup_app_r; rewrite length_map; [|lia].
      now rewrite Nat.sub_diag.
    + unfold keys. rewrite map_app. simpl.
      rewrite lookup_app_r; rewrite length_map; [|lia].
      replace (length pre + S (length mid) - length pre)%nat
        with (S (length mid)) by lia.
      simpl. rewrite map_app. simpl.
      rewrite lookup_app_r; rewrite length_map; [|lia].
      now rewrite Nat.sub_diag.
  - intros res c1 c2 val c3 Hpre Hkey Hval.
    replace (pre ++ (k1, v1) :: mid ++ (k2, v2) :: post)%list
      with ((pre ++ (k1, v1) :: mid) ++ (k2, v2) :: post)%list
      by (rewrite <- app_assoc; reflexivity).
    unfold bind at 1. rewrite Mapping_items_app, Hpre. simpl.
    rewrite H2. change (lift (Ok canon)) with (@ret string canon).
    unfold bind at 1, try_except_InvalidParams. rewrite Hkey.
    unfold bind at 1. rewrite Hval.
    assert (Hhas : dict_has res canon = true).
    { apply Mapping_items_Ok_keys in Hpre as (canons & Hall & Hkeys & _);
        [|apply NoDup_nil_2].
      apply dict_has_keys. rewrite Hkeys. simpl.
      apply Forall2_app_inv_l in Hall as (cs1 & cs2 & _ & Hcs2 & ->).
      inversion Hcs2 as [|? cn ? cs' Hcn _]; subst. simpl in Hcn.
      rewrite H1 in Hcn. injection Hcn as <-.
      apply in_or_app. right. now left. }
    rewrite Hhas. reflexivity.
Qed.

Lemma Mapping_key_collision_witness :
  (Field_validate no_execute integer_keyed_mapping
     (VDict [("1", VInt 10); ("01", VInt 20)]) None None initial_context).1
  = Raise (InvalidParamsException
      (Msg "after validating and simplifying, the key '%s' occurs more than once."
           [AVal (VStr "1")])).
Proof.
  edestruct (Mapping_key_collision no_execute (Field_defaults 2) integer_keys
               (mkField (Field_defaults 1) (FInteger None None)) None None
               [] "1" (VInt 10) [] "01" (VInt 20) [] "1" initial_context)
    as [_ H]; [reflexivity | reflexivity |].
  unfold integer_keyed_mapping. simpl app in H.
  erewrite H; [reflexivity | reflexivity | reflexivity | reflexivity].
Defined.

(** ** A field validated without [stack_objects] and [kwargs] *)

Lemma lift_context {A} (r : result A) c : lift r c = (r, c).
Proof. now destruct r. Qed.

Lemma node_trace_step_without_stack {A} new_value object (body : M A) c :
  stack_objects c = None ->
  node_trace_step new_value object body c = (Raise (PyError "TypeError"), c).
Proof.
  intros H. unfold node_trace_step, node_trace_step_enter, bind, so_get.
  now rewrite H.
Qed.

(** [shortform_field.validate(obj)] passes neither [stack_objects] nor
    [kwargs]: whatever the field, the call leaves the context alone and
    never gets as far as [execute_function_on_node]. *)
Lemma Field_validate_without_context f :
  forall val allow_null c,
    stack_objects c = None ->
    exists r, forall execute',
      Field_validate execute' f val None allow_null c = (r, c)
with helper_for_validation_without_context kind :
  forall val c,
    stack_objects c = None ->
    exists r, forall execute',
      helper_for_validation execute' kind val None c = (r, c).
Proof.
  - destruct f as [attrs kind]. intros val allow_null c Hc. simpl.
    unfold Field_validate_wrapper.
    destruct (helper_for_validation_without_context kind val c Hc) as [r Hr].
    destruct (is_None val).
    + destruct (negb _); [eexists; intros; reflexivity|].
      destruct (validation_accepts_nulls attrs); [|eexists; intros; reflexivity].
      exists r. exact Hr.
    + exists r. exact Hr.
  - destruct kind as [value fk | choice fk | value choice primitive min_len fk
                     | sk content | pf cf | | mn mx | mn mx | | choices | spec];
      intros val c Hc; simpl.
    + unfold bind, _get_kwargs_to_use.
      destruct (existsb _ fk); eexists; intros; reflexivity.
    + unfold bind, _get_kwargs_to_use.
      destruct (existsb _ fk); eexists; intros; reflexivity.
    + destruct val as [| | | | |l|]; try (eexists; intros; reflexivity).
      destruct (match min_len with Some m => _ | None => false end);
        [eexists; intros; reflexivity|].
      destruct l as [|x l].
      * eexists; intros; reflexivity.
      * eexists. intros execute'. unfold bind at 1. simpl List_elements.
        unfold bind at 1. rewrite node_trace_step_without_stack by exact Hc.
        reflexivity.
    + destruct val as [| | | | | |d]; try (eexists; intros; reflexivity).
      destruct d as [|[k v] d].
      * unfold bind. simpl. unfold Mapping_order.
        destruct (subclass sk); eexists; intros; reflexivity.
      * eexists. intros execute'. unfold bind at 1. simpl Mapping_items.
        unfold bind at 1, try_except_InvalidParams.
        rewrite node_trace_step_without_stack by exact Hc. reflexivity.
    + destruct (isinstance_primitive val).
      * exact (Field_validate_without_context pf val None c Hc).
      * exact (Field_validate_without_context cf val None c Hc).
    + eexists; intros; reflexivity.
    + eexists; intros; apply lift_context.
    + eexists; intros; apply lift_context.
    + eexists; intros; apply lift_context.
    + eexists; intros; apply lift_context.
    + destruct (StringSpec_helper spec val); eexists; intros; reflexivity.
Qed.

Lemma shortform_validate_context shortform_field obj c :
  (shortform_validate shortform_field obj c).2 = c.
Proof.
  unfold shortform_validate, with_no_stack_objects.
  destruct (Field_validate_without_context shortform_field obj None
              (Context None (heap c)) eq_refl) as [r Hr].
  rewrite Hr. simpl. now destruct c.
Qed.

(** So the stub [shortform_validate] is built with is never consulted. *)
Lemma shortform_validate_any_execute execute shortform_field obj c :
  shortform_validate shortform_field obj c
  = with_no_stack_objects (Field_validate execute shortform_field obj None None) c.
Proof.
  unfold shortform_validate, with_no_stack_objects.
  destruct (Field_validate_without_context shortform_field obj None
              (Context None (heap c)) eq_refl) as [r Hr].
  now rewrite !Hr.
Qed.

(** ** The key order of a validated Node *)

Lemma index_of_cons_ne x names k :
  x <> k -> index_of (x :: names) k = option_map S (index_of names k).
Proof.
  intros Hne. simpl. destruct (String.eqb x k) eqn:E; [|reflexivity].
  apply String.eqb_eq in E. contradiction.
Qed.

Lemma with_index_cons x names d :
  ~ In x (keys d) ->
  with_index (x :: names) d = option_map (map shift_index) (with_index names d).
Proof.
  induction d as [|[k v] r IH]; intros Hx; [reflexivity|].
  unfold keys in *. simpl in Hx. cbn [with_index].
  rewrite index_of_cons_ne by (intros ->; tauto). rewrite IH by tauto.
  destruct (index_of names k); [|reflexivity].
  now destruct (with_index names r).
Qed.

Lemma sublist_In {A} (l1 l2 : list A) x : sublist l1 l2 -> In x l1 -> In x l2.
Proof.
  intros Hs Hx. apply list_elem_of_In. eapply sublist_submseteq in Hs.
  eapply elem_of_submseteq; [|exact Hs]. now apply list_elem_of_In.
Qed.

Lemma with_index_sublist names :
  NoDup names ->
  forall d, sublist (keys d) names ->
    exists l, with_index names d = Some l /\ map snd l = d
              /\ StronglySorted (fun a b => Nat.leb a.1 b.1 = true) l.
Proof.
  induction 1 as [|x ns Hx Hnd IH]; intros d Hsub.
  - apply sublist_nil_r in Hsub. destruct d; [|discriminate].
    exists []. repeat split; constructor.
  - apply sublist_cons_r in Hsub as [Hsub|(ks & Hks & Hsub)].
    + destruct (IH d Hsub) as (l & Hl & Hsnd & Hs).
      exists (map shift_index l). rewrite with_index_cons, Hl.
      * split; [reflexivity|]. split.
        { rewrite map_map. simpl. rewrite <- Hsnd. reflexivity. }
        { clear -Hs. induction Hs as [|a r Hr IHr Ha]; simpl; constructor; auto.
          apply Forall_map. eapply Forall_impl; [exact Ha|]. auto. }
      * intros Hin. apply Hx. apply list_elem_of_In. eapply sublist_In; eauto.
    + destruct d as [|[k v] d]; [discriminate|]. simpl in Hks.
      injection Hks as -> <-.
      destruct (IH d Hsub) as (l & Hl & Hsnd & Hs).
      exists ((O, (x, v)) :: map shift_index l).
      cbn [with_index]. simpl index_of. rewrite String.eqb_refl.
      rewrite with_index_cons, Hl.
      * split; [reflexivity|]. split.
        { simpl. rewrite map_map. simpl. f_equal. exact Hsnd. }
        { constructor.
          - clear -Hs. induction Hs as [|a r Hr IHr Ha]; simpl; constructor; auto.
            apply Forall_map. eapply Forall_impl; [exact Ha|]. auto.
          - apply Forall_forall. intros; reflexivity. }
      * intros Hin. apply Hx. apply list_elem_of_In. eapply sublist_In; eauto.
Qed.

Lemma map_snd_sorted_id {A B} (leb : A * B -> A * B -> bool) (l : list (A * B)) :
  StronglySorted (fun a b => leb a b = true) l -> map snd (sorted leb l) = map snd l.
Proof. intros H. now rewrite sorted_id. Qed.

(** A result whose keys already follow the declared names is returned as
    it is by the final [sorted]. *)
Lemma order_result_sublist names d c :
  NoDup names -> sublist (keys d) names ->
  order_result names d c = (Ok (VDict d), c).
Proof.
  intros Hnd Hsub. unfold order_result.
  destruct (with_index_sublist names Hnd d Hsub) as (l & -> & Hsnd & Hs).
  unfold ret. now rewrite sorted_id, Hsnd.
Qed.

Lemma declaration_order_sublist fields obj :
  sublist (declaration_order fields obj) (map fst fields).
Proof.
  unfold declaration_order. induction fields as [|nf r IH]; simpl; [constructor|].
  destruct (has_entry obj nf); simpl; now constructor.
Qed.

(** Only which keys are present counts. *)
Lemma declaration_order_same_keys fields obj1 obj2 :
  (forall k, dict_has obj1 k = dict_has obj2 k) ->
  declaration_order fields obj1 = declaration_order fields obj2.
Proof.
  intros H. unfold declaration_order. f_equal.
  induction fields as [|nf r IH]; simpl; [reflexivity|].
  rewrite IH. replace (has_entry obj1 nf) with (has_entry obj2 nf); [reflexivity|].
  unfold has_entry. now rewrite H.
Qed.

Lemma keys_dict_set_new {A} (d : list (string * A)) k v :
  ~ In k (keys d) -> keys (dict_set d k v) = (keys d ++ [k])%list.
Proof.
  intros H. rewrite keys_dict_set.
  destruct (dict_has d k) eqn:E; [|reflexivity].
  apply dict_has_keys in E. contradiction.
Qed.

Lemma validate_fields_keys execute fields obj kwargs :
  NoDup (map fst fields) ->
  forall res0 c res c',
    (forall k, In k (keys res0) -> ~ In k (map fst fields)) ->
    validate_fields execute fields obj kwargs res0 c = (Ok res, c') ->
    keys res = (keys res0 ++ declaration_order fields obj)%list.
Proof.
  induction fields as [|[field_name field] rest IH]; intros Hnd res0 c res c' Hdis H.
  - injection H as <- <-. unfold declaration_order. simpl. now rewrite app_nil_r.
  - apply NoDup_cons in Hnd as [Hname Hnd]. rewrite list_elem_of_In in Hname.
    assert (Hfresh : ~ In field_name (keys res0)).
    { intros Hin. apply (Hdis _ Hin). now left. }
    assert (Hstep : forall res1 c1,
               (res1 = res0 \/ exists v, res1 = dict_set res0 field_name v) ->
               validate_fields execute rest obj kwargs res1 c1 = (Ok res, c') ->
               keys res = (keys res1 ++ declaration_order rest obj)%list).
    { intros res1 c1 Hres1 Hrest. eapply IH; [exact Hnd | | exact Hrest].
      intros k Hk Hin. destruct Hres1 as [->|[v ->]].
      - apply (Hdis _ Hk). now right.
      - rewrite keys_dict_set_new in Hk by exact Hfresh.
        apply in_app_or in Hk as [Hk|[<-|[]]]; [|contradiction].
        apply (Hdis _ Hk). now right. }
    cbn [validate_fields] in H. unfold declaration_order. cbn [List.filter].
    unfold has_entry at 1. cbn [fst snd].
    destruct (dont_auto_validate (attrs_of field)); cbn [negb andb] in *.
    { apply (Hstep res0 c); auto. }
    apply bind_Ok_inv in H as (res1 & c1 & Hfield & H).
    unfold dict_has at 1.
    destruct (dict_get obj field_name) as [field_value|].
    + apply bind_Ok_inv in Hfield as (v & c0 & _ & Hret). injection Hret as <- <-.
      cbn [orb map fst].
      assert (Hrest : validate_fields execute rest obj kwargs
                        (dict_set res0 field_name v) c0 = (Ok res, c')).
      { destruct (negb (dont_print_default (attrs_of field))); [|exact H].
        rewrite dict_get_set_eq in H.
        destruct (is_None v && negb (null (attrs_of field))); [discriminate|exact H]. }
      rewrite (Hstep _ _ (or_intror (ex_intro _ v eq_refl)) Hrest).
      rewrite keys_dict_set_new by exact Hfresh.
      rewrite <- app_assoc. reflexivity.
    + destruct (required (attrs_of field)); [discriminate|].
      cbn [orb].
      destruct (negb (dont_print_default (attrs_of field))); cbn [map fst].
      * injection Hfield as <- <-. rewrite dict_get_set_eq in H.
        destruct (is_None _ && negb _); [discriminate|].
        rewrite (Hstep _ _ (or_intror (ex_intro _ _ eq_refl)) H).
        rewrite keys_dict_set_new by exact Hfresh.
        rewrite <- app_assoc. reflexivity.
      * injection Hfield as <- <-. apply (Hstep res0 c); auto.
Qed.

(** [Node.validate] returns a dict whose keys are the declared names, in
    declaration order, of the fields that have an entry. *)
Lemma Node_validate_keys R execute cls obj kwargs c res c' fields :
  dict_get (_value_to_node_fields R) (Meta.name cls) = Some fields ->
  NoDup (map fst fields) ->
  Node_validate R execute cls obj kwargs c = (Ok res, c') ->
  exists d, res = VDict d
            /\ keys d = declaration_order fields (canonical_input cls obj).
Proof.
  intros Hfields Hnd H. unfold Node_validate in H.
  apply bind_Ok_inv in H as (obj' & c1 & Hobj & H).
  assert (Hcanon : obj' = VDict (canonical_input cls obj)).
  { unfold canonical_input.
    destruct (Meta.shortform_field cls) as [sf|].
    - destruct obj; cbn [isinstance_dict negb] in Hobj;
        try (apply node_trace_step_Ok_inv in Hobj as (? & ? & ? & _ & Hbody & _);
             apply bind_Ok_inv in Hbody as (? & ? & _ & Hbody);
             destruct (Meta.shortform_conversion cls _);
             cbn [isinstance_dict negb] in Hbody; try discriminate;
             now injection Hbody as <- _).
      now injection Hobj as <- _.
    - destruct obj; cbn [isinstance_dict negb] in Hobj; try discriminate.
      now injection Hobj as <- _. }
  rewrite Hcanon in H. rewrite Hfields in H.
  apply bind_Ok_inv in H as ([] & c2 & _ & H).
  apply bind_Ok_inv in H as (res_dict & c3 & Hres & H).
  apply validate_fields_keys in Hres; [|exact Hnd|intros k []].
  simpl in Hres.
  rewrite order_result_sublist in H;
    [|exact Hnd|rewrite Hres; apply declaration_order_sublist].
  injection H as <- _. eauto.
Qed.

(** ** What a successful [execute_function_on_node] went through *)

Lemma mapM_lookup_node_inv {A} R (f : A -> string) l c nodes c' :
  mapM (fun a => lookup_node R (f a)) l c = (Ok nodes, c') ->
  c' = c /\ Forall2 (fun a n => dict_get (_value_to_node R) (f a) = Some n) l nodes.
Proof.
  revert nodes. induction l as [|a r IH]; intros nodes H.
  - injection H as <- <-. split; [reflexivity|constructor].
  - cbn [mapM] in H. apply bind_Ok_inv in H as (n & c1 & Hn & H).
    apply bind_Ok_inv in H as (ns & c2 & Hns & H). injection H as <- <-.
    unfold lookup_node in Hn.
    destruct (dict_get (_value_to_node R) (f a)) as [n'|] eqn:E; [|discriminate].
    injection Hn as <- <-. apply IH in Hns as [-> Hall].
    split; [reflexivity|]. now constructor.
Qed.

Lemma candidate_nodes_registered R value choice c candidate_nodes c' :
  match value with
  | Some value => let* n := lookup_node R value in ret [n]
  | None =>
      mapM (fun kv : string * string => lookup_node R kv.2)
        (types_of_choice R (match choice with Some c => c | None => "" end))
  end c = (Ok candidate_nodes, c') ->
  c' = c /\ Forall (fun n => exists v, dict_get (_value_to_node R) v = Some n)
              candidate_nodes.
Proof.
  destruct value as [v|]; intros H.
  - apply bind_Ok_inv in H as (n & c1 & Hn & H). injection H as <- <-.
    unfold lookup_node in Hn.
    destruct (dict_get (_value_to_node R) v) as [n'|] eqn:E; [|discriminate].
    injection Hn as <- <-. split; [reflexivity|]. repeat constructor. eauto.
  - apply mapM_lookup_node_inv in H as [-> Hall]. split; [reflexivity|].
    induction Hall; constructor; eauto.
Qed.

Section ExecuteFacts.
Variable R : Registry.
Variable call : Node -> string -> pyvalue -> kwargs_dict -> M pyvalue.

(** A candidate that was kept: its [validate] returned on a dict, in a
    context of its own. *)
Lemma try_candidate_Some candidate_node obj kwargs c n res_obj copy c' :
  try_candidate call candidate_node obj kwargs c = (Ok (Some (n, res_obj, copy)), c') ->
  n = candidate_node
  /\ exists tmp_obj copy0 c1 c2,
      call candidate_node "validate" tmp_obj kwargs (Context (Some copy0) (heap c1))
      = (Ok res_obj, c2)
      /\ stack_objects c2 = Some copy
      /\ canonical_input candidate_node tmp_obj = canonical_input candidate_node obj.
Proof.
  unfold try_candidate, try_except_InvalidParams. intros H.
  destruct (bind copy_stack_objects _ c) as [[o|e] c0] eqn:E;
    [|destruct e; try discriminate; injection H as H _; discriminate].
  injection H as -> ->.
  apply bind_Ok_inv in E as (copy0 & c1 & _ & E).
  apply bind_Ok_inv in E as (tmp_obj & c2 & Htmp & E).
  apply bind_Ok_inv in E as ([r so'] & c3 & Hcall & E).
  unfold with_stack_objects in Hcall.
  destruct (call candidate_node "validate" tmp_obj kwargs _) as [r' c4] eqn:Ecall.
  injection Hcall as <- <- <-.
  destruct r' as [res|e]; [|discriminate].
  destruct (stack_objects c4) as [cp|] eqn:Eso; [|discriminate].
  injection E as <- <- <- _. split; [reflexivity|].
  exists tmp_obj, copy0, c2, c4. split; [exact Ecall|]. split; [exact Eso|].
  unfold canonical_input.
  destruct (Meta.shortform_field candidate_node) as [sf|].
  - destruct obj; cbn [isinstance_dict negb] in Htmp;
      try (apply bind_Ok_inv in Htmp as (? & ? & _ & Htmp);
           destruct (Meta.shortform_conversion candidate_node _) eqn:Econv;
           cbn [isinstance_dict negb] in Htmp; try discriminate;
           injection Htmp as <- _; try rewrite Econv; reflexivity).
    now injection Htmp as <- _.
  - destruct obj; cbn [isinstance_dict negb] in Htmp; try discriminate.
    now injection Htmp as <- _.
Qed.

Lemma try_candidates_Ok_inv candidate_nodes obj kwargs :
  forall acc c l c',
    try_candidates call candidate_nodes obj kwargs acc c = (Ok l, c') ->
    forall n res_obj copy, In (n, res_obj, copy) l ->
      In (n, res_obj, copy) acc
      \/ (In n candidate_nodes
          /\ exists tmp_obj copy0 c1 c2,
              call n "validate" tmp_obj kwargs (Context (Some copy0) (heap c1))
              = (Ok res_obj, c2)
              /\ stack_objects c2 = Some copy
              /\ canonical_input n tmp_obj = canonical_input n obj).
Proof.
  induction candidate_nodes as [|cand rest IH]; intros acc c l c' H n res_obj copy Hin.
  - injection H as <- <-. now left.
  - cbn [try_candidates] in H.
    apply bind_Ok_inv in H as (attempt & c1 & Hattempt & H).
    destruct (IH _ _ _ _ H _ _ _ Hin) as [Hacc|[Hrest Hex]].
    + destruct attempt as [[[n' r'] cp']|]; [|now left].
      apply in_app_or in Hacc as [Hacc|[Heq|[]]]; [now left|].
      injection Heq as -> -> ->.
      apply try_candidate_Some in Hattempt as [-> Hex].
      right. split; [now left|exact Hex].
    + right. split; [now right|exact Hex].
Qed.

(** The result of the validate function is what the [validate] of one
    registered Node returned, with the type tag moved or put in front if
    that Node has a [choice_type]. *)
Lemma execute_function_on_node_validate_Ok obj kwargs value choice c res c' :
  execute_function_on_node R call "validate" obj kwargs value choice c = (Ok res, c') ->
  exists kw cls v tmp_obj res_obj c1 c2,
    kwargs = Some kw
    /\ dict_get (_value_to_node R) v = Some cls
    /\ call cls "validate" tmp_obj kw c1 = (Ok res_obj, c2)
    /\ canonical_input cls tmp_obj = canonical_input cls obj
    /\ match Meta.choice_type cls with
       | Some t =>
           exists d d', res_obj = VDict d
             /\ res = VDict (move_to_front d' "type")
             /\ (d' = d /\ dict_has d "type" = true
                 \/ d' = dict_set d "type" (VStr t))
       | None => res = res_obj
       end.
Proof.
  unfold execute_function_on_node. intros H.
  destruct (Bool.eqb _ _); [discriminate|].
  apply bind_Ok_inv in H as (so & c0 & Hso & H). injection Hso as <- <-.
  destruct (stack_objects c) as [so|] eqn:Eso; [|discriminate].
  destruct kwargs as [kw|]; [|discriminate].
  apply bind_Ok_inv in H as (candidate_nodes & c1 & Hcands & H).
  apply candidate_nodes_registered in Hcands as [-> Hreg].
  destruct (_ && _); [discriminate|].
  apply bind_Ok_inv in H as ([] & c2 & _ & H).
  apply bind_Ok_inv in H as (selected & c3 & Hsel & H).
  destruct selected as [selected_node|].
  - assert (Hin : exists v, dict_get (_value_to_node R) v = Some selected_node).
    { assert (Hbytype :
        match type_of_dict obj with
        | Some provided_type =>
            match provided_type with
            | VList _ | VDict _ => raise (PyError "TypeError")
            | _ =>
                match match provided_type with
                      | VStr t =>
                          dict_get (types_of_choice R
                            (match choice with Some c => c | None => "" end)) t
                      | _ => None
                      end with
                | Some v => let* n := lookup_node R v in ret (Some n)
                | None =>
                    invalid_params "the type '%s' is not valid.\nValid types are: %s"
                      [AVal provided_type;
                       AVal (VStr (join ", " (keys (types_of_choice R
                         (match choice with Some c => c | None => "" end)))))]
                end
            end
        | None => ret None
        end c2 = (Ok (Some selected_node), c3) ->
        exists v, dict_get (_value_to_node R) v = Some selected_node).
      { intros Hty. destruct (type_of_dict obj) as [t|]; [|discriminate].
        destruct t as [| | | |s| |]; try discriminate.
        destruct (dict_get (types_of_choice R _) s) as [v|]; [|discriminate].
        apply bind_Ok_inv in Hty as (n & ? & Hn & Hty). injection Hty as <- _.
        unfold lookup_node in Hn.
        destruct (dict_get (_value_to_node R) v) eqn:E; [|discriminate].
        injection Hn as <- _. eauto. }
      destruct candidate_nodes as [|n [|n' rest]]; [auto| |auto].
      injection Hsel as <- _. now inversion Hreg. }
    destruct Hin as [v Hv].
    apply bind_Ok_inv in H as (res_obj & c4 & Hcall & H).
    exists kw, selected_node, v, obj, res_obj, c3, c4.
    repeat (split; [first [reflexivity | eassumption]|]).
    rewrite String.eqb_refl in H.
    destruct (Meta.choice_type selected_node) as [t|]; [|now injection H as <- _].
    destruct (match type_of_dict obj with Some _ => _ | None => false end);
      [discriminate|].
    destruct res_obj as [| | | | | |d]; try discriminate.
    exists d. unfold dict_has.
    destruct (dict_get d "type") as [ty|].
    + apply bind_Ok_inv in H as (types & c5 & _ & H).
      destruct (negb _); [discriminate|]. injection H as <- _.
      exists d. auto.
    + injection H as <- _. exists (dict_set d "type" (VStr t)). auto.
  - rewrite String.eqb_refl in H. cbn [negb] in H.
    apply bind_Ok_inv in H as (successes & c4 & Hloop & H).
    destruct successes as [|[[cand res_obj] copy] [|s' rest]]; [| |].
    + apply bind_Ok_inv in H as (? & ? & _ & H). discriminate.
    + apply bind_Ok_inv in H as (t & c5 & Ht & H).
      apply bind_Ok_inv in H as (stamped & c6 & Hstamp & H).
      apply bind_Ok_inv in H as ([] & c7 & _ & H). injection H as <- _.
      destruct (try_candidates_Ok_inv _ _ _ _ _ _ _ Hloop cand res_obj copy
                  (or_introl eq_refl)) as [[]|[Hin Hex]].
      destruct Hex as (tmp_obj & copy0 & c1' & c2' & Hcall & _ & Hcanon).
      rewrite Forall_forall in Hreg.
      destruct (Hreg cand (proj2 (list_elem_of_In _ _) Hin)) as [v Hv].
      exists kw, cand, v, tmp_obj, res_obj, (Context (Some copy0) (heap c1')), c2'.
      repeat (split; [first [reflexivity | eassumption]|]).
      unfold get_choice_type in Ht.
      destruct (Meta.choice_type cand) as [t'|]; [|discriminate].
      injection Ht as <- _.
      destruct res_obj as [| | | | | |d]; try discriminate.
      injection Hstamp as <- _. exists d, (dict_set d "type" (VStr t')). auto.
    + apply bind_Ok_inv in H as (? & ? & _ & H). discriminate.
Qed.

End ExecuteFacts.

Lemma keys_dict_remove {A} (d : list (string * A)) k :
  keys (dict_remove d k) = List.filter (fun k' => negb (String.eqb k k')) (keys d).
Proof.
  unfold dict_remove, keys. induction d as [|[k' v] r IH]; simpl; [reflexivity|].
  destruct (negb (String.eqb k k')); simpl; now rewrite IH.
Qed.

Lemma filter_app_singleton_out (k : string) (l : list string) :
  List.filter (fun k' => negb (String.eqb k k')) (l ++ [k])
  = List.filter (fun k' => negb (String.eqb k k')) l.
Proof.
  rewrite List.filter_app. simpl. rewrite String.eqb_refl. simpl. apply app_nil_r.
Qed.

Lemma keys_type_in_front (d d' : pydict) t :
  d' = d /\ dict_has d "type" = true \/ d' = dict_set d "type" (VStr t) ->
  keys (move_to_front d' "type")
  = "type" :: List.filter (fun k => negb (String.eqb "type" k)) (keys d).
Proof.
  intros Hd'. unfold move_to_front.
  assert (Hhas : dict_has d' "type" = true).
  { destruct Hd' as [[-> H]| ->]; [exact H|].
    unfold dict_has. now rewrite dict_get_set_eq. }
  unfold dict_has in Hhas. destruct (dict_get d' "type"); [|discriminate].
  cbn [keys map fst]. fold (keys (dict_remove d' "type")).
  rewrite keys_dict_remove. f_equal.
  destruct Hd' as [[-> _]| ->]; [reflexivity|].
  rewrite keys_dict_set. destruct (dict_has d "type"); [reflexivity|].
  apply filter_app_singleton_out.
Qed.

Lemma Node_validate_Ok_fields R execute cls obj kwargs c res c' :
  Node_validate R execute cls obj kwargs c = (Ok res, c') ->
  exists fields, dict_get (_value_to_node_fields R) (Meta.name cls) = Some fields.
Proof.
  unfold Node_validate. intros H.
  apply bind_Ok_inv in H as (obj' & c1 & _ & H).
  destruct obj'; try discriminate.
  destruct (dict_get (_value_to_node_fields R) (Meta.name cls)); [eauto|discriminate].
Qed.

(** C3. Whatever the fuel, the reference and the raw value, a validation
    that returns yields a dict whose keys are the declared names of one
    registered Node, in the merged declaration order, with the type tag in
    front if that Node has a [choice_type]. Which declared names appear
    depends only on which keys the input has, not on their order. *)
Theorem validated_field_order :
  forall R fuel obj kwargs value choice c res c',
    Forall (fun nf => NoDup (map fst nf.2)) (_value_to_node_fields R) ->
    execute R fuel "validate" obj kwargs value choice c = (Ok res, c') ->
    exists cls v fields d,
      dict_get (_value_to_node R) v = Some cls
      /\ dict_get (_value_to_node_fields R) (Meta.name cls) = Some fields
      /\ res = VDict d
      /\ keys d = type_first cls (declaration_order fields (canonical_input cls obj))
      /\ sublist (declaration_order fields (canonical_input cls obj)) (map fst fields)
      /\ forall obj2,
          (forall k, dict_has obj2 k = dict_has (canonical_input cls obj) k) ->
          declaration_order fields obj2
          = declaration_order fields (canonical_input cls obj).
Proof.
  intros R fuel obj kwargs value choice c res c' Hnd H.
  apply execute_function_on_node_validate_Ok in H
    as (kw & cls & v & tmp_obj & res_obj & c1 & c2 & -> & Hv & Hcall & Hcanon & Hres).
  destruct fuel as [|fuel]; [discriminate|].
  cbn [Node_call] in Hcall. rewrite String.eqb_refl in Hcall.
  destruct (Node_validate_Ok_fields _ _ _ _ _ _ _ _ Hcall) as [fields Hfields].
  assert (Hnd' : NoDup (map fst fields)).
  { apply dict_get_Some_In in Hfields. rewrite Forall_forall in Hnd.
    apply (Hnd (Meta.name cls, fields)). now apply list_elem_of_In. }
  apply (Node_validate_keys _ _ _ _ _ _ _ _ _ Hfields Hnd') in Hcall
    as (d & -> & Hkeys).
  rewrite Hcanon in Hkeys. unfold type_first.
  destruct (Meta.choice_type cls) as [t|] eqn:Ect.
  - destruct Hres as (d0 & d' & Hd0 & -> & Hd'). injection Hd0 as <-.
    exists cls, v, fields, (move_to_front d' "type").
    repeat (split; [first [reflexivity | eassumption]|]).
    rewrite Ect. cbn [hasattr].
    split; [rewrite (keys_type_in_front d d' t Hd'), Hkeys; reflexivity|].
    split; [apply declaration_order_sublist|].
    intros obj2. apply declaration_order_same_keys.
  - subst res. exists cls, v, fields, d.
    repeat (split; [first [reflexivity | eassumption]|]).
    rewrite Ect. cbn [hasattr]. split; [exact Hkeys|].
    split; [apply declaration_order_sublist|].
    intros obj2. apply declaration_order_same_keys.
Qed.

Lemma numerical_registry_NoDup :
  Forall (fun nf => NoDup (map fst nf.2)) (_value_to_node_fields numerical_registry).
Proof.
  vm_compute.
  repeat (constructor; try (rewrite list_elem_of_In; cbn; intuition discriminate)).
Defined.

Lemma validated_field_order_witness :
  exists d,
    (execute numerical_registry 5 "validate"
       (VDict [("summands", VList [VInt 10]); ("type", VStr "sum");
               ("_comment", VStr "two")])
       (Some allow_user_input) None (Some "numerical_node") initial_context).1
    = Ok (VDict d)
    /\ keys d = ["type"; "_comment"; "summands"].
Proof.
  destruct (execute numerical_registry 5 "validate"
       (VDict [("summands", VList [VInt 10]); ("type", VStr "sum");
               ("_comment", VStr "two")])
       (Some allow_user_input) None (Some "numerical_node") initial_context)
    as [r c'] eqn:E.
  assert (Hr : exists res, r = Ok res).
  { vm_compute in E. injection E as <- _. eauto. }
  destruct Hr as [res ->].
  destruct (validated_field_order numerical_registry 5 _ _ _ _ _ _ _
              numerical_registry_NoDup E)
    as (cls & v & fields & d & Hv & Hfields & -> & Hkeys & _).
  exists d. split; [reflexivity|].
  vm_compute in E. injection E as <- _. reflexivity.
Defined.

(** ** Backtracking disambiguation *)

Lemma mapM_lookup_node_Forall2 {A} R (f : A -> string) l nodes c :
  Forall2 (fun a n => dict_get (_value_to_node R) (f a) = Some n) l nodes ->
  mapM (fun a => lookup_node R (f a)) l c = (Ok nodes, c).
Proof.
  induction 1 as [|a n l ns Hn Hall IH]; [reflexivity|].
  cbn [mapM].
  rewrite (bind_Ok _ _ c n c) by (unfold lookup_node; now rewrite Hn).
  now rewrite (bind_Ok _ _ c ns c IH).
Qed.

Lemma mapM_get_choice_type {A} (f : A -> Node) l c :
  Forall (fun a => hasattr (Meta.choice_type (f a)) = true) l ->
  mapM (fun a => get_choice_type (f a)) l c = (Ok (map (fun a => tag_of (f a)) l), c).
Proof.
  induction 1 as [|a l Ha Hall IH]; [reflexivity|].
  cbn [mapM map].
  rewrite (bind_Ok _ _ c (tag_of (f a)) c).
  - now rewrite (bind_Ok _ _ c _ c IH).
  - unfold get_choice_type, tag_of.
    now destruct (Meta.choice_type (f a)).
Qed.

Section BacktrackingFacts.
Variable R : Registry.
Variable call : Node -> string -> pyvalue -> kwargs_dict -> M pyvalue.

(** The loop of the source collects exactly the candidates that validated,
    provided no attempt raised anything but InvalidParamsException. *)
Lemma try_candidates_successes candidate_nodes obj kwargs :
  forall acc c outcomes c_end,
    attempt_each R call candidate_nodes obj kwargs c = (outcomes, c_end) ->
    Forall (fun r => is_Ok r = true) outcomes ->
    try_candidates call candidate_nodes obj kwargs acc c
    = (Ok (acc ++ successes outcomes)%list, c_end).
Proof.
  induction candidate_nodes as [|cand rest IH]; intros acc c outcomes c_end H Hok.
  - injection H as <- <-. simpl. now rewrite app_nil_r.
  - cbn [attempt_each] in H. cbn [try_candidates]. unfold bind.
    destruct (try_candidate call cand obj kwargs c) as [r c1].
    destruct (attempt_each R call rest obj kwargs c1) as [rs c2] eqn:E.
    injection H as <- <-. inversion Hok as [|? ? Hr Hrs]; subst.
    destruct r as [[s|]|e]; [| |discriminate].
    + rewrite (IH _ _ _ _ E Hrs). simpl. now rewrite <- app_assoc.
    + rewrite (IH _ _ _ _ E Hrs). reflexivity.
Qed.

Lemma successes_are_candidates candidate_nodes obj kwargs :
  forall c outcomes c_end,
    attempt_each R call candidate_nodes obj kwargs c = (outcomes, c_end) ->
    Forall (fun s : Node * pyvalue * list (string * loc) =>
              In s.1.1 candidate_nodes) (successes outcomes).
Proof.
  induction candidate_nodes as [|cand rest IH]; intros c outcomes c_end H.
  - injection H as <- <-. constructor.
  - cbn [attempt_each] in H.
    destruct (try_candidate call cand obj kwargs c) as [r c1] eqn:Er.
    destruct (attempt_each R call rest obj kwargs c1) as [rs c2] eqn:E.
    injection H as <- <-.
    assert (Hrest : Forall (fun s : Node * pyvalue * list (string * loc) =>
                              In s.1.1 (cand :: rest)) (successes rs)).
    { eapply Forall_impl; [exact (IH _ _ _ E)|]. intros s Hs. now right. }
    destruct r as [[[[n res_obj] copy]|]|e]; simpl; auto.
    constructor; [|exact Hrest].
    apply try_candidate_Some in Er as [-> _]. now left.
Qed.

End BacktrackingFacts.

Lemma move_to_front_dict_set {A} (d : list (string * A)) k v :
  move_to_front (dict_set d k v) k = (k, v) :: dict_remove d k.
Proof.
  unfold move_to_front. rewrite dict_get_set_eq. f_equal.
  unfold dict_remove. induction d as [|[k' v'] r IH]; simpl.
  - now rewrite String.eqb_refl.
  - destruct (String.eqb k k') eqn:E; simpl.
    + now rewrite String.eqb_refl.
    + rewrite E. simpl. now rewrite IH.
Qed.




(** ** Isolation of the candidates *)

Lemma cells_dict_set (d : list (string * loc)) k l l0 :
  In l0 (map snd (dict_set d k l)) -> l0 = l \/ In l0 (map snd d).
Proof.
  induction d as [|[k' l'] r IH]; simpl.
  - intros [<-|[]]. now left.
  - destruct (String.eqb k k'); simpl.
    + intros [<-|H]; [now left | right; now right].
    + intros [<-|H]; [right; now left|].
      destruct (IH H) as [->|H']; [now left | right; now right].
Qed.

Lemma dict_get_cells (d : list (string * loc)) k l :
  dict_get d k = Some l -> In l (map snd d).
Proof.
  intros H. apply dict_get_Some_In in H. apply in_map_iff. now exists (k, l).
Qed.

Section CopyFacts.
Variable immutable_fields : pyvalue.

(** The copy refers to shared objects and to objects that did not exist
    before; nothing that existed is altered by making it. *)
Lemma copy_slots_spec slots :
  forall copy0 c r c1,
    copy_slots immutable_fields slots copy0 c = (r, c1) ->
    stack_objects c1 = stack_objects c
    /\ (forall l, l ∈ dom (heap c) -> heap c1 !! l = heap c !! l)
    /\ match r with
       | Ok copy =>
           forall l, In l (map snd copy) ->
             In l (map snd copy0) \/ In l (shared_cells immutable_fields slots)
             \/ l ∉ dom (heap c)
       | Raise _ => True
       end.
Proof.
  induction slots as [|[k l] rest IH]; intros copy0 c r c1 H.
  - injection H as <- <-. repeat split; auto.
  - cbn [copy_slots] in H. unfold bind at 1 in H.
    unfold shared_cells, is_shared_slot. cbn [List.filter fst].
    destruct (contains_str immutable_fields k) as [shared|e] eqn:Ec; cbn in H.
    2:{ injection H as <- <-. repeat split; auto. }
    destruct shared.
    + apply IH in H as (Hso & Hheap & Hr). repeat split; auto.
      destruct r as [copy|]; [|exact I]. intros l0 Hl0.
      destruct (Hr l0 Hl0) as [Hc|[Hs|Hf]]; auto.
      * apply cells_dict_set in Hc as [->|Hc]; auto.
        right. left. now left.
      * right. left. now right.
    + unfold bind at 1 in H. unfold load in H.
      destruct (heap c !! l) as [v|] eqn:El.
      2:{ injection H as <- <-. repeat split; auto. }
      unfold bind at 1, alloc in H. cbn [stack_objects heap] in H.
      apply IH in H as (Hso & Hheap & Hr). cbn [stack_objects heap] in *.
      assert (Hfresh : fresh (dom (heap c)) ∉ dom (heap c)) by apply is_fresh.
      assert (Hkeep : forall l0, l0 ∈ dom (heap c) ->
                <[fresh (dom (heap c)):=json_loads_dumps v]> (heap c) !! l0
                = heap c !! l0).
      { intros l0 Hl0. apply lookup_insert_ne. intros <-. contradiction. }
      repeat split; auto.
      * intros l0 Hl0. rewrite Hheap; [now apply Hkeep|].
        apply elem_of_dom. rewrite Hkeep by exact Hl0. now apply elem_of_dom.
      * destruct r as [copy|]; [|exact I]. intros l0 Hl0.
        destruct (Hr l0 Hl0) as [Hc|[Hs|Hf]]; auto.
        { apply cells_dict_set in Hc as [->|Hc]; auto. }
        { right. right. intros Hin. apply Hf.
          apply elem_of_dom. rewrite Hkeep by exact Hin. now apply elem_of_dom. }
Qed.

End CopyFacts.

Section IsolationFacts.
Variable R : Registry.
Variable call : Node -> string -> pyvalue -> kwargs_dict -> M pyvalue.
Hypothesis call_frame : reaches_only_its_stack_objects call.

Variable so : list (string * loc).
Variable l_imm : loc.
Variable immutable_fields : pyvalue.
Hypothesis so_imm : dict_get so "immutable_fields" = Some l_imm.

(** One candidate, tried from a context whose [stack_objects] is [so]:
    whatever it does and however it ends, [stack_objects] is [so] again and
    the objects that are not shared are as they were. *)
Lemma try_candidate_frame candidate_node obj kwargs (h : gmap loc pyvalue) r c' :
  h !! l_imm = Some immutable_fields ->
  try_candidate call candidate_node obj kwargs (Context (Some so) h) = (r, c') ->
  stack_objects c' = Some so
  /\ forall l, l ∈ dom h -> ~ In l (shared_cells immutable_fields so) ->
       heap c' !! l = h !! l.
Proof.
  intros Himm H. unfold try_candidate, try_except_InvalidParams in H.
  match type of H with
  | context [bind copy_stack_objects ?k] => set (rest := k) in H
  end.
  assert (Hbody : forall r0 c0,
            bind copy_stack_objects rest (Context (Some so) h) = (r0, c0) ->
            stack_objects c0 = Some so
            /\ forall l, l ∈ dom h -> ~ In l (shared_cells immutable_fields so) ->
                 heap c0 !! l = h !! l).
  { clear H r c'. intros r0 c0 H. unfold bind at 1 in H.
    unfold copy_stack_objects in H. unfold bind at 1 2 3, so_get, load,
      get_stack_objects in H. cbn [stack_objects heap] in H.
    rewrite so_imm in H. cbn [stack_objects heap] in H. rewrite Himm in H.
    cbn [stack_objects heap] in H.
    destruct (copy_slots immutable_fields so [] (Context (Some so) h))
      as [[copy|e] c1] eqn:Ecopy.
    2:{ injection H as <- <-.
        apply copy_slots_spec in Ecopy as (Hso & Hheap & _). auto. }
    apply copy_slots_spec in Ecopy as (Hso & Hheap & Hcopy).
    cbn [stack_objects heap] in *. subst rest. cbv beta in H.
    assert (Htmp : forall (m : M pyvalue) rt ct,
              (m = ret obj \/ m = invalid_params "the value must be a dictionary" []
               \/ exists sf, m = (shortform_validate sf obj;;
                    if negb (isinstance_dict
                               (Meta.shortform_conversion candidate_node obj))
                    then programming_error
                           "the shortform conversion did not return a dict" []
                    else ret (Meta.shortform_conversion candidate_node obj))) ->
              m c1 = (rt, ct) -> ct = c1).
    { intros m rt ct [->|[->|[sf ->]]] Hm.
      - now injection Hm as _ <-.
      - now injection Hm as _ <-.
      - unfold bind in Hm.
        pose proof (shortform_validate_context sf obj c1) as Hsv.
        destruct (shortform_validate sf obj c1) as [[v|e] c2]; simpl in Hsv; subst c2.
        + destruct (isinstance_dict (Meta.shortform_conversion candidate_node obj));
            now injection Hm as _ <-.
        + now injection Hm as _ <-. }
    unfold bind at 1 in H.
    match type of H with
    | context [match ?m c1 with _ => _ end] =>
        destruct (m c1) as [rt ct] eqn:Em;
        assert (ct = c1) as ->
          by (eapply (Htmp m rt ct); [|exact Em];
              destruct (Meta.shortform_field candidate_node);
              destruct (negb (isinstance_dict obj)); eauto)
    end.
    destruct rt as [tmp_obj|e]; [|injection H as <- <-; auto].
    unfold bind at 1, with_stack_objects in H.
    pose proof (call_frame candidate_node "validate" tmp_obj kwargs copy (heap c1))
      as Hcall.
    destruct (call candidate_node "validate" tmp_obj kwargs
                (Context (Some copy) (heap c1))) as [rc c4].
    cbn [snd] in Hcall.
    assert (Hfinal : stack_objects (Context (stack_objects c1) (heap c4)) = Some so
              /\ forall l, l ∈ dom h -> ~ In l (shared_cells immutable_fields so) ->
                   heap (Context (stack_objects c1) (heap c4)) !! l = h !! l).
    { cbn [stack_objects heap]. split; [exact Hso|]. intros l Hl Hns.
      rewrite Hcall.
      - now apply Hheap.
      - apply elem_of_dom. rewrite Hheap by exact Hl. now apply elem_of_dom.
      - intros Hin. destruct (Hcopy l Hin) as [[]|[Hs|Hf]]; contradiction. }
    destruct rc as [res_obj|e]; [|injection H as <- <-; exact Hfinal].
    destruct (stack_objects c4); injection H as <- <-; exact Hfinal. }
  destruct (bind copy_stack_objects rest (Context (Some so) h)) as [r0 c0] eqn:E.
  specialize (Hbody _ _ eq_refl).
  destruct r0 as [o|e]; [now injection H as <- <-|].
  destruct e; injection H as <- <-; exact Hbody.
Qed.

Hypothesis imm_not_shared : is_shared_slot immutable_fields "immutable_fields" = false.
Hypothesis separated : slots_separated immutable_fields so.

Lemma l_imm_not_shared : ~ In l_imm (shared_cells immutable_fields so).
Proof.
  unfold shared_cells. intros Hin. apply in_map_iff in Hin as ([k l] & Hl & Hin).
  simpl in Hl. subst l. apply filter_In in Hin as [Hin Hshared]. simpl in Hshared.
  apply dict_get_Some_In in so_imm.
  rewrite (separated _ _ _ so_imm Hin Hshared) in imm_not_shared. discriminate.
Qed.

Lemma try_candidates_frame candidate_nodes obj kwargs (h : gmap loc pyvalue) :
  h !! l_imm = Some immutable_fields ->
  forall acc (h0 : gmap loc pyvalue) r c',
    (forall l, l ∈ dom h -> ~ In l (shared_cells immutable_fields so) ->
       h0 !! l = h !! l) ->
    try_candidates call candidate_nodes obj kwargs acc (Context (Some so) h0) = (r, c') ->
    stack_objects c' = Some so
    /\ forall l, l ∈ dom h -> ~ In l (shared_cells immutable_fields so) ->
         heap c' !! l = h !! l.
Proof.
  intros Himm.
  induction candidate_nodes as [|cand rest IH]; intros acc h0 r c' Hinv H.
  - injection H as <- <-. auto.
  - cbn [try_candidates] in H. unfold bind at 1 in H.
    destruct (try_candidate call cand obj kwargs (Context (Some so) h0))
      as [ra ca] eqn:Ea.
    assert (Himm0 : h0 !! l_imm = Some immutable_fields).
    { rewrite Hinv; [exact Himm | | apply l_imm_not_shared].
      apply elem_of_dom. now rewrite Himm. }
    apply (try_candidate_frame _ _ _ _ _ _ Himm0) in Ea as [Hso Hheap].
    assert (Hinv' : forall l, l ∈ dom h ->
               ~ In l (shared_cells immutable_fields so) -> heap ca !! l = h !! l).
    { intros l Hl Hns. rewrite Hheap; [now apply Hinv | | exact Hns].
      apply elem_of_dom. rewrite Hinv by assumption. now apply elem_of_dom. }
    destruct ra as [attempt|e]; [|injection H as <- <-; auto].
    destruct ca as [soa ha]. cbn [stack_objects heap] in *. subst soa.
    eapply IH; [exact Hinv'|exact H].
Qed.

End IsolationFacts.

Lemma mapM_lookup_node_state {A} R (f : A -> string) l c :
  (mapM (fun a => lookup_node R (f a)) l c).2 = c.
Proof.
  induction l as [|a r IH]; [reflexivity|].
  cbn [mapM]. unfold bind at 1, lookup_node at 1.
  destruct (dict_get (_value_to_node R) (f a)); [|reflexivity]. cbn.
  unfold bind at 1. destruct (mapM _ r c) as [[ns|e] c1]; simpl in *; now subst.
Qed.

Lemma mapM_lookup_node_length {A} R (f : A -> string) l c nodes c' :
  mapM (fun a => lookup_node R (f a)) l c = (Ok nodes, c') ->
  length nodes = length l.
Proof.
  intros H. apply mapM_lookup_node_inv in H as [_ Hall].
  symmetry. eapply Forall2_length; eauto.
Qed.

Lemma mapM_get_choice_type_state {A} (f : A -> Node) l c :
  (mapM (fun a => get_choice_type (f a)) l c).2 = c.
Proof.
  induction l as [|a r IH]; [reflexivity|].
  cbn [mapM]. unfold bind at 1, get_choice_type at 1.
  destruct (Meta.choice_type (f a)); [|reflexivity]. cbn.
  unfold bind at 1. destruct (mapM _ r c) as [[ns|e] c1]; simpl in *; now subst.
Qed.

Lemma check_kwargs_state candidate_nodes kwargs c :
  (check_kwargs candidate_nodes kwargs c).2 = c.
Proof.
  induction candidate_nodes as [|n r IH]; [reflexivity|].
  cbn [check_kwargs]. destruct (_ || _); [reflexivity|exact IH].
Qed.

(** When a group reference with no single candidate and no 'type' key
    raises, the context is as the caller passed it or as the loop over the
    candidates left it. *)
Lemma execute_function_on_node_ambiguous_Raise R call obj kwargs choice c e c' :
  length (types_of_choice R choice) <> 1%nat ->
  type_of_dict obj = None ->
  execute_function_on_node R call "validate" obj (Some kwargs) None (Some choice) c
  = (Raise e, c') ->
  c' = c \/ exists candidate_nodes,
              c' = (try_candidates call candidate_nodes obj kwargs [] c).2.
Proof.
  intros Hlen Htype H. unfold execute_function_on_node in H.
  cbn [hasattr Bool.eqb] in H. unfold bind at 1 in H.
  destruct (stack_objects c) as [so|]; [|injection H as _ <-; now left].
  unfold bind at 1 in H.
  pose proof (mapM_lookup_node_state R (fun kv : string * string => kv.2)
                (types_of_choice R choice) c) as Hst.
  destruct (mapM _ (types_of_choice R choice) c) as [[cands|e0] c1] eqn:Ecands;
    simpl in Hst; subst c1; [|injection H as _ <-; now left].
  apply mapM_lookup_node_length in Ecands.
  destruct (_ && _); [injection H as _ <-; now left|].
  rewrite String.eqb_refl in H. unfold bind at 1 in H.
  pose proof (check_kwargs_state cands kwargs c) as Hck.
  destruct (check_kwargs cands kwargs c) as [[[]|e0] c1]; simpl in Hck; subst c1;
    [|injection H as _ <-; now left].
  unfold bind at 1 in H.
  assert (Hsel : match cands with
                 | [n] => ret (Some n)
                 | _ => @ret (option Node) None
                 end c = (Ok None, c)).
  { destruct cands as [|n [|n' r]]; try reflexivity.
    simpl in Ecands. congruence. }
  match type of H with
  | context [match ?m c with _ => _ end] =>
      replace (m c) with (@Ok (option Node) None, c) in H
  end.
  2:{ rewrite <- Hsel. destruct cands as [|n [|n' r]]; try reflexivity;
        now rewrite Htype. }
  cbn [negb] in H. unfold bind at 1 in H.
  destruct (try_candidates call cands obj kwargs [] c) as [[succ|e0] c4] eqn:Eloop.
  2:{ injection H as _ <-. right. exists cands. now rewrite Eloop. }
  assert (Hc4 : c4 = (try_candidates call cands obj kwargs [] c).2)
    by now rewrite Eloop.
  destruct succ as [|[[cand res_obj] copy] [|s2 more]].
  - unfold bind at 1 in H.
    pose proof (mapM_get_choice_type_state (fun n : Node => n) cands c4) as Hs.
    destruct (mapM get_choice_type cands c4) as [[ts|e0] c5]; simpl in Hs; subst c5;
      injection H as _ <-; right; eauto.
  - unfold bind at 1, get_choice_type at 1 in H.
    destruct (Meta.choice_type cand); [|injection H as _ <-; right; eauto].
    cbn in H. unfold bind at 1 in H.
    destruct res_obj; cbn in H;
      try (cbv [bind set_stack_objects ret] in H; discriminate);
      injection H as _ <-; right; eauto.
  - unfold bind at 1 in H.
    pose proof (mapM_get_choice_type_state
                  (fun a : Node * pyvalue * list (string * loc) => a.1.1)
                  ((cand, res_obj, copy) :: s2 :: more) c4) as Hs.
    destruct (mapM _ ((cand, res_obj, copy) :: s2 :: more) c4) as [[ts|e0] c5];
      simpl in Hs; subst c5; injection H as _ <-; right; eauto.
Qed.

(** C2. A candidate is handed a [stack_objects] of its own in which every
    slot not named in [immutable_fields] refers to a new object. So, if a
    Node method reaches existing objects only through the [stack_objects]
    it is handed, and no object sits under both a copied and a shared slot,
    the loop over the candidates leaves the caller's [stack_objects] and
    the object of every copied slot as they were: for the next candidate,
    whatever the earlier ones did, and for the caller when the call
    raises. *)
Theorem backtracking_isolation :
  forall R call candidate_nodes obj kwargs acc so (h : gmap loc pyvalue)
         l_imm immutable_fields,
    reaches_only_its_stack_objects call ->
    dict_get so "immutable_fields" = Some l_imm ->
    h !! l_imm = Some immutable_fields ->
    is_shared_slot immutable_fields "immutable_fields" = false ->
    slots_separated immutable_fields so ->
    let unchanged (c' : context) :=
      stack_objects c' = Some so
      /\ forall k l v,
          In (k, l) so -> is_shared_slot immutable_fields k = false ->
          h !! l = Some v -> heap c' !! l = Some v in
    unchanged (try_candidates call candidate_nodes obj kwargs acc
                 (Context (Some so) h)).2
    /\ forall choice e c',
        length (types_of_choice R choice) <> 1%nat ->
        type_of_dict obj = None ->
        execute_function_on_node R call "validate" obj (Some kwargs) None
          (Some choice) (Context (Some so) h) = (Raise e, c') ->
        unchanged c'.
Proof.
  intros R call cands obj kwargs acc so h l_imm imm Hframe Hso Himm Hns Hsep unchanged.
  assert (Hloop : forall cands acc,
            unchanged (try_candidates call cands obj kwargs acc
                         (Context (Some so) h)).2).
  { clear cands acc. intros cands acc.
    destruct (try_candidates call cands obj kwargs acc (Context (Some so) h))
      as [r c'] eqn:E.
    destruct (try_candidates_frame call Hframe so l_imm imm Hso Hns Hsep
                cands obj kwargs h Himm acc h r c' (fun _ _ _ => eq_refl) E)
      as [Hso' Hheap].
    split; [exact Hso'|]. intros k l v Hin Hk Hv. cbn [snd].
    rewrite Hheap; [exact Hv | apply elem_of_dom; now rewrite Hv |].
    unfold shared_cells. intros Hl. apply in_map_iff in Hl as ([k' l'] & Hl' & Hf).
    simpl in Hl'. subst l'. apply filter_In in Hf as [Hin' Hshared].
    simpl in Hshared. rewrite (Hsep _ _ _ Hin Hin' Hshared) in Hk. discriminate. }
  split; [apply Hloop|].
  intros choice e c' Hlen Htype H.
  apply (execute_function_on_node_ambiguous_Raise _ _ _ _ _ _ _ _ Hlen Htype) in H
    as [->|[cs ->]]; [|apply Hloop].
  split; [reflexivity|]. intros k l v _ _ Hv. exact Hv.
Qed.

Lemma scribbling_call_frame : reaches_only_its_stack_objects scribbling_call.
Proof.
  intros cls function obj kwargs so h l Hl Hnot.
  unfold scribbling_call, bind, so_get, store. cbn [stack_objects heap].
  destruct (dict_get so "node_trace") as [l0|] eqn:E; [|reflexivity].
  cbn. apply lookup_insert_ne. intros <-. apply Hnot. eapply dict_get_cells; eauto.
Qed.

Lemma backtracking_isolation_witness :
  heap (try_candidates scribbling_call [ConstantNode; SumNode]
          (VDict [("val", VInt 1)]) allow_user_input [] initial_context).2
    !! 0%nat = Some (VList [])
  /\ (try_candidates scribbling_call [ConstantNode; SumNode]
        (VDict [("val", VInt 1)]) allow_user_input [] initial_context).1 = Ok [].
Proof.
  split; [|vm_compute; reflexivity].
  refine (proj2 (proj1 (backtracking_isolation numerical_registry scribbling_call
            [ConstantNode; SumNode] (VDict [("val", VInt 1)]) allow_user_input []
            [("node_trace", 0%nat); ("current_object", 1%nat);
             ("immutable_fields", 2%nat)]
            (<[0%nat := VList []]> (<[1%nat := VNone]> (<[2%nat := VList []]> ∅)))
            2%nat (VList []) scribbling_call_frame eq_refl eq_refl eq_refl _))
          "node_trace" 0%nat (VList []) _ eq_refl eq_refl).
  - intros k l k' _ _ Hshared. discriminate.
  - now left.
Defined.

(** ** Validating a validated value again *)

Lemma removelast_snoc {A} (l : list A) x : removelast (l ++ [x]) = l.
Proof.
  induction l as [|y r IH]; [reflexivity|]. simpl.
  destruct (r ++ [x])%list eqn:E; [now destruct r|]. now rewrite IH.
Qed.

Lemma dict_has_set_ne {A} (d : list (string * A)) k k' v :
  k <> k' -> dict_has (dict_set d k v) k' = dict_has d k'.
Proof. intros H. unfold dict_has. now rewrite dict_get_set_ne. Qed.

(** In a traceable context a trace step succeeds if its body does, and
    leaves the trace as it found it if the body does. *)
Lemma node_trace_step_traceable {A} new_value object (body : M A) r c :
  traceable c ->
  (forall c1, traceable c1 ->
     exists c2, body c1 = (Ok r, c2)
                /\ trace_of c2 = trace_of c1 /\ has_current_object c2 = true) ->
  exists c', node_trace_step new_value object body c = (Ok r, c')
             /\ trace_of c' = trace_of c /\ has_current_object c' = true.
Proof.
  intros [[t Ht] Hcur] Hbody.
  destruct c as [[so|] h]; [|discriminate].
  unfold trace_of in Ht. cbn [stack_objects heap] in Ht.
  unfold has_current_object in Hcur. cbn [stack_objects] in Hcur.
  destruct (dict_get so "node_trace") as [lt|] eqn:Elt; [|discriminate].
  destruct (h !! lt) as [[| | | | |t'|]|] eqn:Eh; try discriminate.
  injection Ht as ->.
  unfold dict_has in Hcur.
  destruct (dict_get so "current_object") as [prev|] eqn:Eprev; [|discriminate].
  set (h1 := <[lt := VList (t ++ [VStr new_value])]> h).
  set (lc := fresh (dom h1)).
  set (c1 := Context (Some (dict_set so "current_object" lc)) (<[lc := object]> h1)).
  assert (Hlc : lc <> lt).
  { intros E. apply (is_fresh (dom h1)). fold lc. rewrite E.
    apply elem_of_dom. unfold h1. rewrite lookup_insert_eq. eauto. }
  assert (Henter : node_trace_step_enter new_value object (Context (Some so) h)
                   = (Ok prev, c1)).
  { unfold node_trace_step_enter, bind, so_get, load, store, alloc, so_set.
    cbn [stack_objects heap]. rewrite Elt. cbn [stack_objects heap]. rewrite Eh.
    cbn [stack_objects heap]. rewrite Eprev. reflexivity. }
  assert (Htr1 : trace_of c1 = Some (t ++ [VStr new_value])%list).
  { unfold trace_of, c1. cbn [stack_objects heap].
    rewrite dict_get_set_ne by discriminate. rewrite Elt.
    rewrite lookup_insert_ne by exact Hlc. unfold h1.
    now rewrite lookup_insert_eq. }
  assert (Hwf1 : traceable c1).
  { split; [rewrite Htr1; eauto|]. unfold has_current_object, c1, dict_has.
    cbn [stack_objects]. now rewrite dict_get_set_eq. }
  destruct (Hbody c1 Hwf1) as (c2 & Hb & Htr2 & Hcur2).
  rewrite Htr1 in Htr2.
  destruct c2 as [[so2|] h2]; [|discriminate].
  unfold trace_of in Htr2. cbn [stack_objects heap] in Htr2.
  destruct (dict_get so2 "node_trace") as [lt2|] eqn:Elt2; [|discriminate].
  destruct (h2 !! lt2) as [[| | | | |t2|]|] eqn:Eh2; try discriminate.
  injection Htr2 as ->.
  exists (Context (Some (dict_set so2 "current_object" prev))
                  (<[lt2 := VList t]> h2)).
  split; [|split].
  - unfold node_trace_step. rewrite (bind_Ok _ _ _ _ _ Henter).
    rewrite (bind_Ok _ _ _ _ _ Hb).
    unfold bind at 1, node_trace_step_exit, bind, so_get, load, store, so_set.
    cbn [stack_objects heap]. rewrite Elt2. cbn [stack_objects heap]. rewrite Eh2.
    destruct (t ++ [VStr new_value])%list eqn:E; [now destruct t|].
    rewrite <- E, removelast_snoc. reflexivity.
  - unfold trace_of. cbn [stack_objects heap].
    rewrite dict_get_set_ne by discriminate. rewrite Elt2, Elt.
    rewrite lookup_insert_eq, Eh. reflexivity.
  - unfold has_current_object, dict_has. cbn [stack_objects].
    now rewrite dict_get_set_eq.
Qed.

Section LocallySorted.
Context {A : Type} (leb : A -> A -> bool).
Hypothesis leb_total : forall a b, leb a b = true \/ leb b a = true.

Lemma insert_sorted_Sorted x (l : list A) :
  Sorted (fun a b => leb a b = true) l ->
  Sorted (fun a b => leb a b = true) (insert_sorted leb x l).
Proof.
  induction 1 as [|y r Hr IH Hy]; simpl.
  - repeat constructor.
  - destruct (leb x y) eqn:E.
    + repeat constructor; auto.
    + constructor; [exact IH|].
      destruct r as [|z r']; simpl.
      * constructor. destruct (leb_total x y); congruence.
      * inversion Hy; subst. destruct (leb x z); constructor; auto.
        destruct (leb_total x y); congruence.
Qed.

Lemma sorted_Sorted (l : list A) : Sorted (fun a b => leb a b = true) (sorted leb l).
Proof.
  induction l as [|x r IH]; simpl; [constructor|].
  now apply insert_sorted_Sorted.
Qed.

Lemma sorted_id_Sorted (l : list A) :
  Sorted (fun a b => leb a b = true) l -> sorted leb l = l.
Proof.
  induction 1 as [|x r Hr IH Hx]; simpl; [reflexivity|].
  rewrite IH. destruct Hx as [|y r' Hxy]; simpl; [reflexivity|]. now rewrite Hxy.
Qed.

Lemma sorted_idempotent (l : list A) : sorted leb (sorted leb l) = sorted leb l.
Proof. apply sorted_id_Sorted, sorted_Sorted. Qed.

End LocallySorted.

(** *** [int(str(z)) == z] *)

Lemma is_digit_not_space a : is_digit a = true -> is_space a = false.
Proof.
  unfold is_digit, is_space. intros H.
  apply andb_true_iff in H as [H1 H2].
  apply Nat.leb_le in H1. apply Nat.leb_le in H2.
  apply orb_false_iff. split.
  - apply andb_false_iff. right. apply Nat.leb_gt. lia.
  - apply Nat.eqb_neq. lia.
Qed.

Lemma all_digits_string_of_uint d : all_digits (NilEmpty.string_of_uint d) = true.
Proof. induction d; simpl; auto. Qed.

Lemma rstrip_all_digits s : all_digits s = true -> rstrip s = s.
Proof.
  induction s as [|a r IH]; [reflexivity|]. simpl. intros H.
  apply andb_true_iff in H as [Ha Hr]. rewrite (IH Hr).
  destruct r; [|reflexivity]. now rewrite (is_digit_not_space a Ha).
Qed.

Lemma lstrip_digit a r : is_digit a = true -> lstrip (String a r) = String a r.
Proof. intros H. simpl. now rewrite (is_digit_not_space a H). Qed.

Lemma digit_groups_all_digits s b :
  all_digits s = true -> (s <> EmptyString \/ b = true) ->
  digit_groups b s = Some s.
Proof.
  revert b. induction s as [|a r IH]; intros b H Hne.
  - destruct Hne as [Hne| ->]; [contradiction|reflexivity].
  - simpl in *. apply andb_true_iff in H as [Ha Hr]. rewrite Ha.
    rewrite (IH true Hr) by now right. reflexivity.
Qed.

Lemma nat_of_digits_string_of_uint d :
  d <> Decimal.Nil ->
  nat_of_digits (NilEmpty.string_of_uint d) = Some (Z.of_uint d).
Proof.
  intros Hd. unfold nat_of_digits.
  rewrite digit_groups_all_digits.
  - now rewrite NilEmpty.usu.
  - apply all_digits_string_of_uint.
  - left. destruct d; simpl; congruence.
Qed.

Lemma int_of_str_digits d :
  d <> Decimal.Nil ->
  int_of_str (NilEmpty.string_of_uint d) = Some (Z.of_uint d)
  /\ int_of_str (String "-" (NilEmpty.string_of_uint d)) = Some (- Z.of_uint d).
Proof.
  intros Hd.
  pose proof (nat_of_digits_string_of_uint d Hd) as Hn.
  pose proof (all_digits_string_of_uint d) as Hall.
  pose proof (rstrip_all_digits _ Hall) as Hr.
  unfold int_of_str. split.
  - destruct d; try contradiction; simpl NilEmpty.string_of_uint in *;
      rewrite lstrip_digit by reflexivity; rewrite Hr; rewrite Hn; reflexivity.
  - cbn [lstrip]. change (is_space "-") with false. cbv iota.
    cbn [rstrip]. rewrite Hr.
    destruct (NilEmpty.string_of_uint d) eqn:E;
      [destruct d; simpl in E; congruence|].
    rewrite Hn. reflexivity.
Qed.

Lemma pos_to_uint_not_Nil p : Pos.to_uint p <> Decimal.Nil.
Proof.
  intros H. pose proof (DecimalPos.Unsigned.to_uint_nonnil p). contradiction.
Qed.

Lemma int_of_str_of_int z : int_of_str (str_of_int z) = Some z.
Proof.
  unfold str_of_int. rewrite <- (DecimalZ.of_to z) at 2.
  destruct z as [|p|p]; [reflexivity| |]; cbn [Z.to_int NilZero.string_of_int].
  - unfold NilZero.string_of_uint.
    destruct (Pos.to_uint p) eqn:E; [now apply pos_to_uint_not_Nil in E|..];
      rewrite <- E; apply int_of_str_digits; apply pos_to_uint_not_Nil.
  - unfold NilZero.string_of_uint.
    destruct (Pos.to_uint p) eqn:E; [now apply pos_to_uint_not_Nil in E|..];
      rewrite <- E; apply int_of_str_digits; apply pos_to_uint_not_Nil.
Qed.

(** *** Scalar kinds *)

Lemma Integer_helper_val mn mx val res :
  Integer_helper mn mx val = Ok res -> res = val /\ isinstance_int val = true.
Proof.
  unfold Integer_helper. destruct (int_value val) eqn:Ev; [|discriminate].
  destruct (check_int_bounds mn mx z); [|discriminate].
  intros [= <-]. split; [reflexivity|]. now destruct val.
Qed.

Lemma Float_helper_val mn mx val res :
  Float_helper mn mx val = Ok res ->
  res = val /\ (isinstance_int val || isinstance_float val = true).
Proof.
  unfold Float_helper. destruct (number_of val) eqn:Ev; [|discriminate].
  repeat match goal with |- context [if ?b then _ else _] => destruct b end;
    try discriminate.
  intros [= <-]. split; [reflexivity|]. now destruct val.
Qed.

Lemma Boolean_helper_val val res :
  Boolean_helper val = Ok res -> res = val /\ isinstance_bool val = true.
Proof.
  unfold Boolean_helper. destruct (isinstance_bool val) eqn:E; [|discriminate].
  now intros [= <-].
Qed.

Lemma existsb_eq_str_map a (l : list string) :
  existsb (eq_str a) (map VStr l) = str_in a l.
Proof.
  unfold str_in. induction l as [|x r IH]; [reflexivity|]. simpl. now rewrite IH.
Qed.

Lemma filter_str_in_filter (P : string -> bool) (choices : list string) :
  List.filter (fun a => str_in a (List.filter P choices)) choices
  = List.filter P choices.
Proof.
  assert (H : forall l, (forall a, In a l -> In a choices) ->
             List.filter (fun a => str_in a (List.filter P choices)) l
             = List.filter P l).
  { induction l as [|x r IH]; intros Hsub; [reflexivity|]. simpl.
    rewrite IH by (intros a Ha; apply Hsub; now right).
    replace (str_in x (List.filter P choices)) with (P x); [reflexivity|].
    unfold str_in. destruct (P x) eqn:E.
    - symmetry. apply existsb_exists. exists x. split; [|apply String.eqb_refl].
      apply filter_In. split; [apply Hsub; now left|exact E].
    - symmetry. apply not_true_is_false. intros H.
      apply existsb_exists in H as (y & Hy & Hxy).
      apply String.eqb_eq in Hxy. subst y. apply filter_In in Hy as [_ Hy].
      congruence. }
  apply H. auto.
Qed.

(** A list of choices, in the declared order, is accepted as it is. *)
Lemma MultipleChoiceSelection_helper_choices choices (P : string -> bool) :
  MultipleChoiceSelection_helper choices (VList (map VStr (List.filter P choices)))
  = Ok (VList (map VStr (List.filter P choices))).
Proof.
  unfold MultipleChoiceSelection_helper. cbn [is_None isinstance_str].
  set (ks := List.filter P choices).
  assert (Hin : forall a, In a ks -> str_in a choices = true).
  { intros a Ha. apply filter_In in Ha as [Ha _].
    apply existsb_exists. exists a. split; [exact Ha|apply String.eqb_refl]. }
  assert (Hnone : forall l, (forall a, In a l -> str_in a choices = true) ->
            List.filter (fun a => negb (value_in_strs a choices)) (map VStr l) = []).
  { induction l as [|x r IH]; intros Hl; [reflexivity|]. simpl.
    rewrite (Hl x) by now left. simpl. apply IH. intros a Ha. apply Hl. now right. }
  rewrite (Hnone ks Hin). cbn [existsb].
  destruct (map VStr ks) as [|v r] eqn:E; [reflexivity|].
  rewrite <- E. do 2 f_equal. f_equal.
  erewrite filter_ext; [apply filter_str_in_filter|].
  intros a. simpl. apply existsb_eq_str_map.
Qed.

Lemma MultipleChoiceSelection_helper_idempotent choices val res :
  MultipleChoiceSelection_helper choices val = Ok res ->
  MultipleChoiceSelection_helper choices res = Ok res.
Proof.
  unfold MultipleChoiceSelection_helper at 1.
  set (v1 := if is_None val then VList [] else val).
  set (v2 := if isinstance_str v1 then VList [v1] else v1).
  destruct v2 as [| | | | |l|]; try discriminate.
  destruct (existsb truthy _); [discriminate|].
  destruct l as [|x l].
  - intros [= <-]. reflexivity.
  - intros [= <-]. apply MultipleChoiceSelection_helper_choices.
Qed.

Lemma String_helper_val sp val s :
  String_helper sp val = Ok s -> val = VStr s.
Proof.
  unfold String_helper. destruct val; try discriminate.
  repeat match goal with |- context [if ?b then _ else _] => destruct b end;
    try discriminate.
  now intros [= <-].
Qed.

(** A key validates to a key that validates to itself. *)
Lemma StringSpec_helper_idempotent sp val s :
  stable_string sp = true ->
  StringSpec_helper sp val = Ok s -> StringSpec_helper sp (VStr s) = Ok s.
Proof.
  unfold StringSpec_helper, stable_string.
  destruct (subclass sp) as [|mn mx|selection]; intros Hst H.
  - apply String_helper_val in H as Hv. now subst val.
  - unfold IntegerAsString_helper in *.
    apply andb_true_iff in Hst as [Hmin Hmax].
    destruct (String_helper sp val) as [s0|e] eqn:Es; [|destruct e; discriminate].
    destruct (int_of_str s0) as [z|]; [|discriminate].
    destruct (check_int_bounds mn mx z) eqn:Eb; [|discriminate].
    injection H as <-.
    assert (Hs : String_helper sp (VStr (str_of_int z)) = Ok (str_of_int z)).
    { unfold String_helper. destruct (min_length sp); [discriminate|].
      now destruct (max_length sp). }
    rewrite Hs, int_of_str_of_int, Eb. reflexivity.
  - unfold StringFromSelection_helper in *.
    destruct (String_helper sp val) as [s0|e] eqn:Es; [|discriminate].
    apply String_helper_val in Es as Hv. subst val.
    destruct (str_in s0 selection) eqn:Ein; [|discriminate].
    injection H as <-. now rewrite Es, Ein.
Qed.

(** *** Lists and mappings of fixed points *)

Lemma traceable_after c c' :
  traceable c -> trace_of c' = trace_of c -> has_current_object c' = true ->
  traceable c'.
Proof. intros [Ht _] E Hc. split; [now rewrite E | exact Hc]. Qed.

Lemma dict_set_fresh {A} (d : list (string * A)) k v :
  ~ In k (keys d) -> dict_set d k v = (d ++ [(k, v)])%list.
Proof.
  induction d as [|[k' v'] r IH]; intros Hk; [reflexivity|]. simpl.
  destruct (String.eqb k k') eqn:E.
  - apply String.eqb_eq in E. subst k'. exfalso. apply Hk. now left.
  - rewrite IH; [reflexivity|]. intros Hin. apply Hk. now right.
Qed.

Section ListReplay.
Variable validate_element : pyvalue -> M pyvalue.
Hypothesis element_idempotent : idempotent validate_element.

(** A validated list has the length of the raw one and validates to
    itself, element by element. *)
Lemma List_elements_replay l :
  forall i c res c',
    List_elements validate_element i l c = (Ok res, c') ->
    length res = length l
    /\ forall j c2, traceable c2 ->
         exists c2', List_elements validate_element j res c2 = (Ok res, c2')
                     /\ trace_of c2' = trace_of c2 /\ has_current_object c2' = true.
Proof.
  induction l as [|element rest IH]; intros i c res c' H.
  - injection H as <- <-. split; [reflexivity|]. intros j c2 Hc2.
    exists c2. destruct Hc2 as [_ Hc2]. auto.
  - simpl in H.
    apply bind_Ok_inv in H as (r & c1 & Hstep & H).
    apply bind_Ok_inv in H as (rs & c2 & Hrest & H).
    injection H as <- <-.
    apply node_trace_step_Ok_inv in Hstep as (prev & ca & cb & _ & Hbody & _).
    apply element_idempotent in Hbody.
    apply IH in Hrest as [Hlen Hreplay].
    split; [simpl; now rewrite Hlen|].
    intros j c3 Hc3. simpl.
    destruct (node_trace_step_traceable ("index " +:+ str_of_int (Z.of_nat j)) r
                (validate_element r) r c3 Hc3 Hbody) as (c4 & Hs & Ht4 & Hc4).
    rewrite (bind_Ok _ _ _ _ _ Hs).
    destruct (Hreplay (S j) c4 (traceable_after _ _ Hc3 Ht4 Hc4))
      as (c5 & Hr & Ht5 & Hc5).
    rewrite (bind_Ok _ _ _ _ _ Hr).
    exists c5. split; [reflexivity|]. split; [congruence|exact Hc5].
Qed.

End ListReplay.

Section MappingReplay.
Variable key_of : pyvalue -> result string.
Variable validate_content : pyvalue -> M pyvalue.

Local Abbreviation items_loop :=
  (Mapping_items (fun k => lift (key_of k)) validate_content).

(** What a run that does not raise appends to [res]: entries with
    pairwise distinct new keys, each key a normalised key and each value a
    validated value. *)
Lemma Mapping_items_entries items :
  forall res c res' c',
    items_loop items res c = (Ok res', c') ->
    exists new,
      res' = (res ++ new)%list
      /\ Forall (fun kv => (exists k, key_of (VStr k) = Ok kv.1)
                           /\ exists v c1 c2, validate_content v c1 = (Ok kv.2, c2)) new
      /\ NoDup (keys new)
      /\ forall k, In k (keys new) -> ~ In k (keys res).
Proof.
  induction items as [|[k v] rest IH]; intros res c res' c' H.
  - injection H as <- <-. exists []. rewrite app_nil_r.
    repeat split; [constructor|apply NoDup_nil_2|intros k []].
  - pose proof (Mapping_items_cons_Ok _ _ _ _ _ _ _ _ _ H)
      as (canon0 & _ & _ & Hkey & Hhas & _).
    simpl in H.
    apply bind_Ok_inv in H as (canon & c1 & Hk & H).
    apply bind_Ok_inv in H as (val & c2 & Hval & H).
    assert (canon = canon0) as <-.
    { unfold try_except_InvalidParams in Hk.
      destruct (node_trace_step "key" (VStr k) (lift (key_of (VStr k))) c)
        as [[key|e] c0] eqn:Hstep; [|destruct e; discriminate].
      injection Hk as -> ->.
      apply node_trace_step_Ok_inv in Hstep as (? & ? & ? & _ & Hbody & _).
      apply lift_Ok_inv in Hbody as [Hb _]. congruence. }
    rewrite Hhas in H.
    apply node_trace_step_Ok_inv in Hval as (prev & ca & cb & _ & Hbody & _).
    assert (Hfresh : ~ In canon (keys res)).
    { intros Hin. apply dict_has_keys in Hin. congruence. }
    rewrite (dict_set_fresh _ _ _ Hfresh) in H.
    apply IH in H as (new & -> & Hall & Hnd & Hdisj).
    exists ((canon, val) :: new). rewrite <- app_assoc. split; [reflexivity|].
    split; [|split].
    + constructor; [|exact Hall]. split; simpl; eauto.
    + simpl. apply NoDup_cons. split; [|exact Hnd].
      rewrite list_elem_of_In. intros Hin. apply (Hdisj _ Hin).
      unfold keys. rewrite map_app. apply in_or_app. right. now left.
    + intros k' [<-|Hin]; [exact Hfresh|].
      intros Hres. apply (Hdisj _ Hin).
      unfold keys. rewrite map_app. apply in_or_app. now left.
Qed.

(** Entries with distinct keys that are fixed points are appended as
    they are. *)
Lemma Mapping_items_replay entries :
  forall res c,
    Forall (fun kv => key_of (VStr kv.1) = Ok kv.1
                      /\ fixed_point validate_content kv.2) entries ->
    NoDup (keys entries) ->
    (forall k, In k (keys entries) -> ~ In k (keys res)) ->
    traceable c ->
    exists c', items_loop entries res c = (Ok (res ++ entries)%list, c')
               /\ trace_of c' = trace_of c /\ has_current_object c' = true.
Proof.
  induction entries as [|[k v] rest IH]; intros res c Hall Hnd Hdisj Hc.
  - exists c. simpl. rewrite app_nil_r. destruct Hc as [_ Hc]. auto.
  - inversion Hall as [|? ? [Hkey Hval] Hall']; subst. simpl in Hkey, Hval.
    simpl in Hnd. apply NoDup_cons in Hnd as [Hk Hnd].
    rewrite list_elem_of_In in Hk.
    simpl.
    destruct (node_trace_step_traceable "key" (VStr k) (lift (key_of (VStr k))) k c Hc)
      as (c1 & Hs1 & Ht1 & Hc1).
    { intros c0 [_ Hc0]. exists c0. rewrite Hkey. auto. }
    assert (Hk1 : try_except_InvalidParams
                    (node_trace_step "key" (VStr k) (lift (key_of (VStr k))))
                    (fun e => invalid_params
                       "could not parse the key '%s'. Exception was:\n%s"
                       [AVal (VStr k); AMsg e]) c = (Ok k, c1)).
    { unfold try_except_InvalidParams. now rewrite Hs1. }
    rewrite (bind_Ok _ _ _ _ _ Hk1).
    pose proof (traceable_after _ _ Hc Ht1 Hc1) as Htr1.
    destruct (node_trace_step_traceable ("value for key '" +:+ k +:+ "'") v
                (validate_content v) v c1 Htr1 Hval) as (c2 & Hs2 & Ht2 & Hc2).
    rewrite (bind_Ok _ _ _ _ _ Hs2).
    assert (Hfresh : ~ In k (keys res)) by (apply Hdisj; now left).
    assert (Hhas : dict_has res k = false).
    { apply not_true_is_false. intros Hh. apply Hfresh. now apply dict_has_keys. }
    rewrite Hhas, (dict_set_fresh _ _ _ Hfresh).
    destruct (IH (res ++ [(k, v)])%list c2 Hall' Hnd) as (c3 & Hr & Ht3 & Hc3).
    { intros k' Hin. unfold keys. rewrite map_app. intros Hin'.
      apply in_app_or in Hin' as [Hin'|[<-|[]]].
      - apply (Hdisj k'); [now right|exact Hin'].
      - exact (Hk Hin). }
    { exact (traceable_after _ _ Htr1 Ht2 Hc2). }
    exists c3. rewrite <- app_assoc in Hr. split; [exact Hr|].
    split; [congruence|exact Hc3].
Qed.

End MappingReplay.

(** *** The order of a validated mapping *)

Lemma with_int_keys_Some d l :
  with_int_keys d = Some l ->
  map snd l = d /\ Forall (fun a => int_of_str a.2.1 = Some a.1) l.
Proof.
  revert l. induction d as [|[k v] r IH]; intros l H.
  - injection H as <-. split; [reflexivity|constructor].
  - simpl in H. destruct (int_of_str k) as [z|] eqn:Ez; [|discriminate].
    destruct (with_int_keys r) as [r'|]; [|discriminate].
    injection H as <-. destruct (IH r' eq_refl) as [Hm Hall].
    split; [simpl; now rewrite Hm|]. constructor; [exact Ez|exact Hall].
Qed.

Lemma with_int_keys_map_snd l :
  Forall (fun a : Z * (string * pyvalue) => int_of_str a.2.1 = Some a.1) l ->
  with_int_keys (map snd l) = Some l.
Proof.
  induction 1 as [|[z [k v]] r Hz _ IH]; [reflexivity|].
  simpl in *. now rewrite Hz, IH.
Qed.

Lemma string_key_leb_total (a b : string * pyvalue) :
  String.leb a.1 b.1 = true \/ String.leb b.1 a.1 = true.
Proof. apply String.leb_total. Qed.

Lemma int_key_leb_total (a b : Z * (string * pyvalue)) :
  (a.1 <=? b.1) = true \/ (b.1 <=? a.1) = true.
Proof. destruct (Z.leb_spec a.1 b.1); [now left|right; apply Z.leb_le; lia]. Qed.

(** The entries come out of [Mapping_order] permuted, and in an order
    that [Mapping_order] leaves as it is. *)
Lemma Mapping_order_Ok sp res c r c' :
  Mapping_order sp res c = (Ok r, c') ->
  exists entries,
    r = VDict entries /\ Permutation res entries
    /\ forall c2, Mapping_order sp entries c2 = (Ok (VDict entries), c2).
Proof.
  unfold Mapping_order. destruct (subclass sp) as [|mn mx|selection].
  - intros [= <- <-]. eexists. split; [reflexivity|].
    split; [apply sorted_Permutation|]. intros c2.
    now rewrite (sorted_idempotent _ string_key_leb_total).
  - destruct (with_int_keys res) as [l|] eqn:E; [|discriminate].
    intros [= <- <-]. apply with_int_keys_Some in E as [Hm Hall].
    eexists. split; [reflexivity|]. split.
    + rewrite <- Hm. apply Permutation_map, sorted_Permutation.
    + intros c2. rewrite with_int_keys_map_snd.
      * now rewrite (sorted_idempotent _ int_key_leb_total).
      * eapply Permutation_Forall; [apply sorted_Permutation|exact Hall].
  - intros [= <- <-]. eexists. split; [reflexivity|].
    split; [apply sorted_Permutation|]. intros c2.
    now rewrite (sorted_idempotent _ string_key_leb_total).
Qed.

(** *** ArbitraryJson: sorting the keys twice *)

Lemma pyvalue_nested_ind (P : pyvalue -> Prop) :
  P VNone -> (forall b, P (VBool b)) -> (forall z, P (VInt z)) ->
  (forall f, P (VFloat f)) -> (forall s, P (VStr s)) ->
  (forall l, Forall P l -> P (VList l)) ->
  (forall d, Forall (fun kv => P kv.2) d -> P (VDict d)) ->
  forall v, P v.
Proof.
  intros HN HB HI HF HS HL HD. fix IH 1. intros [|b|z|f|s|l|d].
  - exact HN.
  - apply HB.
  - apply HI.
  - apply HF.
  - apply HS.
  - apply HL. induction l as [|x r IHl]; constructor; [apply IH|exact IHl].
  - apply HD. induction d as [|[k x] r IHd]; constructor; [apply IH|exact IHd].
Qed.

Lemma map_insert_sorted {A} (leb : A -> A -> bool) (f : A -> A) x l :
  (forall a b, leb (f a) (f b) = leb a b) ->
  map f (insert_sorted leb x l) = insert_sorted leb (f x) (map f l).
Proof.
  intros Hf. induction l as [|y r IH]; [reflexivity|]. simpl.
  rewrite Hf. destruct (leb x y); [reflexivity|]. simpl. now rewrite IH.
Qed.

Lemma map_sorted {A} (leb : A -> A -> bool) (f : A -> A) l :
  (forall a b, leb (f a) (f b) = leb a b) ->
  map f (sorted leb l) = sorted leb (map f l).
Proof.
  intros Hf. induction l as [|x r IH]; [reflexivity|]. simpl.
  now rewrite map_insert_sorted, IH.
Qed.

Lemma sort_keys_idempotent v : sort_keys (sort_keys v) = sort_keys v.
Proof.
  induction v as [| | | | |l IH|d IH] using pyvalue_nested_ind; try reflexivity.
  - simpl. f_equal. rewrite map_map. now apply map_ext_Forall.
  - simpl. f_equal.
    rewrite map_sorted by (intros [] []; reflexivity).
    rewrite map_map.
    rewrite (map_ext_Forall _ (fun kv : string * pyvalue =>
                                 let (k, x) := kv in (k, sort_keys x))).
    + apply (sorted_idempotent _ string_key_leb_total).
    + eapply Forall_impl; [exact IH|]. intros [k x] Hx. simpl in *. now rewrite Hx.
Qed.

Lemma sort_keys_not_None v : is_None v = false -> is_None (sort_keys v) = false.
Proof. now destruct v. Qed.

(** *** The wrapper [Field.validate] *)

Lemma Field_validate_wrapper_idempotent attrs helper allow_null :
  idempotent helper ->
  (forall val c res c',
     is_None val = false -> helper val c = (Ok res, c') -> is_None res = false) ->
  idempotent (fun v => Field_validate_wrapper attrs helper v allow_null).
Proof.
  intros Hid Hnn val c res c' H c2 Hc2. unfold Field_validate_wrapper in *.
  destruct (is_None val) eqn:Ev.
  - destruct (negb _) eqn:Ea; [discriminate|].
    destruct (validation_accepts_nulls attrs) eqn:Eacc.
    + destruct (Hid _ _ _ _ H c2 Hc2) as (c2' & Hr & Ht).
      exists c2'. split; [|exact Ht].
      destruct (is_None res); exact Hr.
    + injection H as <- <-. exists c2. simpl.
      destruct Hc2 as [_ Hc2]. auto.
  - pose proof (Hnn _ _ _ _ Ev H) as Hres.
    destruct (Hid _ _ _ _ H c2 Hc2) as (c2' & Hr & Ht).
    exists c2'. rewrite Hres. auto.
Qed.

Lemma Field_validate_wrapper_not_None attrs helper allow_null val c res c' :
  (forall val c res c',
     is_None val = false -> helper val c = (Ok res, c') -> is_None res = false) ->
  is_None val = false ->
  Field_validate_wrapper attrs helper val allow_null c = (Ok res, c') ->
  is_None res = false.
Proof.
  intros Hnn Ev. unfold Field_validate_wrapper. rewrite Ev. apply Hnn, Ev.
Qed.

Section FieldIdempotence.

Variable execute :
  string -> pyvalue -> option kwargs_dict -> option string -> option string -> M pyvalue.
Hypothesis execute_canonical : canonical_execute execute.

Lemma execute_with_kwargs_idempotent kwargs field_kwargs value choice :
  idempotent (fun v => let* kw := lift (_get_kwargs_to_use kwargs field_kwargs) in
                       execute "validate" v (Some kw) value choice).
Proof.
  intros val c res c' H.
  apply bind_Ok_inv in H as (kw & c1 & Hkw & H).
  apply lift_Ok_inv in Hkw as [Hkw ->].
  destruct (execute_canonical kw value choice) as [Hid _].
  intros c2 Hc2. destruct (Hid _ _ _ _ H c2 Hc2) as (c2' & Hr & Ht).
  exists c2'. split; [|exact Ht]. unfold bind. now rewrite Hkw.
Qed.

Lemma execute_with_kwargs_dict kwargs field_kwargs value choice val c res c' :
  (let* kw := lift (_get_kwargs_to_use kwargs field_kwargs) in
   execute "validate" val (Some kw) value choice) c = (Ok res, c') ->
  isinstance_dict res = true.
Proof.
  intros H. apply bind_Ok_inv in H as (kw & c1 & _ & H).
  destruct (execute_canonical kw value choice) as [_ Hd]. eauto.
Qed.

(** A value that is not None is validated to a value that is not None. *)
Lemma Field_validate_not_None f :
  forall val kwargs allow_null c res c',
    is_None val = false ->
    Field_validate execute f val kwargs allow_null c = (Ok res, c') ->
    is_None res = false
with helper_for_validation_not_None kind :
  forall val kwargs c res c',
    is_None val = false ->
    helper_for_validation execute kind val kwargs c = (Ok res, c') ->
    is_None res = false.
Proof.
  - destruct f as [attrs kind]. intros val kwargs allow_null c res c' Ev H.
    simpl in H. eapply Field_validate_wrapper_not_None; [|exact Ev|exact H].
    intros v c0 r c0'. apply helper_for_validation_not_None.
  - destruct kind as [value fk | choice fk | value choice primitive min_len fk
                     | sk content | pf cf | | mn mx | mn mx | | choices | spec];
      intros val kwargs c res c' Ev H; simpl in H.
    + apply execute_with_kwargs_dict in H. now destruct res.
    + apply execute_with_kwargs_dict in H. now destruct res.
    + destruct val as [| | | | |l|]; try discriminate.
      destruct (match min_len with Some m => _ | None => false end);
        [discriminate|].
      apply bind_Ok_inv in H as (rl & c1 & _ & H). now injection H as <- _.
    + destruct val as [| | | | | |d]; try discriminate.
      apply bind_Ok_inv in H as (rd & c1 & _ & H).
      apply Mapping_order_Ok in H as (entries & -> & _). reflexivity.
    + destruct (isinstance_primitive val).
      * exact (Field_validate_not_None pf _ _ _ _ _ _ Ev H).
      * exact (Field_validate_not_None cf _ _ _ _ _ _ Ev H).
    + injection H as <- _. now apply sort_keys_not_None.
    + apply lift_Ok_inv in H as [H _]. apply Integer_helper_val in H as [-> _].
      exact Ev.
    + apply lift_Ok_inv in H as [H _]. apply Float_helper_val in H as [-> _].
      exact Ev.
    + apply lift_Ok_inv in H as [H _]. apply Boolean_helper_val in H as [-> _].
      exact Ev.
    + apply lift_Ok_inv in H as [H _]. unfold MultipleChoiceSelection_helper in H.
      rewrite Ev in H.
      destruct (if isinstance_str val then VList [val] else val)
        as [| | | | |l|] eqn:E; try discriminate.
      destruct (existsb truthy _); [discriminate|].
      destruct l; now injection H as <-.
    + destruct (StringSpec_helper spec val); [|discriminate].
      now injection H as <- _.
Qed.

(** A primitive kind returns a primitive. *)
Lemma primitive_kind_returns_primitive f val kwargs allow_null c res c' :
  primitive_kind (kind_of f) = true ->
  isinstance_primitive val = true ->
  Field_validate execute f val kwargs allow_null c = (Ok res, c') ->
  isinstance_primitive res = true.
Proof.
  destruct f as [attrs kind]. simpl. intros Hk Hv H.
  unfold Field_validate_wrapper in H.
  replace (is_None val) with false in H by now destruct val.
  destruct kind; try discriminate; simpl in H.
  - apply lift_Ok_inv in H as [H _]. now apply Integer_helper_val in H as [-> H].
  - apply lift_Ok_inv in H as [H _]. now apply Float_helper_val in H as [-> H].
  - apply lift_Ok_inv in H as [H _]. now apply Boolean_helper_val in H as [-> H].
  - destruct (StringSpec_helper spec val); [|discriminate].
    now injection H as <- _.
Qed.

(** A kind that refers to Nodes, a List or a Mapping returns no primitive. *)
Lemma complex_kind_returns_no_primitive f val kwargs allow_null c res c' :
  complex_kind (kind_of f) = true ->
  Field_validate execute f val kwargs allow_null c = (Ok res, c') ->
  isinstance_primitive res = false.
Proof.
  destruct f as [attrs kind]. simpl.
  intros Hk H. unfold Field_validate_wrapper in H.
  assert (Hh : forall v, helper_for_validation execute kind v kwargs c = (Ok res, c') ->
                         isinstance_primitive res = false).
  { clear H. intros v H.
    destruct kind as [value fk | choice fk | value choice primitive min_len fk
                     | sk content | pf cf | | mn mx | mn mx | | choices | spec];
      try discriminate; simpl in H.
    - apply execute_with_kwargs_dict in H. now destruct res.
    - apply execute_with_kwargs_dict in H. now destruct res.
    - destruct v as [| | | | |l|]; try discriminate.
      destruct (match min_len with Some m => _ | None => false end);
        [discriminate|].
      apply bind_Ok_inv in H as (rl & c1 & _ & H). now injection H as <- _.
    - destruct v as [| | | | | |d]; try discriminate.
      apply bind_Ok_inv in H as (rd & c1 & _ & H).
      apply Mapping_order_Ok in H as (entries & -> & _). reflexivity. }
  destruct (is_None val); [|eauto].
  destruct (negb _); [discriminate|].
  destruct (validation_accepts_nulls attrs); [eauto|].
  now injection H as <- _.
Qed.

Lemma lift_idempotent (helper : pyvalue -> result pyvalue) :
  (forall val res, helper val = Ok res -> helper res = Ok res) ->
  idempotent (fun v => lift (helper v)).
Proof.
  intros Hh val c res c' H. apply lift_Ok_inv in H as [H _].
  intros c2 [Ht Hc2]. exists c2. rewrite (Hh _ _ H). auto.
Qed.

(** Every stable field validates what it returns to itself. *)
Lemma Field_validate_idempotent f :
  stable_field f = true ->
  forall kwargs allow_null,
    idempotent (fun v => Field_validate execute f v kwargs allow_null)
with helper_for_validation_idempotent kind :
  stable_kind kind = true ->
  forall kwargs,
    idempotent (fun v => helper_for_validation execute kind v kwargs).
Proof.
  - destruct f as [attrs kind]. intros Hst kwargs allow_null. simpl.
    apply Field_validate_wrapper_idempotent.
    + apply helper_for_validation_idempotent. exact Hst.
    + intros val c res c'. apply helper_for_validation_not_None.
  - destruct kind as [value fk | choice fk | value choice primitive min_len fk
                     | sk content | pf cf | | mn mx | mn mx | | choices | spec];
      intros Hst kwargs; simpl in Hst.
    + apply execute_with_kwargs_idempotent.
    + apply execute_with_kwargs_idempotent.
    + assert (Hg : idempotent
                (fun element =>
                   match primitive with
                   | Some p =>
                       if match value, choice with
                          | None, None => true
                          | _, _ => isinstance_primitive element
                          end
                       then Field_validate execute p element kwargs None
                       else
                         let* kw := lift (_get_kwargs_to_use kwargs fk) in
                         execute "validate" element (Some kw) value choice
                   | None =>
                       let* kw := lift (_get_kwargs_to_use kwargs fk) in
                       execute "validate" element (Some kw) value choice
                   end)).
      { destruct primitive as [p|]; [|apply execute_with_kwargs_idempotent].
        destruct value; [discriminate|]. destruct choice; [discriminate|].
        exact (Field_validate_idempotent p Hst kwargs None). }
      clear Field_validate_idempotent helper_for_validation_idempotent.
      intros val c res c' H. simpl in H.
      destruct val as [| | | | |l|]; try discriminate.
      destruct (match min_len with Some m => _ | None => false end) eqn:Emin;
        [discriminate|].
      apply bind_Ok_inv in H as (rl & c1 & Hl & H). injection H as <- <-.
      apply List_elements_replay in Hl as [Hlen Hreplay]; [|exact Hg].
      intros c2 Hc2. simpl. rewrite Hlen, Emin.
      destruct (Hreplay 0%nat c2 Hc2) as (c2' & Hr & Ht).
      rewrite (bind_Ok _ _ _ _ _ Hr). exists c2'. split; [reflexivity|exact Ht].
    + apply andb_true_iff in Hst as [Hsk Hcontent].
      pose proof (Field_validate_idempotent content Hcontent kwargs None) as Hc.
      clear Field_validate_idempotent helper_for_validation_idempotent.
      intros val c res c' H. simpl in H.
      destruct val as [| | | | | |d]; try discriminate.
      apply bind_Ok_inv in H as (rd & c1 & Hitems & Horder).
      apply Mapping_items_entries in Hitems as (new & -> & Hall & Hnd & _).
      simpl in Horder.
      apply Mapping_order_Ok in Horder as (entries & -> & Hperm & Hord).
      intros c2 Hc2. simpl.
      destruct (Mapping_items_replay (StringSpec_helper sk)
                  (fun v => Field_validate execute content v kwargs None)
                  entries [] c2) as (c2' & Hr & Ht).
      { eapply Permutation_Forall; [exact Hperm|].
        eapply Forall_impl; [exact Hall|].
        intros [k v] [[k0 Hk] (v0 & ca & cb & Hv)]. simpl in *. split.
        - exact (StringSpec_helper_idempotent _ _ _ Hsk Hk).
        - exact (Hc _ _ _ _ Hv). }
      { apply (NoDup_Permutation_proper _ _ (Permutation_map fst Hperm)).
        exact Hnd. }
      { intros k _ []. }
      { exact Hc2. }
      rewrite (bind_Ok _ _ _ _ _ Hr). simpl. rewrite Hord.
      exists c2'. split; [reflexivity|exact Ht].
    + apply andb_true_iff in Hst as [Hst Hcf].
      apply andb_true_iff in Hst as [Hst Hpf].
      apply andb_true_iff in Hst as [Hpk Hck].
      pose proof (Field_validate_idempotent pf Hpf kwargs None) as Hp.
      pose proof (Field_validate_idempotent cf Hcf kwargs None) as Hc.
      clear Field_validate_idempotent helper_for_validation_idempotent.
      intros val c res c' H. simpl in H.
      destruct (isinstance_primitive val) eqn:Ev.
      * pose proof (primitive_kind_returns_primitive _ _ _ _ _ _ _ Hpk Ev H) as Hres.
        intros c2 Hc2. simpl. rewrite Hres. exact (Hp _ _ _ _ H c2 Hc2).
      * pose proof (complex_kind_returns_no_primitive _ _ _ _ _ _ _ Hck H) as Hres.
        intros c2 Hc2. simpl. rewrite Hres. exact (Hc _ _ _ _ H c2 Hc2).
    + intros val c res c' H. injection H as <- <-.
      intros c2 [Ht Hc2]. exists c2. simpl. unfold ret.
      rewrite sort_keys_idempotent. auto.
    + apply lift_idempotent. intros val res H.
      now apply Integer_helper_val in H as H'; destruct H' as [-> _].
    + apply lift_idempotent. intros val res H.
      now apply Float_helper_val in H as H'; destruct H' as [-> _].
    + apply lift_idempotent. intros val res H.
      now apply Boolean_helper_val in H as H'; destruct H' as [-> _].
    + apply lift_idempotent. apply MultipleChoiceSelection_helper_idempotent.
    + intros val c res c' H. simpl in H.
      destruct (StringSpec_helper spec val) as [s|] eqn:E; [|discriminate].
      injection H as <- <-.
      intros c2 [Ht Hc2]. exists c2. simpl.
      rewrite (StringSpec_helper_idempotent _ _ _ Hst E). auto.
Qed.

End FieldIdempotence.

(** *** [Node.validate] on what it returned *)

Lemma check_field_names_Ok cls ordered_field_names ks c :
  (forall k, In k ks ->
     k = "type" /\ hasattr (Meta.choice_type cls) = true \/ In k ordered_field_names) ->
  check_field_names cls ordered_field_names ks c = (Ok tt, c).
Proof.
  induction ks as [|k rest IH]; intros Hks; [reflexivity|]. simpl.
  assert (Hrest : check_field_names cls ordered_field_names rest c = (Ok tt, c)).
  { apply IH. intros k' Hk'. apply Hks. now right. }
  destruct (str_in k _); [exact Hrest|].
  destruct (String.eqb k "type" && hasattr (Meta.choice_type cls)) eqn:Et;
    [exact Hrest|].
  replace (str_in k ordered_field_names) with true; [exact Hrest|].
  symmetry. destruct (Hks k (or_introl eq_refl)) as [[-> Hc]|Hin].
  - rewrite Hc in Et. discriminate.
  - apply existsb_exists. exists k. split; [exact Hin|apply String.eqb_refl].
Qed.

Section FieldsReplay.

Variable execute :
  string -> pyvalue -> option kwargs_dict -> option string -> option string -> M pyvalue.
Variable kwargs : option kwargs_dict.

(** The loop over the fields leaves the entries of other names alone. *)
Lemma validate_fields_get_other fields obj :
  forall acc c res c' k,
    validate_fields execute fields obj kwargs acc c = (Ok res, c') ->
    ~ In k (map fst fields) ->
    dict_get res k = dict_get acc k.
Proof.
  induction fields as [|[field_name field] rest IH]; intros acc c res c' k H Hk.
  - now injection H as <- _.
  - assert (Hne : field_name <> k) by (intros ->; apply Hk; now left).
    assert (Hrest : ~ In k (map fst rest)) by (intros Hin; apply Hk; now right).
    cbn [validate_fields] in H.
    destruct (dont_auto_validate (attrs_of field)); cbn [negb] in H.
    { exact (IH _ _ _ _ _ H Hrest). }
    apply bind_Ok_inv in H as (res1 & c1 & Hfield & H).
    assert (Hres1 : dict_get res1 k = dict_get acc k).
    { destruct (dict_get obj field_name) as [field_value|].
      - apply bind_Ok_inv in Hfield as (v & c0 & _ & Hret). injection Hret as <- _.
        now apply dict_get_set_ne.
      - destruct (required (attrs_of field)); [discriminate|].
        destruct (negb (dont_print_default (attrs_of field)));
          injection Hfield as <- _; [now apply dict_get_set_ne|reflexivity]. }
    rewrite <- Hres1.
    destruct (negb (dont_print_default (attrs_of field))).
    + destruct (dict_get res1 field_name) as [v|]; [|discriminate].
      destruct (is_None v && negb (null (attrs_of field))); [discriminate|].
      exact (IH _ _ _ _ _ H Hrest).
    + exact (IH _ _ _ _ _ H Hrest).
Qed.

(** The loop over the fields run again on a dict that holds, under each
    declared name, what the first run stored under it. *)
Lemma validate_fields_replay fields obj :
  NoDup (map fst fields) ->
  Forall (fun nf : string * Field =>
            idempotent (fun v => Field_validate execute nf.2 v kwargs None)
            /\ (fills_default nf.2 = true ->
                fixed_point (fun v => Field_validate execute nf.2 v kwargs None)
                  (default (attrs_of nf.2)))) fields ->
  forall acc c res c',
    (forall k, In k (map fst fields) -> ~ In k (keys acc)) ->
    validate_fields execute fields obj kwargs acc c = (Ok res, c') ->
    forall obj2,
      (forall k, In k (map fst fields) -> dict_get obj2 k = dict_get res k) ->
      forall c2, traceable c2 ->
        exists c2', validate_fields execute fields obj2 kwargs acc c2 = (Ok res, c2')
                    /\ trace_of c2' = trace_of c2 /\ has_current_object c2' = true.
Proof.
  induction fields as [|[field_name field] rest IH];
    intros Hnd Hall acc c res c' Hdis H obj2 Hobj2 c2 Hc2.
  - injection H as <- _. exists c2. destruct Hc2 as [_ Hc2]. simpl. auto.
  - apply NoDup_cons in Hnd as [Hname Hnd]. rewrite list_elem_of_In in Hname.
    inversion Hall as [|? ? [Hid Hdef] Hall']; subst. cbn [snd] in Hid, Hdef.
    assert (Hfresh : ~ In field_name (keys acc)) by (apply Hdis; now left).
    assert (Hobj2' : forall k, In k (map fst rest) -> dict_get obj2 k = dict_get res k).
    { intros k Hk. apply Hobj2. now right. }
    assert (Hget : forall res1 c1,
               validate_fields execute rest obj kwargs res1 c1 = (Ok res, c') ->
               dict_get obj2 field_name = dict_get res1 field_name).
    { intros res1 c1 Hrest. rewrite (Hobj2 field_name) by now left.
      exact (validate_fields_get_other _ _ _ _ _ _ _ Hrest Hname). }
    assert (Hstep : forall v c3,
               validate_fields execute rest obj kwargs
                 (dict_set acc field_name v) c3 = (Ok res, c') ->
               forall c4, traceable c4 ->
                 exists c2', validate_fields execute rest obj2 kwargs
                               (dict_set acc field_name v) c4 = (Ok res, c2')
                             /\ trace_of c2' = trace_of c4
                             /\ has_current_object c2' = true).
    { intros v c3 Hrest c4 Hc4.
      apply (IH Hnd Hall' _ _ _ _) with (3 := Hobj2') (2 := Hrest); [|exact Hc4].
      intros k Hk. rewrite keys_dict_set_new by exact Hfresh.
      intros Hin. apply in_app_or in Hin as [Hin|[<-|[]]].
      - apply (Hdis k); [now right|exact Hin].
      - exact (Hname Hk). }
    assert (Hskip : forall c3,
               validate_fields execute rest obj kwargs acc c3 = (Ok res, c') ->
               exists c2', validate_fields execute rest obj2 kwargs acc c2 = (Ok res, c2')
                           /\ trace_of c2' = trace_of c2
                           /\ has_current_object c2' = true).
    { intros c3 Hrest.
      apply (IH Hnd Hall' _ _ _ _) with (3 := Hobj2') (2 := Hrest); [|exact Hc2].
      intros k Hk. apply Hdis. now right. }
    cbn [validate_fields] in H |- *. unfold fills_default in Hdef.
    destruct (dont_auto_validate (attrs_of field)); cbn [negb andb] in *.
    { exact (Hskip _ H). }
    apply bind_Ok_inv in H as (res1 & c1 & Hfield & H).
    (* the value the first run stored, if it stored one *)
    assert (Hstored : forall v,
               res1 = dict_set acc field_name v ->
               fixed_point (fun v => Field_validate execute field v kwargs None) v ->
               exists c2',
                 (let* res_dict :=
                    match dict_get obj2 field_name with
                    | Some field_value =>
                        let* v := node_trace_step field_name field_value
                                    (Field_validate execute field field_value kwargs None) in
                        ret (dict_set acc field_name v)
                    | None =>
                        if required (attrs_of field) then
                          invalid_params "missing value for the required field '%s'"
                            [AVal (VStr field_name)]
                        else if negb (dont_print_default (attrs_of field)) then
                          ret (dict_set acc field_name (default (attrs_of field)))
                        else ret acc
                    end in
                  if negb (dont_print_default (attrs_of field)) then
                    match dict_get res_dict field_name with
                    | Some v =>
                        if is_None v && negb (null (attrs_of field)) then
                          invalid_params "the value must not be null" []
                        else validate_fields execute rest obj2 kwargs res_dict
                    | None => raise (PyError "KeyError")
                    end
                  else validate_fields execute rest obj2 kwargs res_dict) c2
                 = (Ok res, c2')
                 /\ trace_of c2' = trace_of c2 /\ has_current_object c2' = true).
    { intros v -> Hfp.
      assert (Hrest : validate_fields execute rest obj kwargs
                        (dict_set acc field_name v) c1 = (Ok res, c')
                      /\ (if negb (dont_print_default (attrs_of field))
                          then is_None v && negb (null (attrs_of field)) else false)
                         = false).
      { destruct (negb (dont_print_default (attrs_of field))); [|auto].
        rewrite dict_get_set_eq in H.
        destruct (is_None v && negb (null (attrs_of field))); [discriminate|auto]. }
      destruct Hrest as [Hrest Hsane].
      rewrite (Hget _ _ Hrest), dict_get_set_eq.
      destruct (node_trace_step_traceable field_name v
                  (Field_validate execute field v kwargs None) v c2 Hc2 Hfp)
        as (c3 & Hs & Ht3 & Hc3).
      rewrite (bind_Ok _ _ _ _ _
                 (bind_Ok _ (fun v => ret (dict_set acc field_name v)) _ _ _ Hs)).
      destruct (Hstep _ _ Hrest c3 (traceable_after _ _ Hc2 Ht3 Hc3))
        as (c4 & Hr & Ht4 & Hc4).
      exists c4. split; [|split; [congruence|exact Hc4]].
      cbv beta.
      destruct (negb (dont_print_default (attrs_of field))); [|exact Hr].
      rewrite dict_get_set_eq, Hsane. exact Hr. }
    destruct (dict_get obj field_name) as [field_value|].
    + apply bind_Ok_inv in Hfield as (v & c0 & Hv & Hret). injection Hret as <- <-.
      apply node_trace_step_Ok_inv in Hv as (prev & ca & cb & _ & Hbody & _).
      exact (Hstored v eq_refl (Hid _ _ _ _ Hbody)).
    + destruct (required (attrs_of field)) eqn:Ereq; [discriminate|].
      cbn [negb andb] in Hdef.
      destruct (dont_print_default (attrs_of field)) eqn:Edpd; cbn [negb] in *.
      * injection Hfield as <- <-.
        rewrite (Hget _ _ H).
        replace (dict_get acc field_name) with (@None pyvalue)
          by (symmetry; now apply dict_get_None_keys).
        unfold bind at 1, ret at 1. exact (Hskip _ H).
      * injection Hfield as <- <-.
        exact (Hstored _ eq_refl (Hdef eq_refl)).
Qed.

End FieldsReplay.

Section NodeIdempotence.

Variable R : Registry.
Variable execute :
  string -> pyvalue -> option kwargs_dict -> option string -> option string -> M pyvalue.
Hypothesis execute_canonical : canonical_execute execute.
Hypothesis R_fields : Forall (fun nf => stable_fields nf.2) (_value_to_node_fields R).

(** What [Node.validate] returns is a dict [r] of declared names; the Node
    validates to [r] every dict that agrees with [r] on the declared names
    and has no other key, but for the tag of a Node that has one. *)
Lemma Node_validate_replay cls obj kw c res c' :
  Node_validate R execute cls obj (Some kw) c = (Ok res, c') ->
  exists r fields,
    res = VDict r
    /\ dict_get (_value_to_node_fields R) (Meta.name cls) = Some fields
    /\ stable_fields fields
    /\ sublist (keys r) (map fst fields)
    /\ forall d2,
        (forall k, In k (keys d2) ->
           k = "type" /\ hasattr (Meta.choice_type cls) = true
           \/ In k (map fst fields)) ->
        (forall k, In k (map fst fields) -> dict_get d2 k = dict_get r k) ->
        validates_to (fun v => Node_validate R execute cls v (Some kw))
          (VDict d2) (VDict r).
Proof.
  intros H.
  destruct (Node_validate_Ok_fields _ _ _ _ _ _ _ _ H) as [fields Hfields].
  assert (Hstable : stable_fields fields).
  { apply dict_get_Some_In in Hfields. rewrite Forall_forall in R_fields.
    apply (R_fields (Meta.name cls, fields)). now apply list_elem_of_In. }
  destruct Hstable as (Hnd & Htype & Hall).
  unfold Node_validate in H.
  apply bind_Ok_inv in H as (obj' & c1 & _ & H).
  destruct obj' as [| | | | | |d]; try discriminate.
  rewrite Hfields in H.
  apply bind_Ok_inv in H as ([] & c2 & _ & H).
  apply bind_Ok_inv in H as (res_dict & c3 & Hres & H).
  assert (Hkeys : keys res_dict
                  = (keys (@nil (string * pyvalue)) ++ declaration_order fields d)%list).
  { eapply validate_fields_keys; [exact Hnd|intros k []|exact Hres]. }
  simpl in Hkeys.
  assert (Hsub : sublist (keys res_dict) (map fst fields)).
  { rewrite Hkeys. apply declaration_order_sublist. }
  rewrite (order_result_sublist _ _ _ Hnd Hsub) in H. injection H as <- <-.
  exists res_dict, fields. split; [reflexivity|]. split; [exact Hfields|].
  split; [repeat split; assumption|]. split; [exact Hsub|].
  intros d2 Hd2 Hget c4 Hc4. unfold Node_validate.
  assert (Hfirst : match Meta.shortform_field cls with
                   | Some shortform_field =>
                       if negb (isinstance_dict (VDict d2)) then
                         node_trace_step "conversion from shortform" (VDict d2)
                           (shortform_validate shortform_field (VDict d2);;
                            let obj := Meta.shortform_conversion cls (VDict d2) in
                            if negb (isinstance_dict obj) then
                              programming_error
                                "the shortform conversion did not return a dict" []
                            else ret obj)
                       else ret (VDict d2)
                   | None =>
                       if negb (isinstance_dict (VDict d2)) then
                         invalid_params "the value must be a dictionary" []
                       else ret (VDict d2)
                   end c4 = (Ok (VDict d2), c4)).
  { destruct (Meta.shortform_field cls); reflexivity. }
  rewrite (bind_Ok _ _ _ _ _ Hfirst). cbv beta iota. rewrite Hfields.
  rewrite (bind_Ok _ _ _ _ _ (check_field_names_Ok _ _ _ _ Hd2)).
  destruct (validate_fields_replay execute (Some kw) fields d Hnd) with
    (acc := @nil (string * pyvalue)) (c := c2) (res := res_dict) (c' := c3)
    (obj2 := d2) (c2 := c4) as (c5 & Hr & Ht); auto.
  { eapply Forall_impl; [exact Hall|]. intros [name f] [Hst Hdef]. split.
    - now apply Field_validate_idempotent.
    - intros Hf. exact (Hdef Hf execute (Some kw)). }
  rewrite (bind_Ok _ _ _ _ _ Hr).
  rewrite (order_result_sublist _ _ _ Hnd Hsub). exists c5. auto.
Qed.

End NodeIdempotence.

(** *** [execute_function_on_node] on what it returned *)

Lemma dict_remove_absent {A} (d : list (string * A)) k :
  dict_get d k = None -> dict_remove d k = d.
Proof.
  induction d as [|[k' v] r IH]; [reflexivity|]. simpl.
  destruct (String.eqb k k'); [discriminate|]. intros H. simpl. now rewrite IH.
Qed.

Lemma stamp_fresh (r : pydict) t :
  dict_get r "type" = None ->
  move_to_front (dict_set r "type" (VStr t)) "type" = ("type", VStr t) :: r.
Proof. intros H. now rewrite move_to_front_dict_set, dict_remove_absent. Qed.

Lemma check_kwargs_pure candidate_nodes kwargs c c' :
  check_kwargs candidate_nodes kwargs c = (Ok tt, c') ->
  forall c2, check_kwargs candidate_nodes kwargs c2 = (Ok tt, c2).
Proof.
  induction candidate_nodes as [|n rest IH]; intros H c2; [reflexivity|].
  simpl in *. destruct (_ || _); [discriminate|]. now apply IH.
Qed.

Lemma types_of_choice_consistent R choice :
  consistent_choices R ->
  NoDup (keys (types_of_choice R choice))
  /\ forall tag v n,
      In (tag, v) (types_of_choice R choice) ->
      dict_get (_value_to_node R) v = Some n ->
      Meta.choice_type n = Some tag.
Proof.
  intros HR. unfold types_of_choice.
  destruct (dict_get (_choice_to_type_to_values R) choice) as [types|] eqn:E.
  - apply dict_get_Some_In in E. exact (HR _ _ E).
  - split; [apply NoDup_nil_2|intros ? ? ? []].
Qed.

Section ExecuteIdempotence.

Variable R : Registry.
Variable call : Node -> string -> pyvalue -> kwargs_dict -> M pyvalue.
Hypothesis call_canonical : canonical_call call.
Hypothesis R_choices : consistent_choices R.

Local Abbreviation group_of choice :=
  (types_of_choice R (match choice with Some c => c | None => "" end)).

Local Abbreviation candidates_of value choice :=
  (match value with
   | Some v => let* n := lookup_node R v in ret [n]
   | None => mapM (fun kv : string * string => lookup_node R kv.2) (group_of choice)
   end).

Lemma candidates_of_pure value choice c candidate_nodes c' :
  candidates_of value choice c = (Ok candidate_nodes, c') ->
  (forall c2, candidates_of value choice c2 = (Ok candidate_nodes, c2))
  /\ (value = None ->
      Forall2 (fun kv n => dict_get (_value_to_node R) kv.2 = Some n)
        (group_of choice) candidate_nodes)
  /\ (forall v, value = Some v -> exists n, candidate_nodes = [n]).
Proof.
  destruct value as [v|]; intros H.
  - apply bind_Ok_inv in H as (n & c1 & Hn & H). injection H as <- <-.
    unfold lookup_node in Hn.
    destruct (dict_get (_value_to_node R) v) as [n'|] eqn:E; [|discriminate].
    injection Hn as <- <-. split; [|split; [discriminate|eauto]].
    intros c2. unfold bind, lookup_node. now rewrite E.
  - apply mapM_lookup_node_inv in H as [-> Hall]. split; [|split; [auto|discriminate]].
    intros c2. now apply mapM_lookup_node_Forall2.
Qed.

(** The second run: the value is the dict [r] a Node returned, with the
    tag of the Node in front; the Node is selected by the reference or by
    the tag, and returns [r] again. *)
Lemma execute_function_on_node_replay kw value choice n r candidate_nodes :
  Bool.eqb (hasattr value) (hasattr choice) = false ->
  (forall c2, candidates_of value choice c2 = (Ok candidate_nodes, c2)) ->
  (forall c2, check_kwargs candidate_nodes kw c2 = (Ok tt, c2)) ->
  (candidate_nodes = [n]
   \/ length candidate_nodes <> 1%nat
      /\ exists t v, Meta.choice_type n = Some t
                     /\ dict_get (group_of choice) t = Some v
                     /\ dict_get (_value_to_node R) v = Some n) ->
  dict_get r "type" = None ->
  validates_to (fun v => call n "validate" v kw) (stamped n r) (VDict r) ->
  fixed_point (fun v => execute_function_on_node R call "validate" v (Some kw)
                          value choice) (stamped n r).
Proof.
  intros Heqb Hcands Hcheck Hsel Htype Hcall c2 Hc2.
  destruct (Hcall c2 Hc2) as (c3 & Hr & Ht).
  exists c3. split; [|exact Ht].
  assert (Hso : exists so, stack_objects c2 = Some so).
  { destruct Hc2 as [[t Htr] _]. unfold trace_of in Htr.
    destruct (stack_objects c2); [eauto|discriminate]. }
  destruct Hso as [so Hso].
  assert (Hpost :
    (if String.eqb "validate" "validate" then
       match Meta.choice_type n with
       | Some choice_type =>
           if match type_of_dict (stamped n r) with
              | Some t => negb (eq_str choice_type t)
              | None => false
              end
           then programming_error
                  "the type was already given, but after validating it is not the value of the selected Node. This should not be possible." []
           else
             match VDict r with
             | VDict d =>
                 match dict_get d "type" with
                 | Some t =>
                     let* types := mapM get_choice_type candidate_nodes in
                     if negb (value_in_strs t types) then
                       programming_error
                         "after validating the type was already set, but is not one of the ones that was requested." []
                     else ret (VDict (move_to_front d "type"))
                 | None => stamp_type (VDict r) choice_type
                 end
             | _ => raise (PyError "TypeError")
             end
       | None => ret (VDict r)
       end
     else ret (VDict r)) c3 = (Ok (stamped n r), c3)).
  { rewrite String.eqb_refl. unfold stamped.
    destruct (Meta.choice_type n) as [ct|]; [|reflexivity].
    cbn [type_of_dict dict_get]. rewrite String.eqb_refl. cbn [eq_str].
    rewrite String.eqb_refl. cbn [negb]. rewrite Htype.
    unfold stamp_type, ret. now rewrite stamp_fresh. }
  unfold execute_function_on_node. rewrite Heqb.
  unfold bind at 1. rewrite Hso.
  rewrite (bind_Ok _ _ _ _ _ (Hcands c2)).
  destruct Hsel as [->|[Hlen (t & v & Hct & Hgroup & Hv)]].
  - cbn [length Nat.ltb Nat.leb andb].
    rewrite (bind_Ok _ _ _ _ _ (Hcheck c2)).
    unfold bind at 1, ret at 1.
    rewrite (bind_Ok _ _ _ _ _ Hr). exact Hpost.
  - assert (Hobj : stamped n r = VDict (("type", VStr t) :: r)).
    { unfold stamped. now rewrite Hct. }
    rewrite Hobj in *. rewrite andb_false_r.
    rewrite (bind_Ok _ _ _ _ _ (Hcheck c2)).
    assert (Hselect :
      (let* n := lookup_node R v in ret (Some n)) c2 = (Ok (Some n), c2)).
    { unfold bind, lookup_node. now rewrite Hv. }
    destruct candidate_nodes as [|a [|b rest]]; [|now elim Hlen|];
      cbn [type_of_dict dict_get]; rewrite String.eqb_refl, Hgroup;
      rewrite (bind_Ok _ _ _ _ _ Hselect);
      rewrite (bind_Ok _ _ _ _ _ Hr); exact Hpost.
Qed.

(** The first run: the result is the dict a Node returned, stamped, and
    that Node is the only candidate or can be found again by its tag. *)
Lemma execute_function_on_node_stamped kw value choice val c res c' :
  execute_function_on_node R call "validate" val (Some kw) value choice c = (Ok res, c') ->
  exists n r,
    res = stamped n r
    /\ fixed_point (fun v => execute_function_on_node R call "validate" v (Some kw)
                               value choice) (stamped n r).
Proof.
  unfold execute_function_on_node at 1. intros H.
  destruct (Bool.eqb _ _) eqn:Heqb; [discriminate|].
  apply bind_Ok_inv in H as (so & c0 & Hso & H). injection Hso as <- <-.
  destruct (stack_objects c) as [so|] eqn:Eso; [|discriminate].
  apply bind_Ok_inv in H as (candidate_nodes & c1 & Hcands & H).
  destruct (candidates_of_pure _ _ _ _ _ Hcands) as (Hpure & Hgroup & Hvalue).
  rewrite Hpure in Hcands. injection Hcands as <-.
  destruct (_ && _); [discriminate|].
  apply bind_Ok_inv in H as ([] & c2 & Hcheck & H).
  rewrite String.eqb_refl in Hcheck.
  pose proof (check_kwargs_pure _ _ _ _ Hcheck) as Hcheck'.
  destruct (types_of_choice_consistent R
              (match choice with Some c => c | None => "" end) R_choices)
    as [Hnd Htags].
  apply bind_Ok_inv in H as (selected & c3 & Hsel & H).
  destruct selected as [n|].
  - apply bind_Ok_inv in H as (res_obj & c4 & Hcall & H).
    destruct (call_canonical _ _ _ _ _ _ Hcall) as (r & -> & Htype & Hst & _).
    exists n, r.
    assert (Hres : res = stamped n r).
    { rewrite String.eqb_refl in H. unfold stamped.
      destruct (Meta.choice_type n) as [ct|]; [|now injection H as <- _].
      destruct (match type_of_dict val with Some _ => _ | None => false end);
        [discriminate|].
      rewrite Htype in H. injection H as <- _. now rewrite stamp_fresh. }
    split; [exact Hres|].
    apply execute_function_on_node_replay with (candidate_nodes := candidate_nodes);
      auto.
    assert (Hbytype :
        match type_of_dict val with
        | Some provided_type =>
            match provided_type with
            | VList _ | VDict _ => raise (PyError "TypeError")
            | _ =>
                match match provided_type with
                      | VStr t => dict_get (group_of choice) t
                      | _ => None
                      end with
                | Some v => let* n := lookup_node R v in ret (Some n)
                | None =>
                    invalid_params "the type '%s' is not valid.\nValid types are: %s"
                      [AVal provided_type;
                       AVal (VStr (join ", " (keys (group_of choice))))]
                end
            end
        | None => ret None
        end c2 = (Ok (Some n), c3) ->
        exists t v, Meta.choice_type n = Some t
                    /\ dict_get (group_of choice) t = Some v
                    /\ dict_get (_value_to_node R) v = Some n).
    { intros Hty. destruct (type_of_dict val) as [t|]; [|discriminate].
      destruct t as [| | | |s| |]; try discriminate.
      destruct (dict_get (group_of choice) s) as [v|] eqn:Eg; [|discriminate].
      apply bind_Ok_inv in Hty as (n' & ? & Hn & Hty). injection Hty as <- _.
      unfold lookup_node in Hn.
      destruct (dict_get (_value_to_node R) v) eqn:E; [|discriminate].
      injection Hn as <- _. exists s, v. split; [|auto].
      apply (Htags s v); [|exact E]. now apply dict_get_Some_In. }
    destruct candidate_nodes as [|a [|b rest]].
    + right. split; [discriminate|auto].
    + left. now injection Hsel as <- _.
    + right. split; [discriminate|auto].
  - rewrite String.eqb_refl in H. cbn [negb] in H.
    apply bind_Ok_inv in H as (successes & c4 & Hloop & H).
    destruct successes as [|[[cand res_obj] copy] [|s' rest]]; [| |].
    + apply bind_Ok_inv in H as (? & ? & _ & H). discriminate.
    + apply bind_Ok_inv in H as (t & c5 & Ht & H).
      apply bind_Ok_inv in H as (res' & c6 & Hstamp & H).
      apply bind_Ok_inv in H as ([] & c7 & _ & H). injection H as <- _.
      destruct (try_candidates_Ok_inv _ _ _ _ _ _ _ _ Hloop cand res_obj copy
                  (or_introl eq_refl)) as [[]|[Hin Hex]].
      destruct Hex as (tmp_obj & copy0 & c1' & c2' & Hcall & _ & _).
      destruct (call_canonical _ _ _ _ _ _ Hcall) as (r & -> & Htype & Hst & _).
      unfold get_choice_type in Ht.
      destruct (Meta.choice_type cand) as [t'|] eqn:Ect; [|discriminate].
      injection Ht as <- _. injection Hstamp as <- _.
      exists cand, r.
      assert (Hres : VDict (move_to_front (dict_set r "type" (VStr t')) "type")
                     = stamped cand r).
      { unfold stamped. now rewrite Ect, stamp_fresh. }
      split; [exact Hres|].
      apply execute_function_on_node_replay with (candidate_nodes := candidate_nodes);
        auto.
      right.
      assert (Hlen : length candidate_nodes <> 1%nat).
      { destruct candidate_nodes as [|a [|b rest]]; discriminate. }
      split; [exact Hlen|].
      assert (Hnone : value = None).
      { destruct value as [v0|]; [|reflexivity].
        destruct (Hvalue v0 eq_refl) as [n0 ->]. now elim Hlen. }
      specialize (Hgroup Hnone).
      assert (Hfind : exists kv, In kv (group_of choice)
                                 /\ dict_get (_value_to_node R) kv.2 = Some cand).
      { clear -Hgroup Hin. induction Hgroup as [|kv n0 l l' Hkv _ IH]; [destruct Hin|].
        destruct Hin as [->|Hin].
        - exists kv. split; [now left|exact Hkv].
        - destruct (IH Hin) as (kv' & Hkv' & Hc). exists kv'. split; [now right|exact Hc]. }
      destruct Hfind as ([tag v] & Hkv & Hv). simpl in Hv.
      pose proof (Htags _ _ _ Hkv Hv) as Htag. rewrite Ect in Htag.
      injection Htag as ->.
      exists tag, v. split; [exact Ect|]. split; [|exact Hv].
      now apply In_dict_get_NoDup.
    + apply bind_Ok_inv in H as (? & ? & _ & H). discriminate.
Qed.

Lemma execute_function_on_node_canonical :
  canonical_execute (execute_function_on_node R call).
Proof.
  intros kw value choice. split.
  - intros val c res c' H.
    apply execute_function_on_node_stamped in H as (n & r & -> & Hfp). exact Hfp.
  - intros val c res c' H.
    apply execute_function_on_node_stamped in H as (n & r & -> & _).
    unfold stamped. now destruct (Meta.choice_type n).
Qed.

End ExecuteIdempotence.

(** *** Tying the knot: any recursion limit *)

Lemma Node_call_canonical R fuel :
  stable_registry R -> canonical_call (Node_call R fuel).
Proof.
  intros [Hfields Hchoices]. induction fuel as [|fuel IH];
    intros n kw obj c res c' H; [discriminate|].
  cbn [Node_call] in H. rewrite String.eqb_refl in H.
  pose proof (execute_function_on_node_canonical R _ IH Hchoices) as Hexec.
  destruct (Node_validate_replay R _ Hexec Hfields _ _ _ _ _ _ H)
    as (r & fields & -> & _ & (Hnd & Htype & _) & Hsub & Hreplay).
  exists r. split; [reflexivity|].
  assert (Hdeclared : forall k, In k (keys r) -> In k (map fst fields)).
  { intros k. apply sublist_In, Hsub. }
  split; [|split].
  - apply dict_get_None_keys. intros Hin. exact (Htype (Hdeclared _ Hin)).
  - intros c2 Hc2. cbn [Node_call]. rewrite String.eqb_refl.
    unfold stamped. destruct (Meta.choice_type n) as [t|] eqn:Ect.
    + apply Hreplay; [| |exact Hc2].
      * intros k [<-|Hin]; [now left|right; auto].
      * intros k Hk. cbn [dict_get].
        destruct (String.eqb k "type") eqn:E; [|reflexivity].
        apply String.eqb_eq in E. subst k. contradiction.
    + apply Hreplay; [| |exact Hc2]; auto.
  - intros c2 Hc2. cbn [Node_call]. rewrite String.eqb_refl.
    apply Hreplay; [| |exact Hc2]; auto.
Qed.

Lemma execute_without_kwargs R call function obj value choice c :
  is_Ok (execute_function_on_node R call function obj None value choice c).1 = false.
Proof.
  unfold execute_function_on_node.
  destruct (Bool.eqb _ _); [reflexivity|]. unfold bind.
  now destruct (stack_objects c).
Qed.


Lemma on_error_default_is_canonical : default_is_canonical on_error.
Proof. intros execute kwargs c [_ Hc]. exists c. auto. Qed.

Lemma prompting_registry_stable : stable_registry prompting_registry.
Proof.
  split.
  - repeat constructor; simpl;
      try (rewrite list_elem_of_In; simpl; intuition discriminate);
      try (intuition discriminate); try discriminate.
    intros _. exact on_error_default_is_canonical.
  - intros choice types [[= <- <-]|[]]. split.
    + repeat constructor; rewrite list_elem_of_In; simpl; intuition discriminate.
    + intros tag v n [[= <- <-]|[[= <- <-]|[[= <- <-]|[]]]] [= <-]; reflexivity.
Qed.

Lemma initial_context_traceable : traceable initial_context.
Proof. split; [exists []; reflexivity|reflexivity]. Qed.


(** *** A default that is filled in and does not validate to itself *)


(** * Further properties of the code *)

(** ** [_get_kwargs_to_use]: which kwargs reach a referenced Node *)

Lemma kwargs_from_field_get given field_kwargs :
  NoDup (keys field_kwargs) ->
  forall res0 res k,
    kwargs_from_field given field_kwargs res0 = Ok res ->
    dict_get res k
    = match dict_get field_kwargs k with
      | Some PASS_ARG_ALONG => dict_get given k
      | Some v => Some v
      | None => dict_get res0 k
      end.
Proof.
  induction field_kwargs as [|[k0 v0] rest IH]; intros Hnd res0 res k H.
  - now injection H as <-.
  - apply NoDup_cons in Hnd as [Hk0 Hnd]. rewrite list_elem_of_In in Hk0.
    apply dict_get_None_keys in Hk0. simpl in Hk0.
    assert (Hstep : forall x,
               kwargs_from_field given rest (dict_set res0 k0 x) = Ok res ->
               dict_get res k
               = if String.eqb k k0 then Some x
                 else match dict_get rest k with
                      | Some PASS_ARG_ALONG => dict_get given k
                      | Some v => Some v
                      | None => dict_get res0 k
                      end).
    { intros x Hx. rewrite (IH Hnd _ _ k Hx).
      destruct (String.eqb k k0) eqn:E.
      - apply String.eqb_eq in E. subst k. now rewrite Hk0, dict_get_set_eq.
      - rewrite dict_get_set_ne; [reflexivity|].
        intros ->. now rewrite String.eqb_refl in E. }
    cbn [kwargs_from_field dict_get] in *.
    destruct v0 as [v| |v].
    + rewrite (Hstep _ H). now destruct (String.eqb k k0).
    + destruct (dict_get given k0) as [g|] eqn:Eg; [|discriminate].
      rewrite (Hstep _ H). destruct (String.eqb k k0) eqn:E; [|reflexivity].
      apply String.eqb_eq in E. now subst k.
    + rewrite (Hstep _ H). now destruct (String.eqb k k0).
Qed.

Lemma kwargs_overwrites_get given :
  NoDup (keys given) ->
  forall res k,
    dict_get (kwargs_overwrites given res) k
    = match dict_get given k with
      | Some (OverwriteKeywordArgOfField v) => Some (KValue v)
      | _ => dict_get res k
      end.
Proof.
  induction given as [|[k0 v0] rest IH]; intros Hnd res k; [reflexivity|].
  apply NoDup_cons in Hnd as [Hk0 Hnd]. rewrite list_elem_of_In in Hk0.
  apply dict_get_None_keys in Hk0. simpl in Hk0.
  cbn [kwargs_overwrites dict_get].
  destruct (String.eqb k k0) eqn:E.
  - apply String.eqb_eq in E. subst k.
    destruct v0 as [v| |v]; rewrite (IH Hnd), Hk0; try reflexivity.
    apply dict_get_set_eq.
  - destruct v0 as [v| |v]; rewrite (IH Hnd); try reflexivity.
    rewrite dict_get_set_ne; [reflexivity|].
    intros ->. now rewrite String.eqb_refl in E.
Qed.

(** X1. The kwargs a field hands to the Node it refers to, key by key: an
    OverwriteKeywordArgOfField among the given kwargs always wins and is
    unwrapped; otherwise the field's own kwarg is used, PASS_ARG_ALONG
    standing for the given value; a given kwarg the field does not name is
    not handed on. *)
Theorem _get_kwargs_to_use_lookup :
  forall given field_kwargs res k,
    NoDup (keys given) -> NoDup (keys field_kwargs) ->
    _get_kwargs_to_use (Some given) field_kwargs = Ok res ->
    dict_get res k
    = match dict_get given k with
      | Some (OverwriteKeywordArgOfField v) => Some (KValue v)
      | g => match dict_get field_kwargs k with
             | Some PASS_ARG_ALONG => g
             | Some v => Some v
             | None => None
             end
      end.
Proof.
  intros given field_kwargs res k Hg Hf H. unfold _get_kwargs_to_use in H.
  destruct (kwargs_from_field given field_kwargs []) as [res0|e] eqn:E; [|discriminate].
  injection H as <-.
  rewrite (kwargs_overwrites_get _ Hg), (kwargs_from_field_get _ _ Hf _ _ k E).
  destruct (dict_get given k) as [[v| |v]|]; try reflexivity;
    destruct (dict_get field_kwargs k) as [[w| |w]|]; reflexivity.
Qed.

Lemma _get_kwargs_to_use_lookup_witness :
  exists res,
    _get_kwargs_to_use (Some allow_user_input) pass_allow_user_input_node = Ok res
    /\ dict_get res "allow_user_input_node" = Some (KValue (VBool true)).
Proof.
  eexists. split; [reflexivity|].
  rewrite (_get_kwargs_to_use_lookup allow_user_input pass_allow_user_input_node
             _ "allow_user_input_node"); [reflexivity| | |reflexivity];
    repeat constructor; rewrite list_elem_of_In; simpl; tauto.
Defined.

Lemma kwargs_from_field_outcome given field_kwargs :
  forall res0,
    match kwargs_from_field given field_kwargs res0 with
    | Ok _ => forall k, In (k, PASS_ARG_ALONG) field_kwargs -> dict_has given k = true
    | Raise e =>
        e = PyError "KeyError"
        /\ exists k, In (k, PASS_ARG_ALONG) field_kwargs /\ dict_has given k = false
    end.
Proof.
  induction field_kwargs as [|[k0 v0] rest IH]; intros res0; [intros k []|].
  cbn [kwargs_from_field].
  assert (Hrest : forall x,
             In (k0, v0) [(k0, v0)] ->
             (v0 = PASS_ARG_ALONG -> dict_has given k0 = true) ->
             match kwargs_from_field given rest (dict_set res0 k0 x) with
             | Ok _ => forall k, In (k, PASS_ARG_ALONG) ((k0, v0) :: rest) ->
                                 dict_has given k = true
             | Raise e =>
                 e = PyError "KeyError"
                 /\ exists k, In (k, PASS_ARG_ALONG) ((k0, v0) :: rest)
                              /\ dict_has given k = false
             end).
  { intros x _ Hv0. specialize (IH (dict_set res0 k0 x)).
    destruct (kwargs_from_field given rest (dict_set res0 k0 x)) as [r|e].
    - intros k [Heq|Hin]; [|now apply IH].
      injection Heq as <- Hv. now apply Hv0.
    - destruct IH as [-> (k & Hin & Hk)]. split; [reflexivity|].
      exists k. split; [now right|exact Hk]. }
  destruct v0 as [v| |v].
  - apply Hrest; [now left|discriminate].
  - destruct (dict_get given k0) as [g|] eqn:Eg.
    + apply Hrest; [now left|]. intros _. unfold dict_has. now rewrite Eg.
    + split; [reflexivity|]. exists k0. split; [now left|].
      unfold dict_has. now rewrite Eg.
  - apply Hrest; [now left|discriminate].
Qed.

(** X2. With a dict of given kwargs, [_get_kwargs_to_use] returns exactly
    when every kwarg the field marks PASS_ARG_ALONG is among the given
    ones; otherwise it raises KeyError, and nothing else. *)
Theorem _get_kwargs_to_use_outcome :
  forall given field_kwargs,
    match _get_kwargs_to_use (Some given) field_kwargs with
    | Ok _ => forall k, In (k, PASS_ARG_ALONG) field_kwargs -> dict_has given k = true
    | Raise e =>
        e = PyError "KeyError"
        /\ exists k, In (k, PASS_ARG_ALONG) field_kwargs /\ dict_has given k = false
    end.
Proof.
  intros given field_kwargs. unfold _get_kwargs_to_use.
  pose proof (kwargs_from_field_outcome given field_kwargs []) as H.
  now destruct (kwargs_from_field given field_kwargs []).
Qed.

(** ** Scalar and composite fields *)

Lemma str_of_int_inj z1 z2 : str_of_int z1 = str_of_int z2 -> z1 = z2.
Proof.
  intros H. apply (f_equal int_of_str) in H.
  rewrite !int_of_str_of_int in H. congruence.
Qed.

Lemma IntegerAsString_helper_Ok sp mn mx val t :
  IntegerAsString_helper sp mn mx val = Ok t ->
  exists s z, val = VStr s /\ String_helper sp val = Ok s
              /\ int_of_str s = Some z /\ check_int_bounds mn mx z = Ok tt
              /\ t = str_of_int z.
Proof.
  unfold IntegerAsString_helper.
  destruct (String_helper sp val) as [s|e] eqn:Es; [|destruct e; discriminate].
  destruct (int_of_str s) as [z|] eqn:Ez; [|discriminate].
  destruct (check_int_bounds mn mx z) as [[]|] eqn:Eb; [|discriminate].
  intros [= <-]. exists s, z. apply String_helper_val in Es as Hv.
  repeat split; auto.
Qed.



(** *** MultipleChoiceSelection *)

(** X4. Whatever a MultipleChoiceSelection accepts, it returns the
    declared choices that occur in the input (None counts as the empty
    list, a str as a list of one), in declared order: never a value that is
    not a declared choice, never in the order of the input. *)
Theorem MultipleChoiceSelection_result :
  forall choices val res,
    MultipleChoiceSelection_helper choices val = Ok res ->
    exists l,
      (val = VNone /\ l = [] \/ (exists s, val = VStr s) /\ l = [val] \/ val = VList l)
      /\ res = VList (map VStr (List.filter (fun a => existsb (eq_str a) l) choices)).
Proof.
  intros choices val res H. unfold MultipleChoiceSelection_helper in H.
  assert (Hempty : map VStr (List.filter (fun a => existsb (eq_str a) []) choices) = []).
  { clear H. induction choices as [|a r IH]; [reflexivity|exact IH]. }
  destruct val as [| | | |s|l|]; cbn [is_None isinstance_str] in H; try discriminate.
  - exists []. split; [auto|]. injection H as <-. now rewrite Hempty.
  - exists [VStr s]. split; [eauto|].
    destruct (existsb truthy _); [discriminate|]. now injection H as <-.
  - exists l. split; [auto|].
    destruct (existsb truthy _); [discriminate|].
    destruct l; injection H as <-; [now rewrite Hempty|reflexivity].
Qed.

Lemma MultipleChoiceSelection_result_witness :
  exists res,
    MultipleChoiceSelection_helper ["a"; "b"; "c"] (VList [VStr "c"; VStr "a"; VStr "c"])
    = Ok res
    /\ res = VList [VStr "a"; VStr "c"].
Proof.
  eexists. split; [reflexivity|].
  destruct (MultipleChoiceSelection_result ["a"; "b"; "c"]
              (VList [VStr "c"; VStr "a"; VStr "c"]) _ eq_refl)
    as (l & [[H _]|[[[s H] _]|H]] & Hres); try discriminate.
  injection H as <-. exact Hres.
Defined.

(** *** List *)

Section ListFacts.

Variable validate_element : pyvalue -> M pyvalue.

Lemma List_elements_pointwise l :
  forall i c res c',
    List_elements validate_element i l c = (Ok res, c') ->
    Forall2 (fun element validated =>
               exists c1 c2, validate_element element c1 = (Ok validated, c2)) l res.
Proof.
  induction l as [|element rest IH]; intros i c res c' H.
  - injection H as <- _. constructor.
  - simpl in H.
    apply bind_Ok_inv in H as (r & c1 & Hstep & H).
    apply bind_Ok_inv in H as (rs & c2 & Hrest & H).
    injection H as <- _.
    apply node_trace_step_Ok_inv in Hstep as (prev & ca & cb & _ & Hbody & _).
    constructor; [eauto|]. exact (IH _ _ _ _ Hrest).
Qed.

End ListFacts.

(** X5. A List field that accepts a list returns a list of the same
    length, at least [min_length] long, whose i-th element is what the
    element validation (the primitive field, or the referenced Node) made
    of the i-th input element: nothing is dropped, added or reordered. *)
Theorem List_validates_pointwise :
  forall execute value choice primitive min_len field_kwargs l kwargs c res c',
    helper_for_validation execute
      (FList value choice primitive min_len field_kwargs) (VList l) kwargs c
    = (Ok res, c') ->
    exists validated,
      res = VList validated
      /\ length validated = length l
      /\ match min_len with Some m => m <= Z.of_nat (length l) | None => True end
      /\ Forall2
           (fun element v =>
              exists c1 c2,
                match primitive with
                | Some p =>
                    if match value, choice with
                       | None, None => true
                       | _, _ => isinstance_primitive element
                       end
                    then Field_validate execute p element kwargs None
                    else
                      let* kw := lift (_get_kwargs_to_use kwargs field_kwargs) in
                      execute "validate" element (Some kw) value choice
                | None =>
                    let* kw := lift (_get_kwargs_to_use kwargs field_kwargs) in
                    execute "validate" element (Some kw) value choice
                end c1 = (Ok v, c2))
           l validated.
Proof.
  intros execute value choice primitive min_len field_kwargs l kwargs c res c' H.
  simpl in H.
  destruct (match min_len with Some m => _ | None => false end) eqn:Emin;
    [discriminate|].
  apply bind_Ok_inv in H as (rl & c1 & Hl & H). injection H as <- _.
  apply List_elements_pointwise in Hl.
  exists rl. split; [reflexivity|]. split; [symmetry; eapply Forall2_length; eauto|].
  split; [|exact Hl].
  destruct min_len as [m|]; [|exact I]. apply Z.ltb_ge in Emin. exact Emin.
Qed.

Lemma List_validates_pointwise_witness :
  exists validated,
    (helper_for_validation no_execute (FList None None (Some base_a) (Some 1) [])
       (VList [VInt 1; VInt 2]) None initial_context).1 = Ok (VList validated)
    /\ length validated = 2%nat.
Proof.
  destruct (helper_for_validation no_execute (FList None None (Some base_a) (Some 1) [])
              (VList [VInt 1; VInt 2]) None initial_context) as [r c'] eqn:Hrun.
  assert (Hr : r = Ok (VList [VInt 1; VInt 2])).
  { apply (f_equal fst) in Hrun. vm_compute in Hrun. now subst r. }
  subst r.
  destruct (List_validates_pointwise _ _ _ _ _ _ _ _ _ _ _ Hrun)
    as (validated & Hres & Hlen & _).
  exists validated. split; [exact (f_equal Ok Hres)|exact Hlen].
Defined.

(** *** ArbitraryJson *)

Lemma Sorted_keys {A} (d : list (string * A)) :
  Sorted (fun a b => String.leb a.1 b.1 = true) d ->
  Sorted (fun a b => String.leb a b = true) (keys d).
Proof.
  induction 1 as [|a l _ IH Hhd]; [constructor|]. simpl. constructor; [exact IH|].
  destruct Hhd; constructor. assumption.
Qed.

Lemma sort_keys_keys_sorted v : keys_sorted (sort_keys v).
Proof.
  induction v as [| | | | |l IH|d IH] using pyvalue_nested_ind;
    try (now apply keys_sorted_primitive).
  - simpl. apply keys_sorted_list. apply Forall_map. exact IH.
  - simpl. apply keys_sorted_dict.
    + apply Sorted_keys. apply (sorted_Sorted _ string_key_leb_total).
    + eapply Permutation_Forall; [apply sorted_Permutation|].
      apply Forall_map. eapply Forall_impl; [exact IH|]. now intros [k x].
Qed.


(** *** Mapping *)

Lemma Sorted_map_fst {A B} (R : A -> A -> Prop) (l : list (A * B)) :
  Sorted (fun a b => R a.1 b.1) l -> Sorted R (map fst l).
Proof.
  induction 1 as [|a l _ IH Hhd]; [constructor|]. simpl. constructor; [exact IH|].
  destruct Hhd; constructor. assumption.
Qed.

Lemma StronglySorted_le_lt (l : list Z) :
  StronglySorted Z.le l -> NoDup l -> StronglySorted Z.lt l.
Proof.
  induction 1 as [|a l Hs IH Hall]; intros Hnd; [constructor|].
  apply NoDup_cons in Hnd as [Ha Hnd]. constructor; [now apply IH|].
  rewrite Forall_forall in *. intros x Hx.
  assert (a <> x) by (intros ->; contradiction).
  specialize (Hall x Hx). lia.
Qed.

(** X7. A Mapping field that accepts a dict returns a dict with as many
    entries, no key twice, ordered by key: in str order, or, for
    IntegerAsString keys, by strictly increasing integer value, each key
    being the decimal form of its integer. *)
Theorem Mapping_result_is_ordered :
  forall execute string_key content d kwargs c res c',
    helper_for_validation execute (FMapping string_key content) (VDict d) kwargs c
    = (Ok res, c') ->
    exists entries,
      res = VDict entries
      /\ length entries = length d
      /\ NoDup (keys entries)
      /\ match subclass string_key with
         | IntegerAsString _ _ =>
             exists ints, keys entries = map str_of_int ints
                          /\ StronglySorted Z.lt ints
         | _ => Sorted (fun a b => String.leb a b = true) (keys entries)
         end.
Proof.
  intros execute sk content d kwargs c res c' H. simpl in H.
  apply bind_Ok_inv in H as (rd & c1 & Hitems & Horder).
  pose proof (Mapping_items_Ok_keys _ _ _ _ _ _ _ (NoDup_nil_2 : NoDup (keys (@nil (string * pyvalue)))) Hitems)
    as (canons & Hcanons & Hkeys & _).
  apply Mapping_items_entries in Hitems as (new & -> & Hall & Hnd & _).
  simpl in Horder, Hkeys.
  assert (Hlen : length new = length d).
  { apply Forall2_length in Hcanons. rewrite Hcanons, <- Hkeys.
    unfold keys. now rewrite length_map. }
  unfold Mapping_order in Horder.
  destruct (subclass sk) as [|mn mx|selection] eqn:Esk.
  - injection Horder as <- _. eexists. split; [reflexivity|].
    pose proof (sorted_Permutation (fun a b : string * pyvalue => String.leb a.1 b.1) new)
      as Hperm.
    split; [rewrite <- Hlen; symmetry; now apply Permutation_length|].
    split; [apply (NoDup_Permutation_proper _ _ (Permutation_map fst Hperm)), Hnd|].
    apply Sorted_keys, (sorted_Sorted _ string_key_leb_total).
  - destruct (with_int_keys new) as [l|] eqn:E; [|discriminate].
    injection Horder as <- _. apply with_int_keys_Some in E as [Hm Hints].
    pose proof (sorted_Permutation (fun a b : Z * (string * pyvalue) => a.1 <=? b.1) l)
      as Hperm.
    set (S := sorted (fun a b : Z * (string * pyvalue) => a.1 <=? b.1) l) in *.
    assert (Hperm' : Permutation new (map snd S)).
    { rewrite <- Hm. now apply Permutation_map. }
    assert (Hnd' : NoDup (keys (map snd S))).
    { apply (NoDup_Permutation_proper _ _ (Permutation_map fst Hperm')), Hnd. }
    eexists. split; [reflexivity|].
    split; [rewrite <- Hlen; symmetry; now apply Permutation_length|].
    split; [exact Hnd'|].
    assert (Hcanon : keys (map snd S) = map str_of_int (map fst S)).
    { unfold keys. rewrite !map_map. apply map_ext_in. intros [z [k v]] Hin. simpl.
      assert (Hz : int_of_str k = Some z).
      { rewrite Forall_forall in Hints.
        apply (Hints (z, (k, v))). apply list_elem_of_In.
        eapply Permutation_in; [symmetry; exact Hperm|exact Hin]. }
      assert (Hk : In (k, v) new).
      { eapply Permutation_in; [symmetry; exact Hperm'|].
        apply in_map_iff. now exists (z, (k, v)). }
      rewrite Forall_forall in Hall.
      destruct (Hall (k, v) (proj2 (list_elem_of_In _ _) Hk)) as [[k0 Hk0] _].
      simpl in Hk0. unfold StringSpec_helper in Hk0. rewrite Esk in Hk0.
      apply IntegerAsString_helper_Ok in Hk0 as (s & z0 & _ & _ & _ & _ & ->).
      rewrite int_of_str_of_int in Hz. congruence. }
    exists (map fst S). split; [exact Hcanon|].
    apply StronglySorted_le_lt.
    + apply Sorted_StronglySorted; [intros x y z; apply Z.le_trans|].
      apply (Sorted_map_fst Z.le).
      eapply Sorted_ind with (P := fun S => Sorted (fun a b : Z * (string * pyvalue) => a.1 <= b.1) S);
        [constructor| |exact (sorted_Sorted _ int_key_leb_total l)].
      intros a l0 _ IH Hhd. constructor; [exact IH|].
      destruct Hhd; constructor. now apply Z.leb_le.
    + rewrite Hcanon in Hnd'. eapply NoDup_fmap_1. exact Hnd'.
  - injection Horder as <- _. eexists. split; [reflexivity|].
    pose proof (sorted_Permutation (fun a b : string * pyvalue => String.leb a.1 b.1) new)
      as Hperm.
    split; [rewrite <- Hlen; symmetry; now apply Permutation_length|].
    split; [apply (NoDup_Permutation_proper _ _ (Permutation_map fst Hperm)), Hnd|].
    apply Sorted_keys, (sorted_Sorted _ string_key_leb_total).
Qed.

Lemma Mapping_result_is_ordered_witness :
  (helper_for_validation no_execute
     (FMapping integer_keys (mkField (Field_defaults 1) (FInteger None None)))
     (VDict [("10", VInt 1); (" 9", VInt 2)]) None initial_context).1
  = Ok (VDict [("9", VInt 2); ("10", VInt 1)]).
Proof.
  destruct (helper_for_validation no_execute
              (FMapping integer_keys (mkField (Field_defaults 1) (FInteger None None)))
              (VDict [("10", VInt 1); (" 9", VInt 2)]) None initial_context)
    as [r c'] eqn:Hrun.
  assert (Hr : r = Ok (VDict [("9", VInt 2); ("10", VInt 1)])).
  { apply (f_equal fst) in Hrun. vm_compute in Hrun. now subst r. }
  subst r.
  destruct (Mapping_result_is_ordered _ _ _ _ _ _ _ _ Hrun) as (entries & Hres & _).
  now rewrite Hres.
Defined.

(** ** [Node.validate]: what a returned dict says about the input *)

Lemma check_field_names_Ok_inv cls ordered_field_names ks c c' :
  check_field_names cls ordered_field_names ks c = (Ok tt, c') ->
  forall k, In k ks ->
    In k (Meta.quietly_drop_superfluous_fields cls)
    \/ k = "type" /\ hasattr (Meta.choice_type cls) = true
    \/ In k ordered_field_names.
Proof.
  induction ks as [|k0 rest IH]; intros H k Hk; [destruct Hk|].
  simpl in H.
  assert (Hin : forall l, str_in k0 l = true -> In k0 l).
  { intros l Hl. apply existsb_exists in Hl as (x & Hx & E).
    apply String.eqb_eq in E. now subst x. }
  destruct Hk as [<-|Hk].
  - destruct (str_in k0 (Meta.quietly_drop_superfluous_fields cls)) eqn:Eq;
      [left; now apply Hin|].
    destruct (String.eqb k0 "type" && hasattr (Meta.choice_type cls)) eqn:Et.
    + apply andb_true_iff in Et as [Et Hc]. apply String.eqb_eq in Et. auto.
    + destruct (str_in k0 ordered_field_names) eqn:En; [|discriminate].
      right. right. now apply Hin.
  - destruct (str_in k0 _); [now apply IH|].
    destruct (String.eqb k0 "type" && _); [now apply IH|].
    destruct (negb _); [discriminate|now apply IH].
Qed.

Lemma Node_validate_Ok_inv R execute cls obj kwargs c res c' :
  Node_validate R execute cls obj kwargs c = (Ok res, c') ->
  exists fields c1 c2 res_dict c3,
    dict_get (_value_to_node_fields R) (Meta.name cls) = Some fields
    /\ check_field_names cls (map fst fields) (keys (canonical_input cls obj)) c1
       = (Ok tt, c2)
    /\ validate_fields execute fields (canonical_input cls obj) kwargs [] c2
       = (Ok res_dict, c3)
    /\ order_result (map fst fields) res_dict c3 = (Ok res, c').
Proof.
  intros H. unfold Node_validate in H.
  apply bind_Ok_inv in H as (obj' & c1 & Hobj & H).
  assert (Hcanon : obj' = VDict (canonical_input cls obj)).
  { unfold canonical_input.
    destruct (Meta.shortform_field cls) as [sf|].
    - destruct obj; cbn [isinstance_dict negb] in Hobj;
        try (apply node_trace_step_Ok_inv in Hobj as (? & ? & ? & _ & Hbody & _);
             apply bind_Ok_inv in Hbody as (? & ? & _ & Hbody);
             destruct (Meta.shortform_conversion cls _);
             cbn [isinstance_dict negb] in Hbody; try discriminate;
             now injection Hbody as <- _).
      now injection Hobj as <- _.
    - destruct obj; cbn [isinstance_dict negb] in Hobj; try discriminate.
      now injection Hobj as <- _. }
  subst obj'.
  destruct (dict_get (_value_to_node_fields R) (Meta.name cls)) as [fields|];
    [|discriminate].
  apply bind_Ok_inv in H as ([] & c2 & Hcheck & H).
  apply bind_Ok_inv in H as (res_dict & c3 & Hres & H).
  exists fields, c1, c2, res_dict, c3. auto.
Qed.

(** X8. [Node.validate] never accepts a key it does not know: if it
    returns, every key of the dict it validated (the input, or what the
    shortform conversion made of it) is a declared field name, or 'type' for
    a Node with a [choice_type], or listed in
    [quietly_drop_superfluous_fields]. *)
Theorem Node_validate_accepts_only_known_keys :
  forall R execute cls obj kwargs c res c',
    Node_validate R execute cls obj kwargs c = (Ok res, c') ->
    exists fields,
      dict_get (_value_to_node_fields R) (Meta.name cls) = Some fields
      /\ forall k, In k (keys (canonical_input cls obj)) ->
           In k (Meta.quietly_drop_superfluous_fields cls)
           \/ k = "type" /\ hasattr (Meta.choice_type cls) = true
           \/ In k (map fst fields).
Proof.
  intros R execute cls obj kwargs c res c' H.
  apply Node_validate_Ok_inv in H
    as (fields & c1 & c2 & res_dict & c3 & Hfields & Hcheck & _).
  exists fields. split; [exact Hfields|].
  exact (check_field_names_Ok_inv _ _ _ _ _ Hcheck).
Qed.

Lemma Node_validate_accepts_only_known_keys_witness :
  exists fields,
    dict_get (_value_to_node_fields numerical_registry) "constant" = Some fields
    /\ In "val" (map fst fields).
Proof.
  destruct (Node_validate numerical_registry no_execute ConstantNode
              (VDict [("val", VInt 1)]) (Some allow_user_input) initial_context)
    as [r c'] eqn:Hrun.
  assert (Hr : r = Ok (VDict [("val", VInt 1)])).
  { apply (f_equal fst) in Hrun. vm_compute in Hrun. now subst r. }
  subst r.
  destruct (Node_validate_accepts_only_known_keys _ _ _ _ _ _ _ _ Hrun)
    as (fields & Hfields & Hkeys).
  exists fields. split; [exact Hfields|].
  destruct (Hkeys "val" (or_introl eq_refl)) as [[]|[[E _]|Hin]];
    [discriminate|exact Hin].
Defined.

Section FieldByField.

Variable execute :
  string -> pyvalue -> option kwargs_dict -> option string -> option string -> M pyvalue.
Variable kwargs : option kwargs_dict.

(** What the loop over the fields leaves under the name of each field. *)
Lemma validate_fields_entries fields obj :
  NoDup (map fst fields) ->
  forall acc c res c',
    (forall k, In k (map fst fields) -> dict_get acc k = None) ->
    validate_fields execute fields obj kwargs acc c = (Ok res, c') ->
    forall name f, In (name, f) fields ->
      if dont_auto_validate (attrs_of f) then dict_get res name = None
      else
        match dict_get obj name with
        | Some x =>
            exists v c1 c2,
              Field_validate execute f x kwargs None c1 = (Ok v, c2)
              /\ dict_get res name = Some v
        | None =>
            required (attrs_of f) = false
            /\ dict_get res name
               = if dont_print_default (attrs_of f) then None
                 else Some (default (attrs_of f))
        end
        /\ (dont_print_default (attrs_of f) = false ->
            dict_get res name = Some VNone -> null (attrs_of f) = true).
Proof.
  induction fields as [|[field_name field] rest IH];
    intros Hnd acc c res c' Hacc H name f Hin; [destruct Hin|].
  apply NoDup_cons in Hnd as [Hname Hnd]. rewrite list_elem_of_In in Hname.
  assert (Hfresh : dict_get acc field_name = None) by (apply Hacc; now left).
  assert (Hlater : forall res1 c1,
             (forall k, k <> field_name -> dict_get res1 k = dict_get acc k) ->
             validate_fields execute rest obj kwargs res1 c1 = (Ok res, c') ->
             dict_get res field_name = dict_get res1 field_name
             /\ (In (name, f) rest ->
                 if dont_auto_validate (attrs_of f) then dict_get res name = None
                 else
                   match dict_get obj name with
                   | Some x =>
                       exists v c1 c2,
                         Field_validate execute f x kwargs None c1 = (Ok v, c2)
                         /\ dict_get res name = Some v
                   | None =>
                       required (attrs_of f) = false
                       /\ dict_get res name
                          = if dont_print_default (attrs_of f) then None
                            else Some (default (attrs_of f))
                   end
                   /\ (dont_print_default (attrs_of f) = false ->
                       dict_get res name = Some VNone -> null (attrs_of f) = true))).
  { intros res1 c1 Hother Hrest. split.
    - exact (validate_fields_get_other _ _ _ _ _ _ _ _ _ Hrest Hname).
    - intros Hin'. apply (IH Hnd res1 c1 res c'); [|exact Hrest|exact Hin'].
      intros k Hk. rewrite Hother; [apply Hacc; now right|].
      intros ->. exact (Hname Hk). }
  assert (Hset : forall v k, k <> field_name ->
             dict_get (dict_set acc field_name v) k = dict_get acc k).
  { intros v k Hk. apply dict_get_set_ne. congruence. }
  cbn [validate_fields] in H.
  destruct (dont_auto_validate (attrs_of field)) eqn:Edav; cbn [negb] in H.
  { destruct (Hlater acc c (fun _ _ => eq_refl) H) as [Hhere Hrest].
    destruct Hin as [[= <- <-]|Hin]; [|exact (Hrest Hin)].
    now rewrite Edav, Hhere. }
  apply bind_Ok_inv in H as (res1 & c1 & Hfield & H).
  destruct (dict_get obj field_name) as [field_value|] eqn:Eobj.
  - apply bind_Ok_inv in Hfield as (v & c0 & Hv & Hret). injection Hret as <- <-.
    apply node_trace_step_Ok_inv in Hv as (prev & ca & cb & _ & Hbody & _).
    assert (Hrest : validate_fields execute rest obj kwargs
                      (dict_set acc field_name v) c0 = (Ok res, c')
                    /\ (dont_print_default (attrs_of field) = false ->
                        v = VNone -> null (attrs_of field) = true)).
    { destruct (dont_print_default (attrs_of field)); cbn [negb] in H;
        [split; [exact H|discriminate]|].
      rewrite dict_get_set_eq in H.
      destruct (is_None v && negb (null (attrs_of field))) eqn:E; [discriminate|].
      split; [exact H|]. intros _ ->. simpl in E.
      now destruct (null (attrs_of field)). }
    destruct Hrest as [Hrest Hsane].
    destruct (Hlater _ _ (Hset v) Hrest) as [Hhere Hothers].
    destruct Hin as [[= <- <-]|Hin]; [|exact (Hothers Hin)].
    rewrite Edav, Eobj, Hhere, dict_get_set_eq. split; [eauto|].
    intros Hd [= ->]. now apply Hsane.
  - destruct (required (attrs_of field)) eqn:Ereq; [discriminate|].
    destruct (dont_print_default (attrs_of field)) eqn:Edpd; cbn [negb] in *.
    + injection Hfield as <- <-.
      destruct (Hlater acc c (fun _ _ => eq_refl) H) as [Hhere Hothers].
      destruct Hin as [[= <- <-]|Hin]; [|exact (Hothers Hin)].
      rewrite Edav, Eobj, Edpd, Hhere, Hfresh. split; [auto|discriminate].
    + injection Hfield as <- <-. rewrite dict_get_set_eq in H.
      destruct (is_None (default (attrs_of field)) && negb (null (attrs_of field)))
        eqn:E; [discriminate|].
      destruct (Hlater _ _ (Hset (default (attrs_of field))) H) as [Hhere Hothers].
      destruct Hin as [[= <- <-]|Hin]; [|exact (Hothers Hin)].
      rewrite Edav, Eobj, Edpd, Hhere, dict_get_set_eq. split; [auto|].
      intros _ [= Hd]. rewrite Hd in E. simpl in E.
      now destruct (null (attrs_of field)).
Qed.

End FieldByField.

(** X9. What [Node.validate] returns, field by field (field names
    distinct): a field marked [dont_auto_validate] has no entry; a field
    with an entry in the input holds what its own [validate] made of that
    entry; a field without one is not required, and holds its default, as
    it is, unless it is marked [dont_print_default], in which case it has
    no entry. So a required field that is missing is never accepted. *)
Theorem Node_validate_field_by_field :
  forall R execute cls obj kwargs c res c' fields,
    dict_get (_value_to_node_fields R) (Meta.name cls) = Some fields ->
    NoDup (map fst fields) ->
    Node_validate R execute cls obj kwargs c = (Ok res, c') ->
    exists r,
      res = VDict r
      /\ forall name f, In (name, f) fields ->
           if dont_auto_validate (attrs_of f) then dict_get r name = None
           else
             match dict_get (canonical_input cls obj) name with
             | Some x =>
                 exists v c1 c2,
                   Field_validate execute f x kwargs None c1 = (Ok v, c2)
                   /\ dict_get r name = Some v
             | None =>
                 required (attrs_of f) = false
                 /\ dict_get r name
                    = if dont_print_default (attrs_of f) then None
                      else Some (default (attrs_of f))
             end.
Proof.
  intros R execute cls obj kwargs c res c' fields Hfields Hnd H.
  apply Node_validate_Ok_inv in H
    as (fields' & c1 & c2 & res_dict & c3 & Hfields' & _ & Hres & Horder).
  rewrite Hfields in Hfields'. injection Hfields' as <-.
  assert (Hkeys : keys res_dict
                  = (keys (@nil (string * pyvalue))
                     ++ declaration_order fields (canonical_input cls obj))%list).
  { eapply validate_fields_keys; [exact Hnd|intros k []|exact Hres]. }
  rewrite order_result_sublist in Horder;
    [|exact Hnd|rewrite Hkeys; apply declaration_order_sublist].
  injection Horder as <- _. exists res_dict. split; [reflexivity|].
  intros name f Hin.
  pose proof (validate_fields_entries execute kwargs fields _ Hnd [] _ _ _
                (fun _ _ => eq_refl) Hres name f Hin) as Hspec.
  destruct (dont_auto_validate (attrs_of f)); [exact Hspec|exact (proj1 Hspec)].
Qed.

(** X10. A field that is not nullable never comes out as None: in what
    [Node.validate] returns, an entry that is None belongs to a field with
    [null=True] (fields marked [dont_auto_validate] or [dont_print_default]
    are not checked). *)
Theorem Node_validate_None_only_if_nullable :
  forall R execute cls obj kwargs c r c' fields name f,
    dict_get (_value_to_node_fields R) (Meta.name cls) = Some fields ->
    NoDup (map fst fields) ->
    Node_validate R execute cls obj kwargs c = (Ok (VDict r), c') ->
    In (name, f) fields ->
    dont_auto_validate (attrs_of f) = false ->
    dont_print_default (attrs_of f) = false ->
    dict_get r name = Some VNone ->
    null (attrs_of f) = true.
Proof.
  intros R execute cls obj kwargs c r c' fields name f Hfields Hnd H Hin Hdav Hdpd Hr.
  apply Node_validate_Ok_inv in H
    as (fields' & c1 & c2 & res_dict & c3 & Hfields' & _ & Hres & Horder).
  rewrite Hfields in Hfields'. injection Hfields' as <-.
  assert (Hkeys : keys res_dict
                  = (keys (@nil (string * pyvalue))
                     ++ declaration_order fields (canonical_input cls obj))%list).
  { eapply validate_fields_keys; [exact Hnd|intros k []|exact Hres]. }
  rewrite order_result_sublist in Horder;
    [|exact Hnd|rewrite Hkeys; apply declaration_order_sublist].
  injection Horder as <-.
  pose proof (validate_fields_entries execute kwargs fields _ Hnd [] _ _ _
                (fun _ _ => eq_refl) Hres name f Hin) as Hspec.
  rewrite Hdav in Hspec. exact (proj2 Hspec Hdpd Hr).
Qed.

Lemma prompt_fields :
  dict_get (_value_to_node_fields prompting_registry) "prompt"
  = Some [("_comment", _comment); ("message", message); ("on_error", on_error)].
Proof. reflexivity. Qed.

Lemma Node_validate_field_by_field_witness :
  exists r,
    (Node_validate prompting_registry no_execute PromptNode
       (VDict [("message", VStr "n?")]) (Some allow_user_input) initial_context).1
    = Ok (VDict r)
    /\ dict_get r "on_error" = Some (VInt 0)
    /\ dict_get r "_comment" = None.
Proof.
  destruct (Node_validate prompting_registry no_execute PromptNode
              (VDict [("message", VStr "n?")]) (Some allow_user_input) initial_context)
    as [res c'] eqn:Hrun.
  assert (Hr : exists r0, res = Ok r0).
  { apply (f_equal fst) in Hrun. vm_compute in Hrun. subst res. eauto. }
  destruct Hr as [r0 ->].
  assert (Hnd : NoDup (map fst [("_comment", _comment); ("message", message);
                                ("on_error", on_error)])).
  { repeat constructor; rewrite list_elem_of_In; simpl; intuition discriminate. }
  destruct (Node_validate_field_by_field prompting_registry no_execute PromptNode
              _ _ _ _ _ _ prompt_fields Hnd Hrun)
    as (r & -> & Hspec).
  exists r. split; [reflexivity|]. split.
  - exact (proj2 (Hspec "on_error" on_error (or_intror (or_intror (or_introl eq_refl))))).
  - exact (proj2 (Hspec "_comment" _comment (or_introl eq_refl))).
Defined.

Lemma Node_validate_None_only_if_nullable_witness :
  (Node_validate tagged_registry no_execute TaggedNode (VDict []) (Some [])
     initial_context).1 = Ok (VDict [("tags", VNone)])
  /\ null (attrs_of tags) = true.
Proof.
  destruct (Node_validate tagged_registry no_execute TaggedNode (VDict []) (Some [])
              initial_context) as [res c'] eqn:Hrun.
  assert (Hr : res = Ok (VDict [("tags", VNone)])).
  { apply (f_equal fst) in Hrun. vm_compute in Hrun. now subst res. }
  subst res. split; [reflexivity|].
  apply (Node_validate_None_only_if_nullable tagged_registry no_execute TaggedNode
           (VDict []) (Some []) initial_context [("tags", VNone)] c'
           [("tags", tags)] "tags" tags); try reflexivity; try exact Hrun.
  - repeat constructor. rewrite list_elem_of_In. intros [].
  - now left.
Defined.

(** ** [execute_function_on_node]: a value that names its type, and kwargs
    that do not fit *)

Lemma check_kwargs_mismatch candidate_nodes kwargs c :
  Exists (fun n =>
            length (Meta.required_additional_arguments_for_validation n)
            <> length kwargs
            \/ exists k, In k (Meta.required_additional_arguments_for_validation n)
                         /\ dict_has kwargs k = false) candidate_nodes ->
  exists n,
    In n candidate_nodes
    /\ check_kwargs candidate_nodes kwargs c
       = (Raise (ProgrammingError
            (Msg "the kwargs don't match for node %s.\nWas: %s\nShould be: %s"
                 [AVal (VStr (Meta.name n));
                  AVal (VStr (join ", " (keys kwargs)));
                  AVal (VStr (join ", "
                    (Meta.required_additional_arguments_for_validation n)))])), c).
Proof.
  induction candidate_nodes as [|n0 rest IH]; intros H; [inversion H|].
  cbn [check_kwargs].
  destruct (negb (length (Meta.required_additional_arguments_for_validation n0)
                  =? length kwargs)%nat
            || existsb (fun k => negb (dict_has kwargs k))
                 (Meta.required_additional_arguments_for_validation n0)) eqn:E.
  - exists n0. split; [now left|reflexivity].
  - apply orb_false_iff in E as [Elen Eex].
    apply negb_false_iff, Nat.eqb_eq in Elen.
    inversion H as [? ? [Hlen|(k & Hk & Hhas)]|? ? Hrest]; subst.
    + contradiction.
    + exfalso. assert (Hex : existsb (fun k => negb (dict_has kwargs k))
                               (Meta.required_additional_arguments_for_validation n0)
                             = true).
      { apply existsb_exists. exists k. split; [exact Hk|now rewrite Hhas]. }
      congruence.
    + destruct (IH Hrest) as (n & Hin & Hn). exists n. split; [now right|exact Hn].
Qed.



Ltac execute_until_selection d Eso Hcands Hcheck :=
  unfold execute_function_on_node; cbn [hasattr Bool.eqb];
  unfold bind at 1; rewrite Eso;
  rewrite (bind_Ok _ _ _ _ _ (mapM_lookup_node_Forall2 _ _ _ _ _ Hcands));
  replace (match VDict d with VDict [] => true | _ => false end) with false
    by (destruct d; congruence);
  rewrite andb_false_r, String.eqb_refl;
  rewrite (bind_Ok _ _ _ _ _ Hcheck).

(** X12. A dict that names its 'type', validated against a group of
    several Nodes: a type that is not registered in the group is rejected
    with InvalidParamsException and nothing is called; for a registered
    type only the Node registered under it is called, in the caller's own
    context, and what that Node raises is raised as it is (no other member
    of the group is tried); what it returns gets the type in front. *)
Theorem execute_with_type_tag :
  forall R call d kwargs choice c t candidate_nodes,
    stack_objects c <> None ->
    Forall2 (fun kv n => dict_get (_value_to_node R) kv.2 = Some n)
      (types_of_choice R choice) candidate_nodes ->
    length candidate_nodes <> 1%nat ->
    check_kwargs candidate_nodes kwargs c = (Ok tt, c) ->
    dict_get d "type" = Some (VStr t) ->
    match dict_get (types_of_choice R choice) t with
    | None =>
        execute_function_on_node R call "validate" (VDict d) (Some kwargs)
          None (Some choice) c
        = (Raise (InvalidParamsException
             (Msg "the type '%s' is not valid.\nValid types are: %s"
                  [AVal (VStr t);
                   AVal (VStr (join ", " (keys (types_of_choice R choice))))])), c)
    | Some v =>
        forall n,
          dict_get (_value_to_node R) v = Some n ->
          Meta.choice_type n = Some t ->
          match call n "validate" (VDict d) kwargs c with
          | (Ok (VDict r), c') =>
              dict_get r "type" = None ->
              execute_function_on_node R call "validate" (VDict d) (Some kwargs)
                None (Some choice) c
              = (Ok (VDict (("type", VStr t) :: r)), c')
          | (Ok _, _) => True
          | (Raise e, c') =>
              execute_function_on_node R call "validate" (VDict d) (Some kwargs)
                None (Some choice) c
              = (Raise e, c')
          end
    end.
Proof.
  intros R call d kwargs choice c t candidate_nodes Hso Hcands Hlen Hcheck Htype.
  assert (Hd : d <> []) by (intros ->; discriminate).
  destruct (stack_objects c) as [so|] eqn:Eso; [|contradiction].
  destruct (dict_get (types_of_choice R choice) t) as [v|] eqn:Eg.
  - intros n Hv Hct.
    assert (Hsel : (let* n := lookup_node R v in ret (Some n)) c = (Ok (Some n), c)).
    { unfold bind, lookup_node. now rewrite Hv. }
    destruct (call n "validate" (VDict d) kwargs c) as [[res_obj|e] c'] eqn:Ecall.
    + destruct res_obj as [| | | | | |r]; try exact I. intros Hr.
      execute_until_selection d Eso Hcands Hcheck.
      destruct candidate_nodes as [|a [|b rest]]; [|now elim Hlen|];
        cbn [type_of_dict]; rewrite Htype; cbv beta iota;
        rewrite Eg; cbv beta iota;
        rewrite (bind_Ok _ _ _ _ _ Hsel), (bind_Ok _ _ _ _ _ Ecall), Hct;
        cbn [eq_str]; rewrite String.eqb_refl; cbn [negb]; rewrite Hr;
        unfold stamp_type, ret; now rewrite stamp_fresh.
    + execute_until_selection d Eso Hcands Hcheck.
      destruct candidate_nodes as [|a [|b rest]]; [|now elim Hlen|];
        cbn [type_of_dict]; rewrite Htype; cbv beta iota;
        rewrite Eg; cbv beta iota;
        rewrite (bind_Ok _ _ _ _ _ Hsel); now rewrite (bind_Raise _ _ _ _ _ Ecall).
  - execute_until_selection d Eso Hcands Hcheck.
    destruct candidate_nodes as [|a [|b rest]]; [|now elim Hlen|];
      cbn [type_of_dict]; rewrite Htype; cbv beta iota;
      rewrite Eg; reflexivity.
Qed.

Lemma execute_with_type_tag_witness :
  execute numerical_registry 5 "validate"
    (VDict [("type", VStr "product"); ("val", VInt 10)])
    (Some allow_user_input) None (Some "numerical_node") initial_context
  = (Raise (InvalidParamsException
       (Msg "the type '%s' is not valid.\nValid types are: %s"
            [AVal (VStr "product"); AVal (VStr "constant, sum")])), initial_context).
Proof.
  exact (execute_with_type_tag numerical_registry (Node_call numerical_registry 5)
           [("type", VStr "product"); ("val", VInt 10)] allow_user_input
           "numerical_node" initial_context "product" [ConstantNode; SumNode]
           ltac:(discriminate)
           ltac:(repeat constructor) ltac:(discriminate) eq_refl eq_refl).
Defined.

(** ** [NodeSubclassDeclarationWatcher]: declaring a field twice *)

Lemma add_class_fields_app name ow l1 l2 :
  forall d,
    add_class_fields name ow (l1 ++ l2)%list d
    = match add_class_fields name ow l1 d with
      | Ok d' => add_class_fields name ow l2 d'
      | Raise e => Raise e
      end.
Proof.
  induction l1 as [|[k v] l1 IH]; intros d; [reflexivity|].
  cbn [app add_class_fields].
  destruct (dict_has d _ && negb _); [reflexivity|]. apply IH.
Qed.

Lemma collect_fields_concat name ow classes :
  forall d,
    collect_fields name ow classes d = add_class_fields name ow (concat classes) d.
Proof.
  induction classes as [|cl rest IH]; intros d; [reflexivity|].
  cbn [collect_fields concat]. rewrite add_class_fields_app.
  destruct (add_class_fields name ow cl d); [apply IH|reflexivity].
Qed.

Lemma add_class_fields_outcome name ow class_dict :
  forall d,
    match add_class_fields name ow class_dict d with
    | Ok _ =>
        NoDup (List.filter (fun k => negb (str_in k ow))
                 (map (fun kv => strip_trailing_underscore kv.1) class_dict))
        /\ forall k, In k (List.filter (fun k => negb (str_in k ow))
                             (map (fun kv => strip_trailing_underscore kv.1) class_dict)) ->
                     dict_has d k = false
    | Raise e =>
        exists k, e = ProgrammingError
                    (Msg "field %s in Node %s is already defined. This error message is just to prevent you from doing this by accident: Just set Meta.overwrites_existing_fields to allow it."
                         [AVal (VStr k); AVal (VStr name)])
                  /\ str_in k ow = false
                  /\ ~ (NoDup (List.filter (fun k => negb (str_in k ow))
                                 (map (fun kv => strip_trailing_underscore kv.1) class_dict))
                        /\ forall k, In k (List.filter (fun k => negb (str_in k ow))
                                             (map (fun kv => strip_trailing_underscore kv.1)
                                                class_dict)) ->
                                     dict_has d k = false)
    end.
Proof.
  induction class_dict as [|[k0 v0] rest IH]; intros d.
  - simpl. split; [apply NoDup_nil_2|intros k []].
  - cbn [add_class_fields map fst List.filter].
    set (k := strip_trailing_underscore k0).
    set (names := List.filter (fun k => negb (str_in k ow))
                    (map (fun kv => strip_trailing_underscore kv.1) rest)) in *.
    destruct (dict_has d k && negb (str_in k ow)) eqn:E.
    + apply andb_true_iff in E as [Ehas Eow].
      exists k. split; [reflexivity|]. split; [now apply negb_true_iff|].
      rewrite Eow. intros [_ Hd]. specialize (Hd k (or_introl eq_refl)). congruence.
    + specialize (IH (dict_set d k v0)).
      assert (Hset : forall k', dict_has (dict_set d k v0) k' = false
                                <-> k' <> k /\ dict_has d k' = false).
      { intros k'. unfold dict_has. rewrite dict_get_set.
        destruct (String.eqb k k') eqn:Ek.
        - apply String.eqb_eq in Ek. subst k'. split; [discriminate|intros [[] _]; auto].
        - split; [|tauto]. intros H. split; [|exact H].
          intros ->. now rewrite String.eqb_refl in Ek. }
      assert (Hequiv :
        (NoDup names /\ forall k', In k' names -> dict_has (dict_set d k v0) k' = false)
        <-> (NoDup (if negb (str_in k ow) then k :: names else names)
             /\ forall k', In k' (if negb (str_in k ow) then k :: names else names) ->
                           dict_has d k' = false)).
      { destruct (negb (str_in k ow)) eqn:Eow.
        - rewrite andb_true_r in E. split.
          + intros [Hnd Hd]. split.
            * apply NoDup_cons. split; [|exact Hnd]. rewrite list_elem_of_In.
              intros Hin. now apply (proj1 (Hset k) (Hd k Hin)).
            * intros k' [<-|Hin]; [exact E|]. exact (proj2 (proj1 (Hset k') (Hd k' Hin))).
          + intros [Hnd Hd]. apply NoDup_cons in Hnd as [Hk Hnd].
            rewrite list_elem_of_In in Hk. split; [exact Hnd|].
            intros k' Hin. apply Hset. split; [intros ->; contradiction|].
            apply Hd. now right.
        - apply negb_false_iff in Eow. split.
          + intros [Hnd Hd]. split; [exact Hnd|].
            intros k' Hin. exact (proj2 (proj1 (Hset k') (Hd k' Hin))).
          + intros [Hnd Hd]. split; [exact Hnd|].
            intros k' Hin. apply Hset. split; [|now apply Hd].
            intros ->. unfold names in Hin. apply filter_In in Hin as [_ Hin].
            rewrite Eow in Hin. discriminate. }
      destruct (add_class_fields name ow rest (dict_set d k v0)) as [d'|e].
      * apply Hequiv, IH.
      * destruct IH as (k' & -> & Hk' & Hnot). exists k'.
        split; [reflexivity|]. split; [exact Hk'|]. intros H. apply Hnot, Hequiv, H.
Qed.

(** X13. The watcher accepts a hierarchy exactly when the field names that
    are not listed in [overwrites_existing_fields] are declared once each
    (names are compared after a trailing underscore is removed); otherwise
    it raises the ProgrammingError that names a field declared again
    without permission. *)
Theorem merged_fields_outcome :
  forall name overwrites_existing_fields classes,
    let once :=
      NoDup (List.filter (fun k => negb (str_in k overwrites_existing_fields))
               (keys (declarations classes))) in
    match merged_fields name overwrites_existing_fields classes with
    | Ok _ => once
    | Raise e =>
        ~ once
        /\ exists k,
            str_in k overwrites_existing_fields = false
            /\ e = ProgrammingError
                 (Msg "field %s in Node %s is already defined. This error message is just to prevent you from doing this by accident: Just set Meta.overwrites_existing_fields to allow it."
                      [AVal (VStr k); AVal (VStr name)])
    end.
Proof.
  intros name ow classes once. unfold merged_fields.
  rewrite collect_fields_concat.
  pose proof (add_class_fields_outcome name ow (concat classes) []) as H.
  assert (Hkeys : keys (declarations classes)
                  = map (fun kv : string * Field => strip_trailing_underscore kv.1)
                      (concat classes)).
  { unfold keys, declarations. rewrite map_map. reflexivity. }
  unfold once. rewrite Hkeys.
  destruct (add_class_fields name ow (concat classes) []) as [d|e].
  - exact (proj1 H).
  - destruct H as (k & -> & Hk & Hnot). split; [|eauto].
    intros Hnd. apply Hnot. split; [exact Hnd|reflexivity].
Qed.

(** ** [_rec_shortener]: the object shown in an error message *)

Lemma dict_set_length {A} (d : list (string * A)) k v :
  (length (dict_set d k v) <= S (length d))%nat.
Proof.
  induction d as [|[k' v'] r IH]; simpl; [lia|].
  destruct (String.eqb k k'); simpl; lia.
Qed.

Lemma dict_set_Forall {A} (P : string * A -> Prop) (d : list (string * A)) k v :
  Forall P d -> P (k, v) -> Forall P (dict_set d k v).
Proof.
  intros Hd Hkv. induction Hd as [|[k' v'] r Hx Hr IH]; simpl; [repeat constructor; auto|].
  destruct (String.eqb k k'); constructor; auto.
Qed.

(** X14. What [_rec_shortener] returns has, at any depth, no list of more
    than four elements (three and the note on the rest) and no dict of more
    than ten entries, whatever the object and the depth it is given. *)
Theorem _rec_shortener_display_sized :
  forall obj remaining_depth, display_sized (_rec_shortener obj remaining_depth).
Proof.
  induction obj as [| | | |s|l IH|d IH] using pyvalue_nested_ind; intros depth;
    try (now apply display_sized_primitive).
  - simpl. destruct (max_string_length <? String.length s)%nat;
      now apply display_sized_primitive.
  - cbn [_rec_shortener].
    set (elements := fix elements (i : nat) (l : list pyvalue) {struct l} :=
           match l with
           | [] => []
           | v :: rest =>
               if (max_list_length <=? i)%nat then []
               else _rec_shortener v (depth - 1) :: elements (S i) rest
           end).
    assert (Hel : forall l i, Forall (fun v => forall d, display_sized (_rec_shortener v d)) l ->
                   (length (elements i l) <= max_list_length - i)%nat
                   /\ Forall display_sized (elements i l)).
    { subst elements. clear.
      intros l. induction l as [|v rest IHl]; intros i Hl; cbn -[Nat.leb Nat.ltb].
      - split; [lia|constructor].
      - destruct (max_list_length <=? i)%nat eqn:E; [split; [cbn [length]; lia|constructor]|].
        apply Nat.leb_gt in E. inversion Hl as [|? ? Hv Hrest]; subst.
        destruct (IHl (S i) Hrest) as [Hlen Hall].
        split; [cbn [length]; unfold max_list_length in *; lia|constructor; auto]. }
    destruct (Hel l 0%nat IH) as [Hlen Hall].
    apply display_sized_list.
    + rewrite length_app. unfold max_list_length in *.
      destruct (3 <? length l)%nat; simpl; lia.
    + apply Forall_app. split; [exact Hall|].
      destruct (max_list_length <? length l)%nat; repeat constructor.
  - cbn [_rec_shortener].
    destruct (max_dict_field_count <? length d)%nat eqn:E;
      [now apply display_sized_primitive|].
    apply Nat.ltb_ge in E.
    set (items := fix items (d : pydict) (res : pydict) {struct d} : pydict :=
           match d with
           | [] => res
           | (k, v) :: rest =>
               items rest
                 (dict_set res k
                    (if depth <=? 0 then VStr "..."
                     else _rec_shortener v (depth - 1)))
           end).
    assert (Hit : forall d res,
               Forall (fun kv => forall n, display_sized (_rec_shortener kv.2 n)) d ->
               Forall (fun kv => display_sized kv.2) res ->
               (length (items d res) <= length res + length d)%nat
               /\ Forall (fun kv => display_sized kv.2) (items d res)).
    { subst items. clear.
      intros d. induction d as [|[k v] rest IHd]; intros res Hd Hres; simpl.
      - split; [lia|exact Hres].
      - inversion Hd as [|? ? Hv Hrest]; subst.
        destruct (IHd (dict_set res k
                         (if depth <=? 0 then VStr "..."
                          else _rec_shortener v (depth - 1))) Hrest) as [Hlen Hall].
        { apply dict_set_Forall; [exact Hres|]. simpl.
          destruct (depth <=? 0); [now apply display_sized_primitive|apply Hv]. }
        split; [|exact Hall].
        pose proof (dict_set_length res k
                      (if depth <=? 0 then VStr "..."
                       else _rec_shortener v (depth - 1))). lia. }
    destruct (Hit d [] IH (List.Forall_nil _)) as [Hlen Hall].
    apply display_sized_dict; [simpl in Hlen; lia|exact Hall].
Qed.

Lemma shortened_elements_id (f : pyvalue -> pyvalue) l :
  forall i,
    (i + length l <= max_list_length)%nat ->
    Forall (fun v => f v = v) l ->
    (fix elements (i : nat) (l : list pyvalue) {struct l} :=
       match l with
       | [] => []
       | v :: rest =>
           if (max_list_length <=? i)%nat then [] else f v :: elements (S i) rest
       end) i l = l.
Proof.
  induction l as [|v rest IHl]; intros i Hi Hl; [reflexivity|].
  simpl in Hi.
  replace (max_list_length <=? i)%nat with false
    by (symmetry; apply Nat.leb_gt; lia).
  inversion Hl as [|? ? Hv Hrest]; subst. rewrite Hv.
  f_equal. apply IHl; [lia|exact Hrest].
Qed.

Lemma shortened_items_id (f : pyvalue -> pyvalue) d :
  forall res,
    (forall k, In k (keys d) -> ~ In k (keys res)) ->
    NoDup (keys d) ->
    Forall (fun kv : string * pyvalue => f kv.2 = kv.2) d ->
    (fix items (d : pydict) (res : pydict) {struct d} : pydict :=
       match d with
       | [] => res
       | (k, v) :: rest => items rest (dict_set res k (f v))
       end) d res = (res ++ d)%list.
Proof.
  induction d as [|[k v] rest IHd]; intros res Hdis Hnd Hd; [now rewrite app_nil_r|].
  inversion Hd as [|? ? Hv Hrest]; subst. simpl in Hv. rewrite Hv.
  simpl in Hnd. apply NoDup_cons in Hnd as [Hk Hnd]. rewrite list_elem_of_In in Hk.
  rewrite dict_set_fresh by (apply Hdis; now left).
  rewrite IHd; auto.
  - now rewrite <- app_assoc.
  - intros k' Hk' Hin. unfold keys in Hin. rewrite map_app in Hin.
    apply in_app_or in Hin as [Hin|[<-|[]]]; [|contradiction].
    apply (Hdis k'); [now right|exact Hin].
Qed.

(** X15. [_rec_shortener] returns unchanged every object it has nothing
    to cut from: strings of at most 100 characters, lists of at most three
    elements, dicts of at most ten entries, and no entry of a dict deeper
    than the depth allows. *)
Theorem _rec_shortener_keeps_displayable :
  forall obj remaining_depth,
    displayable remaining_depth obj -> _rec_shortener obj remaining_depth = obj.
Proof.
  induction obj as [| | | |s|l IH|d IH] using pyvalue_nested_ind; intros depth H;
    try reflexivity.
  - inversion H; subst. simpl.
    replace (max_string_length <? String.length s)%nat with false; [reflexivity|].
    symmetry. apply Nat.ltb_ge. assumption.
  - inversion H as [| | | | |? ? Hlen Hall|]; subst. cbn [_rec_shortener].
    replace (max_list_length <? length l)%nat with false
      by (symmetry; apply Nat.ltb_ge; exact Hlen).
    rewrite app_nil_r. f_equal.
    apply (shortened_elements_id (fun v => _rec_shortener v (depth - 1)));
      [exact Hlen|].
    rewrite Forall_forall in *. intros v Hv. apply IH; auto.
  - inversion H as [| | | | | |? ? Hlen Hnd Hdepth Hall]; subst. cbn [_rec_shortener].
    replace (max_dict_field_count <? length d)%nat with false
      by (symmetry; apply Nat.ltb_ge; exact Hlen).
    f_equal.
    rewrite (shortened_items_id
               (fun v => if depth <=? 0 then VStr "..."
                         else _rec_shortener v (depth - 1)));
      [reflexivity|intros k _ []|exact Hnd|].
    destruct Hdepth as [->|Hdepth]; [constructor|].
    replace (depth <=? 0) with false by (symmetry; apply Z.leb_gt; exact Hdepth).
    rewrite Forall_forall in *. intros kv Hkv. apply IH; auto.
Qed.

Lemma _rec_shortener_keeps_displayable_witness :
  _rec_shortener (VDict [("val", VList [VInt 1; VStr "two"])]) 2
  = VDict [("val", VList [VInt 1; VStr "two"])].
Proof.
  apply _rec_shortener_keeps_displayable.
  apply displayable_dict; [simpl; unfold max_dict_field_count; lia| |right; lia|].
  - repeat constructor. rewrite list_elem_of_In. intros [].
  - repeat constructor; simpl; unfold max_string_length, max_list_length; lia.
Defined.

(** ** Registration of the Nodes and [finalize] *)

Lemma In_dict_set {A} (d : list (string * A)) k v k' x :
  In (k', x) (dict_set d k v) -> (k' = k /\ x = v) \/ In (k', x) d.
Proof.
  induction d as [|[k0 v0] r IH]; simpl.
  - intros [[= <- <-]|[]]. now left.
  - destruct (String.eqb k k0) eqn:E.
    + intros [[= <- <-]|Hin]; [now left | right; now right].
    + intros [Heq|Hin]; [right; now left|].
      destruct (IH Hin) as [?|?]; [now left | right; now right].
Qed.

Lemma dict_set_same {A} (d : list (string * A)) k v :
  dict_get d k = Some v -> dict_set d k v = d.
Proof.
  induction d as [|[k0 v0] r IH]; simpl; [discriminate|].
  destruct (String.eqb k k0) eqn:E.
  - apply String.eqb_eq in E. now intros [= ->]; subst.
  - intros H. now rewrite IH.
Qed.

Lemma dict_has_false_keys {A} (d : list (string * A)) k :
  dict_has d k = false <-> ~ In k (keys d).
Proof.
  rewrite <- dict_has_keys. destruct (dict_has d k); split; congruence.
Qed.

(** A new name in [_value_to_node]. *)
Lemma registered_consistently_value (R : Registry) (cls : Node) :
  registered_consistently R ->
  dict_has (_value_to_node R) (Meta.name cls) = false ->
  registered_consistently
    {| _value_to_node := dict_set (_value_to_node R) (Meta.name cls) cls;
       _value_to_node_fields := _value_to_node_fields R;
       _choice_to_type_to_values := _choice_to_type_to_values R |}.
Proof.
  intros (Hnd & Hname & Hndc & Hcons & Hmem) Hnew.
  apply dict_has_false_keys in Hnew.
  assert (Hother : forall choice types tag v,
             In (choice, types) (_choice_to_type_to_values R) -> In (tag, v) types ->
             Meta.name cls <> v).
  { intros choice types tag v Hc Ht Heq. subst v.
    destruct (Hmem _ _ _ _ Hc Ht) as (n & Hn & _).
    apply Hnew. apply dict_has_keys. unfold dict_has. now rewrite Hn. }
  repeat split; simpl.
  - now apply dict_set_NoDup.
  - intros v n Hin. apply In_dict_set in Hin as [[-> ->]|Hin]; auto.
  - exact Hndc.
  - now apply (Hcons choice types).
  - intros tag v n Ht Hn. rewrite dict_get_set_ne in Hn by eauto.
    destruct (Hcons choice types H) as [_ Hc]. eauto.
  - intros choice types tag v Hc Ht. rewrite dict_get_set_ne by eauto. eauto.
Qed.

(** A new type in the dict of a choice. *)
Lemma registered_consistently_choice (R : Registry) (cls : Node) choice_of choice_type :
  registered_consistently R ->
  dict_get (_value_to_node R) (Meta.name cls) = Some cls ->
  Meta.choice_of cls = Some choice_of ->
  Meta.choice_type cls = Some choice_type ->
  dict_has (types_of_choice R choice_of) choice_type = false ->
  registered_consistently
    {| _value_to_node := _value_to_node R;
       _value_to_node_fields := _value_to_node_fields R;
       _choice_to_type_to_values :=
         dict_set (_choice_to_type_to_values R) choice_of
           (dict_set (types_of_choice R choice_of) choice_type (Meta.name cls)) |}.
Proof.
  intros (Hnd & Hname & Hndc & Hcons & Hmem) Hcls Hof Htype Hnew.
  assert (Hold : forall tag v, In (tag, v) (types_of_choice R choice_of) ->
                 In (choice_of, types_of_choice R choice_of) (_choice_to_type_to_values R)).
  { unfold types_of_choice. intros tag v.
    destruct (dict_get (_choice_to_type_to_values R) choice_of) eqn:E; [|intros []].
    intros _. now apply dict_get_Some_In. }
  repeat split; simpl.
  - exact Hnd.
  - exact Hname.
  - now apply dict_set_NoDup.
  - apply In_dict_set in H as [[-> ->]|Hin]; [|now apply (Hcons choice types)].
    apply dict_set_NoDup. unfold types_of_choice.
    destruct (dict_get (_choice_to_type_to_values R) choice_of) eqn:E; [|constructor].
    apply dict_get_Some_In in E. now apply (Hcons choice_of l).
  - intros tag v n Ht Hn.
    apply In_dict_set in H as [[-> ->]|Hin].
    + apply In_dict_set in Ht as [[-> ->]|Ht]; [congruence|].
      destruct (Hcons _ _ (Hold _ _ Ht)) as [_ Hc]. eauto.
    + destruct (Hcons _ _ Hin) as [_ Hc]. eauto.
  - intros choice types tag v Hc Ht.
    apply In_dict_set in Hc as [[-> ->]|Hc]; [|eauto].
    apply In_dict_set in Ht as [[-> ->]|Ht]; [eauto|].
    exact (Hmem _ _ _ _ (Hold _ _ Ht) Ht).
Qed.

Lemma no_tables_registered_consistently : registered_consistently (registry no_tables).
Proof.
  repeat split; simpl; try constructor; try contradiction.
Qed.

(** X16. Whatever Node is declared and however the registration ends, the
    tables the validation reads stay consistent: a name is registered once
    and under itself, and what a choice lists under a type is a registered
    Node with that [choice_of] and that [choice_type]. *)
Theorem registration_keeps_tables_consistent :
  forall (cls : Node) (g : Tables),
    registered_consistently (registry g) ->
    registered_consistently (registry (_register_that_a_node_was_defined cls g).2).
Proof.
  intros cls g H. unfold _register_that_a_node_was_defined.
  destruct (_finalize_has_been_called g); [exact H|].
  destruct (dict_has (_value_to_node (registry g)) (Meta.name cls)) eqn:Hnew; [exact H|].
  pose proof (registered_consistently_value _ cls H Hnew) as H1.
  destruct (Meta.choice_of cls) as [choice_of|] eqn:Hof; [|exact H1].
  destruct (Meta.choice_type cls) as [choice_type|] eqn:Htype; [|exact H1].
  fold (types_of_choice (registry g) choice_of).
  destruct (dict_has (types_of_choice (registry g) choice_of) choice_type) eqn:Htag; simpl.
  - (* the dict of the choice is not empty: it was in the table already *)
    unfold types_of_choice in *.
    destruct (dict_get (_choice_to_type_to_values (registry g)) choice_of) eqn:E;
      [|discriminate].
    rewrite (dict_set_same _ _ _ E). exact H1.
  - apply (registered_consistently_choice _ cls choice_of choice_type H1); auto.
    simpl. apply dict_get_set_eq.
Qed.

Lemma registration_keeps_tables_consistent_witness :
  registered_consistently
    (registry (_register_that_a_node_was_defined SumNode
                 (_register_that_a_node_was_defined ConstantNode no_tables).2).2).
Proof.
  apply registration_keeps_tables_consistent.
  apply registration_keeps_tables_consistent.
  exact no_tables_registered_consistently.
Defined.

(** X17. A registration is accepted exactly when [finalize] has not been
    called, the name is new and, for a Node with a [choice_of], a
    [choice_type] is given that the choice does not list yet; every other
    registration raises a ProgrammingError. *)
Theorem _register_that_a_node_was_defined_outcome :
  forall (cls : Node) (g : Tables),
    ((_register_that_a_node_was_defined cls g).1 = Ok tt <->
     _finalize_has_been_called g = false
     /\ ~ In (Meta.name cls) (keys (_value_to_node (registry g)))
     /\ match Meta.choice_of cls with
        | Some choice_of =>
            exists choice_type,
              Meta.choice_type cls = Some choice_type
              /\ ~ In choice_type (keys (types_of_choice (registry g) choice_of))
        | None => True
        end)
    /\ ((_register_that_a_node_was_defined cls g).1 = Ok tt
        \/ exists m, (_register_that_a_node_was_defined cls g).1 = Raise (ProgrammingError m)).
Proof.
  intros cls g. unfold _register_that_a_node_was_defined.
  destruct (_finalize_has_been_called g).
  { split; [|right; eauto]. split; [discriminate|]. now intros [? _]. }
  destruct (dict_has (_value_to_node (registry g)) (Meta.name cls)) eqn:Hnew.
  { split; [|right; eauto]. split; [discriminate|].
    apply dict_has_keys in Hnew. now intros (_ & ? & _). }
  apply dict_has_false_keys in Hnew.
  destruct (Meta.choice_of cls) as [choice_of|]; [|split; [tauto|now left]].
  destruct (Meta.choice_type cls) as [choice_type|].
  2:{ split; [|right; eauto]. split; [discriminate|]. now intros (_ & _ & ? & ? & _). }
  fold (types_of_choice (registry g) choice_of).
  destruct (dict_has (types_of_choice (registry g) choice_of) choice_type) eqn:Htag; simpl.
  - split; [|right; eauto]. split; [discriminate|].
    apply dict_has_keys in Htag. intros (_ & _ & t & [= <-] & Ht). contradiction.
  - apply dict_has_false_keys in Htag. split; [|now left].
    split; [|reflexivity]. intros _. repeat split; auto. eauto.
Qed.

(** X18. A Node whose registration is accepted is found under its name,
    every other name is looked up as before, and the Node is listed last
    under its choice: the candidates of a choice are tried in the order of
    declaration. *)
Theorem registered_node_is_found :
  forall (cls : Node) (g g' : Tables),
    _register_that_a_node_was_defined cls g = (Ok tt, g') ->
    (forall c, lookup_node (registry g') (Meta.name cls) c = (Ok cls, c))
    /\ (forall value, value <> Meta.name cls ->
          lookup_node (registry g') value = lookup_node (registry g) value)
    /\ (forall choice,
          types_of_choice (registry g') choice =
          if match Meta.choice_of cls with
             | Some choice_of => String.eqb choice_of choice
             | None => false
             end
          then (types_of_choice (registry g) choice
                  ++ [(match Meta.choice_type cls with Some t => t | None => "" end,
                       Meta.name cls)])%list
          else types_of_choice (registry g) choice)
    /\ (Meta.choice_of cls <> None -> Meta.choice_type cls <> None)
    /\ _all_nodes g' = (_all_nodes g ++ [cls])%list.
Proof.
  intros cls g g'. unfold _register_that_a_node_was_defined.
  destruct (_finalize_has_been_called g); [discriminate|].
  destruct (dict_has (_value_to_node (registry g)) (Meta.name cls)) eqn:Hnew;
    [discriminate|].
  assert (Hv : forall F T,
               (forall c, lookup_node
                            {| _value_to_node :=
                                 dict_set (_value_to_node (registry g)) (Meta.name cls) cls;
                               _value_to_node_fields := F;
                               _choice_to_type_to_values := T |}
                            (Meta.name cls) c = (Ok cls, c))
               /\ (forall value, value <> Meta.name cls ->
                     lookup_node
                       {| _value_to_node :=
                            dict_set (_value_to_node (registry g)) (Meta.name cls) cls;
                          _value_to_node_fields := F;
                          _choice_to_type_to_values := T |} value
                     = lookup_node (registry g) value)).
  { intros F T. unfold lookup_node. simpl. split.
    - intros c. now rewrite dict_get_set_eq.
    - intros value Hne. now rewrite dict_get_set_ne by congruence. }
  destruct (Meta.choice_of cls) as [choice_of|].
  - destruct (Meta.choice_type cls) as [choice_type|]; [|discriminate].
    fold (types_of_choice (registry g) choice_of).
    destruct (dict_has (types_of_choice (registry g) choice_of) choice_type) eqn:Htag;
      [discriminate|].
    intros [= <-]. simpl. split; [apply Hv|]. split; [apply Hv|].
    split; [|split; [congruence|reflexivity]].
    intros choice. unfold types_of_choice at 1. simpl. rewrite dict_get_set.
    destruct (String.eqb choice_of choice) eqn:E; [|reflexivity].
    apply String.eqb_eq in E. subst choice.
    apply dict_set_fresh. now apply dict_has_false_keys.
  - intros [= <-]. simpl. split; [apply Hv|]. split; [apply Hv|].
    split; [reflexivity|]. split; [congruence|reflexivity].
Qed.

Lemma registered_node_is_found_witness :
  types_of_choice
    (registry (_register_that_a_node_was_defined SumNode
                 (_register_that_a_node_was_defined ConstantNode no_tables).2).2)
    "numerical_node"
  = [("constant", "constant"); ("sum", "sum")].
Proof.
  destruct (_register_that_a_node_was_defined ConstantNode no_tables) as [r g1] eqn:E1.
  assert (r = Ok tt) by (apply (f_equal fst) in E1; vm_compute in E1; now subst r).
  subst r. cbn [snd].
  destruct (_register_that_a_node_was_defined SumNode g1) as [r g2] eqn:E2.
  assert (r = Ok tt)
    by (apply (f_equal fst) in E2; apply (f_equal snd) in E1; simpl in E1;
        subst g1; vm_compute in E2; now subst r).
  subst r.
  destruct (registered_node_is_found _ _ _ E1) as (_ & _ & H1 & _).
  destruct (registered_node_is_found _ _ _ E2) as (_ & _ & H2 & _).
  cbn [snd]. rewrite H2, H1. reflexivity.
Defined.

Lemma first_missing_None {A} (ks : list string) (d : list (string * A)) :
  first_missing ks d = None <-> forall k, In k ks -> In k (keys d).
Proof.
  induction ks as [|k r IH]; simpl; [split; [intros _ ? []|reflexivity]|].
  destruct (dict_has d k) eqn:E.
  - rewrite IH. apply dict_has_keys in E. split.
    + intros H k' [<-|Hin]; auto.
    + intros H k' Hin. apply H. now right.
  - split; [discriminate|]. intros H. apply dict_has_false_keys in E.
    exfalso. apply E, H. now left.
Qed.

Lemma str_in_In s l : str_in s l = true <-> In s l.
Proof.
  unfold str_in. rewrite existsb_exists. split.
  - intros (x & Hx & E). apply String.eqb_eq in E. now subst.
  - intros H. exists s. split; [exact H | apply String.eqb_refl].
Qed.

Lemma check_choices_Ok choices values descriptions :
  check_choices choices values descriptions = Ok tt <->
  forall choice, In choice choices ->
    ~ In choice values /\ In choice (keys descriptions).
Proof.
  induction choices as [|c r IH]; simpl; [split; [intros _ ? []|reflexivity]|].
  destruct (str_in c values) eqn:Ev.
  { split; [discriminate|]. intros H. apply str_in_In in Ev.
    destruct (H c) as [Hc _]; [now left|contradiction]. }
  destruct (dict_has descriptions c) eqn:Ed; simpl.
  - rewrite IH. apply dict_has_keys in Ed. split.
    + intros H c' [<-|Hin]; [|auto]. split; [|exact Ed].
      intros Hin. apply str_in_In in Hin. congruence.
    + intros H c' Hin. apply H. now right.
  - split; [discriminate|]. intros H. apply dict_has_false_keys in Ed.
    destruct (H c) as [_ Hc]; [now left|contradiction].
Qed.

Lemma check_choices_raises choices values descriptions :
  check_choices choices values descriptions = Ok tt
  \/ exists m, check_choices choices values descriptions = Raise (ProgrammingError m).
Proof.
  induction choices as [|c r IH]; simpl; [now left|].
  destruct (str_in c values); [right; eauto|].
  destruct (dict_has descriptions c); simpl; [exact IH | right; eauto].
Qed.

Lemma finalize_returns (doc : Documentation) (g : Tables) :
  (finalize doc g).1 = Ok tt <->
  (forall value, In value (keys (_debug_referenced_values g)) ->
     In value (keys (_value_to_node (registry g))))
  /\ (forall choice, In choice (keys (_debug_referenced_choices g)) ->
        In choice (keys (_choice_to_type_to_values (registry g))))
  /\ (forall choice, In choice (keys (_choice_to_type_to_values (registry g))) ->
        ~ In choice (keys (_value_to_node (registry g)))
        /\ In choice (keys (_choice_to_description doc))).
Proof.
  unfold finalize.
  destruct (first_missing (keys (_debug_referenced_values g))
              (_value_to_node (registry g))) as [v|] eqn:Ev.
  { simpl. split; [discriminate|].
    intros (H & _). apply first_missing_None in H. congruence. }
  destruct (first_missing (keys (_debug_referenced_choices g))
              (_choice_to_type_to_values (registry g))) as [c|] eqn:Ec.
  { simpl. split; [discriminate|].
    intros (_ & H & _). apply first_missing_None in H. congruence. }
  pose proof (proj1 (first_missing_None _ _) Ev) as Hv.
  pose proof (proj1 (first_missing_None _ _) Ec) as Hc.
  simpl. rewrite check_choices_Ok. split.
  - intros H. repeat split; auto; now apply H.
  - intros (_ & _ & H). exact H.
Qed.

(** X19. [finalize] returns exactly when every referenced value is a
    registered name, every referenced choice is a registered choice, and
    every registered choice is described and is not also the name of a
    Node; otherwise it raises a ProgrammingError. It changes nothing but
    the flag. *)
Theorem finalize_outcome :
  forall (doc : Documentation) (g : Tables),
    ((finalize doc g).1 = Ok tt <->
     (forall value, In value (keys (_debug_referenced_values g)) ->
        In value (keys (_value_to_node (registry g))))
     /\ (forall choice, In choice (keys (_debug_referenced_choices g)) ->
           In choice (keys (_choice_to_type_to_values (registry g))))
     /\ (forall choice, In choice (keys (_choice_to_type_to_values (registry g))) ->
           ~ In choice (keys (_value_to_node (registry g)))
           /\ In choice (keys (_choice_to_description doc))))
    /\ ((finalize doc g).1 = Ok tt
        \/ exists m, (finalize doc g).1 = Raise (ProgrammingError m))
    /\ registry (finalize doc g).2 = registry g
    /\ _all_nodes (finalize doc g).2 = _all_nodes g
    /\ _debug_referenced_values (finalize doc g).2 = _debug_referenced_values g
    /\ _debug_referenced_choices (finalize doc g).2 = _debug_referenced_choices g.
Proof.
  intros doc g. split; [apply finalize_returns|].
  unfold finalize.
  destruct (first_missing (keys (_debug_referenced_values g)) _);
    [simpl; repeat split; right; eauto|].
  destruct (first_missing (keys (_debug_referenced_choices g)) _);
    [simpl; repeat split; right; eauto|].
  simpl. repeat split. apply check_choices_raises.
Qed.

(** X20. Once [finalize] has been called, whether it returned or raised,
    no Node can be registered: the registration raises a ProgrammingError
    and leaves every table as it is. *)
Theorem no_registration_after_finalize :
  forall (doc : Documentation) (g : Tables) (cls : Node),
    _register_that_a_node_was_defined cls (finalize doc g).2
    = (Raise (ProgrammingError
         (Msg "can't define any more Nodes! finalize() has already been called!" [])),
       (finalize doc g).2).
Proof.
  intros doc g cls. unfold _register_that_a_node_was_defined.
  replace (_finalize_has_been_called (finalize doc g).2) with true; [reflexivity|].
  unfold finalize.
  destruct (first_missing (keys (_debug_referenced_values g)) _); [reflexivity|].
  destruct (first_missing (keys (_debug_referenced_choices g)) _); reflexivity.
Qed.

(** ** The blocks of choices of the documentation *)

Lemma dict_has_set_eq {A} (d : list (string * A)) k v :
  dict_has (dict_set d k v) k = true.
Proof. unfold dict_has. now rewrite dict_get_set_eq. Qed.

Local Ltac doc_simpl :=
  cbn -[removelast last dict_set dict_get dict_has Z.mul Z.add Z.of_nat].

(** X21. Opening a block of choices and closing it again leaves the stack
    of open blocks as it was and keeps the description of the choice; the
    same choice cannot be opened a second time. *)
Theorem block_of_choices_round_trip :
  forall (choice readable_name description : string) (doc : Documentation),
    dict_has (_documentation_target_to_page doc) choice = false ->
    exists doc1 doc2,
      register_choice_for_documentation choice readable_name description doc
      = (Ok tt, doc1)
      /\ register_end_of_choices choice doc1 = (Ok tt, doc2)
      /\ _stack_of_choices_for_documentation_hierarchy doc2
         = _stack_of_choices_for_documentation_hierarchy doc
      /\ dict_get (_choice_to_description doc2) choice
         = Some (readable_name, description)
      /\ dict_get (_documentation_target_to_page doc2) choice
         = Some (_current_documentation_page doc)
      /\ forall readable_name' description',
           exists m,
             register_choice_for_documentation choice readable_name' description' doc2
             = (Raise (ProgrammingError m), doc2).
Proof.
  intros choice readable_name description doc Hnew.
  unfold register_choice_for_documentation at 1. rewrite Hnew.
  eexists. eexists. split; [reflexivity|].
  unfold register_end_of_choices. cbn [_stack_of_choices_for_documentation_hierarchy].
  rewrite last_snoc, String.eqb_refl. cbn [negb].
  split; [reflexivity|]. doc_simpl.
  split; [apply removelast_last|].
  split; [apply dict_get_set_eq|].
  split; [apply dict_get_set_eq|].
  intros rn d. unfold register_choice_for_documentation. doc_simpl.
  rewrite dict_has_set_eq. eauto.
Qed.

Lemma block_of_choices_round_trip_witness :
  exists doc1 doc2,
    register_choice_for_documentation "numerical_node" "Numerical Node" "a number"
      (set_current_documentation_page "numerical_nodes" no_documentation)
    = (Ok tt, doc1)
    /\ register_end_of_choices "numerical_node" doc1 = (Ok tt, doc2)
    /\ _stack_of_choices_for_documentation_hierarchy doc2 = [].
Proof.
  destruct (block_of_choices_round_trip "numerical_node" "Numerical Node" "a number"
              (set_current_documentation_page "numerical_nodes" no_documentation))
    as (doc1 & doc2 & H1 & H2 & H3 & _); [reflexivity|].
  exists doc1, doc2. auto.
Defined.

(** X22. Blocks of choices are closed innermost first: with a second block
    opened inside a first, closing the first raises a ProgrammingError and
    changes nothing; closing the second and then the first is accepted and
    gives back the stack of open blocks. The inner block is one level (10)
    below the outer one. *)
Theorem blocks_close_innermost_first :
  forall (outer inner rn1 d1 rn2 d2 : string) (doc doc1 doc2 : Documentation),
    register_choice_for_documentation outer rn1 d1 doc = (Ok tt, doc1) ->
    register_choice_for_documentation inner rn2 d2 doc1 = (Ok tt, doc2) ->
    (exists m, register_end_of_choices outer doc2 = (Raise (ProgrammingError m), doc2))
    /\ (exists doc3 doc4,
          register_end_of_choices inner doc2 = (Ok tt, doc3)
          /\ register_end_of_choices outer doc3 = (Ok tt, doc4)
          /\ _stack_of_choices_for_documentation_hierarchy doc4
             = _stack_of_choices_for_documentation_hierarchy doc)
    /\ (exists level,
          dict_get (_documentation_target_to_hierarchy_level doc2) outer = Some level
          /\ dict_get (_documentation_target_to_hierarchy_level doc2) inner
             = Some (level + 10)).
Proof.
  intros outer inner rn1 d1 rn2 d2 doc doc1 doc2.
  unfold register_choice_for_documentation at 1.
  destruct (dict_has (_documentation_target_to_page doc) outer) eqn:H1; [discriminate|].
  intros [= <-]. unfold register_choice_for_documentation. doc_simpl.
  destruct (dict_has (dict_set (_documentation_target_to_page doc) outer
                        (_current_documentation_page doc)) inner) eqn:H2;
    [discriminate|].
  intros [= <-].
  assert (Hne : String.eqb inner outer = false).
  { apply String.eqb_neq. intros ->. now rewrite dict_has_set_eq in H2. }
  unfold register_end_of_choices. doc_simpl.
  rewrite !last_snoc. rewrite Hne, String.eqb_refl. doc_simpl.
  split; [eauto|]. split.
  - eexists. eexists. split; [reflexivity|]. doc_simpl.
    rewrite !removelast_last, last_snoc, String.eqb_refl. doc_simpl.
    split; reflexivity.
  - eexists. split.
    + rewrite dict_get_set_ne; [apply dict_get_set_eq|].
      intros ->. now rewrite String.eqb_refl in Hne.
    + rewrite dict_get_set_eq. f_equal. rewrite length_app. simpl. lia.
Qed.

Lemma blocks_close_innermost_first_witness :
  exists m doc2,
    register_end_of_choices "numerical_node" doc2 = (Raise (ProgrammingError m), doc2)
    /\ _stack_of_choices_for_documentation_hierarchy doc2 = ["numerical_node"; "operator"].
Proof.
  destruct (register_choice_for_documentation "numerical_node" "Numerical Node" "a number"
              no_documentation) as [r1 doc1] eqn:E1.
  assert (r1 = Ok tt) by (apply (f_equal fst) in E1; vm_compute in E1; now subst r1).
  subst r1.
  destruct (register_choice_for_documentation "operator" "Operator" "an operator" doc1)
    as [r2 doc2] eqn:E2.
  assert (r2 = Ok tt /\ _stack_of_choices_for_documentation_hierarchy doc2
                        = ["numerical_node"; "operator"]) as [-> Hs].
  { injection E1 as <-. vm_compute in E2. injection E2 as <- <-. now split. }
  destruct (blocks_close_innermost_first _ _ _ _ _ _ _ _ _ E1 E2) as ((m & Hm) & _).
  exists m, doc2. split; [exact Hm | exact Hs].
Defined.

(** X23. Inside a block of choices just opened, a Node of that choice with
    a new name is accepted for the documentation, on the page of the block
    and one level (10) below it; a Node whose Meta has another [choice_of],
    or [choice_of = None], raises a ProgrammingError and changes nothing.
    With no block open, a Node whose Meta has a [choice_of] raises an
    IndexError. *)
Theorem node_is_documented_in_its_block :
  forall (choice rn d name : string) (doc doc1 : Documentation),
    register_choice_for_documentation choice rn d doc = (Ok tt, doc1) ->
    name <> choice ->
    dict_has (_documentation_target_to_page doc) name = false ->
    (exists doc2 level,
       _register_node_for_documentation name (Some (Some choice)) doc1 = (Ok tt, doc2)
       /\ dict_get (_documentation_target_to_hierarchy_level doc2) choice = Some level
       /\ dict_get (_documentation_target_to_hierarchy_level doc2) name
          = Some (level + 10)
       /\ dict_get (_documentation_target_to_page doc2) name
          = dict_get (_documentation_target_to_page doc2) choice
       /\ _stack_of_choices_for_documentation_hierarchy doc2
          = _stack_of_choices_for_documentation_hierarchy doc1)
    /\ (forall other, other <> Some choice ->
          exists m, _register_node_for_documentation name (Some other) doc1
                    = (Raise (ProgrammingError m), doc1))
    /\ (_stack_of_choices_for_documentation_hierarchy doc = [] ->
        forall choice_of,
          _register_node_for_documentation name (Some choice_of) doc
          = (Raise (PyError "IndexError"), doc)).
Proof.
  intros choice rn d name doc doc1.
  unfold register_choice_for_documentation.
  destruct (dict_has (_documentation_target_to_page doc) choice) eqn:H1; [discriminate|].
  intros [= <-] Hne Hnew.
  assert (Hnew1 : dict_has (dict_set (_documentation_target_to_page doc) choice
                              (_current_documentation_page doc)) name = false).
  { unfold dict_has in *. now rewrite dict_get_set_ne. }
  unfold _register_node_for_documentation. doc_simpl. rewrite Hnew1, Hnew, last_snoc.
  rewrite String.eqb_refl. doc_simpl.
  split; [|split].
  - eexists. eexists. split; [reflexivity|]. doc_simpl.
    split; [rewrite dict_get_set_ne by congruence; apply dict_get_set_eq|].
    split; [rewrite dict_get_set_eq; f_equal; rewrite length_app; simpl; lia|].
    split; [|reflexivity].
    rewrite dict_get_set_eq. rewrite dict_get_set_ne by congruence.
    now rewrite dict_get_set_eq.
  - intros [c|] Hother; [|eauto].
    destruct (String.eqb c choice) eqn:E; [|doc_simpl; eauto].
    apply String.eqb_eq in E. congruence.
  - intros -> choice_of. reflexivity.
Qed.

Lemma node_is_documented_in_its_block_witness :
  exists doc1 doc2,
    _register_node_for_documentation "constant" (Some (Some "numerical_node")) doc1
    = (Ok tt, doc2)
    /\ dict_get (_documentation_target_to_hierarchy_level doc2) "constant" = Some 20.
Proof.
  destruct (register_choice_for_documentation "numerical_node" "Numerical Node" "a number"
              (set_current_documentation_page "numerical_nodes" no_documentation))
    as [r1 doc1] eqn:E1.
  assert (r1 = Ok tt /\ dict_get (_documentation_target_to_hierarchy_level doc1)
                          "numerical_node" = Some 10) as [-> Hl].
  { vm_compute in E1. injection E1 as <- <-. now split. }
  destruct (node_is_documented_in_its_block _ _ _ "constant" _ _ E1)
    as ((doc2 & level & H2 & Hc & Hn & _) & _); [discriminate|reflexivity|].
  exists doc1, doc2. split; [exact H2|].
  assert (level = 10); [|subst level; exact Hn].
  injection E1 as <-. vm_compute in H2. injection H2 as <-.
  vm_compute in Hc. now injection Hc.
Defined.

(** ** References and candidates *)

Lemma keys_dict_set_incl {A} (d : list (string * A)) k v k' :
  In k' (keys d) -> In k' (keys (dict_set d k v)).
Proof.
  intros H. rewrite keys_dict_set. destruct (dict_has d k); [exact H|].
  apply in_or_app. now left.
Qed.

Lemma _register_that_a_node_was_defined_references (cls : Node) (g : Tables) :
  _debug_referenced_values (_register_that_a_node_was_defined cls g).2
  = _debug_referenced_values g
  /\ _debug_referenced_choices (_register_that_a_node_was_defined cls g).2
     = _debug_referenced_choices g.
Proof.
  unfold _register_that_a_node_was_defined.
  destruct (_finalize_has_been_called g); [now split|].
  destruct (dict_has _ _); [now split|].
  destruct (Meta.choice_of cls); [|now split].
  destruct (Meta.choice_type cls); [|now split].
  destruct (dict_has _ _); now split.
Qed.

Lemma references_are_kept (g g' : Tables) :
  rtc declaration_step g g' ->
  (forall value, In value (keys (_debug_referenced_values g)) ->
     In value (keys (_debug_referenced_values g')))
  /\ (forall choice, In choice (keys (_debug_referenced_choices g)) ->
        In choice (keys (_debug_referenced_choices g'))).
Proof.
  induction 1 as [g|g g1 g2 Hstep _ [IHv IHc]]; [now split|].
  destruct Hstep as [value g|choice g|cls g]; simpl in *.
  - split; [|exact IHc]. intros v Hv. apply IHv. now apply keys_dict_set_incl.
  - split; [exact IHv|]. intros c Hc. apply IHc. now apply keys_dict_set_incl.
  - destruct (_register_that_a_node_was_defined_references cls g) as [Ev Ec].
    rewrite Ev in IHv. rewrite Ec in IHc. now split.
Qed.

(** X24. A reference that a field registered is checked by [finalize]
    whatever is declared in between: once [finalize] has returned, the
    referenced value is found in [_value_to_node] (no KeyError when the
    field is validated) and the referenced choice has its dict of types. *)
Theorem references_are_found_after_finalize :
  forall (doc : Documentation) (g g' : Tables) (name : string),
    (finalize doc g').1 = Ok tt ->
    (rtc declaration_step (register_that_a_value_was_referenced name g) g' ->
     exists n, forall c,
       lookup_node (registry (finalize doc g').2) name c = (Ok n, c))
    /\ (rtc declaration_step (register_that_a_choice_was_referenced name g) g' ->
        In name (keys (_choice_to_type_to_values (registry (finalize doc g').2)))).
Proof.
  intros doc g g' name Hfin.
  assert (HR : registry (finalize doc g').2 = registry g').
  { unfold finalize.
    destruct (first_missing (keys (_debug_referenced_values g')) _); [reflexivity|].
    destruct (first_missing (keys (_debug_referenced_choices g')) _); reflexivity. }
  rewrite HR. apply finalize_returns in Hfin as (Hv & Hc & _). split.
  - intros Hsteps. apply references_are_kept in Hsteps as [Hkept _].
    assert (Hin : In name (keys (_value_to_node (registry g')))).
    { apply Hv, Hkept. simpl. apply dict_has_keys, dict_has_set_eq. }
    apply dict_has_keys in Hin. unfold dict_has, lookup_node in *.
    destruct (dict_get (_value_to_node (registry g')) name) as [n|]; [|discriminate].
    now exists n.
  - intros Hsteps. apply references_are_kept in Hsteps as [_ Hkept].
    apply Hc, Hkept. simpl. apply dict_has_keys, dict_has_set_eq.
Qed.

Lemma references_are_found_after_finalize_witness :
  exists n, forall c,
    lookup_node
      (registry
         (finalize
            (register_choice_for_documentation "numerical_node" "Numerical Node"
               "a number" no_documentation).2
            (_register_that_a_node_was_defined PromptNode
               (register_that_a_value_was_referenced "prompt" no_tables)).2).2)
      "prompt" c
    = (Ok n, c).
Proof.
  apply (proj1 (references_are_found_after_finalize
                  (register_choice_for_documentation "numerical_node" "Numerical Node"
                     "a number" no_documentation).2
                  no_tables
                  (_register_that_a_node_was_defined PromptNode
                     (register_that_a_value_was_referenced "prompt" no_tables)).2
                  "prompt" eq_refl)).
  apply rtc_once. apply node_defined.
Defined.

Lemma mapM_lookup_node (R : Registry) (choice : string) (types : list (string * string)) :
  (forall tag v, In (tag, v) types ->
     exists n, dict_get (_value_to_node R) v = Some n
               /\ Meta.choice_of n = Some choice /\ Meta.choice_type n = Some tag
               /\ Meta.name n = v) ->
  exists nodes,
    (forall c, mapM (fun kv : string * string => lookup_node R kv.2) types c = (Ok nodes, c))
    /\ map Meta.name nodes = map snd types
    /\ map Meta.choice_type nodes = map (fun kv => Some kv.1) types
    /\ Forall (fun n => Meta.choice_of n = Some choice) nodes.
Proof.
  induction types as [|[tag v] rest IH]; intros H.
  - exists []. repeat split. constructor.
  - destruct (H tag v) as (n & Hn & Hof & Htype & Hname); [now left|].
    destruct IH as (nodes & Hrun & Hnames & Htypes & Hall).
    { intros tag' v' Hin. apply H. now right. }
    exists (n :: nodes). repeat split.
    + intros c. cbn [mapM]. unfold bind, lookup_node at 1. cbn [snd]. rewrite Hn.
      unfold ret at 1. now rewrite Hrun.
    + simpl. now rewrite Hname, Hnames.
    + simpl. now rewrite Htype, Htypes.
    + now constructor.
Qed.

(** X25. In tables filled by the registrations, the candidates of a choice
    are always found: looking up the Nodes a choice lists never raises a
    KeyError, and gives, in the order of the list, Nodes that carry the
    listed name, the type they are listed under and this choice as their
    [choice_of]. *)
Theorem candidates_of_a_choice_are_found :
  forall (R : Registry) (choice : string),
    registered_consistently R ->
    exists nodes,
      (forall c, mapM (fun kv : string * string => lookup_node R kv.2)
                   (types_of_choice R choice) c = (Ok nodes, c))
      /\ map Meta.name nodes = map snd (types_of_choice R choice)
      /\ map Meta.choice_type nodes
         = map (fun kv => Some kv.1) (types_of_choice R choice)
      /\ Forall (fun n => Meta.choice_of n = Some choice) nodes.
Proof.
  intros R choice (Hnd & Hname & Hndc & Hcons & Hmem).
  apply mapM_lookup_node. intros tag v Hin.
  assert (Hc : In (choice, types_of_choice R choice) (_choice_to_type_to_values R)).
  { unfold types_of_choice in *.
    destruct (dict_get (_choice_to_type_to_values R) choice) eqn:E; [|destruct Hin].
    now apply dict_get_Some_In. }
  destruct (Hmem _ _ _ _ Hc Hin) as (n & Hn & Hof).
  exists n. repeat split; auto.
  - destruct (Hcons _ _ Hc) as [_ Ht]. eauto.
  - apply Hname. now apply dict_get_Some_In.
Qed.

Lemma numerical_registry_registered_consistently :
  registered_consistently numerical_registry.
Proof.
  assert (Hnd2 : forall a b : string, a <> b -> NoDup [a; b]).
  { intros a b Hab. repeat constructor; rewrite list_elem_of_In; simpl; intuition. }
  repeat split; simpl.
  - apply Hnd2. discriminate.
  - intros v n [[= <- <-]|[[= <- <-]|[]]]; reflexivity.
  - repeat constructor. rewrite list_elem_of_In. intros [].
  - destruct H as [[= <- <-]|[]]. apply Hnd2. discriminate.
  - intros tag v n Ht Hn. destruct H as [[= <- <-]|[]].
    destruct Ht as [[= <- <-]|[[= <- <-]|[]]]; vm_compute in Hn;
      injection Hn as <-; reflexivity.
  - intros choice types tag v [[= <- <-]|[]] [[= <- <-]|[[= <- <-]|[]]];
      eexists; split; reflexivity.
Qed.

Lemma candidates_of_a_choice_are_found_witness :
  exists nodes,
    (forall c, mapM (fun kv : string * string => lookup_node numerical_registry kv.2)
                 (types_of_choice numerical_registry "numerical_node") c = (Ok nodes, c))
    /\ map Meta.name nodes = ["constant"; "sum"].
Proof.
  destruct (candidates_of_a_choice_are_found numerical_registry "numerical_node"
              numerical_registry_registered_consistently)
    as (nodes & Hrun & Hnames & _).
  exists nodes. split; [exact Hrun | exact Hnames].
Defined.

(** ** What the validation writes to *)

Lemma wrote_only_trace_refl c : wrote_only_trace c c.
Proof. repeat split; auto. Qed.

Lemma wrote_only_trace_trans c1 c2 c3 :
  wrote_only_trace c1 c2 -> wrote_only_trace c2 c3 -> wrote_only_trace c1 c3.
Proof.
  intros (H12 & D12 & T12) (H23 & D23 & T23). repeat split.
  - intros l Hl Hne. rewrite H23; [now apply H12|now apply D12|].
    intros Ht. destruct (T12 _ Ht); contradiction.
  - set_solver.
  - intros l Ht. destruct (T23 _ Ht) as [Ht2|Hf].
    + now apply T12.
    + right. intros Hin. apply Hf. now apply D12.
Qed.

Lemma writes_only_trace_ret {A} (a : A) : writes_only_trace (ret a).
Proof. intros c. apply wrote_only_trace_refl. Qed.

Lemma writes_only_trace_raise {A} e : writes_only_trace (@raise A e).
Proof. intros c. apply wrote_only_trace_refl. Qed.

Lemma writes_only_trace_lift {A} (r : result A) : writes_only_trace (lift r).
Proof. intros c. unfold lift. destruct r; apply wrote_only_trace_refl. Qed.

Lemma writes_only_trace_bind {A B} (m : M A) (k : A -> M B) :
  writes_only_trace m -> (forall a, writes_only_trace (k a)) ->
  writes_only_trace (bind m k).
Proof.
  intros Hm Hk c. unfold bind. specialize (Hm c).
  destruct (m c) as [[a|e] c1]; simpl in *; [|exact Hm].
  eapply wrote_only_trace_trans; [exact Hm | apply Hk].
Qed.

Lemma writes_only_trace_try {A} (m : M A) handler :
  writes_only_trace m -> (forall e, writes_only_trace (handler e)) ->
  writes_only_trace (try_except_InvalidParams m handler).
Proof.
  intros Hm Hh c. unfold try_except_InvalidParams. specialize (Hm c).
  destruct (m c) as [[a|[e|e|e]] c1]; simpl in *; try exact Hm.
  eapply wrote_only_trace_trans; [exact Hm | apply Hh].
Qed.

Lemma wrote_only_trace_store c l v :
  is_trace_cell c l -> l ∈ dom (heap c) ->
  wrote_only_trace c (Context (stack_objects c) (<[l:=v]> (heap c))).
Proof.
  intros Ht Hl. repeat split; simpl.
  - intros l' Hl' Hne. apply lookup_insert_ne. congruence.
  - set_solver.
  - intros l' Ht'. left. exact Ht'.
Qed.

Lemma wrote_only_trace_alloc c v :
  wrote_only_trace c
    (Context (stack_objects c) (<[fresh (dom (heap c)):=v]> (heap c))).
Proof.
  repeat split; simpl.
  - intros l' Hl' _. apply lookup_insert_ne. intros <-.
    now apply (is_fresh (dom (heap c))).
  - set_solver.
  - intros l' Ht'. left. exact Ht'.
Qed.

Lemma wrote_only_trace_so_set so h k l :
  k <> "node_trace" ->
  wrote_only_trace (Context (Some so) h) (Context (Some (dict_set so k l)) h).
Proof.
  intros Hk. repeat split; simpl; auto.
  intros l' Ht'. left. unfold is_trace_cell in *. simpl in *.
  apply In_dict_set in Ht' as [[E _]|Ht']; [congruence | exact Ht'].
Qed.

Lemma writes_only_trace_so_get_load {A} (k : loc -> pyvalue -> M A) :
  (forall so h l t,
     dict_get so "node_trace" = Some l -> h !! l = Some t ->
     wrote_only_trace (Context (Some so) h) (k l t (Context (Some so) h)).2) ->
  writes_only_trace (let* l := so_get "node_trace" in let* t := load l in k l t).
Proof.
  intros Hk [[so|] h]; unfold bind, so_get, load; cbn [stack_objects heap];
    [|apply wrote_only_trace_refl].
  destruct (dict_get so "node_trace") as [l|] eqn:El; [|apply wrote_only_trace_refl].
  cbn [stack_objects heap].
  destruct (h !! l) as [t|] eqn:Eh; [|apply wrote_only_trace_refl].
  specialize (Hk so h l t El Eh).
  destruct (k l t (Context (Some so) h)) as [[a|e] c1]; exact Hk.
Qed.

Lemma writes_only_trace_so_get {A} key (k : loc -> M A) :
  (forall l, writes_only_trace (k l)) ->
  writes_only_trace (let* l := so_get key in k l).
Proof.
  intros Hk. apply writes_only_trace_bind; [|exact Hk].
  intros [[so|] h]; unfold so_get; cbn [stack_objects heap];
    [|apply wrote_only_trace_refl].
  destruct (dict_get so key); apply wrote_only_trace_refl.
Qed.

Lemma writes_only_trace_so_set k l :
  k <> "node_trace" -> writes_only_trace (so_set k l).
Proof.
  intros Hk [[so|] h]; unfold so_set; cbn [stack_objects heap snd];
    [|apply wrote_only_trace_refl].
  now apply wrote_only_trace_so_set.
Qed.

Lemma writes_only_trace_alloc {A} v (k : loc -> M A) :
  (forall l, writes_only_trace (k l)) ->
  writes_only_trace (let* l := alloc v in k l).
Proof.
  intros Hk. apply writes_only_trace_bind; [|exact Hk].
  intros c. unfold alloc. cbn [snd]. apply wrote_only_trace_alloc.
Qed.

Lemma wrote_only_trace_bind {A B} (m : M A) (k : A -> M B) c :
  wrote_only_trace c (m c).2 -> (forall a, writes_only_trace (k a)) ->
  wrote_only_trace c (bind m k c).2.
Proof.
  intros Hm Hk. unfold bind.
  destruct (m c) as [[a|e] c1]; simpl in *; [|exact Hm].
  eapply wrote_only_trace_trans; [exact Hm | apply Hk].
Qed.

Lemma writes_only_trace_enter new_value object :
  writes_only_trace (node_trace_step_enter new_value object).
Proof.
  unfold node_trace_step_enter.
  apply writes_only_trace_so_get_load. intros so h l t El Eh.
  assert (Hl : l ∈ dom h) by (apply elem_of_dom; eauto).
  apply wrote_only_trace_bind.
  - destruct t as [| | | | |xs|]; try apply wrote_only_trace_refl.
    unfold store. cbn [snd stack_objects heap].
    apply (wrote_only_trace_store (Context (Some so) h) l); [|exact Hl].
    now apply dict_get_Some_In.
  - intros _. apply writes_only_trace_so_get. intros p.
    apply writes_only_trace_alloc. intros l'.
    apply writes_only_trace_bind; [now apply writes_only_trace_so_set|].
    intros _. apply writes_only_trace_ret.
Qed.

Lemma writes_only_trace_exit previous_object :
  writes_only_trace (node_trace_step_exit previous_object).
Proof.
  unfold node_trace_step_exit.
  apply writes_only_trace_so_get_load. intros so h l t El Eh.
  assert (Hl : l ∈ dom h) by (apply elem_of_dom; eauto).
  apply wrote_only_trace_bind.
  - destruct t as [| | | | |xs|]; try apply wrote_only_trace_refl.
    destruct xs as [|x xs]; [apply wrote_only_trace_refl|].
    unfold store. cbn [snd stack_objects heap].
    apply (wrote_only_trace_store (Context (Some so) h) l); [|exact Hl].
    now apply dict_get_Some_In.
  - intros _. now apply writes_only_trace_so_set.
Qed.

Lemma writes_only_trace_step {A} new_value object (body : M A) :
  writes_only_trace body -> writes_only_trace (node_trace_step new_value object body).
Proof.
  intros Hb. unfold node_trace_step.
  apply writes_only_trace_bind; [apply writes_only_trace_enter|]. intros p.
  apply writes_only_trace_bind; [exact Hb|]. intros r.
  apply writes_only_trace_bind; [apply writes_only_trace_exit|]. intros _.
  apply writes_only_trace_ret.
Qed.

Lemma writes_only_trace_invalid_params {A} fmt args :
  writes_only_trace (@invalid_params A fmt args).
Proof. apply writes_only_trace_raise. Qed.

Lemma writes_only_trace_programming_error {A} fmt args :
  writes_only_trace (@programming_error A fmt args).
Proof. apply writes_only_trace_raise. Qed.

Lemma List_elements_writes_only_trace (validate_element : pyvalue -> M pyvalue) :
  (forall element, writes_only_trace (validate_element element)) ->
  forall elements i, writes_only_trace (List_elements validate_element i elements).
Proof.
  intros Hv elements. induction elements as [|element rest IH]; intros i;
    cbn [List_elements].
  - apply writes_only_trace_ret.
  - apply writes_only_trace_bind; [apply writes_only_trace_step, Hv|]. intros v.
    apply writes_only_trace_bind; [apply IH|]. intros res.
    apply writes_only_trace_ret.
Qed.

Lemma Mapping_items_writes_only_trace (validate_key : pyvalue -> M string)
  (validate_content : pyvalue -> M pyvalue) :
  (forall k, writes_only_trace (validate_key k)) ->
  (forall v, writes_only_trace (validate_content v)) ->
  forall items res,
    writes_only_trace (Mapping_items validate_key validate_content items res).
Proof.
  intros Hk Hv. induction items as [|[k v] rest IH]; intros res; cbn [Mapping_items].
  - apply writes_only_trace_ret.
  - apply writes_only_trace_bind.
    { apply writes_only_trace_try; [apply writes_only_trace_step, Hk|].
      intros e. apply writes_only_trace_invalid_params. }
    intros validated_key.
    apply writes_only_trace_bind; [apply writes_only_trace_step, Hv|].
    intros validated_value.
    destruct (dict_has res validated_key);
      [apply writes_only_trace_invalid_params | apply IH].
Qed.

Lemma Mapping_order_writes_only_trace sp res :
  writes_only_trace (Mapping_order sp res).
Proof.
  unfold Mapping_order. destruct (subclass sp); try apply writes_only_trace_ret.
  destruct (with_int_keys res);
    [apply writes_only_trace_ret | apply writes_only_trace_raise].
Qed.

Lemma Field_validate_wrapper_writes_only_trace attrs (helper : pyvalue -> M pyvalue)
  val allow_null :
  (forall v, writes_only_trace (helper v)) ->
  writes_only_trace (Field_validate_wrapper attrs helper val allow_null).
Proof.
  intros Hh. unfold Field_validate_wrapper.
  destruct (is_None val); [|apply Hh].
  destruct (negb _); [apply writes_only_trace_invalid_params|].
  destruct (validation_accepts_nulls attrs); [apply Hh | apply writes_only_trace_ret].
Qed.

Section FieldsWrite.
Variable execute :
  string -> pyvalue -> option kwargs_dict -> option string -> option string -> M pyvalue.
Hypothesis execute_writes :
  forall function obj kwargs value choice,
    writes_only_trace (execute function obj kwargs value choice).

Lemma execute_with_kwargs_writes_only_trace kwargs field_kwargs val value choice :
  writes_only_trace
    (let* kw := lift (_get_kwargs_to_use kwargs field_kwargs) in
     execute "validate" val (Some kw) value choice).
Proof.
  apply writes_only_trace_bind; [apply writes_only_trace_lift|].
  intros kw. apply execute_writes.
Qed.

Lemma Field_validate_writes_only_trace f :
  forall val kwargs allow_null,
    writes_only_trace (Field_validate execute f val kwargs allow_null)
with helper_for_validation_writes_only_trace kind :
  forall val kwargs,
    writes_only_trace (helper_for_validation execute kind val kwargs).
Proof.
  - destruct f as [attrs kind]. intros val kwargs allow_null. cbn [Field_validate].
    apply Field_validate_wrapper_writes_only_trace. intros v.
    apply helper_for_validation_writes_only_trace.
  - destruct kind as [value fk | choice fk | value choice primitive min_len fk
                     | sk content | pf cf | | mn mx | mn mx | | choices | spec];
      intros val kwargs; cbn [helper_for_validation].
    + apply execute_with_kwargs_writes_only_trace.
    + apply execute_with_kwargs_writes_only_trace.
    + destruct val as [| | | | |l|]; try apply writes_only_trace_invalid_params.
      destruct (match min_len with Some m => _ | None => false end);
        [apply writes_only_trace_invalid_params|].
      apply writes_only_trace_bind; [|intros res; apply writes_only_trace_ret].
      apply List_elements_writes_only_trace. intros element.
      destruct primitive as [p|]; [|apply execute_with_kwargs_writes_only_trace].
      destruct (match value, choice with
                | None, None => true
                | _, _ => isinstance_primitive element
                end);
        [|apply execute_with_kwargs_writes_only_trace].
      apply (Field_validate_writes_only_trace p).
    + destruct val as [| | | | | |d]; try apply writes_only_trace_invalid_params.
      apply writes_only_trace_bind; [|intros res; apply Mapping_order_writes_only_trace].
      apply Mapping_items_writes_only_trace.
      * intros k. apply writes_only_trace_lift.
      * intros v. apply (Field_validate_writes_only_trace content).
    + destruct (isinstance_primitive val).
      * apply (Field_validate_writes_only_trace pf).
      * apply (Field_validate_writes_only_trace cf).
    + apply writes_only_trace_ret.
    + apply writes_only_trace_lift.
    + apply writes_only_trace_lift.
    + apply writes_only_trace_lift.
    + apply writes_only_trace_lift.
    + destruct (StringSpec_helper spec val);
        [apply writes_only_trace_ret | apply writes_only_trace_raise].
Qed.

End FieldsWrite.

Lemma writes_only_trace_pure {A} (m : M A) :
  (forall c, (m c).2 = c) -> writes_only_trace m.
Proof. intros H c. rewrite H. apply wrote_only_trace_refl. Qed.

Section NodeWrites.
Variable R : Registry.

Section ValidateWrites.
Variable execute :
  string -> pyvalue -> option kwargs_dict -> option string -> option string -> M pyvalue.
Hypothesis execute_writes :
  forall function obj kwargs value choice,
    writes_only_trace (execute function obj kwargs value choice).

Lemma check_field_names_writes_only_trace cls names ks :
  writes_only_trace (check_field_names cls names ks).
Proof.
  induction ks as [|k rest IH]; cbn [check_field_names];
    [apply writes_only_trace_ret|].
  destruct (str_in k _); [exact IH|].
  destruct (_ && _); [exact IH|].
  destruct (negb _); [apply writes_only_trace_invalid_params | exact IH].
Qed.

Lemma validate_fields_writes_only_trace fields :
  forall obj kwargs res_dict,
    writes_only_trace (validate_fields execute fields obj kwargs res_dict).
Proof.
  induction fields as [|[field_name field] rest IH]; intros obj kwargs res_dict;
    cbn [validate_fields]; [apply writes_only_trace_ret|].
  destruct (negb (dont_auto_validate (attrs_of field))); [|apply IH].
  apply writes_only_trace_bind.
  - destruct (dict_get obj field_name) as [field_value|].
    + apply writes_only_trace_bind; [|intros v; apply writes_only_trace_ret].
      apply writes_only_trace_step.
      now apply Field_validate_writes_only_trace.
    + destruct (required _); [apply writes_only_trace_invalid_params|].
      destruct (negb _); apply writes_only_trace_ret.
  - intros res_dict'. destruct (negb _); [|apply IH].
    destruct (dict_get res_dict' field_name) as [v|]; [|apply writes_only_trace_raise].
    destruct (_ && _); [apply writes_only_trace_invalid_params | apply IH].
Qed.

Lemma Node_validate_writes_only_trace cls obj kwargs :
  writes_only_trace (Node_validate R execute cls obj kwargs).
Proof.
  unfold Node_validate. apply writes_only_trace_bind.
  - destruct (Meta.shortform_field cls) as [shortform_field|].
    + destruct (negb (isinstance_dict obj)); [|apply writes_only_trace_ret].
      apply writes_only_trace_step. apply writes_only_trace_bind.
      * apply writes_only_trace_pure. apply shortform_validate_context.
      * intros _. destruct (negb _);
          [apply writes_only_trace_programming_error | apply writes_only_trace_ret].
    + destruct (negb (isinstance_dict obj));
        [apply writes_only_trace_invalid_params | apply writes_only_trace_ret].
  - intros obj'. destruct obj' as [| | | | | |d]; try apply writes_only_trace_raise.
    destruct (dict_get (_value_to_node_fields R) (Meta.name cls)) as [fields|];
      [|apply writes_only_trace_raise].
    apply writes_only_trace_bind; [apply check_field_names_writes_only_trace|].
    intros _. apply writes_only_trace_bind; [apply validate_fields_writes_only_trace|].
    intros res_dict. unfold order_result.
    destruct (with_index _ _);
      [apply writes_only_trace_ret | apply writes_only_trace_raise].
Qed.

End ValidateWrites.

Lemma copy_slots_entries immutable_fields slots :
  forall copy0 c copy c1,
    copy_slots immutable_fields slots copy0 c = (Ok copy, c1) ->
    forall k l, In (k, l) copy ->
      In (k, l) copy0 \/ In (k, l) slots \/ l ∉ dom (heap c).
Proof.
  induction slots as [|[k0 l0] rest IH]; intros copy0 c copy c1 H k l Hin.
  - injection H as <- <-. now left.
  - cbn [copy_slots] in H. unfold bind at 1 in H.
    destruct (contains_str immutable_fields k0) as [shared|e]; cbn in H;
      [|discriminate].
    destruct shared.
    + destruct (IH _ _ _ _ H k l Hin) as [Hc|[Hs|Hf]]; auto.
      * apply In_dict_set in Hc as [[-> ->]|Hc]; auto. right. left. now left.
      * right. left. now right.
    + unfold bind at 1 in H. unfold load in H.
      destruct (heap c !! l0) as [v|] eqn:El; [|discriminate].
      unfold bind at 1, alloc in H. cbn [stack_objects heap] in H.
      destruct (IH _ _ _ _ H k l Hin) as [Hc|[Hs|Hf]]; cbn [heap] in *.
      * apply In_dict_set in Hc as [[-> ->]|Hc]; auto.
        right. right. apply is_fresh.
      * right. left. now right.
      * right. right. intros Hl. apply Hf. set_solver.
Qed.

Section ExecuteWrites.
Variable call : Node -> string -> pyvalue -> kwargs_dict -> M pyvalue.
Hypothesis call_writes :
  forall cls function obj kwargs, writes_only_trace (call cls function obj kwargs).

(** One candidate: it ran on a copy, and the trace of the copy it leaves
    is an object that did not exist or, if the slot is shared, the
    caller's. *)
Lemma try_candidate_writes candidate_node obj kwargs c r c' :
  try_candidate call candidate_node obj kwargs c = (r, c') ->
  wrote_only_trace c c'
  /\ stack_objects c' = stack_objects c
  /\ forall s, r = Ok (Some s) ->
       forall l, In ("node_trace", l) s.2 -> is_trace_cell c l \/ l ∉ dom (heap c).
Proof.
  intros H. unfold try_candidate, try_except_InvalidParams in H.
  match type of H with
  | context [bind copy_stack_objects ?k] => set (rest := k) in H
  end.
  assert (Hbody : forall r0 c0,
            bind copy_stack_objects rest c = (r0, c0) ->
            wrote_only_trace c c0
            /\ stack_objects c0 = stack_objects c
            /\ forall s, r0 = Ok (Some s) ->
                 forall l, In ("node_trace", l) s.2 ->
                   is_trace_cell c l \/ l ∉ dom (heap c)).
  { clear H r c'. intros r0 c0 H. unfold bind at 1 in H.
    unfold copy_stack_objects in H.
    unfold bind at 1 2 3, so_get, load, get_stack_objects in H.
    destruct c as [[so|] h]; cbn [stack_objects heap] in H.
    2:{ injection H as <- <-. split; [apply wrote_only_trace_refl|].
        split; [reflexivity|discriminate]. }
    destruct (dict_get so "immutable_fields") as [l_imm|];
      cbn [stack_objects heap] in H.
    2:{ injection H as <- <-. split; [apply wrote_only_trace_refl|].
        split; [reflexivity|discriminate]. }
    destruct (h !! l_imm) as [immutable_fields|]; cbn [stack_objects heap] in H.
    2:{ injection H as <- <-. split; [apply wrote_only_trace_refl|].
        split; [reflexivity|discriminate]. }
    destruct (copy_slots immutable_fields so [] (Context (Some so) h))
      as [[copy|e] c1] eqn:Ecopy.
    2:{ injection H as <- <-.
        apply copy_slots_spec in Ecopy as (Hso & Hheap & _).
        cbn [stack_objects heap] in *. split; [|split; [exact Hso|discriminate]].
        repeat split; cbn [heap].
        - intros l Hl _. now apply Hheap.
        - intros l Hl. apply elem_of_dom. rewrite Hheap by exact Hl.
          now apply elem_of_dom.
        - intros l Hl. left. unfold is_trace_cell in *. now rewrite Hso in Hl. }
    pose proof (copy_slots_entries _ _ _ _ _ _ Ecopy) as Hentries.
    apply copy_slots_spec in Ecopy as (Hso & Hheap & _).
    cbn [stack_objects heap] in *.
    assert (Hdom : dom h ⊆ dom (heap c1)).
    { intros l Hl. apply elem_of_dom. rewrite Hheap by exact Hl.
      now apply elem_of_dom. }
    subst rest. cbv beta in H.
    assert (Htmp : forall (m : M pyvalue) rt ct,
              (m = ret obj \/ m = invalid_params "the value must be a dictionary" []
               \/ exists sf, m = (shortform_validate sf obj;;
                    if negb (isinstance_dict
                               (Meta.shortform_conversion candidate_node obj))
                    then programming_error
                           "the shortform conversion did not return a dict" []
                    else ret (Meta.shortform_conversion candidate_node obj))) ->
              m c1 = (rt, ct) -> ct = c1).
    { intros m rt ct [->|[->|[sf ->]]] Hm.
      - now injection Hm as _ <-.
      - now injection Hm as _ <-.
      - unfold bind in Hm.
        pose proof (shortform_validate_context sf obj c1) as Hsv.
        destruct (shortform_validate sf obj c1) as [[v|e] c2]; simpl in Hsv; subst c2.
        + destruct (isinstance_dict (Meta.shortform_conversion candidate_node obj));
            now injection Hm as _ <-.
        + now injection Hm as _ <-. }
    assert (Hc1 : wrote_only_trace (Context (Some so) h) c1).
    { repeat split; cbn [heap].
      - intros l Hl _. now apply Hheap.
      - exact Hdom.
      - intros l Hl. left. unfold is_trace_cell in *. now rewrite Hso in Hl. }
    unfold bind at 1 in H.
    match type of H with
    | context [match ?m c1 with _ => _ end] =>
        destruct (m c1) as [rt ct] eqn:Em;
        assert (ct = c1) as ->
          by (eapply (Htmp m rt ct); [|exact Em];
              destruct (Meta.shortform_field candidate_node);
              destruct (negb (isinstance_dict obj)); eauto)
    end.
    destruct rt as [tmp_obj|e];
      [|injection H as <- <-; split; [exact Hc1|split; [exact Hso|discriminate]]].
    unfold bind at 1, with_stack_objects in H.
    pose proof (call_writes candidate_node "validate" tmp_obj kwargs
                  (Context (Some copy) (heap c1))) as (Hcall & Hcdom & Hctrace).
    destruct (call candidate_node "validate" tmp_obj kwargs
                (Context (Some copy) (heap c1))) as [rc c4].
    cbn [snd heap stack_objects] in *.
    assert (Hcopy : forall l, In ("node_trace", l) copy ->
               In ("node_trace", l) so \/ l ∉ dom h).
    { intros l Hl. destruct (Hentries _ _ Hl) as [[]|[?|?]]; auto. }
    assert (Hfinal : wrote_only_trace (Context (Some so) h)
                       (Context (stack_objects c1) (heap c4))).
    { repeat split; cbn [heap stack_objects].
      - intros l Hl Hnt. rewrite Hcall; [now apply Hheap|now apply Hdom|].
        unfold is_trace_cell. cbn [stack_objects]. intros Hin.
        destruct (Hcopy l Hin); contradiction.
      - set_solver.
      - intros l Hl. left. unfold is_trace_cell in *.
        cbn [stack_objects] in *. now rewrite Hso in Hl. }
    destruct rc as [res_obj|e];
      [|injection H as <- <-; split; [exact Hfinal|split; [exact Hso|discriminate]]].
    destruct (stack_objects c4) as [copy'|] eqn:Eso4; injection H as <- <-;
      (split; [exact Hfinal|split; [exact Hso|]]); [|discriminate].
    intros s [= <-] l Hl. cbn [snd] in Hl.
    destruct (Hctrace l) as [Hold|Hfresh].
    + unfold is_trace_cell. now rewrite Eso4.
    + unfold is_trace_cell in Hold. cbn [stack_objects] in Hold.
      destruct (Hcopy l Hold); [now left | now right].
    + right. intros Hin. apply Hfresh. now apply Hdom. }
  destruct (bind copy_stack_objects rest c) as [r0 c0] eqn:E.
  specialize (Hbody _ _ eq_refl). destruct Hbody as (Hw & Hso & Hs).
  destruct r0 as [o|e]; [injection H as <- <-; auto|].
  destruct e; injection H as <- <-; (split; [exact Hw|split; [exact Hso|discriminate]]).
Qed.

Lemma try_candidates_writes candidate_nodes obj kwargs :
  forall acc c r c',
    try_candidates call candidate_nodes obj kwargs acc c = (r, c') ->
    wrote_only_trace c c'
    /\ stack_objects c' = stack_objects c
    /\ forall successes, r = Ok successes ->
         forall s l, In s successes -> In ("node_trace", l) s.2 ->
           (In s acc \/ is_trace_cell c l \/ l ∉ dom (heap c)).
Proof.
  induction candidate_nodes as [|cand rest IH]; intros acc c r c' H.
  - injection H as <- <-. split; [apply wrote_only_trace_refl|].
    split; [reflexivity|]. intros successes [= <-] s l Hs _. now left.
  - cbn [try_candidates] in H. unfold bind at 1 in H.
    destruct (try_candidate call cand obj kwargs c) as [ra ca] eqn:Ea.
    apply try_candidate_writes in Ea as (Hw & Hso & Hs).
    destruct ra as [attempt|e];
      [|injection H as <- <-; split; [exact Hw|split; [exact Hso|discriminate]]].
    apply IH in H as (Hw' & Hso' & Hs').
    split; [eapply wrote_only_trace_trans; eauto|].
    split; [congruence|].
    intros successes -> s l Hin Hl.
    assert (Hstep : is_trace_cell ca l \/ l ∉ dom (heap ca) ->
                    is_trace_cell c l \/ l ∉ dom (heap c)).
    { intros [Ht|Hf].
      - left. unfold is_trace_cell in *. now rewrite Hso in Ht.
      - right. intros Hd. apply Hf. destruct Hw as (_ & Hdom & _). now apply Hdom. }
    destruct (Hs' _ eq_refl s l Hin Hl) as [Hacc|Hnew]; [|right; now apply Hstep].
    destruct attempt as [s0|]; [|now left].
    apply in_app_or in Hacc as [Hacc|[<-|[]]]; [now left|].
    right. exact (Hs s0 eq_refl l Hl).
Qed.

Lemma execute_function_on_node_writes_only_trace function obj kwargs value choice :
  writes_only_trace (execute_function_on_node R call function obj kwargs value choice).
Proof.
  unfold execute_function_on_node.
  destruct (Bool.eqb _ _); [apply writes_only_trace_programming_error|].
  intros c. unfold bind at 1. cbn [fst snd].
  destruct (stack_objects c) as [so|] eqn:Eso;
    [|apply wrote_only_trace_refl].
  destruct kwargs as [kwargs|]; [|apply wrote_only_trace_refl].
  revert c Eso.
  assert (Hmain : forall m : M pyvalue, writes_only_trace m ->
            forall c, stack_objects c = Some so -> wrote_only_trace c (m c).2)
    by (intros m Hm c _; apply Hm).
  apply Hmain. clear Hmain so.
  apply writes_only_trace_bind.
  { destruct value as [value|].
    - apply writes_only_trace_bind; [|intros n; apply writes_only_trace_ret].
      apply writes_only_trace_pure. intros c. unfold lookup_node.
      now destruct (dict_get _ _).
    - apply writes_only_trace_pure. intros c.
      apply (mapM_lookup_node_state R (fun kv : string * string => kv.2)). }
  intros candidate_nodes.
  destruct (_ && _); [apply writes_only_trace_invalid_params|].
  apply writes_only_trace_bind.
  { destruct (String.eqb function "validate"); [|apply writes_only_trace_ret].
    apply writes_only_trace_pure. apply check_kwargs_state. }
  intros _. apply writes_only_trace_bind.
  { destruct candidate_nodes as [|n [|n' rest]]; try apply writes_only_trace_ret;
      (destruct (type_of_dict obj) as [provided_type|]; [|apply writes_only_trace_ret]);
      (destruct provided_type as [| | | |t| |]; try apply writes_only_trace_raise;
       try apply writes_only_trace_invalid_params);
      (destruct (dict_get _ t) as [v|]; [|apply writes_only_trace_invalid_params]);
      (apply writes_only_trace_bind; [|intros n0; apply writes_only_trace_ret]);
      apply writes_only_trace_pure; intros c; unfold lookup_node;
      now destruct (dict_get _ _). }
  intros [selected_node|].
  - apply writes_only_trace_bind; [apply call_writes|]. intros res_obj.
    destruct (String.eqb function "validate"); [|apply writes_only_trace_ret].
    destruct (Meta.choice_type selected_node) as [choice_type|];
      [|apply writes_only_trace_ret].
    destruct (match type_of_dict obj with Some t => _ | None => false end);
      [apply writes_only_trace_programming_error|].
    destruct res_obj as [| | | | | |d]; try apply writes_only_trace_raise.
    destruct (dict_get d "type") as [t|]; [|apply writes_only_trace_ret].
    apply writes_only_trace_bind.
    { apply writes_only_trace_pure. intros c.
      apply (mapM_get_choice_type_state (fun n : Node => n)). }
    intros types. destruct (negb _);
      [apply writes_only_trace_programming_error | apply writes_only_trace_ret].
  - destruct (negb _); [apply writes_only_trace_programming_error|].
    intros c. unfold bind at 1.
    destruct (try_candidates call candidate_nodes obj kwargs [] c)
      as [[successes|e] c1] eqn:Et.
    2:{ apply try_candidates_writes in Et as (Hw & _). exact Hw. }
    apply try_candidates_writes in Et as (Hw & Hso & Hs).
    specialize (Hs _ eq_refl).
    assert (Hpure : forall m : M pyvalue, (forall c0, (m c0).2 = c0) ->
              wrote_only_trace c (m c1).2).
    { intros m Hm. now rewrite Hm. }
    destruct successes as [|[[candidate_node res_obj] copy] [|s2 more]].
    + apply Hpure. intros c0. unfold bind.
      pose proof (mapM_get_choice_type_state (fun n : Node => n) candidate_nodes c0)
        as Hst.
      destruct (mapM _ candidate_nodes c0) as [[types|e] c2]; simpl in Hst; now subst.
    + unfold bind at 1, get_choice_type.
      destruct (Meta.choice_type candidate_node) as [choice_type|]; [|exact Hw].
      cbn. unfold bind at 1, stamp_type.
      destruct res_obj as [| | | | | |d]; try exact Hw.
      cbn. unfold bind, set_stack_objects, ret. cbn.
      destruct Hw as (Hheap & Hdom & _). repeat split; cbn [heap]; auto.
      intros l Hl. unfold is_trace_cell in Hl. cbn [stack_objects] in Hl.
      destruct (Hs (candidate_node, VDict d, copy) l) as [[]|Hl']; auto.
      now left.
    + apply Hpure. intros c0. unfold bind.
      pose proof (mapM_get_choice_type_state
                    (fun a : Node * pyvalue * list (string * loc) => a.1.1)
                    ((candidate_node, res_obj, copy) :: s2 :: more) c0) as Hst.
      destruct (mapM _ _ c0) as [[types|e] c2]; simpl in Hst; now subst.
Qed.

End ExecuteWrites.

Lemma Node_call_writes_only_trace fuel :
  forall cls function obj kwargs,
    writes_only_trace (Node_call R fuel cls function obj kwargs).
Proof.
  induction fuel as [|fuel IH]; intros cls function obj kwargs; cbn [Node_call].
  - apply writes_only_trace_raise.
  - destruct (String.eqb function "validate"); [|apply writes_only_trace_raise].
    apply Node_validate_writes_only_trace. intros f o k v ch.
    now apply execute_function_on_node_writes_only_trace.
Qed.

End NodeWrites.




(** ** The trace after a validation *)

Lemma restores_trace_ret {A} (a : A) : restores_trace (ret a).
Proof. intros c a' c' Hc [= <- <-]. auto. Qed.

Lemma restores_trace_raise {A} e : restores_trace (@raise A e).
Proof. intros c a c' _ H. discriminate. Qed.

Lemma restores_trace_lift {A} (r : result A) : restores_trace (lift r).
Proof. intros c a c' Hc H. apply lift_Ok_inv in H as [_ ->]. auto. Qed.

Lemma restores_trace_pure {A} (m : M A) :
  (forall c, (m c).2 = c) -> restores_trace m.
Proof. intros Hm c a c' Hc H. specialize (Hm c). rewrite H in Hm. simpl in Hm. now subst. Qed.

Lemma restores_trace_bind {A B} (m : M A) (k : A -> M B) :
  restores_trace m -> (forall a, restores_trace (k a)) -> restores_trace (bind m k).
Proof.
  intros Hm Hk c b c' Hc H. apply bind_Ok_inv in H as (a & c1 & H1 & H2).
  destruct (Hm _ _ _ Hc H1) as [Hc1 Ht1].
  destruct (Hk a _ _ _ Hc1 H2) as [Hc' Ht']. split; [exact Hc' | congruence].
Qed.

(** A handler that only raises again. *)
Lemma restores_trace_try {A} (m : M A) fmt args :
  restores_trace m ->
  restores_trace (try_except_InvalidParams m (fun e => invalid_params fmt (args e))).
Proof.
  intros Hm c a c' Hc H. unfold try_except_InvalidParams in H.
  destruct (m c) as [[a0|[e|e|e]] c1] eqn:E; try discriminate.
  injection H as <- <-. eauto.
Qed.

Lemma trace_of_kept_apart c :
  trace_kept_apart c -> exists t, trace_of c = Some t.
Proof.
  intros (so & lt & li & t & imm & Hso & _ & Hlt & Ht & _).
  exists t. unfold trace_of. now rewrite Hso, Hlt, Ht.
Qed.

Lemma enter_kept_apart new_value object c previous_object c1 :
  trace_kept_apart c ->
  node_trace_step_enter new_value object c = (Ok previous_object, c1) ->
  trace_kept_apart c1
  /\ exists t, trace_of c = Some t /\ trace_of c1 = Some (t ++ [VStr new_value])%list.
Proof.
  intros (so & lt & li & t & imm & Hso & Hnd & Hlt & Ht & Hcur & Hli & Himm & Hns & Hne) H.
  destruct c as [so0 h]. cbn [stack_objects heap] in *. subst so0.
  unfold dict_has in Hcur.
  destruct (dict_get so "current_object") as [prev|] eqn:Eprev; [|discriminate].
  unfold node_trace_step_enter, bind, so_get, load, store, alloc, so_set in H.
  cbn [stack_objects heap] in H. rewrite Hlt in H. cbn [stack_objects heap] in H.
  rewrite Ht in H. cbn [stack_objects heap] in H. rewrite Eprev in H.
  injection H as <- <-.
  set (h1 := <[lt := VList (t ++ [VStr new_value])]> h).
  set (lc := fresh (dom h1)).
  assert (Hlc : lc <> lt).
  { intros E. apply (is_fresh (dom h1)). fold lc. rewrite E.
    apply elem_of_dom. unfold h1. rewrite lookup_insert_eq. eauto. }
  assert (Hlc' : lc <> li).
  { intros E. apply (is_fresh (dom h1)). fold lc. rewrite E.
    apply elem_of_dom. unfold h1. rewrite lookup_insert_ne by exact Hne. eauto. }
  split.
  - exists (dict_set so "current_object" lc), lt, li, (t ++ [VStr new_value])%list, imm.
    cbn [stack_objects heap]. repeat split; auto.
    + now apply dict_set_NoDup.
    + now rewrite dict_get_set_ne.
    + rewrite lookup_insert_ne by exact Hlc. apply lookup_insert_eq.
    + unfold dict_has. now rewrite dict_get_set_eq.
    + now rewrite dict_get_set_ne.
    + rewrite lookup_insert_ne by exact Hlc'. unfold h1.
      now rewrite lookup_insert_ne.
  - exists t. unfold trace_of. cbn [stack_objects heap]. rewrite Hlt, Ht.
    split; [reflexivity|]. rewrite dict_get_set_ne by discriminate. rewrite Hlt.
    rewrite lookup_insert_ne by exact Hlc. unfold h1. now rewrite lookup_insert_eq.
Qed.

Lemma exit_kept_apart previous_object c c' :
  trace_kept_apart c ->
  node_trace_step_exit previous_object c = (Ok tt, c') ->
  trace_kept_apart c'
  /\ exists t, trace_of c = Some t /\ trace_of c' = Some (removelast t).
Proof.
  intros (so & lt & li & t & imm & Hso & Hnd & Hlt & Ht & Hcur & Hli & Himm & Hns & Hne) H.
  destruct c as [so0 h]. cbn [stack_objects heap] in *. subst so0.
  unfold node_trace_step_exit, bind, so_get, load, store, so_set in H.
  cbn [stack_objects heap] in H. rewrite Hlt in H. cbn [stack_objects heap] in H.
  rewrite Ht in H. cbn [stack_objects heap] in H.
  destruct t as [|x t]; [discriminate|]. cbn [stack_objects heap] in H.
  injection H as <-.
  split.
  - exists (dict_set so "current_object" previous_object), lt, li,
           (removelast (x :: t)), imm.
    cbn [stack_objects heap]. repeat split; auto.
    + now apply dict_set_NoDup.
    + now rewrite dict_get_set_ne.
    + apply lookup_insert_eq.
    + unfold dict_has. now rewrite dict_get_set_eq.
    + now rewrite dict_get_set_ne.
    + now rewrite lookup_insert_ne.
  - exists (x :: t). unfold trace_of. cbn [stack_objects heap]. rewrite Hlt, Ht.
    split; [reflexivity|]. rewrite dict_get_set_ne by discriminate. rewrite Hlt.
    now rewrite lookup_insert_eq.
Qed.

Lemma restores_trace_step {A} new_value object (body : M A) :
  restores_trace body -> restores_trace (node_trace_step new_value object body).
Proof.
  intros Hb c r c' Hc H.
  apply node_trace_step_Ok_inv in H as (prev & c1 & c2 & Henter & Hbody & Hexit).
  destruct (enter_kept_apart _ _ _ _ _ Hc Henter) as (Hc1 & t & Ht & Ht1).
  destruct (Hb _ _ _ Hc1 Hbody) as [Hc2 Ht2].
  destruct (exit_kept_apart _ _ _ Hc2 Hexit) as (Hc' & t2 & Ht2' & Ht').
  split; [exact Hc'|]. rewrite Ht', Ht.
  assert (t2 = (t ++ [VStr new_value])%list) as -> by congruence.
  now rewrite removelast_last.
Qed.

Lemma restores_trace_invalid_params {A} fmt args :
  restores_trace (@invalid_params A fmt args).
Proof. apply restores_trace_raise. Qed.

Lemma restores_trace_programming_error {A} fmt args :
  restores_trace (@programming_error A fmt args).
Proof. apply restores_trace_raise. Qed.

Lemma List_elements_restores_trace (validate_element : pyvalue -> M pyvalue) :
  (forall element, restores_trace (validate_element element)) ->
  forall elements i, restores_trace (List_elements validate_element i elements).
Proof.
  intros Hv elements. induction elements as [|element rest IH]; intros i;
    cbn [List_elements].
  - apply restores_trace_ret.
  - apply restores_trace_bind; [apply restores_trace_step, Hv|]. intros v.
    apply restores_trace_bind; [apply IH|]. intros res.
    apply restores_trace_ret.
Qed.

Lemma Mapping_items_restores_trace (validate_key : pyvalue -> M string)
  (validate_content : pyvalue -> M pyvalue) :
  (forall k, restores_trace (validate_key k)) ->
  (forall v, restores_trace (validate_content v)) ->
  forall items res,
    restores_trace (Mapping_items validate_key validate_content items res).
Proof.
  intros Hk Hv. induction items as [|[k v] rest IH]; intros res; cbn [Mapping_items].
  - apply restores_trace_ret.
  - apply restores_trace_bind.
    { apply (restores_trace_try _ _ (fun e => [AVal (VStr k); AMsg e])).
      apply restores_trace_step, Hk. }
    intros validated_key.
    apply restores_trace_bind; [apply restores_trace_step, Hv|].
    intros validated_value.
    destruct (dict_has res validated_key);
      [apply restores_trace_invalid_params | apply IH].
Qed.

Lemma Mapping_order_restores_trace sp res :
  restores_trace (Mapping_order sp res).
Proof.
  unfold Mapping_order. destruct (subclass sp); try apply restores_trace_ret.
  destruct (with_int_keys res);
    [apply restores_trace_ret | apply restores_trace_raise].
Qed.

Lemma Field_validate_wrapper_restores_trace attrs (helper : pyvalue -> M pyvalue)
  val allow_null :
  (forall v, restores_trace (helper v)) ->
  restores_trace (Field_validate_wrapper attrs helper val allow_null).
Proof.
  intros Hh. unfold Field_validate_wrapper.
  destruct (is_None val); [|apply Hh].
  destruct (negb _); [apply restores_trace_invalid_params|].
  destruct (validation_accepts_nulls attrs); [apply Hh | apply restores_trace_ret].
Qed.

Section FieldsRestore.
Variable execute :
  string -> pyvalue -> option kwargs_dict -> option string -> option string -> M pyvalue.
Hypothesis execute_restores :
  forall function obj kwargs value choice,
    restores_trace (execute function obj kwargs value choice).

Lemma execute_with_kwargs_restores_trace kwargs field_kwargs val value choice :
  restores_trace
    (let* kw := lift (_get_kwargs_to_use kwargs field_kwargs) in
     execute "validate" val (Some kw) value choice).
Proof.
  apply restores_trace_bind; [apply restores_trace_lift|].
  intros kw. apply execute_restores.
Qed.

Lemma Field_validate_restores_trace f :
  forall val kwargs allow_null,
    restores_trace (Field_validate execute f val kwargs allow_null)
with helper_for_validation_restores_trace kind :
  forall val kwargs,
    restores_trace (helper_for_validation execute kind val kwargs).
Proof.
  - destruct f as [attrs kind]. intros val kwargs allow_null. cbn [Field_validate].
    apply Field_validate_wrapper_restores_trace. intros v.
    apply helper_for_validation_restores_trace.
  - destruct kind as [value fk | choice fk | value choice primitive min_len fk
                     | sk content | pf cf | | mn mx | mn mx | | choices | spec];
      intros val kwargs; cbn [helper_for_validation].
    + apply execute_with_kwargs_restores_trace.
    + apply execute_with_kwargs_restores_trace.
    + destruct val as [| | | | |l|]; try apply restores_trace_invalid_params.
      destruct (match min_len with Some m => _ | None => false end);
        [apply restores_trace_invalid_params|].
      apply restores_trace_bind; [|intros res; apply restores_trace_ret].
      apply List_elements_restores_trace. intros element.
      destruct primitive as [p|]; [|apply execute_with_kwargs_restores_trace].
      destruct (match value, choice with
                | None, None => true
                | _, _ => isinstance_primitive element
                end);
        [|apply execute_with_kwargs_restores_trace].
      apply (Field_validate_restores_trace p).
    + destruct val as [| | | | | |d]; try apply restores_trace_invalid_params.
      apply restores_trace_bind; [|intros res; apply Mapping_order_restores_trace].
      apply Mapping_items_restores_trace.
      * intros k. apply restores_trace_lift.
      * intros v. apply (Field_validate_restores_trace content).
    + destruct (isinstance_primitive val).
      * apply (Field_validate_restores_trace pf).
      * apply (Field_validate_restores_trace cf).
    + apply restores_trace_ret.
    + apply restores_trace_lift.
    + apply restores_trace_lift.
    + apply restores_trace_lift.
    + apply restores_trace_lift.
    + destruct (StringSpec_helper spec val);
        [apply restores_trace_ret | apply restores_trace_raise].
Qed.

End FieldsRestore.

Section NodeRestores.
Variable R : Registry.

Section ValidateRestores.
Variable execute :
  string -> pyvalue -> option kwargs_dict -> option string -> option string -> M pyvalue.
Hypothesis execute_restores :
  forall function obj kwargs value choice,
    restores_trace (execute function obj kwargs value choice).

Lemma check_field_names_restores_trace cls names ks :
  restores_trace (check_field_names cls names ks).
Proof.
  induction ks as [|k rest IH]; cbn [check_field_names];
    [apply restores_trace_ret|].
  destruct (str_in k _); [exact IH|].
  destruct (_ && _); [exact IH|].
  destruct (negb _); [apply restores_trace_invalid_params | exact IH].
Qed.

Lemma validate_fields_restores_trace fields :
  forall obj kwargs res_dict,
    restores_trace (validate_fields execute fields obj kwargs res_dict).
Proof.
  induction fields as [|[field_name field] rest IH]; intros obj kwargs res_dict;
    cbn [validate_fields]; [apply restores_trace_ret|].
  destruct (negb (dont_auto_validate (attrs_of field))); [|apply IH].
  apply restores_trace_bind.
  - destruct (dict_get obj field_name) as [field_value|].
    + apply restores_trace_bind; [|intros v; apply restores_trace_ret].
      apply restores_trace_step.
      now apply Field_validate_restores_trace.
    + destruct (required _); [apply restores_trace_invalid_params|].
      destruct (negb _); apply restores_trace_ret.
  - intros res_dict'. destruct (negb _); [|apply IH].
    destruct (dict_get res_dict' field_name) as [v|]; [|apply restores_trace_raise].
    destruct (_ && _); [apply restores_trace_invalid_params | apply IH].
Qed.

Lemma Node_validate_restores_trace cls obj kwargs :
  restores_trace (Node_validate R execute cls obj kwargs).
Proof.
  unfold Node_validate. apply restores_trace_bind.
  - destruct (Meta.shortform_field cls) as [shortform_field|].
    + destruct (negb (isinstance_dict obj)); [|apply restores_trace_ret].
      apply restores_trace_step. apply restores_trace_bind.
      * apply restores_trace_pure. apply shortform_validate_context.
      * intros _. destruct (negb _);
          [apply restores_trace_programming_error | apply restores_trace_ret].
    + destruct (negb (isinstance_dict obj));
        [apply restores_trace_invalid_params | apply restores_trace_ret].
  - intros obj'. destruct obj' as [| | | | | |d]; try apply restores_trace_raise.
    destruct (dict_get (_value_to_node_fields R) (Meta.name cls)) as [fields|];
      [|apply restores_trace_raise].
    apply restores_trace_bind; [apply check_field_names_restores_trace|].
    intros _. apply restores_trace_bind; [apply validate_fields_restores_trace|].
    intros res_dict. unfold order_result.
    destruct (with_index _ _);
      [apply restores_trace_ret | apply restores_trace_raise].
Qed.

End ValidateRestores.


Section CopyApart.
Variable immutable_fields : pyvalue.

Lemma copy_slots_NoDup slots :
  forall copy0 c copy c1,
    copy_slots immutable_fields slots copy0 c = (Ok copy, c1) ->
    NoDup (keys copy0) -> NoDup (keys copy).
Proof.
  induction slots as [|[k0 l0] rest IH]; intros copy0 c copy c1 H Hnd.
  - now injection H as <- <-.
  - cbn [copy_slots] in H. apply bind_Ok_inv in H as (shared & c0 & H0 & H).
    apply lift_Ok_inv in H0 as [_ ->]. destruct shared.
    + eapply IH; [exact H|]. now apply dict_set_NoDup.
    + apply bind_Ok_inv in H as (v & c2 & _ & H).
      apply bind_Ok_inv in H as (l' & c3 & _ & H).
      eapply IH; [exact H|]. now apply dict_set_NoDup.
Qed.

Lemma copy_slots_other slots :
  forall copy0 c copy c1 k,
    copy_slots immutable_fields slots copy0 c = (Ok copy, c1) ->
    ~ In k (keys slots) -> dict_get copy k = dict_get copy0 k.
Proof.
  induction slots as [|[k0 l0] rest IH]; intros copy0 c copy c1 k H Hk.
  - now injection H as <- <-.
  - cbn [copy_slots] in H. apply bind_Ok_inv in H as (shared & c0 & H0 & H).
    apply lift_Ok_inv in H0 as [_ ->].
    assert (Hne : k0 <> k) by (intros ->; apply Hk; now left).
    assert (Hrest : ~ In k (keys rest)) by (intros Hin; apply Hk; now right).
    destruct shared.
    + rewrite (IH _ _ _ _ _ H Hrest). now apply dict_get_set_ne.
    + apply bind_Ok_inv in H as (v & c2 & _ & H).
      apply bind_Ok_inv in H as (l' & c3 & _ & H).
      rewrite (IH _ _ _ _ _ H Hrest). now apply dict_get_set_ne.
Qed.

(** What the copy holds under a key of the original: the same object if
    the key is shared, otherwise a new object with the same value. *)
Lemma copy_slots_content slots :
  forall copy0 c copy c1 k l,
    copy_slots immutable_fields slots copy0 c = (Ok copy, c1) ->
    NoDup (keys slots) -> In (k, l) slots ->
    exists l',
      dict_get copy k = Some l'
      /\ match contains_str immutable_fields k with
         | Ok true => l' = l
         | _ => (l' ∉ dom (heap c)) /\ l' ∈ dom (heap c1)
                /\ (l ∈ dom (heap c) -> heap c1 !! l' = heap c !! l)
         end.
Proof.
  induction slots as [|[k0 l0] rest IH]; intros copy0 c copy c1 k l H Hnd Hin;
    [destruct Hin|].
  cbn [copy_slots] in H. apply bind_Ok_inv in H as (shared & c0 & H0 & H).
  apply lift_Ok_inv in H0 as [Hshared ->].
  simpl in Hnd. apply NoDup_cons in Hnd as [Hk0 Hnd]. rewrite list_elem_of_In in Hk0.
  destruct Hin as [[= -> ->]|Hin].
  - (* the head *)
    destruct shared.
    + exists l. rewrite (copy_slots_other _ _ _ _ _ _ H Hk0), Hshared.
      split; [apply dict_get_set_eq | reflexivity].
    + apply bind_Ok_inv in H as (v & c2 & Hload & H).
      apply bind_Ok_inv in H as (l' & c3 & Halloc & H).
      unfold load in Hload. destruct (heap c !! l) as [v0|] eqn:El; [|discriminate].
      injection Hload as -> <-. unfold alloc in Halloc. injection Halloc as <- <-.
      exists (fresh (dom (heap c))).
      rewrite (copy_slots_other _ _ _ _ _ _ H Hk0), Hshared.
      split; [apply dict_get_set_eq|].
      apply copy_slots_spec in H as (_ & Hheap & _). cbn [heap stack_objects] in Hheap.
      assert (Hf : fresh (dom (heap c)) ∈ dom (<[fresh (dom (heap c)):=json_loads_dumps v]> (heap c)))
        by set_solver.
      split; [apply is_fresh|]. split.
      * apply elem_of_dom. rewrite (Hheap _ Hf). rewrite lookup_insert_eq. eauto.
      * intros _. rewrite (Hheap _ Hf). rewrite lookup_insert_eq.
        reflexivity.
  - (* in the rest *)
    assert (Hrest : forall c2 copy1,
              copy_slots immutable_fields rest copy1 c2 = (Ok copy, c1) ->
              dom (heap c) ⊆ dom (heap c2) ->
              (forall l1, l1 ∈ dom (heap c) -> heap c2 !! l1 = heap c !! l1) ->
              exists l',
                dict_get copy k = Some l'
                /\ match contains_str immutable_fields k with
                   | Ok true => l' = l
                   | _ => (l' ∉ dom (heap c)) /\ l' ∈ dom (heap c1)
                          /\ (l ∈ dom (heap c) -> heap c1 !! l' = heap c !! l)
                   end).
    { intros c2 copy1 H2 Hdom Hsame.
      destruct (IH _ _ _ _ _ _ H2 Hnd Hin) as (l' & Hget & Hl').
      exists l'. split; [exact Hget|].
      destruct (contains_str immutable_fields k) as [[|]|]; auto;
        destruct Hl' as (Hf & Hd & Hv); (split; [set_solver|split; [exact Hd|]]);
        intros Hl; rewrite Hv by (now apply Hdom); now apply Hsame. }
    destruct shared.
    + eapply Hrest; [exact H|set_solver|auto].
    + apply bind_Ok_inv in H as (v & c2 & Hload & H).
      apply bind_Ok_inv in H as (l' & c3 & Halloc & H).
      unfold load in Hload. destruct (heap c !! l0) as [v0|] eqn:El; [|discriminate].
      injection Hload as -> <-. unfold alloc in Halloc. injection Halloc as <- <-.
      eapply Hrest; [exact H|cbn [heap]; set_solver|].
      cbn [heap]. intros l1 Hl1. apply lookup_insert_ne. intros <-.
      now apply (is_fresh (dom (heap c))).
Qed.

(** Two keys that are copied get two objects. *)
Lemma copy_slots_distinct slots :
  forall copy0 c copy c1 k1 l1 k2 l2 l1' l2',
    copy_slots immutable_fields slots copy0 c = (Ok copy, c1) ->
    NoDup (keys slots) -> In (k1, l1) slots -> In (k2, l2) slots -> k1 <> k2 ->
    contains_str immutable_fields k1 = Ok false ->
    contains_str immutable_fields k2 = Ok false ->
    dict_get copy k1 = Some l1' -> dict_get copy k2 = Some l2' -> l1' <> l2'.
Proof.
  induction slots as [|[k0 l0] rest IH];
    intros copy0 c copy c1 k1 l1 k2 l2 l1' l2' H Hnd Hin1 Hin2 Hne Hs1 Hs2 Hg1 Hg2;
    [destruct Hin1|].
  cbn [copy_slots] in H. apply bind_Ok_inv in H as (shared & c0 & H0 & H).
  apply lift_Ok_inv in H0 as [Hshared ->].
  simpl in Hnd. apply NoDup_cons in Hnd as [Hk0 Hnd]. rewrite list_elem_of_In in Hk0.
  assert (Hhead : forall k' l' lk lk',
            In (k', l') rest -> contains_str immutable_fields k0 = Ok false ->
            contains_str immutable_fields k' = Ok false ->
            dict_get copy k0 = Some lk -> dict_get copy k' = Some lk' -> lk <> lk').
  { intros k' l' lk lk' Hin' Hsk Hsk' Hgk Hgk'.
    rewrite Hshared in Hsk. injection Hsk as ->.
    apply bind_Ok_inv in H as (v & c2 & Hload & H).
    apply bind_Ok_inv in H as (lf & c3 & Halloc & H).
    unfold load in Hload. destruct (heap c !! l0) as [v0|]; [|discriminate].
    injection Hload as -> <-. unfold alloc in Halloc. injection Halloc as <- <-.
    rewrite (copy_slots_other _ _ _ _ _ _ H Hk0), dict_get_set_eq in Hgk.
    injection Hgk as <-.
    destruct (copy_slots_content _ _ _ _ _ _ _ H Hnd Hin') as (l'' & Hg'' & Hl'').
    rewrite Hsk' in Hl''. destruct Hl'' as (Hf & _).
    assert (l'' = lk') as -> by congruence.
    intros <-. apply Hf. cbn [heap]. apply elem_of_dom.
    rewrite lookup_insert_eq. eauto. }
  destruct Hin1 as [E1|Hin1]; destruct Hin2 as [E2|Hin2].
  - congruence.
  - injection E1 as E1 _. subst k1. exact (Hhead _ _ _ _ Hin2 Hs1 Hs2 Hg1 Hg2).
  - injection E2 as E2 _. subst k2. intros E. symmetry in E. revert E.
    exact (Hhead _ _ _ _ Hin1 Hs2 Hs1 Hg2 Hg1).
  - destruct shared.
    + exact (IH _ _ _ _ _ _ _ _ _ _ H Hnd Hin1 Hin2 Hne Hs1 Hs2 Hg1 Hg2).
    + apply bind_Ok_inv in H as (v & c2 & _ & H).
      apply bind_Ok_inv in H as (lf & c3 & _ & H).
      exact (IH _ _ _ _ _ _ _ _ _ _ H Hnd Hin1 Hin2 Hne Hs1 Hs2 Hg1 Hg2).
Qed.

End CopyApart.

Lemma contains_str_any x k b k' :
  contains_str x k = Ok b -> exists b', contains_str x k' = Ok b'.
Proof. destruct x; simpl; intros [=]; eauto. Qed.

Lemma copy_slots_contains immutable_fields slots :
  forall copy0 c copy c1 k l,
    copy_slots immutable_fields slots copy0 c = (Ok copy, c1) ->
    In (k, l) slots -> exists b, contains_str immutable_fields k = Ok b.
Proof.
  destruct slots as [|[k0 l0] rest]; intros copy0 c copy c1 k l H Hin; [destruct Hin|].
  cbn [copy_slots] in H. apply bind_Ok_inv in H as (shared & c0 & H0 & H).
  apply lift_Ok_inv in H0 as [Hshared _]. eapply contains_str_any; eauto.
Qed.

Lemma kept_apart_heap so (h h' : gmap loc pyvalue) :
  trace_kept_apart (Context so h) ->
  (forall l, l ∈ dom h -> h' !! l = h !! l) ->
  trace_kept_apart (Context so h')
  /\ trace_of (Context so h') = trace_of (Context so h).
Proof.
  intros (so0 & lt & li & t & imm & Hso & Hnd & Hlt & Ht & Hcur & Hli & Himm & Hns & Hne)
         Hsame.
  cbn [stack_objects heap] in *. subst so.
  assert (Ht' : h' !! lt = Some (VList t)).
  { rewrite Hsame; [exact Ht|]. apply elem_of_dom. eauto. }
  assert (Himm' : h' !! li = Some imm).
  { rewrite Hsame; [exact Himm|]. apply elem_of_dom. eauto. }
  split.
  - exists so0, lt, li, t, imm. cbn [stack_objects heap]. repeat split; auto.
  - unfold trace_of. cbn [stack_objects heap]. now rewrite Hlt, Ht, Ht'.
Qed.

(** The copy made for a candidate is again a [stack_objects] with its own
    trace, equal to the caller's. *)
Lemma copy_stack_objects_kept_apart c copy c1 :
  trace_kept_apart c ->
  copy_stack_objects c = (Ok copy, c1) ->
  stack_objects c1 = stack_objects c
  /\ (forall l, l ∈ dom (heap c) -> heap c1 !! l = heap c !! l)
  /\ trace_kept_apart (Context (Some copy) (heap c1))
  /\ trace_of (Context (Some copy) (heap c1)) = trace_of c
  /\ (forall l, In ("node_trace", l) copy -> l ∉ dom (heap c)).
Proof.
  intros (so & lt & li & t & imm & Hso & Hnd & Hlt & Ht & Hcur & Hli & Himm & Hns & Hne) H.
  destruct c as [so0 h]. cbn [stack_objects heap] in *. subst so0.
  unfold copy_stack_objects, bind, so_get, load, get_stack_objects in H.
  cbn [stack_objects heap] in H. rewrite Hli in H. cbn [stack_objects heap] in H.
  rewrite Himm in H. cbn [stack_objects heap] in H.
  pose proof (copy_slots_NoDup _ _ _ _ _ _ H (NoDup_nil_2)) as Hndc.
  pose proof (copy_slots_spec _ _ _ _ _ _ H) as (Hso1 & Hheap & _).
  cbn [stack_objects heap] in Hso1, Hheap.
  (* the trace *)
  destruct (copy_slots_content _ _ _ _ _ _ _ _ H Hnd (dict_get_Some_In _ _ _ Hlt))
    as (lt' & Hlt' & Hct).
  destruct (copy_slots_contains _ _ _ _ _ _ _ _ H (dict_get_Some_In _ _ _ Hlt))
    as (bt & Hbt).
  unfold is_shared_slot in Hns. rewrite Hbt in Hns. subst bt. rewrite Hbt in Hct.
  cbn [heap] in Hct. destruct Hct as (Hfresh & Hdom' & Hval).
  assert (Hlt_dom : lt ∈ dom h) by (apply elem_of_dom; eauto).
  specialize (Hval Hlt_dom). rewrite Ht in Hval.
  (* the immutable fields *)
  destruct (copy_slots_content _ _ _ _ _ _ _ _ H Hnd (dict_get_Some_In _ _ _ Hli))
    as (li' & Hli' & Hci).
  destruct (copy_slots_contains _ _ _ _ _ _ _ _ H (dict_get_Some_In _ _ _ Hli))
    as (bi & Hbi).
  assert (Hli_dom : li ∈ dom h) by (apply elem_of_dom; eauto).
  assert (heap c1 !! li' = Some imm /\ lt' <> li') as [Himm' Hne'].
  { rewrite Hbi in Hci. cbn [heap] in Hci. destruct bi.
    - subst li'. split; [now rewrite Hheap|]. intros ->. contradiction.
    - destruct Hci as (_ & _ & Hv). split; [rewrite Hv by exact Hli_dom; exact Himm|].
      eapply (copy_slots_distinct _ _ _ _ _ _ "node_trace" lt "immutable_fields" li);
        eauto using dict_get_Some_In. }
  (* the current object *)
  unfold dict_has in Hcur.
  destruct (dict_get so "current_object") as [lc|] eqn:Elc; [|discriminate].
  destruct (copy_slots_content _ _ _ _ _ _ _ _ H Hnd (dict_get_Some_In _ _ _ Elc))
    as (lc' & Hlc' & _).
  split; [exact Hso1|]. split; [exact Hheap|]. split; [|split].
  - exists copy, lt', li', t, imm. cbn [stack_objects heap].
    repeat split; auto.
    + unfold dict_has. now rewrite Hlc'.
    + unfold is_shared_slot. now rewrite Hbt.
  - unfold trace_of. cbn [stack_objects heap]. now rewrite Hlt', Hval, Hlt, Ht.
  - intros l Hl. apply (In_dict_get_NoDup _ _ _ Hndc) in Hl.
    assert (l = lt') as -> by congruence. exact Hfresh.
Qed.

Lemma copy_stack_objects_frame c r c1 :
  copy_stack_objects c = (r, c1) ->
  stack_objects c1 = stack_objects c
  /\ forall l, l ∈ dom (heap c) -> heap c1 !! l = heap c !! l.
Proof.
  intros H. unfold copy_stack_objects, bind, so_get, load, get_stack_objects in H.
  destruct c as [[so|] h]; cbn [stack_objects heap] in *;
    [|injection H as <- <-; auto].
  destruct (dict_get so "immutable_fields") as [li|]; cbn [stack_objects heap] in H;
    [|injection H as <- <-; auto].
  destruct (h !! li) as [imm|]; cbn [stack_objects heap] in H;
    [|injection H as <- <-; auto].
  apply copy_slots_spec in H as (Hso & Hheap & _). auto.
Qed.

Section ExecuteRestores.
Variable call : Node -> string -> pyvalue -> kwargs_dict -> M pyvalue.
Hypothesis call_writes :
  forall cls function obj kwargs, writes_only_trace (call cls function obj kwargs).
Hypothesis call_restores :
  forall cls function obj kwargs, restores_trace (call cls function obj kwargs).

(** One candidate, tried from a context that keeps the trace apart: no
    object that existed is altered, and what a successful candidate leaves
    as its [stack_objects] has the caller's trace. *)
Lemma try_candidate_apart candidate_node obj kwargs c r c' :
  trace_kept_apart c ->
  try_candidate call candidate_node obj kwargs c = (r, c') ->
  stack_objects c' = stack_objects c
  /\ (forall l, l ∈ dom (heap c) -> heap c' !! l = heap c !! l)
  /\ forall s, r = Ok (Some s) ->
       trace_kept_apart (Context (Some s.2) (heap c'))
       /\ trace_of (Context (Some s.2) (heap c')) = trace_of c.
Proof.
  intros Hc H. unfold try_candidate, try_except_InvalidParams in H.
  match type of H with
  | context [bind copy_stack_objects ?k] => set (rest := k) in H
  end.
  assert (Hbody : forall r0 c0,
            bind copy_stack_objects rest c = (r0, c0) ->
            stack_objects c0 = stack_objects c
            /\ (forall l, l ∈ dom (heap c) -> heap c0 !! l = heap c !! l)
            /\ forall s, r0 = Ok (Some s) ->
                 trace_kept_apart (Context (Some s.2) (heap c0))
                 /\ trace_of (Context (Some s.2) (heap c0)) = trace_of c).
  { clear H r c'. intros r0 c0 H. unfold bind at 1 in H.
    destruct (copy_stack_objects c) as [[copy|e] c1] eqn:Ecopy.
    2:{ injection H as <- <-. apply copy_stack_objects_frame in Ecopy as [Hso Hheap].
        split; [exact Hso|]. split; [exact Hheap|discriminate]. }
    apply (copy_stack_objects_kept_apart _ _ _ Hc) in Ecopy
      as (Hso & Hheap & Hcopy & Htrace & Hfresh).
    assert (Hdom : dom (heap c) ⊆ dom (heap c1)).
    { intros l Hl. apply elem_of_dom. rewrite Hheap by exact Hl.
      now apply elem_of_dom. }
    subst rest. cbv beta in H.
    assert (Htmp : forall (m : M pyvalue) rt ct,
              (m = ret obj \/ m = invalid_params "the value must be a dictionary" []
               \/ exists sf, m = (shortform_validate sf obj;;
                    if negb (isinstance_dict
                               (Meta.shortform_conversion candidate_node obj))
                    then programming_error
                           "the shortform conversion did not return a dict" []
                    else ret (Meta.shortform_conversion candidate_node obj))) ->
              m c1 = (rt, ct) -> ct = c1).
    { intros m rt ct [->|[->|[sf ->]]] Hm.
      - now injection Hm as _ <-.
      - now injection Hm as _ <-.
      - unfold bind in Hm.
        pose proof (shortform_validate_context sf obj c1) as Hsv.
        destruct (shortform_validate sf obj c1) as [[v|e] c2]; simpl in Hsv; subst c2.
        + destruct (isinstance_dict (Meta.shortform_conversion candidate_node obj));
            now injection Hm as _ <-.
        + now injection Hm as _ <-. }
    unfold bind at 1 in H.
    match type of H with
    | context [match ?m c1 with _ => _ end] =>
        destruct (m c1) as [rt ct] eqn:Em;
        assert (ct = c1) as ->
          by (eapply (Htmp m rt ct); [|exact Em];
              destruct (Meta.shortform_field candidate_node);
              destruct (negb (isinstance_dict obj)); eauto)
    end.
    destruct rt as [tmp_obj|e];
      [|injection H as <- <-; split; [exact Hso|split; [exact Hheap|discriminate]]].
    unfold bind at 1, with_stack_objects in H.
    pose proof (call_writes candidate_node "validate" tmp_obj kwargs
                  (Context (Some copy) (heap c1))) as (Hcall & _).
    pose proof (call_restores candidate_node "validate" tmp_obj kwargs
                  (Context (Some copy) (heap c1))) as Hrestores.
    destruct (call candidate_node "validate" tmp_obj kwargs
                (Context (Some copy) (heap c1))) as [rc c4].
    cbn [snd heap stack_objects] in *.
    assert (Hfinal : forall l, l ∈ dom (heap c) -> heap c4 !! l = heap c !! l).
    { intros l Hl. rewrite Hcall; [now apply Hheap|now apply Hdom|].
      unfold is_trace_cell. cbn [stack_objects]. intros Hin.
      now apply (Hfresh l). }
    destruct rc as [res_obj|e];
      [|injection H as <- <-; split; [exact Hso|split; [exact Hfinal|discriminate]]].
    destruct (Hrestores _ _ Hcopy eq_refl) as [Hc4 Ht4].
    destruct c4 as [[copy'|] h4]; cbn [stack_objects heap] in *;
      injection H as <- <-; cbn [stack_objects heap];
      (split; [exact Hso|split; [exact Hfinal|]]); [|discriminate].
    intros s [= <-]. cbn [snd]. split; [exact Hc4 | congruence]. }
  destruct (bind copy_stack_objects rest c) as [r0 c0] eqn:E.
  specialize (Hbody _ _ eq_refl). destruct Hbody as (Hso & Hheap & Hs).
  destruct r0 as [o|e]; [injection H as <- <-; auto|].
  destruct e; injection H as <- <-;
    (split; [exact Hso|split; [exact Hheap|discriminate]]).
Qed.

Lemma try_candidates_apart candidate_nodes obj kwargs trace :
  forall acc c r c',
    trace_kept_apart c -> trace_of c = trace ->
    (forall s, In s acc ->
       trace_kept_apart (Context (Some s.2) (heap c))
       /\ trace_of (Context (Some s.2) (heap c)) = trace) ->
    try_candidates call candidate_nodes obj kwargs acc c = (r, c') ->
    stack_objects c' = stack_objects c
    /\ (forall l, l ∈ dom (heap c) -> heap c' !! l = heap c !! l)
    /\ forall successes, r = Ok successes ->
         forall s, In s successes ->
           trace_kept_apart (Context (Some s.2) (heap c'))
           /\ trace_of (Context (Some s.2) (heap c')) = trace.
Proof.
  induction candidate_nodes as [|cand rest IH]; intros acc c r c' Hc Ht Hacc H.
  - injection H as <- <-. split; [reflexivity|]. split; [reflexivity|].
    intros successes [= <-]. exact Hacc.
  - cbn [try_candidates] in H. unfold bind at 1 in H.
    destruct (try_candidate call cand obj kwargs c) as [ra ca] eqn:Ea.
    apply (try_candidate_apart _ _ _ _ _ _ Hc) in Ea as (Hso & Hheap & Hs).
    destruct ra as [attempt|e];
      [|injection H as <- <-; split; [exact Hso|split; [exact Hheap|discriminate]]].
    assert (trace_kept_apart ca /\ trace_of ca = trace) as [Hca Htca].
    { destruct c as [so h], ca as [soa ha]. cbn [stack_objects heap] in *. subst soa.
      destruct (kept_apart_heap _ _ _ Hc Hheap). split; [auto | congruence]. }
    apply (IH _ _ _ _ Hca Htca) in H as (Hso' & Hheap' & Hs').
    + split; [congruence|]. split; [|exact Hs'].
      intros l Hl. rewrite Hheap'; [now apply Hheap|].
      apply elem_of_dom. rewrite Hheap by exact Hl. now apply elem_of_dom.
    + intros s Hin.
      assert (Hold : In s acc ->
                trace_kept_apart (Context (Some s.2) (heap ca))
                /\ trace_of (Context (Some s.2) (heap ca)) = trace).
      { intros Hin'. destruct (Hacc s Hin') as [Hk Htr].
        destruct (kept_apart_heap _ _ _ Hk Hheap). split; [auto | congruence]. }
      destruct attempt as [s0|]; [|now apply Hold].
      apply in_app_or in Hin as [Hin|[<-|[]]]; [now apply Hold|].
      destruct (Hs s0 eq_refl). split; [auto | congruence].
Qed.

Lemma execute_function_on_node_restores_trace function obj kwargs value choice :
  restores_trace (execute_function_on_node R call function obj kwargs value choice).
Proof.
  unfold execute_function_on_node.
  destruct (Bool.eqb _ _); [apply restores_trace_raise|].
  intros c a c' Hc H. unfold bind at 1 in H. cbn [fst snd] in H.
  destruct (stack_objects c) as [so|] eqn:Eso; [|discriminate].
  destruct kwargs as [kwargs|]; [|discriminate].
  match type of H with
  | ?m c = _ => cut (restores_trace m); [intros Hm; exact (Hm _ _ _ Hc H)|]
  end.
  clear H Hc Eso so c a c'.
  apply restores_trace_bind.
  { destruct value as [value|].
    - apply restores_trace_bind; [|intros n; apply restores_trace_ret].
      apply restores_trace_pure. intros c. unfold lookup_node.
      now destruct (dict_get _ _).
    - apply restores_trace_pure. intros c.
      apply (mapM_lookup_node_state R (fun kv : string * string => kv.2)). }
  intros candidate_nodes.
  destruct (_ && _); [apply restores_trace_invalid_params|].
  apply restores_trace_bind.
  { destruct (String.eqb function "validate"); [|apply restores_trace_ret].
    apply restores_trace_pure. apply check_kwargs_state. }
  intros _. apply restores_trace_bind.
  { destruct candidate_nodes as [|n [|n' rest]]; try apply restores_trace_ret;
      (destruct (type_of_dict obj) as [provided_type|]; [|apply restores_trace_ret]);
      (destruct provided_type as [| | | |t| |]; try apply restores_trace_raise;
       try apply restores_trace_invalid_params);
      (destruct (dict_get _ t) as [v|]; [|apply restores_trace_invalid_params]);
      (apply restores_trace_bind; [|intros n0; apply restores_trace_ret]);
      apply restores_trace_pure; intros c; unfold lookup_node;
      now destruct (dict_get _ _). }
  intros [selected_node|].
  - apply restores_trace_bind; [apply call_restores|]. intros res_obj.
    destruct (String.eqb function "validate"); [|apply restores_trace_ret].
    destruct (Meta.choice_type selected_node) as [choice_type|];
      [|apply restores_trace_ret].
    destruct (match type_of_dict obj with Some t => _ | None => false end);
      [apply restores_trace_programming_error|].
    destruct res_obj as [| | | | | |d]; try apply restores_trace_raise.
    destruct (dict_get d "type") as [t|]; [|apply restores_trace_ret].
    apply restores_trace_bind.
    { apply restores_trace_pure. intros c.
      apply (mapM_get_choice_type_state (fun n : Node => n)). }
    intros types. destruct (negb _);
      [apply restores_trace_programming_error | apply restores_trace_ret].
  - destruct (negb _); [apply restores_trace_programming_error|].
    intros c a c' Hc H. apply bind_Ok_inv in H as (successes & c1 & Ht & H).
    apply (try_candidates_apart _ _ _ (trace_of c) _ _ _ _ Hc eq_refl) in Ht
      as (_ & _ & Hs); [|intros s []].
    specialize (Hs _ eq_refl).
    destruct successes as [|[[candidate_node res_obj] copy] [|s2 more]].
    + apply bind_Ok_inv in H as (types & c2 & _ & H). discriminate.
    + apply bind_Ok_inv in H as (choice_type & c2 & H1 & H).
      unfold get_choice_type in H1.
      destruct (Meta.choice_type candidate_node); [|discriminate].
      injection H1 as <- <-.
      apply bind_Ok_inv in H as (res' & c3 & H2 & H).
      unfold stamp_type in H2. destruct res_obj; try discriminate.
      injection H2 as <- <-.
      unfold bind, set_stack_objects, ret in H. injection H as <- <-.
      apply (Hs (candidate_node, VDict d, copy)). now left.
    + apply bind_Ok_inv in H as (types & c2 & _ & H). discriminate.
Qed.

End ExecuteRestores.

Lemma Node_call_restores_trace fuel :
  forall cls function obj kwargs,
    restores_trace (Node_call R fuel cls function obj kwargs).
Proof.
  induction fuel as [|fuel IH]; intros cls function obj kwargs; cbn [Node_call].
  - apply restores_trace_raise.
  - destruct (String.eqb function "validate"); [|apply restores_trace_raise].
    apply Node_validate_restores_trace. intros f o k v ch.
    apply execute_function_on_node_restores_trace; [|exact IH].
    apply Node_call_writes_only_trace.
Qed.

End NodeRestores.


Lemma initial_context_kept_apart : trace_kept_apart initial_context.
Proof.
  exists [("node_trace", 0%nat); ("current_object", 1%nat); ("immutable_fields", 2%nat)],
         0%nat, 2%nat, [], (VList []).
  repeat split; try reflexivity; try discriminate.
  repeat constructor; rewrite list_elem_of_In; simpl; intuition discriminate.
Qed.


(** ** The constructors of the primitive fields *)

Lemma Integer_helper_Ok min max val :
  (exists res, Integer_helper min max val = Ok res) <->
  exists z, int_value val = Some z /\ within min max z.
Proof.
  unfold Integer_helper, check_int_bounds, within.
  destruct (int_value val) as [z|]; [|split; [intros [? [=]]|intros (? & [=] & _)]].
  split.
  - intros [res H]. exists z. split; [reflexivity|].
    destruct min as [m|], max as [x|]; simpl in *;
      repeat match type of H with
             | context [if ?b then _ else _] => destruct b eqn:?
             end; try discriminate; split; auto; lia.
  - intros (z' & [= <-] & Hlo & Hhi).
    destruct min as [m|], max as [x|]; simpl in *;
      repeat match goal with
             | |- context [if ?b then _ else _] => destruct b eqn:?
             end; eauto; lia.
Qed.

Lemma Integer_validate_Ok execute a min max val kwargs allow_null c :
  (exists res, (Field_validate execute (mkField a (FInteger min max)) val kwargs
                  allow_null c).1 = Ok res) <->
  (val = VNone
   /\ match allow_null with Some b => b | None => null a end = true
   /\ validation_accepts_nulls a = false)
  \/ exists z, int_value val = Some z /\ within min max z.
Proof.
  cbn [Field_validate helper_for_validation]. unfold Field_validate_wrapper.
  destruct val as [| | | | | |];
    try (cbn [is_None]; unfold lift;
         split;
         [intros [res H]; right; apply Integer_helper_Ok;
          destruct (Integer_helper min max _) eqn:E; [eauto|discriminate]
         |intros [(? & _)|Hz]; [discriminate|];
          apply Integer_helper_Ok in Hz as [res ->]; eauto]).
  cbn [is_None].
  destruct (match allow_null with Some b => b | None => null a end); cbn [negb].
  - destruct (validation_accepts_nulls a).
    + split; [intros [res H]; discriminate|].
      intros [(_ & _ & [=])|(z & [=] & _)].
    + split; [intros _; now left | intros _; eexists; reflexivity].
  - split; [intros [res H]; discriminate|].
    intros [(_ & [=] & _)|(z & [=] & _)].
Qed.

Lemma Integer_validate_Raise execute a min max val kwargs allow_null c e :
  (Field_validate execute (mkField a (FInteger min max)) val kwargs allow_null c).1
  = Raise e ->
  exists m, e = InvalidParamsException m.
Proof.
  cbn [Field_validate helper_for_validation]. unfold Field_validate_wrapper.
  assert (Hh : forall v, (lift (Integer_helper min max v) c).1 = Raise e ->
                         exists m, e = InvalidParamsException m).
  { intros v. unfold Integer_helper, check_int_bounds.
    destruct (int_value v) as [z|]; [|intros [= <-]; eauto].
    repeat match goal with
           | |- context [if ?b then _ else _] => destruct b
           end; intros [= <-]; eauto. }
  destruct (is_None val); [|apply Hh].
  destruct (negb _); [intros [= <-]; eauto|].
  destruct (validation_accepts_nulls a); [apply Hh | discriminate].
Qed.


Lemma Field_init_Ok execute kind a n f n' :
  Field_init execute kind a n = (Ok f, n') ->
  f = mkField (with_order_of_creation a n) kind
  /\ (required a = false ->
      exists r, (Field_validate execute f (default a) (Some []) None
                   default_check_context).1 = Ok r).
Proof.
  unfold Field_init. destruct (required a); cbn [negb].
  - intros [= <- <-]. split; [reflexivity | discriminate].
  - destruct (Field_validate _ _ _ _ _ _).1 as [r|e] eqn:E; [|discriminate].
    intros [= <- <-]. split; [reflexivity|]. intros _. eauto.
Qed.

(** A kind whose helper is a check that hands back the value: a default
    that the constructor accepted is validated to itself, anywhere. *)
Lemma checked_default_is_canonical a kind (check : pyvalue -> result pyvalue) :
  (forall execute val kwargs,
     helper_for_validation execute kind val kwargs = lift (check val)) ->
  (forall val r, check val = Ok r -> r = val) ->
  forall execute0 kwargs0 c0,
    (exists r, (Field_validate execute0 (mkField a kind) (default a) kwargs0 None c0).1
               = Ok r) ->
    default_is_canonical (mkField a kind).
Proof.
  intros Hhelper Hcheck execute0 kwargs0 c0 [r Hr] execute kwargs c Hc.
  exists c. split; [|split; [reflexivity | apply Hc]].
  cbn [attrs_of Field_validate] in *. unfold Field_validate_wrapper in *.
  rewrite Hhelper in *.
  assert (Hlift : forall v, (lift (check v) c0).1 = Ok r ->
                            lift (check v) c = (Ok v, c)).
  { intros v. unfold lift. destruct (check v) as [r'|e] eqn:E; [|discriminate].
    apply Hcheck in E. now subst r'. }
  destruct (is_None (default a)) eqn:Hnone; [|now apply Hlift].
  destruct (negb (null a)); [discriminate|].
  destruct (validation_accepts_nulls a); [now apply Hlift|].
  destruct (default a); try discriminate. reflexivity.
Qed.

(** X30. A field that the constructor of Integer, Float, Boolean or String
    returned and that is not required has a default that validates to
    itself, in any context and whatever the kwargs: the default that
    [Node.validate] fills in for a missing entry is accepted unchanged when
    the result is validated again. *)
Theorem constructed_default_is_canonical :
  forall f : Field,
    constructed_primitive f ->
    required (attrs_of f) = false ->
    default_is_canonical f.
Proof.
  intros f Hf Hreq.
  assert (Hinit : forall kind a n n' (check : pyvalue -> result pyvalue),
            Field_init (fun _ _ _ _ _ => raise (PyError "TypeError")) kind a n
            = (Ok f, n') ->
            (forall execute val kwargs,
               helper_for_validation execute kind val kwargs = lift (check val)) ->
            (forall val r, check val = Ok r -> r = val) ->
            default_is_canonical f).
  { intros kind a n n' check H Hhelper Hcheck.
    apply Field_init_Ok in H as [-> Hd]. cbn [attrs_of] in Hreq.
    eapply (checked_default_is_canonical _ _ check Hhelper Hcheck).
    apply Hd. exact Hreq. }
  destruct Hf as [min max a n f n' H|min max a n f n' H|a n f n' H
                 |min_length max_length a n f n' H].
  - unfold Integer_init in H.
    destruct (Field_init _ (FInteger min max) a n) as [[self|e] counter] eqn:E;
      [|discriminate].
    assert (f = self) as ->.
    { repeat match type of H with
             | context [match ?x with _ => _ end] => destruct x
             end; congruence. }
    apply (Hinit _ _ _ _ (Integer_helper min max) E); [reflexivity|].
    intros val r Hr. now apply Integer_helper_val in Hr.
  - unfold Float_init in H.
    destruct (Field_init _ (FFloat min max) a n) as [[self|e] counter] eqn:E;
      [|discriminate].
    assert (f = self) as ->.
    { repeat match type of H with
             | context [match ?x with _ => _ end] => destruct x
             end; congruence. }
    apply (Hinit _ _ _ _ (Float_helper min max) E); [reflexivity|].
    intros val r Hr. now apply Float_helper_val in Hr.
  - apply (Hinit _ _ _ _ Boolean_helper H); [reflexivity|].
    intros val r Hr. now apply Boolean_helper_val in Hr.
  - apply (Hinit _ _ _ _
             (fun val => match String_helper
                                 {| min_length := min_length; max_length := max_length;
                                    subclass := PlainString |} val with
                         | Ok s => Ok (VStr s)
                         | Raise e => Raise e
                         end) H).
    + intros execute val kwargs. cbn [helper_for_validation].
      unfold StringSpec_helper. cbn [subclass].
      now destruct (String_helper _ val).
    + intros val r Hr. destruct (String_helper _ val) as [s|e] eqn:E; [|discriminate].
      injection Hr as <-. apply String_helper_val in E. now subst.
Qed.

Lemma constructed_default_is_canonical_witness :
  exists f,
    (Integer_init (Some 0) (Some 10)
       {| null := false; default := VInt 5; dont_auto_validate := false;
          derived_field := false; dont_print_default := false;
          validation_accepts_nulls := false; help := "TODO";
          order_of_creation := 0 |} 3).1 = Ok f
    /\ default_is_canonical f.
Proof.
  destruct (Integer_init (Some 0) (Some 10)
              {| null := false; default := VInt 5; dont_auto_validate := false;
                 derived_field := false; dont_print_default := false;
                 validation_accepts_nulls := false; help := "TODO";
                 order_of_creation := 0 |} 3) as [r n'] eqn:E.
  assert (r = Ok (mkField
                    {| null := false; default := VInt 5; dont_auto_validate := false;
                       derived_field := false; dont_print_default := false;
                       validation_accepts_nulls := false; help := "TODO";
                       order_of_creation := 3 |} (FInteger (Some 0) (Some 10))))
    by (apply (f_equal fst) in E; vm_compute in E; now subst r).
  subst r. eexists. split; [reflexivity|].
  apply constructed_default_is_canonical; [|reflexivity].
  exact (constructed_Integer _ _ _ _ _ _ E).
Defined.
